(* ===== verification/_CoqProject ===== *)
-Q . S2P
Prelude.v
Define.v
Env.v
Binlog.v
BinlogReader.v
BinlogRoundTrip.v
BinlogOpen.v
Transverter.v
Command.v
SlaveNode.v
Consensus.v
StableLog.v
BinlogWitness.v
Coordinator.v
CoordinatorFacts.v
WriteQueue.v
MasterPartition.v
MasterFacts.v
CoordinatorWitness.v
SlavePartition.v
ReplicaManager.v
ReplicaFacts.v
Geohash.v
Float64.v
GeoCoord.v
InnerMessage.v
Server.v
PikaMeta.v
ServerFacts.v
ReplServer.v
ReplClient.v
ReplWorker.v
Replication.v
FullSync.v
FullSyncFacts.v
ReplicationWitness.v
Resume.v
CmdRes.v
Blackwidow.v
CmdArgs.v
CmdReply.v
ConfState.v
Config.v
ConfigCmd.v
ConfigFacts.v
ConfigReload.v
ConfigTables.v
CmdFamily.v
KvCmd.v
KvFacts.v
HashCmd.v
ListCmd.v
SetsCmd.v
ZsetCmd.v
ZsetPages.v
BitCmd.v
FamilyFacts.v
GeoCmd.v
GeoFacts.v
PikaCmd.v
ClientConn.v
ClientFacts.v
CmdClient.v
PikaFacts.v
PikaWitness.v
ConfigWitness.v
KeyLocks.v
ServerStat.v
DbWorkers.v
ClientWitness.v
SlaveofCmd.v
Table.v
FlushCmd.v
AdminCmd.v
InfoCmd.v
CommandCmd.v
AdminFacts.v
AdminWitness.v
Monitor.v
PubSubCmd.v
