(* ===== verification/Prelude.v ===== *)
(** * Pika: a verification library for the replicated log

    Pika is a Redis-compatible store whose writes go to a segmented binary log
    (the binlog) and are replicated from a master to its slaves from there.  This
    library models that path end to end, from a client's request and the bytes of a
    log file to the replica manager and the slave's database, and proves what makes
    it correct.  Storage engine, network,
    protobuf serialisation and the file system are separate libraries: they are
    parameters (type classes and section variables) whose documented behaviour is
    stated as laws, each with a concrete instance that satisfies them.

    ** Parts and files

    - [Prelude]: status values, error and state monads, little-endian images,
      lists and windows of machine integers, tactics and hints.
    - [Define] (include/pika_define.h): offsets and their orders, partition and
      node identities, replication states, binlog format constants.
    - [Env]: the interface to the file system and byte coding ([SlashEnv],
      [FixedCoding], [StringNum]) with their laws and an in-memory instance.
    - [Binlog] (pika_binlog.cc/.h): the log writer: manifest ([Version]), opening,
      [Put] with roll-over and block-structured [Produce], padding,
      [SetProducerStatus], [Truncate].
    - [BinlogReader] (pika_binlog_reader.cc/.h): [Seek], [GetNext], [Consume],
      [Get].
    - [BinlogRoundTrip], [BinlogOpen], [BinlogWitness]: what is put is read back;
      reopening; concrete instances.
    - [Transverter] (pika_binlog_transverter.cc/.h): the item header, padding
      items, request protocol text.
    - [Command] (pika_command.cc): the interface [CmdOps] of what a command
      promises to the log.
    - [SlaveNode] (pika_slave_node.cc/.h): the window of unacknowledged items and
      the state of one slave on the master.
    - [Consensus] (pika_consensus.cc/.h, first half):
      [Context], [SyncProgress], [MemLog].
    - [StableLog] (pika_stable_log.cc/.h): the set of log
      files, purging and truncation.
    - [Coordinator], [CoordinatorFacts], [CoordinatorWitness] (pika_consensus.cc,
      second half): proposing, acknowledging, committing, recovery, negotiation.
    - [WriteQueue] (pika_rm.cc): the queues of chips for each host.
    - [MasterPartition], [MasterFacts] (pika_rm.cc): the master
      side of a partition: feeding slaves from the log, keep-alive, purge bounds.
    - [SlavePartition] (pika_rm.cc): the slave side, a state machine.
    - [ReplicaManager], [ReplicaFacts] (pika_rm.cc/.h): the partition maps and
      what runs over all of them.
    - [InnerMessage] (pika_inner_message.proto): the messages between master and
      slave, as records.
    - [Server], [ServerFacts] (pika_server.cc): role, replication
      state, the registry of slaves and meta sync.
    - [ReplServer] (pika_repl_server*.cc): the master's handlers of requests and
      its responses.
    - [ReplClient], [ReplWorker] (pika_repl_client*.cc, pika_repl_bgworker.cc): the
      slave's requests, its handlers of responses, and the worker that appends the
      binlog it receives.
    - [Replication], [ReplicationWitness], [Resume]: both sides composed: a master
      and a slave with a wire between them, refined to a channel; resuming.
    - [FullSync], [FullSyncFacts] (pika_partition.cc,
      pika_server.cc, pika_rm.cc, pika_auxiliary_thread.cc): saving, sending and
      installing a snapshot, and the slave's state machine around it.
    - [Geohash] (pika_geohash.cc, pika_geo.cc): the integer part of geohash and
      the search over nine cells; [Float64]: the type [double], on the Standard
      Library's specification of IEEE numbers; [GeoCoord] (pika_geohash.cc,
      pika_geohash_helper.cc): coordinates, distances and the cells around a circle.
    - [CmdRes] (pika_command.h): flags of commands, results and their texts.
    - [Blackwidow]: the interface of the storage engine, a class per data type.
    - [CmdArgs], [CmdReply] (pika_command.cc, pika_command.h): what the commands'
      [DoInitial]s have in common, the entries of the command table, the replies
      that several commands share, and the lemmas about them.
    - [CmdFamily]: what a family of commands promises to the dispatcher and the log
      (its part of the table, arguments, replies, that it ends, what it leaves as it
      was, its text in the log), as classes, and that a sum of families keeps it.
    - [KvCmd], [KvFacts] (pika_kv.cc/.h), [HashCmd] (pika_hash.cc/.h), [ListCmd]
      (pika_list.cc/.h), [SetsCmd] (pika_set.cc/.h), [ZsetCmd], [ZsetPages]
      (pika_zset.cc/.h), [BitCmd] (pika_bit.cc/.h, pika_hyperloglog.cc/.h),
      [GeoCmd], [GeoFacts] (pika_geo.cc/.h): the families: a constructor per command class, per command [X_DoInitial]
      (arguments), [X_Do] (execution and reply) and, where it is not the request
      itself, [X_ToBinlog] (its text in the log), and the section of the command
      table; [FamilyFacts]: what they keep of the promises.
    - [PikaCmd], [PikaFacts] (the table of pika_command.cc): the sum of the families
      and what holds of every command; [PikaWitness]: on a small engine.
    - [ClientConn], [ClientFacts], [CmdClient], [ClientWitness]
      (pika_client_conn.cc, pika_command.cc, pika_consensus.cc): a client's requests,
      from the lookup of the command to the reply; the commands of a family as an
      instance of what the client and the log ask of commands.
    - [PikaMeta] (pika_meta.cc): the file with the tables; [ConfState], [Config]
      (pika_conf.cc/.h): the settings, loading them with defaults and limits, changing
      them, writing them back, and the tables; [ConfigCmd] (pika_admin.cc): CONFIG;
      [ConfigFacts], [ConfigReload], [ConfigTables],
      [ConfigWitness]: limits, what CONFIG SET changes, and what survives a restart.
    - [ServerStat] (pika_server.cc,
      pika_statistic.cc, pika_client_conn.cc): the slow log, the counters, timed
      compactions and the deletion of old dumps.
    - [Table] (pika_table.cc, pika_partition.cc, pika_server.cc): the
      tables of the server, their partitions, and the counting of keys.
    - [SlaveofCmd] (pika_admin.cc, pika_server.cc): SLAVEOF and
      DBSLAVEOF on the state of [Server], and the master that a server takes from the
      configuration when it starts.  [FlushCmd] (pika_admin.cc, pika_command.cc,
      pika_partition.cc): FLUSHDB and FLUSHALL on the partitions of [ClientConn].
      [AdminCmd] (pika_admin.cc/.h): the other administration commands, on the
      connection and the tables; [InfoCmd]: the texts of INFO; [CommandCmd]: COMMAND and
      how its table differs from the command table;
      [AdminFacts], [AdminWitness]: passwords, table names, key counts, replies.
    - [KeyLocks] (pika_command.cc): commands of several threads
      under the record locks, as a step relation, and snapshots among them.  [DbWorkers] (pika_repl_client.cc,
      pika_repl_bgworker.cc): the slave's workers that run the commands of the log.
    - [Monitor] (pika_monitor_thread.cc, pika_dispatch_thread.cc): the thread that copies
      commands to the clients that asked for them, among the others; who may connect.
    - [PubSubCmd] (pika_pubsub.cc/.h): publish and subscribe, around the interface of the
      thread that keeps the subscriptions.

    ** How state and effects are modelled

    Machine integers are [Z] with their wrap-around written out ([u32], [u64],
    [s32], [s64]); file contents are lists of bytes; maps are [gmap]s.  The order in
    which a C++ unordered map is iterated is unspecified; the model uses the order
    of [map_to_list], and no theorem depends on which order that is, unless it says
    so.  Operations that change an object take it and return it; [option] is the
    result of code that can abort (a failed assertion, a null dereference), and of
    loops that run out of fuel.  Mutexes are not modelled: every operation is atomic,
    as under its mutex; the record locks of keys are, in [KeyLocks].  Work handed to
    other threads is recorded, in order, as
    events.  Clocks are arguments.  The monitor thread's sections under its mutex are steps
    ([Monitor]), and so are the tasks of the database workers ([DbWorkers]).

    ** Fuel

    [Produce] consumes at least one byte of the item with every fragment but the
    first, which may fill up a block tail: [2 + length item] turns are enough, and
    [Put_returns] proves it.  [Seek] needs at most one turn per byte of the offset
    in its block.  [Get] takes its fuel as arguments: the files it may pass
    ([gfuel]) and the records of one item ([cfuel]); the theorems give the amount or
    hold for every amount that is large enough.  KEYS and HGETALL take theirs from
    [ReplyLimits]: [scan_ends] and [hscan_ends] say when it is enough, that the
    engine's scan comes to its end.  The radius of a geo search is doubled at most
    1200 times ([steps_fuel]); [estimate_steps] proves that this is enough for every
    radius that is not negative.  Loops over finite collections need
    none.

    ** What the theorems show

    - Round trips: an item that is put is read back with the offset the writer
      reported ([binlog_put_get]); a log that is closed and opened again is the
      same log ([Binlog_reopen]); items encode and decode
      ([BinlogDecode_BinlogEncode]); the persistent context restores.
    - The log stays well formed under [SetProducerStatus] and [Truncate], [Put]
      returns, seeking stops at record boundaries.
    - The coordinator keeps binlog and memory log consistent, applies entries in
      order and once, advances the committed index only on a quorum and never
      backwards; negotiation answers with offsets that are in the log.
    - The sync window accepts exactly what was sent, acknowledges prefixes, and a
      slave's acknowledged offset never goes back.
    - The replica manager feeds a slave every item of the log exactly once and in
      order, sends batches in order and within the packet limit, does not purge
      files a slave still reads, and forgets a lost connection everywhere.
    - Replication as a whole refines a channel that delivers the master's items in
      order ([replication_refines_channel]), and what is sent arrives
      ([wire_arrives]).  A slave is granted only offsets at which the master's log
      has an item ([TrySync_grants_boundaries]); a full sync installs the snapshot
      and its offset ([full_sync_installs]) or says it failed.
    - Of every command of the table ([PikaFacts]): arguments are read within bounds,
      but for an overflow and a COUNT that is no number ([DoInitial_undefined]); every reply is a well-formed
      reply of the protocol ([reply_well_formed]); it ends ([commands_return]); it
      leaves the database as it is if it is no write command
      ([reads_keep_database]); and its item in the log makes a slave do what the
      master did ([log_replays], [item_replayable], [expiry_same_database]).  Where
      that fails is proved as well ([huge_limit_undefined], [far_expiry_wraps],
      [msetnx_unlocked], [append_failure_freezes], [store_not_logged],
      [negative_radius_hangs], [flush_logged]).  The options of SET and LIMIT
      mean what they say ([set_options_spec], [limit_is_page]).
    - A configuration that is loaded is within its limits ([Load_within_limits]); CONFIG
      SET changes what it names or nothing ([ConfigSet_spec]) and keeps some of the limits
      ([ConfigSet_limits], and [ConfigSet_wraps] for those it does not keep); what is
      rewritten is loaded again ([rewrite_reload]), and so are the tables
      ([table_changes_saved]).
    - SLAVEOF leads to the beginning of a connection to the master it names, or to a
      server without a master, whatever the state before ([slaveof_spec]); the
      configuration it leaves leads a new server there again ([slaveof_restart]); what
      DBSLAVEOF does in each state is [dbslaveof_spec].
    - The slow log is a bounded part of a history ([slowlog_is_history]); compactions
      start when their time says ([AutoCompactRange_spec]); DBSIZE answers what the last
      good scan found ([dbsize_reported]); the rights of a connection are those of its
      last password ([auth_rights]); names of tables that cannot exist end the process
      ([bad_table_aborts]); every administration command answers with a well-formed reply
      ([admin_reply]).
    - Commands run by many threads under the record locks leave a log that gives
      the database ([log_gives_database]); the workers of a slave that run this log in
      parallel end with the same database ([slave_equals_master]), if every command has
      no other key than the one that chooses its worker.  MSET has others, and its slave
      can end with another database ([mset_reordered]).  A slave that starts from a
      snapshot that was taken while commands ran gets the master's database too
      ([snapshot_gives_database]), if the commands that were between the database and the
      log may be run twice; APPEND may not ([snapshot_runs_twice]).
    - The monitor thread loses and reorders no message, whatever the other threads do
      between its sections ([monitor_stream]); the answers to subscriptions are
      well-formed replies, one for each channel ([subscription_replies]), and after every
      of these commands the connection is in the place of its mode ([served_settled]).

    ** Not modelled

    The storage engine, sockets and threads, protobuf serialisation, the syntax of
    the configuration file, cluster and sharding mode (compiled out in this tree:
    [classic_mode] is constantly true), the sections of INFO that print values of
    other libraries, the rsync process, the proxy, and the C library's sine, cosine, arcsine and formatting of
    numbers.  With the consensus
    level fixed to 0 some paths of the coordinator are dead in this tree; they are
    modelled all the same. *)

From stdpp Require Import base list strings pretty gmap sorting.
From Stdlib Require Import ZArith Lia.
From Stdlib Require Import Init.Byte.

Declare Scope pika_scope.
Delimit Scope pika_scope with pika.
#[global] Open Scope pika_scope.
#[global] Open Scope Z_scope.

(** ** Status values (the results of fallible calls) *)

Inductive Status :=
  | OK
  | NotFound (msg : string)
  | Corruption (msg : string)
  | IOError (msg : string)
  | EndFile (msg : string)
  | Incomplete (msg : string)
  | Busy (msg : string).

#[export] Instance Status_eq_dec : EqDecision Status.
Proof. solve_decision. Defined.

Definition ok (s : Status) : bool := match s with OK => true | _ => false end.
Definition IsNotFound (s : Status) : bool := match s with NotFound _ => true | _ => false end.
Definition IsCorruption (s : Status) : bool := match s with Corruption _ => true | _ => false end.
Definition IsIOError (s : Status) : bool := match s with IOError _ => true | _ => false end.
Definition IsEndFile (s : Status) : bool := match s with EndFile _ => true | _ => false end.

Lemma ok_true s : ok s = true ↔ s = OK.
Proof. by destruct s. Qed.

(** ** The state monad with abortion

    [M S A]: a computation on a state [S] that returns an [A], or aborts the
    process ([None]: a failed [assert], a [LOG(FATAL)], a null dereference). *)

Definition M (S A : Type) : Type := S → option (A * S).

Definition ret {S A} (a : A) : M S A := λ s, Some (a, s).
Definition bind {S A B} (m : M S A) (k : A → M S B) : M S B :=
  λ s, match m s with Some (a, s') => k a s' | None => None end.
Definition abort {S A} : M S A := λ _, None.
Definition get {S} : M S S := λ s, Some (s, s).
Definition put {S} (s : S) : M S unit := λ _, Some (tt, s).
Definition modify {S} (f : S → S) : M S unit := λ s, Some (tt, f s).
Definition gets {S A} (f : S → A) : M S A := λ s, Some (f s, s).
Definition massert {S} (b : bool) : M S unit := if b then ret tt else abort.

(** Run a computation on a component of the state. *)
Definition zoom {S T A} (g : S → T) (p : T → S → S) (m : M T A) : M S A :=
  λ s, match m (g s) with Some (a, t) => Some (a, p t s) | None => None end.

Notation "'let*' x ':=' m 'in' k" := (bind m (λ x, k))
  (at level 10, x pattern, m at level 100, k at level 200) : pika_scope.
Notation "m ';;;' k" := (bind m (λ _, k))
  (at level 100, k at level 200, right associativity) : pika_scope.

(** [m] does not change the component [g] of the state. *)
Class Keeps {S A T : Type} (g : S → T) (m : M S A) : Prop :=
  keeps s a s' : m s = Some (a, s') → g s' = g s.

Section Keeps.
Context {S A B T : Type} (g : S → T).

#[export] Instance Keeps_ret (a : A) : Keeps g (ret a).
Proof. intros s a' s' [= _ <-]. done. Qed.
#[export] Instance Keeps_get : Keeps g get.
Proof. intros s a' s' [= _ <-]. done. Qed.
#[export] Instance Keeps_gets (f : S → A) : Keeps g (gets f).
Proof. intros s a' s' [= _ <-]. done. Qed.
#[export] Instance Keeps_abort : Keeps g (abort (A := A)).
Proof. done. Qed.
#[export] Instance Keeps_massert b : Keeps g (massert b).
Proof. destruct b; [by intros s a s' [= _ <-]|done]. Qed.
#[export] Instance Keeps_bind (m : M S A) (k : A → M S B) :
  Keeps g m → (∀ a, Keeps g (k a)) → Keeps g (bind m k).
Proof.
  intros Hm Hk s b s'. unfold bind. destruct (m s) as [[a s1]|] eqn:E; [|done].
  intros H%Hk. by rewrite H, (Hm _ _ _ E).
Qed.
End Keeps.

Lemma run_bind {S A B} (m : M S A) (k : A → M S B) s r :
  bind m k s = Some r ↔ ∃ a s1, m s = Some (a, s1) ∧ k a s1 = Some r.
Proof.
  unfold bind. destruct (m s) as [[a s1]|]; split.
  - by exists a, s1.
  - by intros (a' & s1' & [= -> ->] & H).
  - done.
  - by intros (a' & s1' & H & _).
Qed.

(** ** Machine integers *)

Definition u32 (z : Z) : Z := z mod 2 ^ 32.
Definition u64 (z : Z) : Z := z mod 2 ^ 64.
(** Conversion to a 32-bit signed [int]. *)
Definition s32 (z : Z) : Z := (z + 2 ^ 31) mod 2 ^ 32 - 2 ^ 31.
Definition s64 (z : Z) : Z := (z + 2 ^ 63) mod 2 ^ 64 - 2 ^ 63.

Lemma u32_small z : 0 ≤ z < 2 ^ 32 → u32 z = z.
Proof. apply Z.mod_small. Qed.
Lemma u64_small z : 0 ≤ z < 2 ^ 64 → u64 z = z.
Proof. apply Z.mod_small. Qed.
Lemma s32_small z : - 2 ^ 31 ≤ z < 2 ^ 31 → s32 z = z.
Proof. intros. unfold s32. rewrite Z.mod_small; lia. Qed.
Lemma s64_small z : - 2 ^ 63 ≤ z < 2 ^ 63 → s64 z = z.
Proof. intros. unfold s64. rewrite Z.mod_small; lia. Qed.
Lemma u32_range z : 0 ≤ u32 z < 2 ^ 32.
Proof. apply Z.mod_pos_bound. lia. Qed.
Lemma u64_range z : 0 ≤ u64 z < 2 ^ 64.
Proof. apply Z.mod_pos_bound. lia. Qed.

(** ** Bytes *)

Abbreviation bytes := (list byte).

Definition b2z (b : byte) : Z := Z.of_N (Byte.to_N b).
Definition z2b (z : Z) : byte :=
  match Byte.of_N (Z.to_N (z mod 256)) with Some b => b | None => x00 end.

#[export] Instance byte_eq_dec : EqDecision byte := Byte.byte_eq_dec.

Lemma b2z_range b : 0 ≤ b2z b < 256.
Proof. unfold b2z. pose proof (Byte.to_N_bounded b). lia. Qed.

Lemma b2z_z2b z : b2z (z2b z) = z mod 256.
Proof.
  unfold b2z, z2b. assert (0 ≤ z mod 256 < 256) by (apply Z.mod_pos_bound; lia).
  destruct (Byte.of_N (Z.to_N (z mod 256))) as [b|] eqn:E.
  - apply Byte.to_of_N in E. rewrite E. lia.
  - apply Byte.of_N_None_iff in E. lia.
Qed.

Lemma z2b_b2z b : z2b (b2z b) = b.
Proof.
  unfold z2b. rewrite Z.mod_small by apply b2z_range. unfold b2z.
  by rewrite N2Z.id, Byte.of_to_N.
Qed.

(** Little-endian images of integers: what [memcpy] moves on the supported
    hosts. *)
Fixpoint le_bytes (n : nat) (z : Z) : bytes :=
  match n with
  | O => []
  | S n => z2b z :: le_bytes n (z / 256)
  end.

Fixpoint le_val (l : bytes) : Z :=
  match l with
  | [] => 0
  | b :: l => b2z b + 256 * le_val l
  end.

Lemma length_le_bytes n z : length (le_bytes n z) = n.
Proof. revert z; induction n; intros; simpl; auto. Qed.

Lemma le_val_le_bytes n z : le_val (le_bytes n z) = z mod 256 ^ Z.of_nat n.
Proof.
  revert z; induction n as [|n IH]; intros z; simpl le_bytes; simpl le_val.
  - by rewrite Z.mod_1_r.
  - rewrite IH, b2z_z2b, Nat2Z.inj_succ, Z.pow_succ_r by lia.
    symmetry. apply Z.rem_mul_r; lia.
Qed.

Lemma le_val_le_bytes_small n z :
  0 ≤ z < 256 ^ Z.of_nat n → le_val (le_bytes n z) = z.
Proof. intros. rewrite le_val_le_bytes. by apply Z.mod_small. Qed.

Lemma le_val_range l : 0 ≤ le_val l < 256 ^ Z.of_nat (length l).
Proof.
  induction l as [|b l IH]; simpl le_val; [simpl; lia|].
  pose proof (b2z_range b).
  cbn [length]. rewrite Nat2Z.inj_succ, Z.pow_succ_r by lia. lia.
Qed.

Lemma le_bytes_le_val l : le_bytes (length l) (le_val l) = l.
Proof.
  induction l as [|b l IH]; [done|].
  cbn [length le_bytes le_val]. pose proof (b2z_range b). f_equal.
  - unfold z2b. rewrite (Z.mul_comm 256), Z.mod_add by lia.
    change (z2b (b2z b) = b). apply z2b_b2z.
  - rewrite (Z.mul_comm 256), Z.div_add by lia.
    rewrite Z.div_small by lia. by rewrite Z.add_0_l.
Qed.

Arguments le_bytes : simpl never.
Arguments le_val : simpl never.
Arguments z2b : simpl never.
Arguments b2z : simpl never.

(** ** Byte strings indexed by [Z] *)

Definition zlen {A} (l : list A) : Z := Z.of_nat (length l).
Definition ztake {A} (n : Z) (l : list A) : list A := take (Z.to_nat n) l.
Definition zdrop {A} (n : Z) (l : list A) : list A := drop (Z.to_nat n) l.
Definition zrep {A} (n : Z) (a : A) : list A := replicate (Z.to_nat n) a.
(** [slice pos n l]: the [n] elements of [l] from [pos] on. *)
Definition slice {A} (pos n : Z) (l : list A) : list A := ztake n (zdrop pos l).

Section Zlists.
Context {A : Type}.
Implicit Types l k : list A.

Lemma zlen_nonneg l : 0 ≤ zlen l.
Proof. unfold zlen; lia. Qed.
Lemma zlen_nil : zlen (@nil A) = 0.
Proof. done. Qed.
Lemma zlen_cons a l : zlen (a :: l) = 1 + zlen l.
Proof. unfold zlen. cbn [length]. lia. Qed.
Lemma zlen_app l k : zlen (l ++ k) = zlen l + zlen k.
Proof. unfold zlen. rewrite length_app. lia. Qed.
Lemma zlen_ztake n l : 0 ≤ n ≤ zlen l → zlen (ztake n l) = n.
Proof. unfold zlen, ztake. rewrite length_take. lia. Qed.
Lemma zlen_zdrop n l : 0 ≤ n ≤ zlen l → zlen (zdrop n l) = zlen l - n.
Proof. unfold zlen, zdrop. rewrite length_drop. lia. Qed.
Lemma zlen_zrep n (a : A) : 0 ≤ n → zlen (zrep n a) = n.
Proof. unfold zlen, zrep. rewrite length_replicate. lia. Qed.
Lemma zlen_0_nil l : zlen l = 0 → l = [].
Proof. destruct l; [done|]. rewrite zlen_cons. pose proof (zlen_nonneg l). lia. Qed.
Lemma zlen_pos_cons l : l ≠ [] → 0 < zlen l.
Proof. destruct l; [done|]. rewrite zlen_cons. pose proof (zlen_nonneg l). lia. Qed.
Lemma ztake_zdrop n l : ztake n l ++ zdrop n l = l.
Proof. apply take_drop. Qed.
Lemma ztake_all n l : zlen l ≤ n → ztake n l = l.
Proof. unfold zlen, ztake. intros. apply take_ge. lia. Qed.
Lemma zdrop_all n l : zlen l ≤ n → zdrop n l = [].
Proof. unfold zlen, zdrop. intros. apply drop_ge. lia. Qed.
Lemma zdrop_0 l : zdrop 0 l = l.
Proof. done. Qed.

Lemma slice_app l k r : slice (zlen l) (zlen k) (l ++ k ++ r) = k.
Proof.
  unfold slice, ztake, zdrop, zlen. rewrite !Nat2Z.id.
  by rewrite drop_app_length, take_app_length.
Qed.
Lemma slice_app_eq p n l k r :
  p = zlen l → n = zlen k → slice p n (l ++ k ++ r) = k.
Proof. intros -> ->. apply slice_app. Qed.
Lemma slice_app_eq0 n k r : n = zlen k → slice 0 n (k ++ r) = k.
Proof. intros. by apply (slice_app_eq 0 n []). Qed.
End Zlists.

(** ** Proof automation *)

Create HintDb pika.
Create Rewrite HintDb zlen.
#[export] Hint Resolve zlen_nonneg b2z_range : pika.
#[export] Hint Rewrite @zlen_nil @zlen_cons @zlen_app length_le_bytes : zlen.

(** Case analysis on the first [match]/[if] of a monadic hypothesis, closing
    the aborting branches. *)
Ltac minv H :=
  unfold bind, ret, abort, get, put, modify, gets, massert in H;
  repeat (simpl in H;
    match type of H with
    | None = Some _ => discriminate H
    | Some _ = Some _ => injection H as H; subst
    | (match ?x with _ => _ end) = Some _ => destruct x eqn:?; try discriminate H
    end).

(** Reduce [zlen] of concatenations, then arithmetic. *)
Ltac zl := autorewrite with zlen in *; try lia.

(** ** Arithmetic shared by the components *)

Lemma s32_s32_add a b : s32 (s32 a + b) = s32 (a + b).
Proof.
  unfold s32. f_equal.
  replace ((a + 2 ^ 31) mod 2 ^ 32 - 2 ^ 31 + b + 2 ^ 31)
    with ((a + 2 ^ 31) mod 2 ^ 32 + b) by lia.
  rewrite Zplus_mod_idemp_l. f_equal. lia.
Qed.

Lemma s32_idemp a : s32 (s32 a) = s32 a.
Proof. pose proof (s32_s32_add a 0) as H. by rewrite !Z.add_0_r in H. Qed.

(** Two's complement: disjoint bit fields add up. *)
Lemma lor_shiftl_add a b k :
  0 ≤ k → 0 ≤ a < 2 ^ k → Z.lor a (Z.shiftl b k) = a + b * 2 ^ k.
Proof.
  intros Hk Ha. assert (Z.land a (Z.shiftl b k) = 0) as Hd.
  { apply Z.bits_inj'. intros n Hn. rewrite Z.land_spec, Z.bits_0.
    destruct (Z.ltb_spec n k).
    - rewrite (Z.shiftl_spec_low b k n) by lia. apply andb_false_r.
    - destruct (Z.eq_dec a 0) as [->|]; [by rewrite Z.testbit_0_l|].
      rewrite (Z.bits_above_log2 a n); [done|lia|].
      apply Z.log2_lt_pow2; [lia|]. apply Z.lt_le_trans with (2 ^ k); [lia|].
      apply Z.pow_le_mono_r; lia. }
  rewrite <- Z.lxor_lor, <- Z.add_nocarry_lxor, Z.shiftl_mul_pow2 by done. done.
Qed.

(** ** Decimal texts *)

#[local] Open Scope string_scope.
#[local] Open Scope Z_scope.

(** A literal as the bytes of a [std::string]. *)
Definition str (s : string) : bytes := String.list_byte_of_string s.

Lemma length_append s t : String.length (s +:+ t) = (String.length s + String.length t)%nat.
Proof.
  induction s as [|c s IH]; [done|].
  change (S (String.length (s +:+ t)) = S (String.length s + String.length t)).
  by rewrite IH.
Qed.

(** The character [c] does not occur in [s]. *)
Fixpoint lacks (c : Ascii.ascii) (s : string) : bool :=
  match s with
  | EmptyString => true
  | String d s => negb (bool_decide (d = c)) && lacks c s
  end.

Lemma lacks_app c s t : lacks c (s +:+ t) = lacks c s && lacks c t.
Proof.
  induction s as [|d s IH]; [done|].
  change (negb (bool_decide (d = c)) && lacks c (s +:+ t)
    = negb (bool_decide (d = c)) && lacks c s && lacks c t).
  by rewrite IH, andb_assoc.
Qed.

(** [c] is neither a digit nor the minus sign. *)
Definition not_digit (c : Ascii.ascii) : Prop := lacks c "0123456789-" = true.

Lemma lacks_pretty_go c x s :
  lacks c "0123456789" = true → lacks c s = true → lacks c (pretty_N_go x s) = true.
Proof.
  intros Hc. revert s. induction (N.lt_wf_0 x) as [x _ IH]; intros s Hs.
  destruct (decide (x = 0)%N) as [->|Hx]; [by rewrite pretty_N_go_0|].
  rewrite pretty_N_go_step by lia. apply IH.
  - apply N.div_lt; lia.
  - cbn [lacks]. rewrite Hs, andb_true_r. cbn in Hc.
    repeat (apply andb_true_iff in Hc as [? Hc]). unfold pretty_N_char. repeat case_match; done.
Qed.

Lemma lacks_pretty c (z : Z) : not_digit c → lacks c (pretty z) = true.
Proof.
  intros Hc. assert (∀ n : positive, lacks c (pretty (N.pos n)) = true) as H.
  { intros n. unfold pretty, pretty_N. rewrite decide_False by done. apply lacks_pretty_go; [|done].
    unfold not_digit in Hc. cbn in Hc |- *. by repeat (apply andb_true_iff in Hc as [-> Hc]). }
  unfold not_digit in Hc. cbn in Hc. destruct z as [|n|n].
  - cbn. by repeat (apply andb_true_iff in Hc as [-> Hc]).
  - apply H.
  - change (pretty (Z.neg n)) with (String (Ascii.ascii_of_nat 45) (pretty (N.pos n))). cbn [lacks]. rewrite H, andb_true_r.
    by repeat (apply andb_true_iff in Hc as [? Hc]).
Qed.

Lemma pretty_N_go_length k x s :
  (x < 10 ^ N.of_nat k)%N → (String.length (pretty_N_go x s) ≤ k + String.length s)%nat.
Proof.
  revert x s; induction k as [|k IH]; intros x s Hx.
  - assert (x = 0%N) as -> by (cbn in Hx; lia). by rewrite pretty_N_go_0.
  - destruct (decide (x = 0)%N) as [->|Hz]; [rewrite pretty_N_go_0; lia|].
    rewrite pretty_N_go_step by lia. etrans; [apply IH|cbn; lia].
    apply N.Div0.div_lt_upper_bound.
    rewrite Nat2N.inj_succ, N.pow_succ_r' in Hx. lia.
Qed.

(** A number below [10 ^ k] has at most [k] digits. *)
Lemma pretty_Z_length k z :
  (1 ≤ k)%nat → 0 ≤ z < 10 ^ Z.of_nat k → (String.length (pretty z) ≤ k)%nat.
Proof.
  intros Hk Hz. destruct z as [|p|p]; [cbn; lia| |lia].
  change (pretty (Z.pos p)) with (pretty (N.pos p)). unfold pretty, pretty_N.
  rewrite decide_False by done. etrans; [apply (pretty_N_go_length k)|cbn; lia].
  apply N2Z.inj_lt. rewrite N2Z.inj_pow, nat_N_Z. apply Hz.
Qed.

Lemma length_str s : length (str s) = String.length s.
Proof.
  unfold str. rewrite <- (String.string_of_list_byte_of_string s) at 2.
  generalize (String.list_byte_of_string s) as l. induction l as [|b l IH]; [done|].
  cbn [length]. rewrite IH. done.
Qed.
