(* ===== verification/Define.v ===== *)
(** * Shared definitions (include/pika_define.h)

    Log positions and their orders, partition and node identities, the states
    of the two replication state machines and the constants of the binlog
    format.  [LogOffset] is compared by its binlog half only, and [RmNode] by
    partition and address only: both equalities are coarser than [=], so the
    file gives them as equivalences with [Proper] instances. *)

From S2P Require Import Prelude.
From stdpp Require Import base list strings pretty gmap sorting.
From Stdlib Require Import ZArith Lia Ascii String.
#[local] Open Scope string_scope.
#[local] Open Scope Z_scope.

(** ** Constants *)

Definition PIKA_MAX_CONN_RBUF_HB : Z := Z.shiftl 1 29.
Definition PIKA_META_SYNC_MAX_WAIT_TIME : Z := 10.
Definition kPortShiftRSync : Z := 1000.
Definition kPortShiftReplServer : Z := 2000.
Definition kMaxDbNum : nat := 8.
Definition kBlockSize : Z := 64 * 1024.
Definition kHeaderSize : Z := 1 + 3 + 4.
Definition kBinlogPrefix : string := "write2file".
Definition kBinlogPrefixLen : nat := 10.
Definition kManifest : string := "manifest".
Definition kContext : string := "context".
Definition PIKA_ROLE_SINGLE : Z := 0.
Definition PIKA_ROLE_SLAVE : Z := 1.
Definition PIKA_ROLE_MASTER : Z := 2.

(** [enum RecordType], as the integers stored in record headers. *)
Definition kZeroType : Z := 0.
Definition kFullType : Z := 1.
Definition kFirstType : Z := 2.
Definition kMiddleType : Z := 3.
Definition kLastType : Z := 4.
Definition kEof : Z := 5.
Definition kBadRecord : Z := 6.
Definition kOldRecord : Z := 7.

(** [DbIdxFromStr]: the index of a table named ["db0"] .. ["db7"]; [None] is
    a failed [assert]. *)
Definition DbIdxFromStr (s : string) : option nat :=
  match s with
  | String "d"%char (String "b"%char (String c EmptyString)) =>
      let v := Ascii.nat_of_ascii c in
      if bool_decide (48 ≤ v ≤ 55)%nat then Some (v - 48)%nat else None
  | _ => None
  end.

(** ** Replication states *)

Inductive ReplState :=
  | kNoConnect | kTryConnect | kTryDBSync | kWaitDBSync
  | kWaitReply | kConnected | kError | kDBNoConnect.

Inductive SlaveState := kSlaveNotSync | kSlaveDbSync | kSlaveBinlogSync.
Inductive BinlogSyncState := kNotSync | kReadFromCache | kReadFromFile.

#[export] Instance ReplState_eq_dec : EqDecision ReplState.
Proof. solve_decision. Defined.
#[export] Instance SlaveState_eq_dec : EqDecision SlaveState.
Proof. solve_decision. Defined.
#[export] Instance BinlogSyncState_eq_dec : EqDecision BinlogSyncState.
Proof. solve_decision. Defined.

Definition ReplStateMsg (s : ReplState) : string :=
  match s with
  | kNoConnect => "kNoConnect" | kTryConnect => "kTryConnect"
  | kTryDBSync => "kTryDBSync" | kWaitDBSync => "kWaitDBSync"
  | kWaitReply => "kWaitReply" | kConnected => "kConnected"
  | kError => "kError" | kDBNoConnect => "kDBNoConnect"
  end.

(** ** Offsets *)

Record LogicOffset := mkLogicOffset { term : Z; index : Z }.
Record BinlogOffset := mkBinlogOffset { filenum : Z; offset : Z }.
Record LogOffset := mkLogOffset { b_offset : BinlogOffset; l_offset : LogicOffset }.

#[export] Instance LogicOffset_eq_dec : EqDecision LogicOffset.
Proof. solve_decision. Defined.
#[export] Instance BinlogOffset_eq_dec : EqDecision BinlogOffset.
Proof. solve_decision. Defined.
#[export] Instance LogOffset_eq_dec : EqDecision LogOffset.
Proof. solve_decision. Defined.

(** The default constructors [LogicOffset()], [BinlogOffset()], [LogOffset()]. *)
Definition LogicOffset0 : LogicOffset := mkLogicOffset 0 0.
Definition BinlogOffset0 : BinlogOffset := mkBinlogOffset 0 0.
Definition LogOffset0 : LogOffset := mkLogOffset BinlogOffset0 LogicOffset0.

(** The comparison operators of [BinlogOffset]. *)
Definition bo_eqb (a b : BinlogOffset) : bool :=
  (filenum a =? filenum b) && (offset a =? offset b).
Definition bo_gtb (a b : BinlogOffset) : bool :=
  (filenum a >? filenum b) || ((filenum a =? filenum b) && (offset a >? offset b)).
Definition bo_ltb (a b : BinlogOffset) : bool :=
  (filenum a <? filenum b) || ((filenum a =? filenum b) && (offset a <? offset b)).
Definition bo_leb (a b : BinlogOffset) : bool :=
  (filenum a <? filenum b) || ((filenum a =? filenum b) && (offset a <=? offset b)).
Definition bo_geb (a b : BinlogOffset) : bool :=
  (filenum a >? filenum b) || ((filenum a =? filenum b) && (offset a >=? offset b)).

(** The comparison operators of [LogOffset] look at [b_offset] only. *)
Definition lo_ltb (a b : LogOffset) : bool := bo_ltb (b_offset a) (b_offset b).
Definition lo_eqb (a b : LogOffset) : bool := bo_eqb (b_offset a) (b_offset b).
Definition lo_leb (a b : LogOffset) : bool := bo_leb (b_offset a) (b_offset b).
Definition lo_geb (a b : LogOffset) : bool := bo_geb (b_offset a) (b_offset b).
Definition lo_gtb (a b : LogOffset) : bool := bo_gtb (b_offset a) (b_offset b).

Lemma bo_eqb_eq a b : bo_eqb a b = true ↔ a = b.
Proof.
  destruct a as [f o], b as [f' o']; unfold bo_eqb; simpl.
  rewrite andb_true_iff, !Z.eqb_eq. split; [intros []; congruence|].
  intros [=]; auto.
Qed.

Ltac bo_solve :=
  unfold lo_ltb, lo_eqb, lo_leb, lo_geb, lo_gtb, bo_eqb, bo_gtb, bo_ltb, bo_leb, bo_geb in *;
  repeat match goal with
    | |- context [Z.gtb] => rewrite Z.gtb_ltb in *
    | |- context [Z.geb] => rewrite Z.geb_leb in *
    end; lia.

Lemma bo_gtb_ltb a b : bo_gtb a b = bo_ltb b a.
Proof. bo_solve. Qed.
Lemma bo_geb_leb a b : bo_geb a b = bo_leb b a.
Proof. bo_solve. Qed.
Lemma bo_ltb_leb a b : bo_ltb a b = negb (bo_leb b a).
Proof. bo_solve. Qed.
Lemma bo_leb_refl a : bo_leb a a = true.
Proof. bo_solve. Qed.
Lemma bo_leb_trans a b c : bo_leb a b = true → bo_leb b c = true → bo_leb a c = true.
Proof. bo_solve. Qed.
Lemma bo_leb_total a b : bo_leb a b = true ∨ bo_leb b a = true.
Proof. bo_solve. Qed.
Lemma bo_leb_antisym a b : bo_leb a b = true → bo_leb b a = true → a = b.
Proof. intros. apply bo_eqb_eq. bo_solve. Qed.

(** The order on [LogOffset] as a relation, for sorting, and the equivalence
    it induces. *)
Definition lo_le (a b : LogOffset) : Prop := lo_leb a b = true.
Definition lo_equiv (a b : LogOffset) : Prop := lo_eqb a b = true.

#[export] Instance lo_le_dec : RelDecision lo_le.
Proof. intros a b. unfold lo_le. apply _. Defined.
#[export] Instance lo_le_preorder : PreOrder lo_le.
Proof. split; [intros a; apply bo_leb_refl|]. intros a b c. apply bo_leb_trans. Qed.
#[export] Instance lo_le_total : Total lo_le.
Proof. intros a b. apply bo_leb_total. Qed.
#[export] Instance lo_equiv_equivalence : Equivalence lo_equiv.
Proof. split; unfold lo_equiv; repeat intro; bo_solve. Qed.
#[export] Instance lo_leb_proper : Proper (lo_equiv ==> lo_equiv ==> eq) lo_leb.
Proof. unfold lo_equiv; repeat intro. bo_solve. Qed.
#[export] Instance lo_ltb_proper : Proper (lo_equiv ==> lo_equiv ==> eq) lo_ltb.
Proof. unfold lo_equiv; repeat intro. bo_solve. Qed.
#[export] Instance lo_eqb_proper : Proper (lo_equiv ==> lo_equiv ==> eq) lo_eqb.
Proof. unfold lo_equiv; repeat intro. bo_solve. Qed.

Lemma lo_equiv_b_offset a b : lo_equiv a b ↔ b_offset a = b_offset b.
Proof. apply bo_eqb_eq. Qed.

(** ** Identities of partitions and nodes *)

Record PartitionInfo := mkPartitionInfo { table_name_ : string; partition_id_ : Z }.

#[export] Instance PartitionInfo_eq_dec : EqDecision PartitionInfo.
Proof. solve_decision. Defined.
#[export] Instance PartitionInfo_countable : Countable PartitionInfo.
Proof.
  refine (inj_countable' (λ p, (table_name_ p, partition_id_ p))
            (λ x, mkPartitionInfo x.1 x.2) _). by intros [].
Defined.

(** C's [strcmp] on the bytes of the two strings, up to the first NUL. *)
Fixpoint strcmp (s t : string) : Z :=
  match s, t with
  | EmptyString, EmptyString => 0
  | EmptyString, String b _ => 0 - Z.of_N (Ascii.N_of_ascii b)
  | String a _, EmptyString => Z.of_N (Ascii.N_of_ascii a)
  | String a s', String b t' =>
      if bool_decide (a = b)
      then if bool_decide (a = Ascii.zero) then 0 else strcmp s' t'
      else Z.of_N (Ascii.N_of_ascii a) - Z.of_N (Ascii.N_of_ascii b)
  end.

(** [PartitionInfo::operator<], which returns an [int]. *)
Definition pi_lt (a b : PartitionInfo) : Z :=
  let ret := strcmp (table_name_ a) (table_name_ b) in
  if ret =? 0 then
    if partition_id_ a <? partition_id_ b then -1
    else if partition_id_ a >? partition_id_ b then 1 else 0
  else ret.

(** The truth value that [std::less<PartitionInfo>] sees. *)
Definition pi_less (a b : PartitionInfo) : bool := negb (pi_lt a b =? 0).

Definition pi_ToString (p : PartitionInfo) : string :=
  "(" +:+ table_name_ p +:+ ":" +:+ pretty (partition_id_ p) +:+ ")".

Record RmNode := mkRmNode {
  ip_ : string; port_ : Z; partition_info_ : PartitionInfo; session_id_ : Z;
  last_send_time_ : Z; last_recv_time_ : Z }.

Definition RmNode0 : RmNode := mkRmNode "" 0 (mkPartitionInfo "" 0) 0 0 0.

Definition RmNode_new (ip : string) (port : Z) (table_name : string)
    (partition_id session_id : Z) : RmNode :=
  mkRmNode ip port (mkPartitionInfo table_name partition_id) session_id 0 0.

(** [RmNode::operator==]. *)
Definition rm_eqb (a b : RmNode) : bool :=
  bool_decide (table_name_ (partition_info_ a) = table_name_ (partition_info_ b))
  && (partition_id_ (partition_info_ a) =? partition_id_ (partition_info_ b))
  && bool_decide (ip_ a = ip_ b) && (port_ a =? port_ b).

(** [SetSessionId(uint32_t)] stores into an [int32_t]. *)
Definition SetSessionId (session_id : Z) (n : RmNode) : RmNode :=
  mkRmNode (ip_ n) (port_ n) (partition_info_ n) (s32 (u32 session_id))
    (last_send_time_ n) (last_recv_time_ n).
Definition rm_SetLastSendTime (t : Z) (n : RmNode) : RmNode :=
  mkRmNode (ip_ n) (port_ n) (partition_info_ n) (session_id_ n) t (last_recv_time_ n).
Definition rm_SetLastRecvTime (t : Z) (n : RmNode) : RmNode :=
  mkRmNode (ip_ n) (port_ n) (partition_info_ n) (session_id_ n) (last_send_time_ n) t.

Definition rm_ToString (n : RmNode) : string :=
  "partition=" +:+ table_name_ (partition_info_ n) +:+ "_"
  +:+ pretty (partition_id_ (partition_info_ n)) +:+ ",ip_port="
  +:+ ip_ n +:+ ":" +:+ pretty (port_ n) +:+ ",session id=" +:+ pretty (session_id_ n).

(** A binlog record on its way to a slave, and the task that carries it. *)
Record BinlogChip := mkBinlogChip { chip_offset_ : LogOffset; binlog_ : bytes }.
Record WriteTask := mkWriteTask {
  rm_node_ : RmNode; binlog_chip_ : BinlogChip; prev_offset_ : LogOffset }.

(** ** Facts about identities *)

(** A C string: no embedded NUL. *)
Definition no_nul : string → bool := lacks Ascii.zero.

Lemma N_of_ascii_zero c : Ascii.N_of_ascii c = 0%N → c = Ascii.zero.
Proof. intros H. rewrite <- (Ascii.ascii_N_embedding c), H. done. Qed.

Lemma N_of_ascii_inj a b : Ascii.N_of_ascii a = Ascii.N_of_ascii b → a = b.
Proof. intros H. by rewrite <- (Ascii.ascii_N_embedding a), H, Ascii.ascii_N_embedding. Qed.

Lemma strcmp_eq_0 s t :
  no_nul s = true → no_nul t = true → (strcmp s t = 0 ↔ s = t).
Proof.
  revert t; induction s as [|a s IH]; intros [|b t]; cbn [strcmp no_nul lacks]; try done.
  - intros _ Hb. split; [|done]. intros H. apply andb_true_iff in Hb as [Hb _].
    rewrite (N_of_ascii_zero b) in Hb by lia. done.
  - intros Ha _. split; [|done]. intros H. apply andb_true_iff in Ha as [Ha _].
    rewrite (N_of_ascii_zero a) in Ha by lia. done.
  - rewrite !andb_true_iff. intros [Ha Hs] [_ Ht].
    destruct (decide (a = b)) as [->|E].
    + rewrite bool_decide_eq_true_2 by done.
      destruct (bool_decide (b = Ascii.zero)); [done|]. rewrite IH by done.
      split; congruence.
    + rewrite bool_decide_eq_false_2 by done. split; [|congruence].
      intros H. destruct E. apply N_of_ascii_inj. lia.
Qed.

(** [PartitionInfo::operator<] returns a three-way result where a truth
    value is expected, so what [std::set<PartitionInfo>] sees is inequality:
    two different partitions each compare less than the other, and the relation
    is not a strict weak order. *)
Theorem partition_info_less_is_neq a b :
  no_nul (table_name_ a) = true → no_nul (table_name_ b) = true →
  pi_less a b = bool_decide (a ≠ b).
Proof.
  intros Ha Hb. pose proof (strcmp_eq_0 _ _ Ha Hb) as E.
  destruct a as [ta ia], b as [tb ib]; unfold pi_less, pi_lt; simpl in *.
  destruct (strcmp ta tb =? 0) eqn:Es.
  - apply Z.eqb_eq, E in Es as ->.
    rewrite Z.gtb_ltb. destruct (Z.ltb_spec ia ib), (Z.ltb_spec ib ia); try lia;
      simpl; symmetry; (apply bool_decide_eq_true || apply bool_decide_eq_false).
    + intros [=]; lia.
    + intros [=]; lia.
    + intros []. f_equal; lia.
  - rewrite Es. symmetry. apply bool_decide_eq_true. intros [=]; subst.
    rewrite (proj2 E eq_refl) in Es. done.
Qed.

Lemma partition_info_less_is_neq_witness :
  let a := mkPartitionInfo "db0" 0 in let b := mkPartitionInfo "db1" 0 in
  pi_less a b = true ∧ pi_less b a = true.
Proof.
  split; (rewrite partition_info_less_is_neq; [|reflexivity..]);
    apply bool_decide_eq_true; discriminate.
Defined.

(** [RmNode::operator==] ignores the session and the keep-alive times. *)
#[export] Instance rm_equiv_equivalence :
  Equivalence (λ a b, rm_eqb a b = true).
Proof.
  split; unfold rm_eqb; repeat intro;
    repeat match goal with
      | H : _ && _ = true |- _ => apply andb_true_iff in H as [??]
      | H : bool_decide _ = true |- _ => apply bool_decide_eq_true in H
      | |- _ && _ = true => apply andb_true_iff; split
      | |- bool_decide _ = true => apply bool_decide_eq_true
      end; try congruence; lia.
Qed.
