(* ===== verification/Env.v ===== *)
(** * The file layer the binlog runs on

    The log code calls a file abstraction ([slash::WritableFile],
    [slash::SequentialFile], [slash::RWFile] and the functions that create
    them) and fixed-width integer coding that live in a separate library.  They
    are interfaces here: [SlashEnv] and [FixedCoding] name the operations,
    [SlashEnvLaws] and [FixedCodingLaws] state what the log code relies on.
    Every theorem about the log is proved against the interfaces; [MemEnv] and
    [le_coding] are instances, so the laws are consistent and the log code can
    be run inside the logic.

    A file handle is modelled by the name of its file (plus a read position for
    a sequential file).  [file_data fs f] is what has been written to [f]; a
    reader may see zero bytes after that data, because writable files are
    preallocated memory maps. *)

From S2P Require Import Prelude.
From stdpp Require Import base list strings pretty gmap.
From Stdlib Require Import ZArith Lia Init.Byte Ascii.
#[local] Open Scope Z_scope.

Class SlashEnv (FS : Type) := {
  (** [gettimeofday], seconds. *)
  env_time : FS → Z * FS;
  (** [FileExists]. *)
  env_exists : FS → string → bool;
  (** [NewWritableFile]: create or truncate. *)
  env_new_writable : FS → string → Status * FS;
  (** [AppendWritableFile]: open, next write goes to the given offset. *)
  env_append_writable : FS → string → Z → Status * FS;
  (** [WritableFile::Append], [Flush] and [Filesize]. *)
  env_append : FS → string → bytes → Status * FS;
  env_flush : FS → string → Status * FS;
  env_filesize : FS → string → Z;
  (** [DeleteFile]. *)
  env_delete : FS → string → Status * FS;
  (** POSIX [open] for writing succeeds; [ftruncate] succeeds. *)
  env_open_rdwr : FS → string → bool;
  env_ftruncate : FS → string → Z → bool * FS;
  (** [NewRWFile], [RWFile::GetData] and a [memcpy] into the mapping. *)
  env_new_rwfile : FS → string → Status * FS;
  env_rwdata : FS → string → option bytes;
  env_rwstore : FS → string → Z → bytes → FS;
  (** [NewSequentialFile]; [Read n] and [Skip n] at a position give the new
      position. *)
  env_new_sequential : FS → string → Status;
  env_read : FS → string → Z → Z → Status * bytes * Z;
  env_skip : FS → string → Z → Z → Status * Z;
  (** [CreateDir], [GetChildren]. *)
  env_create_dir : FS → string → FS;
  env_children : FS → string → Z * list string;
}.

(** Overwrite [length b] bytes of [d] from position [off] on. *)
Definition splice (off : Z) (b d : bytes) : bytes :=
  ztake off d ++ b ++ zdrop (off + zlen b) d.

Definition no_slash : string → bool := lacks "/"%char.

Class SlashEnvLaws (FS : Type) {E : SlashEnv FS} := {
  file_data : FS → string → option bytes;
  law_exists fs f :
    env_exists fs f = true ↔ is_Some (file_data fs f) ∨ is_Some (env_rwdata fs f);
  law_time fs f : file_data (env_time fs).2 f = file_data fs f;
  law_new_writable fs f fs' : env_new_writable fs f = (OK, fs') →
    file_data fs' f = Some [];
  law_new_writable_frame fs f g : g ≠ f →
    file_data (env_new_writable fs f).2 g = file_data fs g;
  law_append_writable fs f n fs' d :
    env_append_writable fs f n = (OK, fs') → file_data fs f = Some d →
    0 ≤ n ≤ zlen d → file_data fs' f = Some (ztake n d);
  law_append_writable_frame fs f n g : g ≠ f →
    file_data (env_append_writable fs f n).2 g = file_data fs g;
  law_append fs f b fs' d : env_append fs f b = (OK, fs') → file_data fs f = Some d →
    file_data fs' f = Some (d ++ b);
  law_append_frame fs f b g : g ≠ f →
    file_data (env_append fs f b).2 g = file_data fs g;
  law_flush fs f g : file_data (env_flush fs f).2 g = file_data fs g;
  law_filesize fs f d : file_data fs f = Some d → env_filesize fs f = zlen d;
  law_delete fs f fs' : env_delete fs f = (OK, fs') → file_data fs' f = None;
  law_delete_frame fs f g : g ≠ f →
    file_data (env_delete fs f).2 g = file_data fs g;
  law_ftruncate fs f n fs' d :
    env_ftruncate fs f n = (true, fs') → file_data fs f = Some d →
    0 ≤ n ≤ zlen d → file_data fs' f = Some (ztake n d);
  law_ftruncate_frame fs f n g : g ≠ f →
    file_data (env_ftruncate fs f n).2 g = file_data fs g;
  law_rwstore fs m off b d : env_rwdata fs m = Some d → 0 ≤ off →
    off + zlen b ≤ zlen d → env_rwdata (env_rwstore fs m off b) m = Some (splice off b d);
  law_rwstore_frame fs m off b f : file_data (env_rwstore fs m off b) f = file_data fs f;
  law_new_rwfile fs m fs' : env_new_rwfile fs m = (OK, fs') →
    (∀ f, file_data fs' f = file_data fs f) ∧
    match env_rwdata fs m with
    | Some d => env_rwdata fs' m = Some d
    | None => ∃ d, env_rwdata fs' m = Some d ∧ 24 ≤ zlen d
    end;
  law_create_dir fs p : (∀ f, file_data (env_create_dir fs p) f = file_data fs f) ∧
    (∀ m, env_rwdata (env_create_dir fs p) m = env_rwdata fs m);
  (** The mapped manifests are not touched by operations on other files. *)
  law_rw_time fs m : env_rwdata (env_time fs).2 m = env_rwdata fs m;
  law_rw_new_writable fs f m : m ≠ f →
    env_rwdata (env_new_writable fs f).2 m = env_rwdata fs m;
  law_rw_append_writable fs f n m : m ≠ f →
    env_rwdata (env_append_writable fs f n).2 m = env_rwdata fs m;
  law_rw_append fs f b m : m ≠ f →
    env_rwdata (env_append fs f b).2 m = env_rwdata fs m;
  law_rw_flush fs f m : env_rwdata (env_flush fs f).2 m = env_rwdata fs m;
  law_rw_delete fs f m : m ≠ f →
    env_rwdata (env_delete fs f).2 m = env_rwdata fs m;
  law_rw_ftruncate fs f n m : m ≠ f →
    env_rwdata (env_ftruncate fs f n).2 m = env_rwdata fs m;
  law_read fs f d pos n : file_data fs f = Some d → 0 ≤ pos → 0 ≤ n →
    pos + n ≤ zlen d → env_read fs f pos n = (OK, slice pos n d, pos + n);
  (** Past the written data a read hits the end of the file, or the zeros of
      the preallocated tail. *)
  law_read_past fs f d pos n : file_data fs f = Some d → zlen d ≤ pos → 0 < n →
    (∃ m b p, env_read fs f pos n = (EndFile m, b, p)) ∨
    env_read fs f pos n = (OK, zrep n x00, pos + n);
  law_skip fs f d pos n : file_data fs f = Some d → 0 ≤ pos → 0 ≤ n →
    pos + n ≤ zlen d → env_skip fs f pos n = (OK, pos + n);
  law_skip_past fs f d pos n : file_data fs f = Some d → 0 ≤ pos → 0 ≤ n →
    zlen d < pos + n → zlen d ≤ (env_skip fs f pos n).2;
  law_sequential fs f : is_Some (file_data fs f) → env_new_sequential fs f = OK;
  (** A directory (its path ends with a slash) lists the files in it. *)
  law_children fs d f l : env_children fs d = (0, l) → no_slash f = true →
    is_Some (file_data fs (d +:+ f)) → f ∈ l;
}.

(** No I/O errors: operations on existing files succeed.  An extra assumption of
    the theorems that say an operation does return [OK]. *)
Class ReliableEnv (FS : Type) {E : SlashEnv FS} {L : SlashEnvLaws FS} : Prop := {
  rel_append (fs : FS) f b : is_Some (file_data fs f) → (env_append fs f b).1 = OK;
  rel_flush (fs : FS) f : is_Some (file_data fs f) → (env_flush fs f).1 = OK;
  rel_new_writable (fs : FS) f : (env_new_writable fs f).1 = OK;
  rel_append_writable (fs : FS) f n :
    is_Some (file_data fs f) → (env_append_writable fs f n).1 = OK;
  rel_open_rdwr (fs : FS) f : is_Some (file_data fs f) → env_open_rdwr fs f = true;
  rel_ftruncate (fs : FS) f n : is_Some (file_data fs f) → (env_ftruncate fs f n).1 = true;
  rel_delete (fs : FS) f : is_Some (file_data fs f) → (env_delete fs f).1 = OK;
}.

(** ** Fixed-width coding ([slash::PutFixed*], [slash::GetFixed*])

    [PutFixed n v]: the bytes appended for an [8 * n]-bit value.
    [GetFixed n s v]: the value read from the front of [s] (the old value [v]
    of the destination is kept when the call does not store one) and what is
    left of [s]. *)
Class FixedCoding := {
  PutFixed : nat → Z → bytes;
  GetFixed : nat → bytes → Z → Z * bytes;
}.

Class FixedCodingLaws {C : FixedCoding} := {
  law_put_length n v : length (PutFixed n v) = n;
  law_get_put n v s old : 0 ≤ v < 256 ^ Z.of_nat n →
    GetFixed n (PutFixed n v ++ s) old = (v, s);
  law_get_rest n s old : (n ≤ length s)%nat → (GetFixed n s old).2 = drop n s;
  law_get_range n s old : (n ≤ length s)%nat →
    0 ≤ (GetFixed n s old).1 < 256 ^ Z.of_nat n;
}.

Lemma zdrop_zdrop {A} n m (l : list A) : 0 ≤ n → 0 ≤ m → zdrop m (zdrop n l) = zdrop (n + m) l.
Proof. intros. unfold zdrop. rewrite drop_drop. f_equal. lia. Qed.

Lemma splice_app p b r : splice (zlen p) b (p ++ r) = p ++ b ++ zdrop (zlen b) r.
Proof.
  unfold splice, ztake. replace (Z.to_nat (zlen p)) with (length p) by (unfold zlen; lia).
  rewrite take_app_length. do 2 f_equal.
  rewrite <- (zdrop_zdrop (zlen p)) by apply zlen_nonneg. f_equal.
  unfold zdrop, zlen. by rewrite Nat2Z.id, drop_app_length.
Qed.

(** ** Instances *)

Record MemFS := mkMemFS {
  mem_files : gmap string bytes; mem_rw : gmap string bytes; mem_clock : Z }.

Definition mem_set_files (g : gmap string bytes) (fs : MemFS) : MemFS :=
  mkMemFS g (mem_rw fs) (mem_clock fs).

(** Files as byte lists in memory.  A read at the end of the data ends the
    file; a new mapping is 4096 zero bytes. *)
#[export] Instance MemEnv : SlashEnv MemFS := {
  env_time fs := (mem_clock fs, mkMemFS (mem_files fs) (mem_rw fs) (mem_clock fs + 1));
  env_exists fs f :=
    bool_decide (is_Some (mem_files fs !! f)) || bool_decide (is_Some (mem_rw fs !! f));
  env_new_writable fs f := (OK, mem_set_files (<[f := []]> (mem_files fs)) fs);
  env_append_writable fs f n := match mem_files fs !! f with
    | Some d => (OK, mem_set_files (<[f := ztake n d]> (mem_files fs)) fs)
    | None => (IOError "open", fs) end;
  env_append fs f b := match mem_files fs !! f with
    | Some d => (OK, mem_set_files (<[f := d ++ b]> (mem_files fs)) fs)
    | None => (IOError "append", fs) end;
  env_flush fs f := (OK, fs);
  env_filesize fs f := zlen (default [] (mem_files fs !! f));
  env_delete fs f := (OK, mem_set_files (delete f (mem_files fs)) fs);
  env_open_rdwr fs f := bool_decide (is_Some (mem_files fs !! f));
  env_ftruncate fs f n := match mem_files fs !! f with
    | Some d => (true, mem_set_files (<[f := ztake n d]> (mem_files fs)) fs)
    | None => (false, fs) end;
  env_new_rwfile fs m := (OK, match mem_rw fs !! m with
    | Some _ => fs
    | None => mkMemFS (mem_files fs) (<[m := zrep 4096 x00]> (mem_rw fs)) (mem_clock fs) end);
  env_rwdata fs m := mem_rw fs !! m;
  env_rwstore fs m off b :=
    mkMemFS (mem_files fs) (alter (splice off b) m (mem_rw fs)) (mem_clock fs);
  env_new_sequential fs f := if bool_decide (is_Some (mem_files fs !! f)) then OK
    else IOError "open";
  env_read fs f pos n := let d := default [] (mem_files fs !! f) in
    let b := slice pos n d in
    (if zlen b <? n then EndFile "end file" else OK, b, pos + zlen b);
  env_skip fs f pos n := (OK, pos + n);
  env_create_dir fs _ := fs;
  env_children fs d := (0,
    (λ f, String.string_of_list_ascii
            (drop (String.length d) (String.list_ascii_of_string f)))
    <$> filter (λ f, String.prefix d f = true) (map_to_list (mem_files fs)).*1);
}.

Lemma slice_full {A} pos n (d : list A) :
  0 ≤ pos → 0 ≤ n → pos + n ≤ zlen d → zlen (slice pos n d) = n.
Proof.
  intros. unfold slice. apply zlen_ztake. rewrite zlen_zdrop; lia.
Qed.

Lemma prefix_app (d f : string) : String.prefix d (d +:+ f) = true.
Proof.
  induction d as [|c d IH]; [by destruct f|].
  change (String.prefix (String c d) (String c (d +:+ f)) = true). simpl.
  destruct (Ascii.ascii_dec c c); [done|congruence].
Qed.

Lemma drop_string_app (d f : string) :
  String.string_of_list_ascii (drop (String.length d) (String.list_ascii_of_string (d +:+ f))) = f.
Proof.
  induction d as [|c d IH]; [apply String.string_of_list_ascii_of_string|]. exact IH.
Qed.

Ltac mem_solve :=
  intros; simpl in *; unfold mem_set_files in *;
  repeat match goal with
    | H : mem_files _ !! _ = Some _ |- _ => rewrite H in *
    | H : (_, _) = (_, _) |- _ => injection H as ?; subst; simpl in *
    end; simplify_map_eq; try done.

#[export] Instance MemEnv_laws : SlashEnvLaws MemFS.
Proof.
  refine {| file_data fs f := mem_files fs !! f |}.
  all: try (solve [mem_solve]).
  - intros. simpl. rewrite orb_true_iff, !bool_decide_eq_true. done.
  - intros fs f n g Hg. simpl. destruct (mem_files fs !! f); mem_solve.
  - intros fs f b g Hg. simpl. destruct (mem_files fs !! f); mem_solve.
  - intros fs f n g Hg. simpl. destruct (mem_files fs !! f); mem_solve.
  - intros fs m fs' [= <-]. destruct (mem_rw fs !! m) eqn:Em; cbv [env_rwdata MemEnv].
    + by rewrite Em.
    + rewrite Em. split; [done|]. eexists. cbn [mem_rw].
      rewrite lookup_insert_eq. split; [done|]. rewrite zlen_zrep; lia.
  - intros fs f n m Hm. simpl. destruct (mem_files fs !! f); mem_solve.
  - intros fs f b m Hm. simpl. destruct (mem_files fs !! f); mem_solve.
  - intros fs f n m Hm. simpl. destruct (mem_files fs !! f); mem_solve.
  - intros fs f d pos n H ? ? ?. cbv [env_read MemEnv]. rewrite H. cbn [default from_option id].
    rewrite slice_full by done. by rewrite Z.ltb_irrefl.
  - intros fs f d pos n H ? ?. left. cbv [env_read MemEnv]. rewrite H. cbn [default from_option id].
    unfold slice. rewrite (zdrop_all pos d) by done. unfold ztake.
    rewrite take_nil, zlen_nil. destruct (Z.ltb_spec 0 n); [eauto|lia].
  - intros. simpl in *. lia.
  - intros fs f H. simpl. by rewrite bool_decide_eq_true_2.
  - intros fs d f l [= <-] _ [x Hx]. apply list_elem_of_fmap. exists (d +:+ f).
    rewrite drop_string_app. split; [done|].
    apply list_elem_of_filter. split; [apply prefix_app|].
    apply list_elem_of_fmap. exists (d +:+ f, x). split; [done|]. by apply elem_of_map_to_list.
Defined.

#[export] Instance MemEnv_reliable : ReliableEnv MemFS.
Proof.
  split; try done; intros fs f; intros; cbn in *;
    repeat match goal with H : is_Some _ |- _ => destruct H as [? H] end;
    try (by rewrite bool_decide_eq_true_2 by eauto);
    by match goal with H : _ = Some _ |- _ => rewrite H end.
Qed.

(** Little-endian coding of at most the bytes there are. *)
#[export] Instance le_coding : FixedCoding := {
  PutFixed n v := le_bytes n v;
  GetFixed n s _ := (le_val (take n s), drop n s);
}.

#[export] Instance le_coding_laws : FixedCodingLaws.
Proof.
  split; simpl.
  - intros. apply length_le_bytes.
  - intros n v s _ Hv. rewrite take_app_length', drop_app_length'
      by (by rewrite length_le_bytes). by rewrite le_val_le_bytes_small.
  - done.
  - intros n s _ Hn. pose proof (le_val_range (take n s)) as H.
    rewrite length_take in H. by rewrite Nat.min_l in H by lia.
Qed.

(** ** Consequences used by the log *)

Section EnvFacts.
Context {FS : Type} {E : SlashEnv FS} {L : SlashEnvLaws FS}.
Implicit Types fs : FS.

(** Two file systems agree on every file and mapping but [f]. *)
Definition agree_but (f : string) (fs fs' : FS) : Prop :=
  ∀ g, g ≠ f → file_data fs' g = file_data fs g ∧ env_rwdata fs' g = env_rwdata fs g.
(** Two file systems hold the same file data. *)
Definition agree_files (fs fs' : FS) : Prop := ∀ g, file_data fs' g = file_data fs g.
(** Two file systems hold the same data. *)
Definition agree (fs fs' : FS) : Prop :=
  ∀ g, file_data fs' g = file_data fs g ∧ env_rwdata fs' g = env_rwdata fs g.

Definition agree_files_but (f : string) (fs fs' : FS) : Prop :=
  ∀ g, g ≠ f → file_data fs' g = file_data fs g.

#[export] Instance agree_files_but_preorder f : PreOrder (agree_files_but f).
Proof. split; [by intros ???|]. intros a b c H1 H2 g Hg. by rewrite H2, H1. Qed.
Lemma agree_but_files f fs fs' : agree_but f fs fs' → agree_files_but f fs fs'.
Proof. intros H g Hg. by apply H. Qed.
Lemma agree_files_files_but f fs fs' : agree_files fs fs' → agree_files_but f fs fs'.
Proof. intros H g _. apply H. Qed.

#[export] Instance agree_preorder : PreOrder agree.
Proof. split; [by intros ??|]. intros a b c H1 H2 g. destruct (H1 g), (H2 g). split; congruence. Qed.
#[export] Instance agree_files_preorder : PreOrder agree_files.
Proof. split; [by intros ??|]. intros a b c H1 H2 g. by rewrite H2, H1. Qed.
#[export] Instance agree_but_preorder f : PreOrder (agree_but f).
Proof.
  split; [by intros ???|]. intros a b c H1 H2 g Hg.
  destruct (H1 g Hg), (H2 g Hg). split; congruence.
Qed.

Lemma agree_agree_but f fs fs' : agree fs fs' → agree_but f fs fs'.
Proof. intros H g _. apply H. Qed.
Lemma agree_time fs : agree fs (env_time fs).2.
Proof. intros g. split; [apply law_time|apply law_rw_time]. Qed.
Lemma agree_flush fs f : agree fs (env_flush fs f).2.
Proof. intros g. split; [apply law_flush|apply law_rw_flush]. Qed.
Lemma agree_files_rwstore fs m off b : agree_files fs (env_rwstore fs m off b).
Proof. intros g. apply law_rwstore_frame. Qed.
Lemma agree_but_append fs f b : agree_but f fs (env_append fs f b).2.
Proof. intros g Hg. split; [by apply law_append_frame|by apply law_rw_append]. Qed.
Lemma agree_but_new_writable fs f : agree_but f fs (env_new_writable fs f).2.
Proof. intros g Hg. split; [by apply law_new_writable_frame|by apply law_rw_new_writable]. Qed.
Lemma agree_but_delete fs f : agree_but f fs (env_delete fs f).2.
Proof. intros g Hg. split; [by apply law_delete_frame|by apply law_rw_delete]. Qed.
End EnvFacts.

#[export] Hint Resolve agree_time agree_flush agree_files_rwstore agree_but_append
  agree_but_new_writable agree_but_delete agree_agree_but
  agree_but_files agree_files_files_but : pika.
