(* ===== verification/Binlog.v ===== *)
(** * The binlog writer (src/pika_binlog.cc, include/pika_binlog.h)

    A binlog is a sequence of files [<prefix>0], [<prefix>1], ... of 64 KB
    blocks.  An item is stored as one or more physical records, each with an
    8-byte header (length, time, type) and none crossing a block; a tail of
    fewer than 8 bytes of a block is zero padding.  The producer position
    (file number, offset, logic id, term) is kept in [Version] and saved in a
    memory-mapped manifest.

    The operations run in the monad [M (FS * Binlog)]: [None] is the abortion
    of the process.  C++ integer widths are explicit ([u32], [u64], [s32]). *)

From S2P Require Import Prelude Define Env.
From stdpp Require Import base list strings pretty gmap.
From Stdlib Require Import ZArith Lia Init.Byte.
#[local] Open Scope string_scope.
#[local] Open Scope list_scope.
#[local] Open Scope Z_scope.

(** ** Data *)

Record Version := mkVersion {
  v_pro_num : Z; v_pro_offset : Z; v_logic_id : Z; v_term : Z }.

Record Binlog := mkBinlog {
  opened_ : bool; version_ : Version;
  queue_ : option string;          (* the open writable file *)
  versionfile_ : string;           (* the manifest *)
  pro_num_ : Z; block_offset_ : Z;
  filename_ : string; file_size_ : Z; binlog_io_error_ : bool }.

Definition set_opened (x : bool) (b : Binlog) : Binlog :=
  mkBinlog x (version_ b) (queue_ b) (versionfile_ b) (pro_num_ b) (block_offset_ b)
    (filename_ b) (file_size_ b) (binlog_io_error_ b).
Definition set_version (v : Version) (b : Binlog) : Binlog :=
  mkBinlog (opened_ b) v (queue_ b) (versionfile_ b) (pro_num_ b) (block_offset_ b)
    (filename_ b) (file_size_ b) (binlog_io_error_ b).
Definition set_queue (q : option string) (b : Binlog) : Binlog :=
  mkBinlog (opened_ b) (version_ b) q (versionfile_ b) (pro_num_ b) (block_offset_ b)
    (filename_ b) (file_size_ b) (binlog_io_error_ b).
Definition set_pro_num (n : Z) (b : Binlog) : Binlog :=
  mkBinlog (opened_ b) (version_ b) (queue_ b) (versionfile_ b) n (block_offset_ b)
    (filename_ b) (file_size_ b) (binlog_io_error_ b).
Definition set_block_offset (n : Z) (b : Binlog) : Binlog :=
  mkBinlog (opened_ b) (version_ b) (queue_ b) (versionfile_ b) (pro_num_ b) n
    (filename_ b) (file_size_ b) (binlog_io_error_ b).
Definition set_io_error (x : bool) (b : Binlog) : Binlog :=
  mkBinlog (opened_ b) (version_ b) (queue_ b) (versionfile_ b) (pro_num_ b)
    (block_offset_ b) (filename_ b) (file_size_ b) x.

(** ** File names *)

(** The C string in front of the first NUL. *)
Fixpoint c_str (s : string) : string :=
  match s with
  | EmptyString => EmptyString
  | String c s => if bool_decide (c = Ascii.zero) then EmptyString else String c (c_str s)
  end.

Fixpoint str_take (n : nat) (s : string) : string :=
  match n, s with
  | S n, String c s => String c (str_take n s)
  | _, _ => EmptyString
  end.

(** [snprintf] into a 256-byte buffer keeps at most 255 characters. *)
Definition NewFileName (name : string) (current : Z) : string :=
  str_take 255 (c_str name +:+ pretty current).

(** The 8 bytes of a physical record header. *)
Definition record_header (n now t : Z) : bytes :=
  [ z2b (Z.land n 0xff);
    z2b (Z.shiftr (Z.land n 0xff00) 8);
    z2b (Z.shiftr n 16);
    z2b (Z.land now 0xff);
    z2b (Z.shiftr (Z.land now 0xff00) 8);
    z2b (Z.shiftr (Z.land now 0xff0000) 16);
    z2b (Z.shiftr (Z.land now 0xff000000) 24);
    z2b t ].
Arguments record_header : simpl never.

Section Ops.
Context {FS : Type} {E : SlashEnv FS}.

Abbreviation BM := (M (FS * Binlog)).

Definition io {A} (f : FS → A * FS) : BM A :=
  λ '(fs, b), let '(a, fs') := f fs in Some (a, (fs', b)).
Definition getb : BM Binlog := λ s, Some (s.2, s).
Definition getfs : BM FS := λ s, Some (s.1, s).
Definition modb (f : Binlog → Binlog) : BM unit := λ '(fs, b), Some (tt, (fs, f b)).
Definition modfs (f : FS → FS) : BM unit := λ '(fs, b), Some (tt, (f fs, b)).

(** Calls through the pointer [queue_]; a null pointer aborts. *)
Definition with_queue {A} (f : FS → string → A * FS) : BM A :=
  let* b := getb in
  match queue_ b with
  | Some q => io (λ fs, f fs q)
  | None => abort
  end.
Definition queue_Append (d : bytes) : BM Status := with_queue (λ fs q, env_append fs q d).
Definition queue_Flush : BM Status := with_queue env_flush.
Definition queue_Filesize : BM Z := with_queue (λ fs q, (env_filesize fs q, fs)).

(** *** Version *)

Definition StableSave : BM Status :=
  let* b := getb in let* fs := getfs in
  match env_rwdata fs (versionfile_ b) with
  | None => abort
  | Some _ =>
      let m := versionfile_ b in let v := version_ b in
      modfs (λ fs, env_rwstore fs m 0 (le_bytes 4 (v_pro_num v))) ;;;
      modfs (λ fs, env_rwstore fs m 4 (le_bytes 8 (v_pro_offset v))) ;;;
      modfs (λ fs, env_rwstore fs m 12 (le_bytes 8 (v_logic_id v))) ;;;
      modfs (λ fs, env_rwstore fs m 20 (le_bytes 4 (v_term v))) ;;;
      ret OK
  end.

Definition Version_Init : BM Status :=
  let* b := getb in let* fs := getfs in
  match env_rwdata fs (versionfile_ b) with
  | Some d =>
      modb (set_version (mkVersion (le_val (slice 0 4 d)) (le_val (slice 4 8 d))
                           (le_val (slice 12 8 d)) (le_val (slice 20 4 d)))) ;;;
      ret OK
  | None => ret (Corruption "version init error")
  end.

(** *** Opening *)

Definition InitLogFile : BM unit :=
  let* filesize := queue_Filesize in
  modb (set_block_offset (filesize mod kBlockSize)) ;;;
  modb (set_opened true).

(** [new_writable profile]: [NewWritableFile(profile, &queue_)]; the pointer
    is set only on success. *)
Definition new_writable (profile : string) : BM Status :=
  let* s := io (λ fs, env_new_writable fs profile) in
  modb (set_queue (if ok s then Some profile else None)) ;;; ret s.
Definition append_writable (profile : string) (off : Z) : BM Status :=
  let* s := io (λ fs, env_append_writable fs profile off) in
  modb (set_queue (if ok s then Some profile else None)) ;;; ret s.

(** The constructor.  [Version] leaves [term_] uninitialised: [term0] is
    the value it happens to have. *)
Definition Binlog_open (binlog_path : string) (term0 : Z) : BM unit :=
  modfs (λ fs, env_create_dir fs binlog_path) ;;;
  let* b := getb in let* fs := getfs in
  let manifest := versionfile_ b in
  if negb (env_exists fs manifest) then
    let* s := new_writable (NewFileName (filename_ b) (pro_num_ b)) in
    massert (ok s) ;;;
    let* s := io (λ fs, env_new_rwfile fs manifest) in
    massert (ok s) ;;;
    modb (set_version (mkVersion 0 0 0 term0)) ;;;
    StableSave ;;;
    InitLogFile
  else
    let* s := io (λ fs, env_new_rwfile fs manifest) in
    massert (ok s) ;;;
    modb (set_version (mkVersion 0 0 0 term0)) ;;;
    Version_Init ;;;
    modb (λ b, set_pro_num (v_pro_num (version_ b)) b) ;;;
    let* b := getb in
    let* s := append_writable (NewFileName (filename_ b) (pro_num_ b))
                (v_pro_offset (version_ b)) in
    massert (ok s) ;;;
    InitLogFile.

Definition Binlog_new (fs : FS) (binlog_path : string) (file_size term0 : Z) :
    option (FS * Binlog) :=
  let b0 := mkBinlog false (mkVersion 0 0 0 term0) None (binlog_path +:+ kManifest) 0 0
              (binlog_path +:+ kBinlogPrefix) (u64 file_size) false in
  snd <$> Binlog_open binlog_path term0 (fs, b0).

(** *** Producer status *)

(** [GetProducerStatus]: file number, offset, term, logic id. *)
Definition GetProducerStatus (b : Binlog) : Status * (Z * Z * Z * Z) :=
  if negb (opened_ b) then (Busy "Binlog is not open yet", (0, 0, 0, 0))
  else (OK, (v_pro_num (version_ b), v_pro_offset (version_ b),
             v_term (version_ b), v_logic_id (version_ b))).

Definition SetTerm (t : Z) : BM unit :=
  modb (λ b, set_version (mkVersion (v_pro_num (version_ b)) (v_pro_offset (version_ b))
                            (v_logic_id (version_ b)) t) b) ;;;
  StableSave ;;; ret tt.

Definition Close : BM unit := modb (set_opened false).

(** *** Producing *)

(** Returns the status and the updated [*temp_pro_offset]. *)
Definition EmitPhysicalRecord (t : Z) (ptr : bytes) (temp_pro_offset : Z) :
    BM (Status * Z) :=
  let n := zlen ptr in
  massert (n <=? 0xffffff) ;;;
  let* b := getb in
  massert (block_offset_ b + kHeaderSize + n <=? kBlockSize) ;;;
  let* now := io env_time in
  let* s := queue_Append (record_header n now t) in
  let* s := if ok s then
              let* s := queue_Append ptr in
              if ok s then queue_Flush else ret s
            else ret s in
  modb (λ b, set_block_offset (block_offset_ b + s32 (kHeaderSize + n)) b) ;;;
  ret (s, s32 (temp_pro_offset + kHeaderSize + n)).

(** The head of the loop of [Produce]: a block tail too short for a header
    is filled with zeros. *)
Definition Produce_pad (tpo : Z) : BM (Status * Z) :=
  let* b := getb in
  let leftover := kBlockSize - block_offset_ b in
  massert (0 <=? leftover) ;;;
  if leftover <? kHeaderSize then
    if 0 <? leftover then
      let* s := queue_Append (zrep leftover x00) in
      if negb (ok s) then ret (s, tpo) else
      modb (set_block_offset 0) ;;; ret (OK, s32 (tpo + leftover))
    else modb (set_block_offset 0) ;;; ret (OK, tpo)
  else ret (OK, tpo).

(** The [do .. while] of [Produce]; [left] are the bytes still to write.
    [None] on exhausted fuel. *)
Fixpoint Produce_loop (fuel : nat) (left : bytes) (begin : bool) (tpo : Z) :
    BM (Status * Z) :=
  match fuel with
  | O => abort
  | S fuel =>
    let* r := Produce_pad tpo in
    let '(s, tpo) := r in
    if negb (ok s) then ret (s, tpo) else
    let* b := getb in
    let avail := kBlockSize - block_offset_ b - kHeaderSize in
    let fragment_length := if zlen left <? avail then zlen left else avail in
    let end_ := zlen left =? fragment_length in
    let type := if begin && end_ then kFullType
                else if begin then kFirstType
                else if end_ then kLastType else kMiddleType in
    let* r := EmitPhysicalRecord type (ztake fragment_length left) tpo in
    let '(s, tpo) := r in
    let left := zdrop fragment_length left in
    if ok s && (0 <? zlen left) then Produce_loop fuel left false tpo
    else ret (s, tpo)
  end.

(** Two iterations more than there are bytes: the first may write no byte. *)
Definition Produce (item : bytes) : BM (Status * Z) :=
  let* b := getb in
  Produce_loop (2 + length item) item true (s32 (v_pro_offset (version_ b))).

(** The head of [Put]: roll to a new file when the current one is full. *)
Definition Put_roll : BM unit :=
  let* filesize := queue_Filesize in
  let* b := getb in
  if filesize >? file_size_ b then
    modb (set_queue None) ;;;
    modb (λ b, set_pro_num (u32 (pro_num_ b + 1)) b) ;;;
    let* b := getb in
    new_writable (NewFileName (filename_ b) (pro_num_ b)) ;;;
    modb (λ b, set_version (mkVersion (pro_num_ b) 0 (v_logic_id (version_ b))
                              (v_term (version_ b))) b) ;;;
    StableSave ;;;
    InitLogFile
  else ret tt.

(** [Put(const char*, int)].  A length over [INT_MAX] is undefined. *)
Definition Put_raw (item : bytes) : BM Status :=
  massert (zlen item <? 2 ^ 31) ;;;
  Put_roll ;;;
  let* r := Produce item in
  let '(s, pro_offset) := r in
  if ok s then
    modb (λ b, set_version (mkVersion (v_pro_num (version_ b)) (u64 pro_offset)
                              (u64 (v_logic_id (version_ b) + 1)) (v_term (version_ b))) b) ;;;
    StableSave ;;;
    ret s
  else ret s.

Definition Put (item : bytes) : BM Status :=
  let* b := getb in
  if negb (opened_ b) then ret (Busy "Binlog is not open yet") else
  let* s := Put_raw item in
  (if ok s then ret tt else modb (set_io_error true)) ;;;
  ret s.

(** *** Repositioning *)

(** The [while] of [AppendPadding]: the status and the bytes left over. *)
Fixpoint AppendPadding_loop (fuel : nat) (now lft : Z) : BM (Status * Z) :=
  match fuel with
  | O => abort
  | S fuel =>
    if negb (0 <? lft) then ret (OK, lft) else
    let size := if kBlockSize <=? lft then kBlockSize else lft in
    if size <? kHeaderSize then ret (OK, lft) else
    let bsize := size - kHeaderSize in
    let* s := queue_Append (record_header bsize now kBadRecord) in
    if negb (ok s) then ret (s, lft) else
    let* s := queue_Append (zrep bsize "*"%byte) in
    if negb (ok s) then ret (s, lft) else
    let* s := queue_Flush in
    if ok s then AppendPadding_loop fuel now (lft - size) else ret (s, lft - size)
  end.

(** Returns the status and the updated [*len]. *)
Definition AppendPadding (len : Z) : BM (Status * Z) :=
  if len <? kHeaderSize then ret (OK, len) else
  let* now := io env_time in
  let* r := AppendPadding_loop (2 + Z.to_nat (len / kBlockSize)) now len in
  let '(s, lft) := r in
  ret (s, len - lft).

Definition delete_if_exists (f : string) : BM unit :=
  let* fs := getfs in
  if env_exists fs f then io (λ fs, env_delete fs f) ;;; ret tt else ret tt.

Definition SetProducerStatus (pro_num pro_offset t idx : Z) : BM Status :=
  let* b := getb in
  if negb (opened_ b) then ret (Busy "Binlog is not open yet") else
  let pro_offset := if pro_offset <? 4 then 0 else pro_offset in
  modb (set_queue None) ;;;
  delete_if_exists (NewFileName (filename_ b) 0) ;;;
  let profile := NewFileName (filename_ b) pro_num in
  delete_if_exists profile ;;;
  new_writable profile ;;;
  let* r := AppendPadding pro_offset in
  let pro_offset := r.2 in
  modb (set_pro_num pro_num) ;;;
  modb (set_version (mkVersion pro_num pro_offset idx t)) ;;;
  StableSave ;;;
  InitLogFile ;;;
  ret OK.

(** After a failed [open] or [ftruncate] the pointer [queue_] dangles; a
    later use of it is undefined ([None]). *)
Definition Truncate (pro_num pro_offset idx : Z) : BM Status :=
  modb (set_queue None) ;;;
  let* b := getb in let* fs := getfs in
  let profile := NewFileName (filename_ b) pro_num in
  if negb (env_open_rdwr fs profile) then ret (IOError "fd open failed") else
  let* done := io (λ fs, env_ftruncate fs profile pro_offset) in
  if negb done then ret (IOError "ftruncate failed") else
  modb (set_pro_num pro_num) ;;;
  modb (λ b, set_version (mkVersion pro_num pro_offset idx (v_term (version_ b))) b) ;;;
  StableSave ;;;
  let* s := append_writable profile pro_offset in
  if negb (ok s) then ret s else
  InitLogFile ;;;
  ret OK.
End Ops.

Arguments queue_Append : simpl never.
Arguments queue_Flush : simpl never.
Arguments queue_Filesize : simpl never.
Arguments StableSave : simpl never.
Arguments InitLogFile : simpl never.
Arguments Produce : simpl never.
Arguments AppendPadding : simpl never.
Arguments Put_roll : simpl never.
Arguments new_writable : simpl never.
Arguments append_writable : simpl never.
Arguments NewFileName : simpl never.

(** ** Facts about file names *)

Lemma str_take_short n s : (String.length s ≤ n)%nat → str_take n s = s.
Proof.
  revert s; induction n as [|n IH]; intros [|c s]; cbn; intros; try done; [lia|].
  by rewrite IH by lia.
Qed.

Lemma c_str_no_nul s : no_nul s = true → c_str s = s.
Proof.
  induction s as [|c s IH]; cbn [no_nul lacks c_str]; [done|].
  destruct (bool_decide (c = Ascii.zero)); [done|]. intros. by rewrite IH.
Qed.

Lemma pretty_u32_length n : 0 ≤ n < 2 ^ 32 → (String.length (pretty n) ≤ 10)%nat.
Proof.
  intros Hn. apply (pretty_Z_length 10); [lia|]. change (10 ^ Z.of_nat 10) with 10000000000. lia.
Qed.

Lemma NewFileName_inj name n m :
  no_nul name = true → (String.length name ≤ 245)%nat →
  0 ≤ n < 2 ^ 32 → 0 ≤ m < 2 ^ 32 → NewFileName name n = NewFileName name m → n = m.
Proof.
  intros Hn Hl Hr Hr' H. unfold NewFileName in H.
  pose proof (pretty_u32_length n Hr). pose proof (pretty_u32_length m Hr').
  rewrite !c_str_no_nul, !str_take_short in H by (rewrite ?length_append; lia || done).
  by apply (inj (String.append name)), (inj pretty) in H.
Qed.

Lemma str_take_app k s t : (String.length s ≤ k)%nat →
  str_take k (s +:+ t) = s +:+ str_take (k - String.length s) t.
Proof.
  revert k; induction s as [|c s IH]; intros [|k] Hk; cbn in Hk; try done; [lia|].
  change (String c (str_take k (s +:+ t)) = String c (s +:+ str_take (k - String.length s) t)).
  by rewrite IH by lia.
Qed.

Lemma no_nul_app s t : no_nul (s +:+ t) = no_nul s && no_nul t.
Proof. apply lacks_app. Qed.

Lemma append_assoc s t u : (s +:+ t) +:+ u = s +:+ (t +:+ u).
Proof.
  induction s as [|c s IH]; [done|].
  change (String c ((s +:+ t) +:+ u) = String c (s +:+ (t +:+ u))). by rewrite IH.
Qed.

(** The names a binlog opened on a short path uses. *)
Lemma manifest_not_log path n :
  no_nul path = true → (String.length path ≤ 235)%nat →
  path +:+ kManifest ≠ NewFileName (path +:+ kBinlogPrefix) n.
Proof.
  intros Hp Hl. unfold NewFileName. rewrite c_str_no_nul.
  2:{ rewrite no_nul_app, Hp. done. }
  rewrite append_assoc, str_take_app by lia. intros H. apply (inj (String.append path)) in H.
  destruct (255 - String.length path)%nat eqn:E; [done|]. discriminate H.
Qed.

(** ** The physical layout

    [emits begin bo item out bo']: written from block offset [bo] on, [item]
    (the rest of an item unless [begin]) is the byte sequence [out] and leaves
    the block offset [bo'].  This is the specification of [Produce] that the
    reader relies on. *)

Inductive emits : bool → Z → bytes → bytes → Z → Prop :=
  | emits_pad begin bo item out bo' :
      bo ≤ kBlockSize → kBlockSize - bo < kHeaderSize →
      emits begin 0 item out bo' →
      emits begin bo item (zrep (kBlockSize - bo) x00 ++ out) bo'
  | emits_end (begin : bool) bo item now :
      0 ≤ bo → bo + kHeaderSize + zlen item ≤ kBlockSize →
      emits begin bo item
        (record_header (zlen item) now (if begin then kFullType else kLastType) ++ item)
        (bo + kHeaderSize + zlen item)
  | emits_frag (begin : bool) bo item now avail out bo' :
      0 ≤ bo → avail = kBlockSize - bo - kHeaderSize → 0 ≤ avail < zlen item →
      emits false kBlockSize (zdrop avail item) out bo' →
      emits begin bo item
        (record_header avail now (if begin then kFirstType else kMiddleType)
           ++ ztake avail item ++ out) bo'.

Lemma zlen_header n now t : zlen (record_header n now t) = kHeaderSize.
Proof. done. Qed.

Ltac const := unfold kBlockSize, kHeaderSize in *.

(** What an item occupies, and that block and file offsets stay aligned. *)
Lemma emits_bounds begin bo item out bo' :
  emits begin bo item out bo' → 0 ≤ bo ≤ kBlockSize →
  kHeaderSize ≤ zlen out ∧ zlen item ≤ zlen out ∧ 0 ≤ bo' ≤ kBlockSize ∧
  (kBlockSize | bo + zlen out - bo').
Proof.
  induction 1 as [begin bo item out bo' ?? _ IH
                 |begin bo item now ??|begin bo item now avail out bo' ? -> ? _ IH];
    intros Hbo; rewrite ?zlen_app, ?zlen_header in *; pose proof (zlen_nonneg item).
  - rewrite zlen_zrep by lia. destruct IH as (?&?&?&k&IH); [const; lia|].
    split_and!; try (const; lia). exists (k + 1). const; lia.
  - split_and!; try (const; lia). exists 0. lia.
  - destruct IH as (?&?&?&k&IH); [const; lia|].
    rewrite zlen_zdrop in * by lia. rewrite zlen_ztake by lia. split_and!; try (const; lia).
    exists k. lia.
Qed.

(** A record after which the reader's [GetNext] stops. *)
Definition unit_record (r : bytes) : Prop :=
  ∃ n now t frag, r = record_header n now t ++ frag ∧ n = zlen frag ∧
    0 ≤ n ≤ kBlockSize - kHeaderSize ∧ (t = kFullType ∨ t = kLastType ∨ t = kBadRecord).

(** A block prefix that [GetNext] walks record by record. *)
Definition walk (w : bytes) : Prop :=
  ∃ recs, w = concat recs ∧ Forall unit_record recs.

(** The data [d] ends [bo] bytes into a block, and [Seek] can reach its end. *)
Definition seekable (bo : Z) (d : bytes) : Prop :=
  ∃ pre w, d = pre ++ w ∧ (kBlockSize | zlen pre) ∧ walk w ∧ zlen w = bo.

Lemma walk_nil : walk [].
Proof. by exists []. Qed.

Lemma walk_snoc w r : walk w → unit_record r → walk (w ++ r).
Proof.
  intros (recs & -> & Hf) Hr. exists (recs ++ [r]). split.
  - rewrite concat_app; cbn; by rewrite app_nil_r.
  - apply Forall_app. auto.
Qed.

Lemma seekable_nil : seekable 0 [].
Proof. exists [], []. split_and!; [done|by exists 0|apply walk_nil|done]. Qed.

Lemma seekable_aligned bo d : seekable bo d → (kBlockSize | bo - zlen d).
Proof. intros (pre & w & -> & [k Hk] & _ & <-). exists (- k). rewrite zlen_app. lia. Qed.

(** Reopening at the end of the data: a full block counts as an empty one. *)
Lemma seekable_mod bo d :
  seekable bo d → 0 ≤ bo ≤ kBlockSize → seekable (zlen d mod kBlockSize) d.
Proof.
  intros (pre & w & -> & [k Hk] & Hw & <-) Hb. rewrite zlen_app, Hk.
  rewrite Z.add_comm, Z.mod_add by (const; lia).
  destruct (decide (zlen w = kBlockSize)) as [He|He].
  - rewrite He, Z.mod_same by (const; lia). exists (pre ++ w), [].
    rewrite app_nil_r. split_and!; [done| |apply walk_nil|done].
    exists (k + 1). rewrite zlen_app. lia.
  - rewrite Z.mod_small by lia. exists pre, w. split_and!; try done. by exists k.
Qed.

(** Producing an item keeps the end of the data reachable. *)
Lemma emits_walk begin bo item out bo' :
  emits begin bo item out bo' → ∀ w, zlen w = bo → 0 ≤ bo ≤ kBlockSize →
  (walk w ∨ bo = kBlockSize) → seekable bo' (w ++ out).
Proof.
  induction 1 as [begin bo item out bo' ?? _ IH|begin bo item now ??
                 |begin bo item now avail out bo' ? Hav ? _ IH]; intros w Hz Hb Hw.
  - destruct (IH [] eq_refl ltac:(const; lia) (or_introl walk_nil)) as (pre & w' & He & [k Hk] & Hw').
    exists (w ++ zrep (kBlockSize - bo) x00 ++ pre), w'. cbn in He. rewrite He, <- !app_assoc.
    split_and!; [done| |apply Hw'..]. exists (k + 1).
    rewrite !zlen_app, zlen_zrep by lia. lia.
  - pose proof (zlen_nonneg item). destruct Hw as [Hw| ->]; [|const; lia].
    exists [], (w ++ record_header (zlen item) now (if begin then kFullType else kLastType) ++ item).
    split_and!; [done|by exists 0| |by rewrite !zlen_app, zlen_header, Hz, Z.add_assoc].
    apply walk_snoc; [done|]. do 4 eexists. split_and!; [done|done|lia|const; lia|].
    destruct begin; auto.
  - destruct (IH (w ++ record_header avail now (if begin then kFirstType else kMiddleType)
                    ++ ztake avail item)) as (pre & w' & He & Hk & Hw').
    + rewrite !zlen_app, zlen_header, zlen_ztake by lia. lia.
    + const; lia.
    + by right.
    + exists pre, w'. rewrite <- He, <- !app_assoc. done.
Qed.

Lemma emits_seekable bo d item out bo' :
  seekable bo d → 0 ≤ bo ≤ kBlockSize → emits true bo item out bo' → seekable bo' (d ++ out).
Proof.
  intros (pre & w & -> & [k Hk] & Hw & Hz) Hb He.
  destruct (emits_walk _ _ _ _ _ He w Hz Hb (or_introl Hw)) as (pre' & w' & Heq & [k' Hk'] & Hw').
  exists (pre ++ pre'), w'. rewrite <- !app_assoc, Heq. split_and!; [done| |apply Hw'..].
  exists (k + k'). rewrite zlen_app. lia.
Qed.

(** ** The manifest image and the invariant of an open binlog *)

Definition manifest_image (v : Version) : bytes :=
  le_bytes 4 (v_pro_num v) ++ le_bytes 8 (v_pro_offset v) ++
  le_bytes 8 (v_logic_id v) ++ le_bytes 4 (v_term v).

(** Every field fits its C++ type. *)
Definition version_ok (v : Version) : Prop :=
  0 ≤ v_pro_num v < 2 ^ 32 ∧ 0 ≤ v_pro_offset v < 2 ^ 64 ∧
  0 ≤ v_logic_id v < 2 ^ 64 ∧ 0 ≤ v_term v < 2 ^ 32.

(** The file being written. *)
Definition cur_file (b : Binlog) : string := NewFileName (filename_ b) (pro_num_ b).

(** File names are C strings short enough for the name buffer, and the manifest
    is not a log file. *)
Definition names_ok (b : Binlog) : Prop :=
  no_nul (filename_ b) = true ∧ (String.length (filename_ b) ≤ 245)%nat ∧
  ∀ n, versionfile_ b ≠ NewFileName (filename_ b) n.

(** ** Facts about the writer *)

Section Facts.
Context {FS : Type} {E : SlashEnv FS} {L : SlashEnvLaws FS}.
Implicit Types (fs : FS) (b : Binlog).

Lemma EmitPhysicalRecord_spec fs b q t ptr tpo :
  queue_ b = Some q → 0 ≤ block_offset_ b →
  block_offset_ b + kHeaderSize + zlen ptr ≤ kBlockSize →
  ∃ s now fs', EmitPhysicalRecord t ptr tpo (fs, b) =
    Some ((s, s32 (tpo + kHeaderSize + zlen ptr)),
          (fs', set_block_offset (block_offset_ b + kHeaderSize + zlen ptr) b)) ∧
    agree_but q fs fs' ∧
    (s = OK → ∀ d, file_data fs q = Some d →
      file_data fs' q = Some (d ++ record_header (zlen ptr) now t ++ ptr)) ∧
    (ReliableEnv FS → is_Some (file_data fs q) → s = OK).
Proof.
  intros Hq Hb Hn. pose proof (zlen_nonneg ptr).
  unfold EmitPhysicalRecord, bind, massert, getb, io, queue_Append, queue_Flush,
    with_queue, modb, ret.
  rewrite (proj2 (Z.leb_le _ _)) by (const; lia). cbn.
  rewrite (proj2 (Z.leb_le _ _)) by (const; lia).
  pose proof (agree_time fs) as At.
  destruct (env_time fs) as [now fs1] eqn:Et. cbn in *. rewrite Hq. cbn.
  pose proof (agree_but_append fs1 q (record_header (zlen ptr) now t)) as A1.
  destruct (env_append fs1 q (record_header (zlen ptr) now t)) as [s1 fs2] eqn:E1.
  assert (s32 (kHeaderSize + zlen ptr) = kHeaderSize + zlen ptr) as Hs
    by (apply s32_small; const; lia).
  cbn in *. rewrite Hs.
  destruct (ok s1) eqn:Ok1; cbn; rewrite ?Hq; cbn;
    [|exists s1, now, fs2; rewrite Z.add_assoc; split_and!;
       [done|etrans; [by apply agree_agree_but|done]|by intros ->|]].
  2:{ intros Rel Hex. rewrite <- (proj1 (At q)) in Hex.
      pose proof (rel_append fs1 q (record_header (zlen ptr) now t) Hex) as Hr.
      rewrite E1 in Hr. cbn in Hr. by subst. }
  pose proof (agree_but_append fs2 q ptr) as A2.
  destruct (env_append fs2 q ptr) as [s2 fs3] eqn:E2. cbn in *.
  destruct (ok s2) eqn:Ok2; cbn; rewrite ?Hq; cbn;
    [|exists s2, now, fs3; rewrite Z.add_assoc; split_and!;
       [done|etrans; [by apply agree_agree_but|etrans; done]|by intros ->|]].
  2:{ intros Rel [d Hex]. rewrite <- (proj1 (At q)) in Hex. apply ok_true in Ok1 as ->.
      pose proof (rel_append fs2 q ptr) as Hr. rewrite E2 in Hr. apply Hr.
      eexists. by eapply law_append. }
  pose proof (agree_flush fs3 q) as A3.
  destruct (env_flush fs3 q) as [s3 fs4] eqn:E3. cbn in *.
  exists s3, now, fs4. rewrite Z.add_assoc. split_and!; [done| | |].
  - etrans; [by apply agree_agree_but|]. etrans; [done|]. etrans; [done|].
    by apply agree_agree_but.
  - intros -> d Hd. apply ok_true in Ok1 as ->. apply ok_true in Ok2 as ->.
    rewrite (proj1 (A3 q)), app_assoc. eapply law_append; [done|].
    eapply law_append; [done|]. by rewrite (proj1 (At q)).
  - intros Rel [d Hex]. rewrite <- (proj1 (At q)) in Hex.
    apply ok_true in Ok1 as ->. apply ok_true in Ok2 as ->.
    pose proof (rel_flush fs3 q) as Hr. rewrite E3 in Hr. apply Hr.
    eexists. do 2 (eapply law_append; [done|]). done.
Qed.

Lemma queue_Append_eq fs b q d : queue_ b = Some q →
  queue_Append d (fs, b) = Some ((env_append fs q d).1, ((env_append fs q d).2, b)).
Proof.
  intros Hq. unfold queue_Append, with_queue, bind, getb, io. cbn. rewrite Hq.
  by destruct (env_append fs q d).
Qed.

Lemma set_block_offset_id b : set_block_offset (block_offset_ b) b = b.
Proof. by destruct b. Qed.

Lemma Produce_pad_spec fs b q tpo :
  queue_ b = Some q → 0 ≤ block_offset_ b ≤ kBlockSize → s32 tpo = tpo →
  ∃ s tpo' fs' bo1, Produce_pad tpo (fs, b) =
      Some ((s, tpo'), (fs', set_block_offset bo1 b)) ∧
    agree_but q fs fs' ∧ s32 tpo' = tpo' ∧
    (s = OK → 0 ≤ bo1 ≤ kBlockSize - kHeaderSize ∧
      (bo1 = kBlockSize - kHeaderSize → block_offset_ b = bo1) ∧
      ∃ pad, (∀ begin left out bo', emits begin bo1 left out bo' →
                emits begin (block_offset_ b) left (pad ++ out) bo') ∧
        tpo' = s32 (tpo + zlen pad) ∧
        ∀ d, file_data fs q = Some d → file_data fs' q = Some (d ++ pad)) ∧
    (ReliableEnv FS → is_Some (file_data fs q) → s = OK).
Proof.
  intros Hq Hb Ht. unfold Produce_pad, bind, getb, massert. cbn.
  rewrite (proj2 (Z.leb_le _ _)) by lia. cbn.
  destruct (Z.ltb_spec (kBlockSize - block_offset_ b) kHeaderSize).
  2:{ exists OK, tpo, fs, (block_offset_ b). rewrite set_block_offset_id.
      split_and!; try done. intros _. split_and!; try (const; lia).
      exists []. split_and!; [done|by rewrite Z.add_0_r|].
      intros d. by rewrite app_nil_r. }
  destruct (Z.ltb_spec 0 (kBlockSize - block_offset_ b)) as [Hl|Hl].
  - unfold bind. rewrite (queue_Append_eq _ _ q) by done.
    pose proof (agree_but_append fs q (zrep (kBlockSize - block_offset_ b) x00)) as A.
    destruct (env_append fs q _) as [s fs'] eqn:Ea. cbn in *.
    destruct (ok s) eqn:Eo; cbn.
    2:{ exists s, tpo, fs', (block_offset_ b). rewrite set_block_offset_id.
        split_and!; try done; [by intros ->|]. intros Rel Hex.
        pose proof (rel_append fs q (zrep (kBlockSize - block_offset_ b) x00) Hex) as Hr.
        by rewrite Ea in Hr. }
    apply ok_true in Eo as ->. exists OK. do 3 eexists. split_and!; [done|done| | |done].
    { apply s32_idemp. }
    intros _. split_and!; try (const; lia).
    exists (zrep (kBlockSize - block_offset_ b) x00). split_and!.
    + intros. apply emits_pad; [lia|done|done].
    + by rewrite zlen_zrep by lia.
    + intros d Hd. by eapply law_append.
  - exists OK, tpo, fs, 0. split_and!; try done. intros _. split_and!; try (const; lia).
    exists []. split_and!; [|by rewrite Z.add_0_r|].
    + intros begin lft out bo' He. pose proof (emits_pad begin (block_offset_ b) lft out bo') as Hp.
      replace (kBlockSize - block_offset_ b) with 0 in Hp by lia.
      apply Hp; [lia|const; lia|done].
    + intros d. by rewrite app_nil_r.
Qed.

(** The loop of [Produce] always returns, and on success has appended the
    layout of the item to the file. *)
Lemma Produce_loop_spec (fuel : nat) : ∀ fs b q (left : bytes) (begin : bool) tpo,
  queue_ b = Some q → 0 ≤ block_offset_ b ≤ kBlockSize → s32 tpo = tpo →
  (length left + (if decide (block_offset_ b = kBlockSize - kHeaderSize)%Z then 2 else 1)
     ≤ fuel)%nat →
  ∃ s tpo' fs' bo', Produce_loop fuel left begin tpo (fs, b) =
      Some ((s, tpo'), (fs', set_block_offset bo' b)) ∧
    agree_but q fs fs' ∧
    (s = OK → ∀ d, file_data fs q = Some d →
       ∃ out, emits begin (block_offset_ b) left out bo' ∧
         file_data fs' q = Some (d ++ out) ∧ tpo' = s32 (tpo + zlen out)) ∧
    (ReliableEnv FS → is_Some (file_data fs q) → s = OK).
Proof.
  induction fuel as [|fuel IH]; intros fs b q lft begin tpo Hq Hb Ht Hf;
    [destruct (decide _); lia|].
  destruct (Produce_pad_spec fs b q tpo) as (s & tpo1 & fs1 & bo1 & Hp & A1 & Ht1 & Hok & R1);
    [done..|].
  cbn [Produce_loop]. unfold bind at 1. rewrite Hp.
  destruct (ok s) eqn:Eo; cbn [negb].
  2:{ exists s, tpo1, fs1, bo1. split_and!; try done. by intros ->. }
  clear R1. apply ok_true in Eo as ->. destruct (Hok eq_refl) as (Hb1 & Hb1' & pad & Hpad & Htp & Hd1).
  clear Hok. unfold bind at 1, getb. cbn [snd block_offset_ set_block_offset].
  set (avail := kBlockSize - bo1 - kHeaderSize).
  set (fl := if zlen lft <? avail then zlen lft else avail).
  pose proof (zlen_nonneg lft).
  assert (0 ≤ fl ≤ zlen lft ∧ fl ≤ avail) as Hfl.
  { unfold fl. destruct (Z.ltb_spec (zlen lft) avail); [lia|]. unfold avail; lia. }
  destruct (EmitPhysicalRecord_spec fs1 (set_block_offset bo1 b) q
    (if begin && (zlen lft =? fl) then kFullType else if begin then kFirstType
     else if zlen lft =? fl then kLastType else kMiddleType) (ztake fl lft) tpo1)
    as (s2 & now & fs2 & He & A2 & Hd2 & R2); [done|cbn; lia| |].
  { cbn. rewrite zlen_ztake by lia. unfold avail in *. lia. }
  cbn [block_offset_ set_block_offset] in He, Hd2.
  rewrite zlen_ztake in He, Hd2 by lia.
  unfold bind at 1. rewrite He. rewrite zlen_zdrop by lia.
  assert (ReliableEnv FS → is_Some (file_data fs q) → s2 = OK) as R2'
    by (intros ? [? ?]; eauto). clear R2.
  destruct (Z.eqb_spec (zlen lft) fl) as [Heq|Hne].
  - rewrite (proj2 (Z.ltb_ge 0 _)), andb_false_r by lia.
    do 4 eexists. split_and!; [done|by etrans| |done]. intros -> d Hd.
    eexists. split_and!.
    + apply Hpad. rewrite <- Heq.
      apply (emits_end begin bo1 lft now); [lia|]. unfold avail in *. lia.
    + rewrite app_assoc, (Hd2 eq_refl _ (Hd1 _ Hd)). rewrite ztake_all by lia.
      rewrite <- Heq. by destruct begin.
    + rewrite !zlen_app, zlen_header, Htp, <- Z.add_assoc, s32_s32_add. f_equal. lia.
  - assert (fl = avail) as Hav.
    { unfold fl in *. destruct (Z.ltb_spec (zlen lft) avail); lia. }
    destruct (ok s2) eqn:Eo2.
    2:{ rewrite andb_false_l. do 4 eexists. split_and!; [done|by etrans| |done]. by intros ->. }
    apply ok_true in Eo2 as ->. rewrite (proj2 (Z.ltb_lt 0 _)) by lia. cbn [andb].
    edestruct (IH fs2 (set_block_offset (bo1 + kHeaderSize + fl) (set_block_offset bo1 b))
      q (zdrop fl lft) false (s32 (tpo1 + kHeaderSize + fl)))
      as (s3 & tpo3 & fs3 & bo3 & Hl & A3 & Hd3 & R3); [done|..].
    + cbn. unfold avail in *. const. lia.
    + apply s32_idemp.
    + cbn. rewrite decide_False by (unfold avail in *; const; lia).
      unfold zdrop. rewrite length_drop.
      destruct (decide (fl = 0)) as [Hz|Hz].
      * rewrite decide_True in Hf; [lia|]. rewrite Hb1'; unfold avail in *; lia.
      * assert (1 ≤ Z.to_nat fl ≤ length lft)%nat by (unfold zlen in *; lia).
        destruct (decide _); lia.
    + rewrite Hl. do 4 eexists. split_and!; [done|by etrans; [|etrans]| |].
      2:{ intros Rel [d Hd]. apply R3; [done|]. eexists. by apply Hd2, Hd1. }
      intros -> d Hd.
      destruct (Hd3 eq_refl _ (Hd2 eq_refl _ (Hd1 _ Hd))) as (out & Hem & Hdat & Htpo).
      cbn in Hem. eexists. split_and!.
      * apply Hpad. apply (emits_frag begin bo1 lft now avail out bo3); try lia.
        rewrite <- Hav. replace kBlockSize with (bo1 + kHeaderSize + fl); [done|].
        unfold avail in *; lia.
      * rewrite Hdat, <- !app_assoc, Hav. by destruct begin.
      * rewrite Htpo, Htp, !zlen_app, zlen_header, zlen_ztake by lia.
        rewrite s32_s32_add, <- !Z.add_assoc, s32_s32_add. f_equal. lia.
Qed.

(** The invariant: the producer position is the end of the current file, block
    and file offsets agree modulo the block size, and the manifest holds the
    current version. *)
Record binlog_wf (fs : FS) (b : Binlog) : Prop := {
  wf_opened : opened_ b = true;
  wf_queue : queue_ b = Some (cur_file b);
  wf_num : v_pro_num (version_ b) = pro_num_ b;
  wf_version : version_ok (version_ b);
  wf_block : 0 ≤ block_offset_ b ≤ kBlockSize;
  wf_data : ∃ d, file_data fs (cur_file b) = Some d ∧
    zlen d = v_pro_offset (version_ b) ∧ seekable (block_offset_ b) d;
  wf_manifest : ∃ rest,
    env_rwdata fs (versionfile_ b) = Some (manifest_image (version_ b) ++ rest);
  wf_names : names_ok b;
}.

Lemma rwstore_app fs m off p w r :
  off = zlen p → env_rwdata fs m = Some (p ++ r) → zlen w ≤ zlen r →
  env_rwdata (env_rwstore fs m off w) m = Some ((p ++ w) ++ zdrop (zlen w) r).
Proof.
  intros -> Hd Hw. rewrite <- app_assoc, <- splice_app. apply law_rwstore; [done|apply zlen_nonneg|].
  rewrite zlen_app. lia.
Qed.

Lemma zlen_le_bytes n z : zlen (le_bytes n z) = Z.of_nat n.
Proof. unfold zlen. by rewrite length_le_bytes. Qed.

Lemma StableSave_spec fs b d :
  env_rwdata fs (versionfile_ b) = Some d → 24 ≤ zlen d →
  ∃ fs' rest, StableSave (fs, b) = Some (OK, (fs', b)) ∧ agree_files fs fs' ∧
    env_rwdata fs' (versionfile_ b) = Some (manifest_image (version_ b) ++ rest).
Proof.
  intros Hd Hl. unfold StableSave, bind, getb, getfs, modfs, ret. cbn. rewrite Hd.
  do 2 eexists. split; [done|]. split.
  { do 4 (etrans; [|apply agree_files_rwstore]). done. }
  set (v := version_ b). set (m := versionfile_ b) in *.
  set (w1 := le_bytes 4 (v_pro_num v)). set (w2 := le_bytes 8 (v_pro_offset v)).
  set (w3 := le_bytes 8 (v_logic_id v)). set (w4 := le_bytes 4 (v_term v)).
  assert (zlen w1 = 4 ∧ zlen w2 = 8 ∧ zlen w3 = 8 ∧ zlen w4 = 4) as (Z1 & Z2 & Z3 & Z4)
    by (split_and!; apply zlen_le_bytes).
  pose proof (rwstore_app fs m 0 [] w1 d eq_refl Hd ltac:(lia)) as H1.
  eapply (rwstore_app _ m 4 w1 w2) in H1; [|lia|rewrite zlen_zdrop; lia].
  eapply (rwstore_app _ m 12 (w1 ++ w2) w3) in H1;
    [|rewrite zlen_app; lia|rewrite zdrop_zdrop, zlen_zdrop; lia].
  eapply (rwstore_app _ m 20 ((w1 ++ w2) ++ w3) w4) in H1;
    [|rewrite !zlen_app; lia|rewrite !zdrop_zdrop, zlen_zdrop; lia].
  rewrite H1. unfold manifest_image. fold v w1 w2 w3 w4.
  rewrite <- !(app_assoc w1), <- !(app_assoc w2), <- (app_assoc w3). done.
Qed.

Lemma queue_Filesize_eq fs b q d :
  queue_ b = Some q → file_data fs q = Some d →
  queue_Filesize (fs, b) = Some (zlen d, (fs, b)).
Proof.
  intros Hq Hd. unfold queue_Filesize, with_queue, bind, getb, io. cbn. rewrite Hq.
  by rewrite (law_filesize _ _ _ Hd).
Qed.

Lemma InitLogFile_eq fs b q d :
  queue_ b = Some q → file_data fs q = Some d →
  InitLogFile (fs, b) =
    Some (tt, (fs, set_opened true (set_block_offset (zlen d mod kBlockSize) b))).
Proof.
  intros Hq Hd. unfold InitLogFile, bind, modb.
  by rewrite (queue_Filesize_eq _ _ _ _ Hq Hd).
Qed.

(** [new_writable] leaves an open empty file, or no file. *)
Lemma new_writable_spec fs b f :
  ∃ s fs', new_writable f (fs, b) =
      Some (s, (fs', set_queue (if ok s then Some f else None) b)) ∧
    agree_but f fs fs' ∧ (s = OK → file_data fs' f = Some []).
Proof.
  unfold new_writable, bind, io, modb, ret.
  pose proof (agree_but_new_writable fs f) as A.
  pose proof (law_new_writable fs f) as Hn.
  destruct (env_new_writable fs f) as [s fs']. do 2 eexists. split_and!; [done|done|].
  intros ->. by apply Hn.
Qed.

(** Rolling keeps the invariant; it happens exactly when the file has
    outgrown [file_size_], and then starts an empty file. *)
Lemma Put_roll_spec fs b fs1 b1 :
  binlog_wf fs b → Put_roll (fs, b) = Some (tt, (fs1, b1)) →
  binlog_wf fs1 b1 ∧
  if v_pro_offset (version_ b) >? file_size_ b then
    b1 = set_opened true (set_block_offset 0 (set_version
      (mkVersion (u32 (pro_num_ b + 1)) 0 (v_logic_id (version_ b)) (v_term (version_ b)))
      (set_queue (Some (NewFileName (filename_ b) (u32 (pro_num_ b + 1))))
        (set_pro_num (u32 (pro_num_ b + 1)) b)))) ∧
    file_data fs1 (cur_file b1) = Some [] ∧ agree_files_but (cur_file b1) fs fs1
  else fs1 = fs ∧ b1 = b.
Proof.
  intros W H. destruct (wf_data _ _ W) as (d & Hd & Hl & Ha).
  unfold Put_roll in H. unfold bind at 1 in H.
  rewrite (queue_Filesize_eq _ _ _ _ (wf_queue _ _ W) Hd), Hl in H.
  unfold bind at 1, getb in H. cbn [snd] in H.
  destruct (v_pro_offset (version_ b) >? file_size_ b).
  2:{ unfold ret in H. by simplify_eq. }
  unfold bind, modb in H. cbn in H.
  set (n := u32 (pro_num_ b + 1)) in *. set (f := NewFileName (filename_ b) n) in *.
  match type of H with context [new_writable f (_, ?b0)] =>
    destruct (new_writable_spec fs b0 f) as (s & fs' & Hn & A & Hs) end.
  rewrite Hn in H. destruct (wf_manifest _ _ W) as (rest & Hm).
  destruct (wf_names _ _ W) as (N1 & N2 & N3).
  cbn in H. match type of H with context [StableSave (_, ?b0)] =>
    destruct (StableSave_spec fs' b0 (manifest_image (version_ b) ++ rest))
      as (fs2 & rest2 & Hst & A2 & Hm2) end.
  { cbn. rewrite (proj2 (A (versionfile_ b) (N3 n))). done. }
  { unfold manifest_image. rewrite !zlen_app, !zlen_le_bytes. pose proof (zlen_nonneg rest). lia. }
  rewrite Hst in H. destruct (ok s) eqn:Eo.
  2:{ cbn in H. done. }
  apply ok_true in Eo as ->. cbn in H.
  assert (file_data fs2 f = Some []) as Hf by (rewrite A2; auto).
  rewrite (InitLogFile_eq _ _ f []) in H by done.
  injection H as <- <-. destruct (wf_version _ _ W) as (?&?&?&?).
  split; [|split_and!; [done|done|]].
  - split; try done; cbn.
    + split_and!; cbn; try lia; apply u32_range.
    + exists []. split_and!; [done..|]. apply seekable_nil.
    + by eexists.
  - etrans; [apply agree_but_files, A|]. by apply agree_files_files_but.
Qed.

Lemma zlen_manifest_image v : zlen (manifest_image v) = 24.
Proof. unfold manifest_image. by rewrite !zlen_app, !zlen_le_bytes. Qed.

(** A successful [Put] has appended the layout of the item to the file that is
    current after rolling, and advanced the producer position over it. *)
Lemma Put_spec fs b item fs' b' :
  binlog_wf fs b → Put item (fs, b) = Some (OK, (fs', b')) →
  ∃ fs1 b1 d out bo', Put_roll (fs, b) = Some (tt, (fs1, b1)) ∧ binlog_wf fs1 b1 ∧
    file_data fs1 (cur_file b1) = Some d ∧ zlen d = v_pro_offset (version_ b1) ∧
    seekable (block_offset_ b1) d ∧ seekable bo' (d ++ out) ∧
    emits true (block_offset_ b1) item out bo' ∧
    file_data fs' (cur_file b1) = Some (d ++ out) ∧
    agree_files_but (cur_file b1) fs1 fs' ∧
    b' = set_version (mkVersion (pro_num_ b1) (u64 (s32 (zlen d + zlen out)))
                        (u64 (v_logic_id (version_ b1) + 1)) (v_term (version_ b1)))
           (set_block_offset bo' b1) ∧
    (zlen d + zlen out < 2 ^ 31 → binlog_wf fs' b').
Proof.
  intros W H. unfold Put in H. unfold bind at 1, getb in H. cbn [snd] in H.
  rewrite (wf_opened _ _ W) in H. cbn [negb] in H. unfold bind at 1 in H.
  destruct (Put_raw item (fs, b)) as [[s [fs0 b0]]|] eqn:Hr; [|done].
  assert (s = OK ∧ fs0 = fs' ∧ b0 = b') as (-> & -> & ->).
  { destruct s; unfold bind, ret, modb in H; cbn in H; by simplify_eq. }
  clear H. unfold Put_raw, bind, massert in Hr.
  destruct (zlen item <? 2 ^ 31); [|done]. cbn in Hr.
  destruct (Put_roll (fs, b)) as [[[] [fs1 b1]]|] eqn:Hroll; [|done].
  destruct (Put_roll_spec _ _ _ _ W Hroll) as [W1 _].
  destruct (wf_data _ _ W1) as (d & Hd & Hl & Hal).
  unfold Produce, bind, getb in Hr. cbn [snd] in Hr.
  destruct (Produce_loop_spec (2 + length item) fs1 b1 (cur_file b1) item true
    (s32 (v_pro_offset (version_ b1)))) as (s & tpo & fs2 & bo' & Hp & A & Hok & _);
    [apply W1|apply W1|apply s32_idemp|destruct (decide _); lia|].
  rewrite Hp in Hr. destruct (ok s) eqn:Eo.
  2:{ cbn in Hr. injection Hr as ->. done. }
  apply ok_true in Eo as ->. destruct (Hok eq_refl d Hd) as (out & He & Hd' & ->).
  cbn in Hr. destruct (wf_manifest _ _ W1) as (rest & Hm).
  destruct (wf_names _ _ W1) as (N1 & N2 & N3).
  match type of Hr with context [StableSave (_, ?b0)] =>
    destruct (StableSave_spec fs2 b0 (manifest_image (version_ b1) ++ rest))
      as (fs3 & rest3 & Hst & A3 & Hm3) end.
  { cbn. by rewrite (proj2 (A (versionfile_ b1) (N3 _))). }
  { rewrite zlen_app, zlen_manifest_image. pose proof (zlen_nonneg rest). lia. }
  rewrite Hst in Hr. cbn in Hr. injection Hr as <- <-.
  rewrite (wf_num _ _ W1), s32_s32_add, <- Hl in *.
  assert (seekable bo' (d ++ out)) as Hsk by (eapply emits_seekable; eauto; apply W1).
  exists fs1, b1, d, out, bo'. split_and!; try done.
  - by rewrite A3.
  - etrans; [by apply agree_but_files|by apply agree_files_files_but].
  - intros Hb. destruct (emits_bounds _ _ _ _ _ He (wf_block _ _ W1)) as (?&?&?&_).
    pose proof (zlen_nonneg d). destruct (wf_version _ _ W1) as (?&?&?&?).
    assert (u64 (s32 (zlen d + zlen out)) = zlen d + zlen out) as Hu.
    { unfold kHeaderSize in *. rewrite s32_small, u64_small; lia. }
    split; try done; cbn.
    + apply W1.
    + apply W1.
    + rewrite Hu. rewrite <- (wf_num _ _ W1). const.
      split_and!; cbn; try lia; apply u64_range.
    + exists (d ++ out). rewrite zlen_app, Hu. split_and!; [by rewrite A3|done..].
    + by eexists.
Qed.
End Facts.
