(* ===== verification/BinlogReader.v ===== *)
(** * The binlog reader (src/pika_binlog_reader.cc)

    A reader walks the physical records of the binlog files and puts items
    together again.  The operations run in the monad [M PikaBinlogReader] over
    a file system and the binlog being read, which they do not change.  The
    loops carry fuel: [None] on exhaustion (or undefined behaviour), and the
    theorems of [BinlogRoundTrip] show how much is enough. *)

From S2P Require Import Prelude Define Env Binlog.
From stdpp Require Import base list strings pretty gmap.
From Stdlib Require Import ZArith Lia Init.Byte.
#[local] Open Scope string_scope.
#[local] Open Scope list_scope.
#[local] Open Scope Z_scope.

Record PikaBinlogReader := mkReader {
  cur_filenum_ : Z; cur_offset_ : Z; last_record_offset_ : Z;
  logger_ : bool;                     (* [logger_ != nullptr] *)
  rqueue_ : option (string * Z) }.    (* the open file and the read position *)

Definition Reader_new : PikaBinlogReader := mkReader 0 0 (0 mod kBlockSize) false None.
Definition Reader_new_at (cur_filenum cur_offset : Z) : PikaBinlogReader :=
  mkReader cur_filenum cur_offset (cur_offset mod kBlockSize) false None.

Definition set_pos (n o l : Z) (r : PikaBinlogReader) : PikaBinlogReader :=
  mkReader n o l (logger_ r) (rqueue_ r).
Definition set_rqueue (q : option (string * Z)) (r : PikaBinlogReader) : PikaBinlogReader :=
  mkReader (cur_filenum_ r) (cur_offset_ r) (last_record_offset_ r) (logger_ r) q.
Definition set_logger (r : PikaBinlogReader) : PikaBinlogReader :=
  mkReader (cur_filenum_ r) (cur_offset_ r) (last_record_offset_ r) true (rqueue_ r).

(** [const unsigned int type = header[7]]: a [char] sign-extends. *)
Definition char_to_uint (b : byte) : Z :=
  if b2z b <? 128 then b2z b else 2 ^ 32 - 256 + b2z b.

(** Length and type of a header of 8 bytes. *)
Definition decode_header (h : bytes) : option (Z * Z) :=
  match h with
  | [h0; h1; h2; _; _; _; _; h7] =>
      let a := Z.land (char_to_uint h0) 0xff in
      let b := Z.land (char_to_uint h1) 0xff in
      let c := Z.land (char_to_uint h2) 0xff in
      Some (Z.lor (Z.lor a (Z.shiftl b 8)) (Z.shiftl c 16), char_to_uint h7)
  | _ => None
  end.

Section Ops.
Context {FS : Type} {E : SlashEnv FS} (fs : FS) (logger : Binlog).

Abbreviation RM := (M PikaBinlogReader).

Definition seq_read (n : Z) : RM (Status * bytes) := λ r,
  match rqueue_ r with
  | Some (f, pos) =>
      let '(s, d, pos') := env_read fs f pos n in
      Some ((s, d), set_rqueue (Some (f, pos')) r)
  | None => None
  end.
Definition seq_skip (n : Z) : RM Status := λ r,
  match rqueue_ r with
  | Some (f, pos) =>
      let '(s, pos') := env_skip fs f pos n in Some (s, set_rqueue (Some (f, pos')) r)
  | None => None
  end.

Definition GetReaderStatus (r : PikaBinlogReader) : Z * Z := (cur_filenum_ r, cur_offset_ r).

Definition ReadToTheEnd : RM bool := λ r,
  let '(_, (pro_num, pro_offset, _, _)) := GetProducerStatus logger in
  Some ((pro_num =? cur_filenum_ r) && (pro_offset =? cur_offset_ r), r).

(** [GetNext]: whether it failed, and the bytes of the records passed.
    [acc] is the local [offset]; [*size] is 0 where the code leaves the
    caller's 0. *)
Fixpoint GetNext (fuel : nat) (acc : Z) : RM (bool * Z) :=
  match fuel with
  | O => abort
  | S fuel =>
    let* r := seq_read kHeaderSize in
    let '(s, header) := r in
    if negb (ok s) then ret (true, 0) else
    match decode_header header with
    | None => abort
    | Some (length, type) =>
      if length >? kBlockSize - kHeaderSize then ret (true, 0) else
      if type =? kFullType then
        seq_read length ;;; ret (false, acc + kHeaderSize + length)
      else if type =? kFirstType then
        seq_read length ;;; GetNext fuel (acc + kHeaderSize + length)
      else if type =? kMiddleType then
        seq_read length ;;; GetNext fuel (acc + kHeaderSize + length)
      else if type =? kLastType then
        seq_read length ;;; ret (false, acc + kHeaderSize + length)
      else if type =? kBadRecord then
        seq_read length ;;; ret (false, acc + kHeaderSize + length)
      else ret (true, acc)
    end
  end.

(** The [while] of [Seek]: walk from the start of the block to the target. *)
Fixpoint Seek_loop (fuel gfuel : nat) (start_block block_offset res : Z) : RM Z :=
  match fuel with
  | O => abort
  | S fuel =>
    if res >=? block_offset then
      modify (λ r, set_pos (cur_filenum_ r) (start_block + res) (last_record_offset_ r) r) ;;;
      modify (λ r, set_pos (cur_filenum_ r) (cur_offset_ r) (cur_offset_ r mod kBlockSize) r) ;;;
      ret 0
    else
      let* r := GetNext gfuel 0 in
      let '(is_error, size) := r in
      if (is_error : bool) then ret (-1)
      else Seek_loop fuel gfuel start_block block_offset (res + size)
  end.

(** [Seek]: 0 on success and -1 on failure.  [gfuel] bounds the records of
    one item. *)
Definition Seek (gfuel : nat) (filenum offset : Z) : RM Z :=
  let confile := NewFileName (filename_ logger) filenum in
  if negb (env_exists fs confile) then ret (-1) else
  if negb (ok (env_new_sequential fs confile)) then ret (-1) else
  modify (set_rqueue (Some (confile, 0))) ;;;
  modify set_logger ;;;
  modify (set_pos filenum offset (filenum mod kBlockSize)) ;;;
  let start_block := (offset / kBlockSize) * kBlockSize in
  seq_skip start_block ;;;
  let block_offset := offset mod kBlockSize in
  Seek_loop (1 + Z.to_nat block_offset) gfuel start_block block_offset 0.

(** The head of [ReadPhysicalRecord]: leave a block tail that holds no
    record. *)
Definition skip_tail : RM unit :=
  let* r := get in
  if kBlockSize - last_record_offset_ r <=? kHeaderSize then
    seq_skip (kBlockSize - last_record_offset_ r) ;;;
    modify (λ r, set_pos (cur_filenum_ r)
                   (cur_offset_ r + (kBlockSize - last_record_offset_ r)) 0 r)
  else ret tt.

(** The rest of [ReadPhysicalRecord]: the record type, the fragment, and the
    values of [*filenum] and [*offset], which [out] holds before. *)
Definition read_record (out : Z * Z) : RM (Z * bytes * (Z * Z)) :=
  let* rd := seq_read kHeaderSize in
  let '(s, header) := rd in
  if IsEndFile s then ret (kEof, [], out)
  else if negb (ok s) then ret (kBadRecord, [], out) else
  match decode_header header with
  | None => abort
  | Some (length, type) =>
    if length >? kBlockSize - kHeaderSize then ret (kBadRecord, [], out) else
    if (type =? kZeroType) || (length =? 0) then ret (kOldRecord, [], out) else
    let* rd := seq_read length in
    let '(s, result) := rd in
    modify (λ r, set_pos (cur_filenum_ r) (cur_offset_ r)
                   (last_record_offset_ r + (kHeaderSize + length)) r) ;;;
    if ok s then
      modify (λ r, set_pos (cur_filenum_ r) (cur_offset_ r + (kHeaderSize + length))
                     (last_record_offset_ r) r) ;;;
      let* r := get in
      ret (type, result, (cur_filenum_ r, cur_offset_ r))
    else ret (type, result, out)
  end.

Definition ReadPhysicalRecord (out : Z * Z) : RM (Z * bytes * (Z * Z)) :=
  skip_tail ;;; read_record out.

(** [Consume]: the status, [*scratch], and [*filenum], [*offset]. *)
Fixpoint Consume (fuel : nat) (scratch : bytes) (out : Z * Z) :
    RM (Status * bytes * (Z * Z)) :=
  match fuel with
  | O => abort
  | S fuel =>
    let* rd := ReadPhysicalRecord out in
    let '(record_type, fragment, out) := rd in
    if record_type =? kFullType then ret (OK, fragment, out)
    else if record_type =? kFirstType then Consume fuel fragment out
    else if record_type =? kMiddleType then Consume fuel (scratch ++ fragment) out
    else if record_type =? kLastType then ret (OK, scratch ++ fragment, out)
    else if record_type =? kEof then ret (EndFile "Eof", scratch, out)
    else if record_type =? kBadRecord then ret (IOError "Data Corruption", scratch, out)
    else if record_type =? kOldRecord then ret (EndFile "Eof", scratch, out)
    else ret (IOError "Unknow reason", scratch, out)
  end.

(** The [do .. while] of [Get]; [fuel] bounds the files passed, [cfuel] the
    records of one item. *)
Fixpoint Get_loop (fuel cfuel : nat) (scratch : bytes) (out : Z * Z) :
    RM (Status * bytes * (Z * Z)) :=
  match fuel with
  | O => abort
  | S fuel =>
    let* the_end := ReadToTheEnd in
    if (the_end : bool) then ret (EndFile "End of cur log file", scratch, out) else
    let* rd := Consume cfuel scratch out in
    let '(s, scratch, out) := rd in
    if IsEndFile s then
      let* r := get in
      let confile := NewFileName (filename_ logger) (u32 (cur_filenum_ r + 1)) in
      if env_exists fs confile then
        modify (set_rqueue (if ok (env_new_sequential fs confile)
                            then Some (confile, 0) else None)) ;;;
        modify (λ r, set_pos (u32 (cur_filenum_ r + 1)) 0 0 r) ;;;
        Get_loop fuel cfuel scratch out
      else ret (IOError "File Does Not Exists", scratch, out)
    else ret (OK, scratch, out)
  end.

Definition Get (fuel cfuel : nat) (scratch : bytes) (out : Z * Z) :
    RM (Status * bytes * (Z * Z)) :=
  let* r := get in
  if negb (logger_ r) || negb (bool_decide (is_Some (rqueue_ r)))
  then ret (Corruption "Not seek", scratch, out)
  else Get_loop fuel cfuel [] out.
End Ops.

Arguments seq_read : simpl never.
Arguments seq_skip : simpl never.

(** ** Record headers round trip *)

Lemma char_to_uint_low b : Z.land (char_to_uint b) 0xff = b2z b.
Proof.
  pose proof (b2z_range b). change 0xff with (Z.ones 8). rewrite Z.land_ones by lia.
  unfold char_to_uint. destruct (Z.ltb_spec (b2z b) 128).
  - apply Z.mod_small. lia.
  - replace (2 ^ 32 - 256 + b2z b) with (b2z b + (2 ^ 24 - 1) * 2 ^ 8) by lia.
    rewrite Z.mod_add by lia. apply Z.mod_small. lia.
Qed.

Lemma char_to_uint_z2b t : 0 ≤ t < 128 → char_to_uint (z2b t) = t.
Proof.
  intros. unfold char_to_uint. rewrite b2z_z2b, Z.mod_small by lia.
  by destruct (Z.ltb_spec t 128); [|lia].
Qed.

Lemma decode_record_header n now t :
  0 ≤ n < 2 ^ 24 → 0 ≤ t < 128 → decode_header (record_header n now t) = Some (n, t).
Proof.
  intros Hn Ht. unfold decode_header, record_header.
  rewrite !char_to_uint_low, !b2z_z2b, char_to_uint_z2b by done. do 2 f_equal.
  rewrite (Z.shiftr_land n 0xff00 8). change (Z.shiftr 0xff00 8) with (Z.ones 8).
  change 0xff with (Z.ones 8). rewrite !Z.land_ones, !Z.shiftr_div_pow2 by lia.
  change 256 with (2 ^ 8). rewrite !Zmod_mod.
  assert (0 ≤ n mod 2 ^ 8 < 2 ^ 8) by (apply Z.mod_pos_bound; lia).
  assert (0 ≤ (n / 2 ^ 8) mod 2 ^ 8 < 2 ^ 8) by (apply Z.mod_pos_bound; lia).
  rewrite (lor_shiftl_add (n mod 2 ^ 8)) by lia.
  rewrite lor_shiftl_add by lia.
  rewrite (Z.mod_small (n / 2 ^ 16))
    by (split; [apply Z.div_pos; lia|apply Z.div_lt_upper_bound; lia]).
  pose proof (Z.div_mod n (2 ^ 8)). pose proof (Z.div_mod (n / 2 ^ 8) (2 ^ 8)).
  rewrite Z.div_div in * by lia. change (2 ^ 8 * 2 ^ 8) with (2 ^ 16) in *. lia.
Qed.

Lemma decode_zero_header : decode_header (zrep kHeaderSize x00) = Some (0, 0).
Proof. reflexivity. Qed.

(** ** Reading back one item *)

Section Facts.
Context {FS : Type} {E : SlashEnv FS} {L : SlashEnvLaws FS}.
Implicit Types (fs : FS) (r : PikaBinlogReader).

(** The reader stands at offset [off] of file [f] with number [num]. *)
Definition reader_at (f : string) (num off : Z) (r : PikaBinlogReader) : Prop :=
  logger_ r = true ∧ rqueue_ r = Some (f, off) ∧ cur_filenum_ r = num ∧
  cur_offset_ r = off ∧ 0 ≤ last_record_offset_ r ≤ kBlockSize ∧
  (kBlockSize | last_record_offset_ r - off).

Lemma seq_read_eq fs f num off r d k :
  reader_at f num off r → file_data fs f = Some d → 0 ≤ off → 0 ≤ k →
  off + k ≤ zlen d →
  seq_read fs k r = Some ((OK, slice off k d), set_rqueue (Some (f, off + k)) r).
Proof.
  intros (?&Hq&_) Hd ???. unfold seq_read. rewrite Hq.
  by rewrite (law_read _ _ _ _ _ Hd).
Qed.

(** Skipping the tail of a block, as [ReadPhysicalRecord] does first. *)
Definition skipped f off r : PikaBinlogReader :=
  let k := kBlockSize - last_record_offset_ r in
  mkReader (cur_filenum_ r) (cur_offset_ r + k) 0 (logger_ r) (Some (f, off + k)).

Lemma skip_tail_no fs r :
  kHeaderSize < kBlockSize - last_record_offset_ r → skip_tail fs r = Some (tt, r).
Proof.
  intros H. unfold skip_tail, bind, get, ret.
  by rewrite (proj2 (Z.leb_gt _ _)) by lia.
Qed.

Lemma ReadPhysicalRecord_skip fs f num off r d out :
  reader_at f num off r → file_data fs f = Some d → 0 ≤ off →
  kBlockSize - last_record_offset_ r ≤ kHeaderSize →
  off + (kBlockSize - last_record_offset_ r) ≤ zlen d →
  reader_at f num (off + (kBlockSize - last_record_offset_ r)) (skipped f off r) ∧
  ReadPhysicalRecord fs out r = ReadPhysicalRecord fs out (skipped f off r).
Proof.
  intros (Hl&Hq&Hn&Ho&Hb&k&Hk) Hd H0 Hs Hle. split.
  { split_and!; cbn; try done; try (const; lia). exists (k - 1). lia. }
  unfold ReadPhysicalRecord, bind. rewrite (skip_tail_no _ (skipped _ _ _)) by (cbn; const; lia).
  unfold skip_tail, bind, get, seq_skip, modify.
  rewrite (proj2 (Z.leb_le _ _)) by done. rewrite Hq.
  by rewrite (law_skip _ _ _ _ _ Hd) by lia.
Qed.

(** A reader in front of a record whose block has room for more than a header
    reads that record. *)
Lemma ReadPhysicalRecord_record fs f num off r pre n now t frag post out :
  reader_at f num off r → off = zlen pre →
  file_data fs f = Some (pre ++ (record_header n now t ++ frag) ++ post) →
  n = zlen frag → 0 < n ≤ kBlockSize - kHeaderSize → 0 < t < 128 →
  kHeaderSize < kBlockSize - last_record_offset_ r →
  last_record_offset_ r + kHeaderSize + n ≤ kBlockSize →
  ∃ r', ReadPhysicalRecord fs out r = Some ((t, frag, (num, off + kHeaderSize + n)), r') ∧
    reader_at f num (off + kHeaderSize + n) r' ∧
    last_record_offset_ r' = last_record_offset_ r + kHeaderSize + n.
Proof.
  intros R -> Hd Hn Hr Ht Hl Hb. unfold ReadPhysicalRecord, bind.
  rewrite skip_tail_no by done. unfold read_record, bind.
  pose proof (zlen_nonneg pre). pose proof (zlen_nonneg post).
  rewrite (seq_read_eq _ _ _ _ _ _ _ R Hd); [|lia|const; lia|];
    [|rewrite !zlen_app, zlen_header; lia].
  rewrite <- (app_assoc _ frag), slice_app_eq by done. cbn [IsEndFile ok negb].
  rewrite decode_record_header by (const; lia).
  rewrite Z.gtb_ltb, (proj2 (Z.ltb_ge _ _)) by lia.
  rewrite (proj2 (Z.eqb_neq t _)), (proj2 (Z.eqb_neq n 0)) by (unfold kZeroType; lia).
  cbn [orb]. destruct R as (?&Hq&Hnum&Hoff&?&k&Hk).
  unfold seq_read at 1. cbn [rqueue_ set_rqueue].
  rewrite (law_read _ _ _ _ _ Hd) by (rewrite ?zlen_app, ?zlen_header; const; lia).
  assert (slice (zlen pre + kHeaderSize) n
            (pre ++ (record_header n now t ++ frag) ++ post) = frag) as ->.
  { rewrite <- (app_assoc _ frag), (app_assoc pre). apply slice_app_eq; [|done].
    by rewrite zlen_app, zlen_header. }
  unfold modify, get, ret. cbn.
  replace (cur_offset_ r + (kHeaderSize + n)) with (zlen pre + kHeaderSize + n) by lia.
  rewrite Hnum. eexists. split; [done|]. split; [|cbn; lia].
  split_and!; cbn; try done; try (const; lia). exists k. lia.
Qed.

Lemma Consume_ext fs fuel scratch o r r1 :
  ReadPhysicalRecord fs o r = ReadPhysicalRecord fs o r1 →
  Consume fs fuel scratch o r = Consume fs fuel scratch o r1.
Proof. intros H. destruct fuel; [done|]. cbn [Consume]. unfold bind. by rewrite H. Qed.

(** A reader at the end of a block and one at the start of the next behave
    alike. *)
Lemma reader_normal fs f num off r d bo :
  reader_at f num off r → file_data fs f = Some d → 0 ≤ off ≤ zlen d →
  0 ≤ bo < kBlockSize → (kBlockSize | last_record_offset_ r - bo) →
  ∃ r1, reader_at f num off r1 ∧ last_record_offset_ r1 = bo ∧
    ∀ fuel scratch o, Consume fs fuel scratch o r = Consume fs fuel scratch o r1.
Proof.
  intros R Hd Ho Hb [k Hk]. pose proof R as (_&_&_&_&Hl&_).
  destruct (decide (last_record_offset_ r = kBlockSize)) as [Hf|Hf].
  - assert (bo = 0) as -> by (const; lia). exists (skipped f off r).
    destruct (ReadPhysicalRecord_skip fs f num off r d (0, 0)) as [R1 _];
      [done|done|lia|const; lia|lia|].
    replace (off + (kBlockSize - last_record_offset_ r)) with off in R1 by lia.
    split_and!; [done|done|]. intros fuel scratch o. apply Consume_ext.
    eapply ReadPhysicalRecord_skip; eauto; const; lia.
  - exists r. split_and!; [done| |done]. const; lia.
Qed.

Lemma Consume_spec fs f num begin bo item out bo' :
  emits begin bo item out bo' → ∀ fuel pre post r scratch o,
  0 ≤ bo ≤ kBlockSize → item ≠ [] → (length item ≤ fuel)%nat →
  file_data fs f = Some (pre ++ out ++ post) →
  reader_at f num (zlen pre) r → (kBlockSize | last_record_offset_ r - bo) →
  (begin = true → scratch = []) →
  ∃ r', Consume fs fuel scratch o r =
      Some ((OK, scratch ++ item, (num, zlen pre + zlen out)), r') ∧
    reader_at f num (zlen pre + zlen out) r'.
Proof.
  induction 1 as [begin bo item out bo' Hb1 Hb2 He IH
                 |begin bo item now Hb1 Hb2|begin bo item now avail out bo' Hb1 Hav Hr He IH];
    intros fuel pre post r scratch o Hbo Hi Hf Hd R Hal Hs;
    pose proof (zlen_nonneg pre) as Hp; pose proof (zlen_nonneg post) as Hp'.
  - pose proof R as (_&_&_&_&Hl&_). destruct Hal as [k Hk].
    pose proof (zlen_nonneg out).
    assert (zlen (zrep (kBlockSize - bo) x00) = kBlockSize - bo) as Hz
      by (apply zlen_zrep; lia).
    destruct (decide (last_record_offset_ r = bo)) as [Hlr|Hlr].
    + destruct (ReadPhysicalRecord_skip fs f num (zlen pre) r _ o R Hd) as [R1 Hrd];
        [lia|lia|rewrite !zlen_app; lia|].
      rewrite Hlr in R1. rewrite (Consume_ext _ _ _ _ _ _ Hrd).
      destruct (IH fuel (pre ++ zrep (kBlockSize - bo) x00) post (skipped f (zlen pre) r)
        scratch o) as (r' & Hc & R'); try done.
      * by rewrite Hd, <- !app_assoc.
      * by rewrite zlen_app, Hz.
      * by exists 0.
      * exists r'. rewrite !zlen_app, Hz in *. rewrite Z.add_assoc. done.
    + assert (bo = kBlockSize ∧ last_record_offset_ r = 0) as [-> Hl0] by (const; lia).
      rewrite Z.sub_diag in *. apply (IH fuel pre post); try done.
      rewrite Hl0. by exists 0.
  - assert (0 < zlen item) by (by apply zlen_pos_cons).
    destruct (reader_normal fs f num (zlen pre) r _ bo R Hd) as (r1 & R1 & Hl & Hc);
      [rewrite !zlen_app, zlen_header; const; lia|const; lia|done|].
    rewrite Hc. destruct fuel as [|fuel]; [destruct item; [done|cbn in Hf; lia]|].
    destruct (ReadPhysicalRecord_record fs f num (zlen pre) r1 pre (zlen item) now
      (if begin then kFullType else kLastType) item post o) as (r' & Hrd & R' & _);
      try done; try (rewrite ?Hl; const; lia).
    { destruct begin; unfold kFullType, kLastType; lia. }
    exists r'. rewrite zlen_app, zlen_header, Z.add_assoc. split; [|done].
    cbn [Consume]. unfold bind at 1. rewrite Hrd.
    destruct begin; cbn; [by rewrite Hs|done].
  - pose proof (zlen_nonneg out). pose proof (zlen_nonneg (ztake avail item)).
    destruct (reader_normal fs f num (zlen pre) r _ bo R Hd) as (r1 & R1 & Hl & Hc);
      [rewrite !zlen_app, zlen_header; const; lia|const; lia|done|].
    rewrite Hc. rewrite !zlen_app, zlen_header, zlen_ztake by lia.
    assert (zlen (zdrop avail item) = zlen item - avail) as Hzd by (apply zlen_zdrop; lia).
    assert (zdrop avail item ≠ []) as Hne by (intros Hn0; rewrite Hn0 in Hzd; rewrite zlen_nil in Hzd; lia).
    set (h := record_header avail now (if begin then kFirstType else kMiddleType)) in *.
    destruct (decide (avail = 0)) as [Hz|Hz].
    + rewrite Hz in *. change (ztake 0 item) with (@nil byte) in *. cbn [app] in *.
      destruct (ReadPhysicalRecord_skip fs f num (zlen pre) r1 _ o R1 Hd) as [R2 Hrd];
        [lia|lia|rewrite !zlen_app; unfold h; rewrite zlen_header; lia|].
      rewrite (Consume_ext _ _ _ _ _ _ Hrd). rewrite zdrop_0 in *.
      destruct (IH fuel (pre ++ h) post (skipped f (zlen pre) r1) scratch o)
        as (r' & Hc' & R'); try done; try (const; lia).
      * by rewrite Hd, <- !app_assoc.
      * rewrite zlen_app. unfold h. rewrite zlen_header.
        replace kHeaderSize with (kBlockSize - last_record_offset_ r1) by lia. done.
      * by exists (-1).
      * exists r'. rewrite zlen_app in *. unfold h in *. rewrite zlen_header in *.
        rewrite Z.add_0_l, Z.add_assoc. done.
    + destruct fuel as [|fuel]; [destruct item; [done|cbn in Hf; lia]|].
      destruct (ReadPhysicalRecord_record fs f num (zlen pre) r1 pre avail now
        (if begin then kFirstType else kMiddleType) (ztake avail item) (out ++ post) o)
        as (r2 & Hrd & R2 & Hl2); try done.
      * rewrite Hd. fold h. by rewrite <- !app_assoc.
      * by rewrite zlen_ztake by lia.
      * const; lia.
      * destruct begin; unfold kFirstType, kMiddleType; lia.
      * lia.
      * lia.
      * destruct (IH fuel (pre ++ h ++ ztake avail item) post r2
          (scratch ++ ztake avail item) (num, zlen pre + kHeaderSize + avail))
          as (r' & Hc' & R'); try done; try (const; lia).
        -- unfold zdrop. rewrite length_drop. unfold zlen in *. lia.
        -- by rewrite Hd, <- !app_assoc.
        -- rewrite !zlen_app, zlen_ztake by lia. unfold h. rewrite zlen_header.
           by rewrite Z.add_assoc.
        -- exists 0. lia.
        -- exists r'. rewrite !zlen_app, zlen_ztake in * by lia. unfold h in *.
           rewrite zlen_header in *. rewrite !Z.add_assoc in *. split; [|done].
           cbn [Consume]. unfold bind at 1. rewrite Hrd.
           rewrite <- app_assoc, ztake_zdrop in Hc'.
           destruct begin; cbn; [rewrite Hs in * by done|]; exact Hc'.
Qed.

(** At the end of the written data [Consume] reports the end of the file. *)
Lemma Consume_end fs f num r d fuel scratch o :
  file_data fs f = Some d → reader_at f num (zlen d) r → (0 < fuel)%nat →
  ∃ r', Consume fs fuel scratch o r = Some ((EndFile "Eof", scratch, o), r') ∧
    cur_filenum_ r' = num ∧ logger_ r' = true.
Proof.
  intros Hd (Hl&Hq&Hn&Ho&Hb&_) Hf. destruct fuel as [|fuel]; [lia|].
  assert (∃ r1 p, skip_tail fs r = Some (tt, r1) ∧ rqueue_ r1 = Some (f, p) ∧ zlen d ≤ p ∧
    cur_filenum_ r1 = num ∧ logger_ r1 = true) as (r1 & p & Hs & Hq1 & Hp & Hn1 & Hl1).
  { unfold skip_tail, bind, get, seq_skip, modify, ret.
    destruct (_ <=? kHeaderSize); [|by exists r, (zlen d)]. rewrite Hq.
    pose proof (law_skip_past fs f d (zlen d) (kBlockSize - last_record_offset_ r) Hd
      ltac:(apply zlen_nonneg) ltac:(lia)) as H1.
    pose proof (law_skip fs f d (zlen d) (kBlockSize - last_record_offset_ r) Hd
      ltac:(apply zlen_nonneg) ltac:(lia)) as H2.
    destruct (env_skip fs f (zlen d) _) as [s p] eqn:Es. do 2 eexists.
    split_and!; try done. cbn in *.
    destruct (decide (zlen d < zlen d + (kBlockSize - last_record_offset_ r))); [auto|].
    assert ((s, p) = (OK, zlen d + (kBlockSize - last_record_offset_ r))) as [= -> ->]
      by (apply H2; lia). lia. }
  cbn [Consume]. unfold ReadPhysicalRecord, bind at 1 2. rewrite Hs.
  unfold read_record, bind at 1, seq_read at 1. rewrite Hq1.
  destruct (law_read_past fs f d p kHeaderSize Hd Hp ltac:(const; lia))
    as [(m & bs & p' & ->)| ->]; cbn; eexists; split_and!; done.
Qed.
End Facts.
