(* ===== verification/BinlogRoundTrip.v ===== *)
(** * What is put is what is got

    The theorems that tie the binlog writer to the reader: a run of successful
    [Put]s followed by [Get]s gives the items back, in order, each with the
    producer position it was written at, across blocks and across files. *)

From S2P Require Import Prelude Define Env Binlog BinlogReader.
From stdpp Require Import base list strings pretty gmap.
From Stdlib Require Import ZArith Lia Init.Byte.
#[local] Open Scope string_scope.
#[local] Open Scope list_scope.
#[local] Open Scope Z_scope.

(** ** How much room an item takes *)

Lemma emits_size_block begin bo item out bo' :
  emits begin bo item out bo' → bo = 0 ∨ bo = kBlockSize →
  (kBlockSize - kHeaderSize) * (zlen out - kHeaderSize) ≤ kBlockSize * zlen item.
Proof.
  induction 1 as [begin bo item out bo' ?? He IH|begin bo item now ??
                 |begin bo item now avail out bo' ? -> Hr _ IH]; intros Hb;
    rewrite ?zlen_app, ?zlen_header in *; pose proof (zlen_nonneg item).
  - destruct Hb as [->| ->]; [const; lia|].
    rewrite Z.sub_diag. change (zlen (zrep 0 x00)) with 0. apply IH. by left.
  - const; lia.
  - specialize (IH ltac:(by right)). rewrite zlen_zdrop in IH by lia.
    rewrite zlen_ztake by lia. destruct Hb as [->| ->]; const; lia.
Qed.

(** The overhead is one header per block, one padding and one broken block. *)
Lemma emits_size begin bo item out bo' :
  emits begin bo item out bo' → 0 ≤ bo ≤ kBlockSize → zlen out ≤ 2 * zlen item + 23.
Proof.
  intros He Hb. enough ((kBlockSize - kHeaderSize) * (zlen out - 23) ≤ kBlockSize * zlen item)
    by (pose proof (zlen_nonneg item); const; lia).
  destruct He as [begin bo item out bo' ?? He|begin bo item now ??
                 |begin bo item now avail out bo' ? -> Hr He];
    rewrite ?zlen_app, ?zlen_header; pose proof (zlen_nonneg item).
  - apply emits_size_block in He; [|by left]. rewrite zlen_zrep by lia. const; lia.
  - const; lia.
  - apply emits_size_block in He; [|by right].
    rewrite zlen_zdrop in He by lia. rewrite zlen_ztake by lia. const; lia.
Qed.

(** ** Runs of the writer and of the reader *)

Section RoundTrip.
Context {FS : Type} {E : SlashEnv FS} {L : SlashEnvLaws FS}.
Implicit Types (fs : FS) (b : Binlog) (p : Z * Z).

(** The producer position. *)
Definition pos (b : Binlog) : Z * Z := (v_pro_num (version_ b), v_pro_offset (version_ b)).

(** Put the items one after the other, all successfully; the positions after
    each. *)
Fixpoint Put_all (items : list bytes) : M (FS * Binlog) (list (Z * Z)) :=
  match items with
  | [] => ret []
  | x :: items =>
      let* s := Put x in
      massert (ok s) ;;;
      let* b := getb in
      let* ps := Put_all items in
      ret (pos b :: ps)
  end.

(** Get [n] items. *)
Fixpoint Get_all fs b (fuel cfuel n : nat) : M PikaBinlogReader (list (Status * bytes * (Z * Z))) :=
  match n with
  | O => ret []
  | S n =>
      let* x := Get fs b fuel cfuel [] (0, 0) in
      let* xs := Get_all fs b fuel cfuel n in
      ret (x :: xs)
  end.

(** The item [x] is stored from position [p] to position [p']. *)
Definition item_at fs (nm : string) p (x : bytes) (p' : Z * Z) : Prop :=
  ∃ pre out post bo bo',
    file_data fs (NewFileName nm p.1) = Some (pre ++ out ++ post) ∧
    zlen pre = p.2 ∧ emits true bo x out bo' ∧ 0 ≤ bo ≤ kBlockSize ∧
    seekable bo pre ∧ p' = (p.1, p.2 + zlen out).

(** The item after position [p] is [x]: in the same file, or at the start of
    the next file when [p] is the end of its file. *)
Definition next_item fs (nm : string) p (x : bytes) (p' : Z * Z) : Prop :=
  item_at fs nm p x p' ∨
  (∃ d bo, file_data fs (NewFileName nm p.1) = Some d ∧ zlen d = p.2 ∧
        (seekable bo d ∧ 0 ≤ bo ≤ kBlockSize) ∧ item_at fs nm (p.1 + 1, 0) x p').

Fixpoint stored fs (nm : string) p (xs : list bytes) (ps : list (Z * Z)) : Prop :=
  match xs, ps with
  | [], [] => True
  | x :: xs, p' :: ps => next_item fs nm p x p' ∧ stored fs nm p' xs ps
  | _, _ => False
  end.

(** From [fs] to [fs'] finished files are unchanged, and the current file of
    [b] has only grown. *)
Definition log_ext fs b fs' : Prop :=
  (∀ k, 0 ≤ k < pro_num_ b → file_data fs' (NewFileName (filename_ b) k) =
                             file_data fs (NewFileName (filename_ b) k)) ∧
  (∀ d, file_data fs (cur_file b) = Some d →
     ∃ post, file_data fs' (cur_file b) = Some (d ++ post)).

(** Every file stays below 2 GB while [x] is put. *)
Definition item_fits b (x : bytes) : Prop := file_size_ b + 2 * zlen x + 23 < 2 ^ 31.

Lemma log_ext_refl fs b : log_ext fs b fs.
Proof. split; [done|]. intros d Hd. exists []. by rewrite app_nil_r. Qed.

Lemma log_ext_trans fs b fs1 b1 fs2 :
  log_ext fs b fs1 → log_ext fs1 b1 fs2 → filename_ b1 = filename_ b →
  0 ≤ pro_num_ b ≤ pro_num_ b1 → log_ext fs b fs2.
Proof.
  intros [A1 B1] [A2 B2] Hf Hn. unfold log_ext, cur_file in *. rewrite Hf in *. split.
  - intros k Hk. rewrite A2, A1; [done|lia..].
  - intros d Hd. destruct (B1 d Hd) as [post Hp].
    destruct (decide (pro_num_ b = pro_num_ b1)) as [He|He].
    + rewrite <- He in B2. destruct (B2 _ Hp) as [post' Hp'].
      exists (post ++ post'). by rewrite Hp', app_assoc.
    + exists post. by rewrite A2 by lia.
Qed.

Lemma Put_next fs b x fs' b' :
  binlog_wf fs b → Put x (fs, b) = Some (OK, (fs', b')) →
  item_fits b x → 0 ≤ file_size_ b → pro_num_ b + 1 < 2 ^ 32 →
  binlog_wf fs' b' ∧ next_item fs' (filename_ b) (pos b) x (pos b') ∧ log_ext fs b fs' ∧
  filename_ b' = filename_ b ∧ file_size_ b' = file_size_ b ∧
  pro_num_ b ≤ pro_num_ b' ≤ pro_num_ b + 1.
Proof.
  intros W H Hfit Hfs Hn.
  destruct (Put_spec _ _ _ _ _ W H) as
    (fs1 & b1 & d & out & bo' & Hr & W1 & Hd & Hl & Hsk & Hsk' & He & Hd' & A & -> & Wf).
  destruct (Put_roll_spec _ _ _ _ W Hr) as [_ Hroll].
  destruct (wf_names _ _ W) as (N1 & N2 & _). destruct (wf_version _ _ W) as (Hv&_).
  pose proof (emits_size _ _ _ _ _ He (wf_block _ _ W1)) as Hsz.
  destruct (emits_bounds _ _ _ _ _ He (wf_block _ _ W1)) as (Ho&_).
  rewrite (wf_num _ _ W) in Hv. unfold pos. rewrite (wf_num _ _ W).
  pose proof (zlen_nonneg d). unfold item_fits in Hfit.
  assert (u64 (s32 (zlen d + zlen out)) = zlen d + zlen out ∨ 2 ^ 31 ≤ zlen d + zlen out)
    as Hu by (destruct (decide (zlen d + zlen out < 2 ^ 31)); [left; const|lia];
              rewrite s32_small, u64_small; lia).
  cbn [set_version set_block_offset pro_num_ filename_ file_size_ version_ v_pro_num
       v_pro_offset cur_file] in *.
  destruct (Z.gtb_spec (v_pro_offset (version_ b)) (file_size_ b)) as [Hg|Hg].
  - destruct Hroll as (-> & Hnil & A1). rewrite Hd in Hnil. injection Hnil as ->.
    cbn [set_opened set_version set_block_offset set_queue set_pro_num pro_num_ filename_
         file_size_ version_ block_offset_ v_pro_offset] in *.
    unfold cur_file in *. cbn [pro_num_ filename_] in *.
    rewrite u32_small in * by lia. destruct Hu as [Hu|]; [|rewrite zlen_nil in *; lia].
    destruct (wf_data _ _ W) as (d0 & Hd0 & Hl0 & Hsk0).
    assert (∀ k, 0 ≤ k ≤ pro_num_ b → file_data fs' (NewFileName (filename_ b) k) =
              file_data fs (NewFileName (filename_ b) k)) as Hold.
    { intros k Hk. rewrite A, A1; [done| |]; intros Heq; cbn in Heq;
        apply NewFileName_inj in Heq; lia || done. }
    split_and!; [apply Wf; rewrite zlen_nil in *; lia| | |done|done|lia|lia].
    + right. exists d0, (block_offset_ b). cbn. rewrite Hold by lia.
      split_and!; [done|done|done|apply W..|].
      exists [], out, [], 0, bo'. cbn. rewrite app_nil_r, Hu, zlen_nil.
      by split_and!.
    + split; [intros; apply Hold; lia|]. intros d' Hd''. exists [].
      unfold cur_file. by rewrite Hold, app_nil_r by lia.
  - destruct Hroll as [-> ->]. destruct Hu as [Hu|]; [|lia].
    split_and!; [apply Wf; lia| | |done|done|lia|lia].
    + left. exists d, out, [], (block_offset_ b), bo'. cbn. rewrite app_nil_r, Hu, <- Hl.
      split_and!; try done; apply W.
    + split.
      * intros k Hk. apply A. intros Heq. apply NewFileName_inj in Heq; lia || done.
      * intros d' Hd''. exists out. unfold cur_file in *. congruence.
Qed.

Lemma item_at_ext fs nm p x p' fs' :
  item_at fs nm p x p' →
  (∀ d, file_data fs (NewFileName nm p.1) = Some d →
     ∃ post, file_data fs' (NewFileName nm p.1) = Some (d ++ post)) →
  item_at fs' nm p x p'.
Proof.
  intros (pre & out & post & bo & bo' & Hd & Hrest) Hx.
  destruct (Hx _ Hd) as [post' Hd'].
  exists pre, out, (post ++ post'), bo, bo'. split; [|done].
  by rewrite Hd', <- !app_assoc.
Qed.

Lemma next_item_num fs nm p x p' : next_item fs nm p x p' →
  p'.1 = p.1 ∨ p'.1 = p.1 + 1.
Proof.
  intros [(?&?&?&?&?&_&_&_&_&_&->)|(?&?&_&_&_&?&?&?&?&?&_&_&_&_&_&->)]; cbn; auto.
Qed.

(** A stored item stays stored while the log grows. *)
Lemma next_item_ext fs b p x fs' :
  next_item fs (filename_ b) p x (pos b) → v_pro_num (version_ b) = pro_num_ b →
  0 ≤ p.1 → log_ext fs b fs' → next_item fs' (filename_ b) p x (pos b).
Proof.
  intros Hi Hn Hp [A B]. unfold cur_file, pos in *. rewrite Hn in *.
  destruct Hi as [Hi|(d & bod & Hd & Hl & Hskd & Hi)].
  - left. pose proof Hi as (?&?&?&?&?&_&_&_&_&_&Heq). injection Heq as Heq _.
    eapply item_at_ext; [done|]. rewrite <- Heq. done.
  - right. pose proof Hi as (?&?&?&?&?&_&_&_&_&_&Heq). injection Heq as Heq _.
    cbn in Heq. exists d, bod. rewrite A by lia. split_and!; [done|done|apply Hskd..|].
    eapply item_at_ext; [done|]. cbn. rewrite <- Heq. done.
Qed.

Lemma Put_all_stored items : ∀ fs b ps fs' b',
  binlog_wf fs b → 0 ≤ file_size_ b → Forall (item_fits b) items →
  pro_num_ b + zlen items < 2 ^ 32 →
  Put_all items (fs, b) = Some (ps, (fs', b')) →
  binlog_wf fs' b' ∧ stored fs' (filename_ b) (pos b) items ps ∧
  last (pos b :: ps) = Some (pos b') ∧ log_ext fs b fs' ∧
  filename_ b' = filename_ b ∧ pro_num_ b ≤ pro_num_ b' ≤ pro_num_ b + zlen items.
Proof.
  induction items as [|x items IH]; intros fs b ps fs' b' W Hs Hf Hn H.
  - unfold Put_all, ret in H. simplify_eq. rewrite zlen_nil.
    split_and!; try done; try lia. apply log_ext_refl.
  - apply Forall_cons in Hf as [Hx Hf]. rewrite zlen_cons in *.
    pose proof (zlen_nonneg items).
    cbn [Put_all] in H. unfold bind at 1 in H.
    destruct (Put x (fs, b)) as [[s [fs1 b1]]|] eqn:Hp; [|done].
    unfold bind, massert, getb, ret in H. destruct (ok s) eqn:Eo; [|done].
    apply ok_true in Eo as ->. cbn in H.
    destruct (Put_all items (fs1, b1)) as [[ps1 [fs2 b2]]|] eqn:Hps; [|done].
    simplify_eq.
    destruct (Put_next _ _ _ _ _ W Hp Hx Hs ltac:(lia)) as (W1&Hi&Hext&Hfn&Hfz&Hnum).
    edestruct (IH fs1 b1) as (W2 & Hst & Hlast & Hext2 & Hfn2 & Hnum2); [done|lia| |lia|done|].
    { eapply Forall_impl; [done|]. unfold item_fits. by rewrite Hfz. }
    rewrite Hfn in *. destruct (wf_version _ _ W) as (Hv&_). rewrite (wf_num _ _ W) in Hv.
    split_and!; try done; try lia.
    + cbn [stored]. split; [|done]. rewrite <- Hfn in Hi |- *.
      eapply next_item_ext; eauto; [apply W1|]. cbn. rewrite (wf_num _ _ W). lia.
    + eapply log_ext_trans; eauto. lia.
Qed.

(** *** Reading back *)

Definition plt (p q : Z * Z) : Prop := p.1 < q.1 ∨ (p.1 = q.1 ∧ p.2 < q.2).

Lemma next_item_lt fs nm p x p' : next_item fs nm p x p' → plt p p'.
Proof.
  intros [(?&out&?&bo&?&_&_&He&Hb&_&->)|(?&?&_&_&_&?&?&?&?&?&_&_&_&_&_&->)]; unfold plt; cbn.
  - right. apply emits_bounds in He as [? _]; [|done]. const; lia.
  - left. lia.
Qed.

Lemma stored_length fs nm p xs ps : stored fs nm p xs ps → length ps = length xs.
Proof.
  revert p ps; induction xs as [|x xs IH]; intros p [|p' ps]; cbn [stored]; try done.
  intros [_ Hst]. cbn. by rewrite (IH _ _ Hst).
Qed.

Lemma stored_last fs nm p xs ps q :
  stored fs nm p xs ps → last (p :: ps) = Some q → p = q ∨ plt p q.
Proof.
  revert p ps; induction xs as [|x xs IH]; intros p [|p' ps]; cbn [stored]; try done.
  - intros _ [= ->]. by left.
  - intros [Hi Hst] Hl. right. apply next_item_lt in Hi.
    destruct (IH p' ps Hst Hl) as [<-|Hlt]; [done|]. unfold plt in *. lia.
Qed.

Lemma ReadToTheEnd_eq b f num off r :
  opened_ b = true → reader_at f num off r →
  ReadToTheEnd b r = Some (bool_decide ((num, off) = pos b), r).
Proof.
  intros Ho (_&_&Hn&Hof&_). unfold ReadToTheEnd, GetProducerStatus. rewrite Ho. cbn.
  rewrite Hn, Hof. do 2 f_equal. unfold pos.
  destruct (Z.eqb_spec (v_pro_num (version_ b)) num),
    (Z.eqb_spec (v_pro_offset (version_ b)) off); cbn; symmetry;
    (apply bool_decide_eq_true || apply bool_decide_eq_false); congruence.
Qed.

(** One turn of [Get]'s loop in front of an item in the same file. *)
Lemma Get_loop_item fs b p x p' fuel cfuel r o :
  opened_ b = true → item_at fs (filename_ b) p x p' → p ≠ pos b → x ≠ [] →
  (length x ≤ cfuel)%nat → reader_at (NewFileName (filename_ b) p.1) p.1 p.2 r →
  ∃ r', Get_loop fs b (S fuel) cfuel [] o r = Some ((OK, x, p'), r') ∧
    reader_at (NewFileName (filename_ b) p'.1) p'.1 p'.2 r'.
Proof.
  intros Ho (pre & out & post & bo & bo' & Hd & Hl & He & Hb & Hal & ->) Hne Hx Hc R.
  destruct p as [num off]; cbn in *.
  destruct (Consume_spec fs (NewFileName (filename_ b) num) num _ _ _ _ _ He cfuel pre post r [] o) as (r' & Hcon & R');
    try done.
  { by rewrite Hl. }
  { pose proof R as (_&_&_&_&_&k&Hk). destruct (seekable_aligned _ _ Hal) as [k' Hk'].
    exists (k - k'). lia. }
  rewrite Hl in *. exists r'. split; [|done].
  cbn [Get_loop]. unfold bind at 1. rewrite (ReadToTheEnd_eq _ _ _ _ _ Ho R).
  rewrite bool_decide_eq_false_2 by done. unfold bind at 1. by rewrite Hcon.
Qed.

Lemma Get_next fs b p x p' fuel cfuel r o :
  opened_ b = true → next_item fs (filename_ b) p x p' → p ≠ pos b →
  (p'.1 = p.1 + 1 → (p.1 + 1, 0) ≠ pos b) →
  0 ≤ p.1 → p.1 + 1 < 2 ^ 32 → x ≠ [] → (length x ≤ cfuel)%nat →
  reader_at (NewFileName (filename_ b) p.1) p.1 p.2 r →
  ∃ r', Get fs b (2 + fuel) cfuel [] o r = Some ((OK, x, p'), r') ∧
    reader_at (NewFileName (filename_ b) p'.1) p'.1 p'.2 r'.
Proof.
  intros Ho Hi Hne Hne1 Hp Hp1 Hx Hc R. unfold Get, bind, get.
  pose proof R as (Hlog & Hq & _). rewrite Hlog, Hq. cbn [negb orb].
  rewrite bool_decide_eq_true_2 by eauto. cbn [negb orb].
  destruct Hi as [Hi|(d & bod & Hd & Hl & Hskd & Hi)].
  - by eapply (Get_loop_item fs b p x p' (S fuel)).
  - destruct p as [num off]; cbn [fst snd] in *.
    change (2 + fuel)%nat with (S (S fuel)). cbn [Get_loop]. unfold bind at 1.
    rewrite (ReadToTheEnd_eq _ _ _ _ _ Ho R), bool_decide_eq_false_2 by done.
    rewrite <- Hl in R.
    destruct (Consume_end fs _ num r d cfuel [] o Hd R) as (r1 & Hc1 & Hn1 & Hl1).
    { destruct x; [done|cbn in Hc; lia]. }
    unfold bind at 1. rewrite Hc1. cbn [IsEndFile]. unfold bind at 1, get.
    pose proof Hi as (?&?&?&?&?&Hd1&_). cbn in Hd1.
    rewrite Hn1, u32_small by lia.
    rewrite (proj2 (law_exists fs _)) by eauto.
    rewrite law_sequential by eauto. cbn [ok].
    unfold bind, modify. cbn [set_rqueue cur_filenum_]. rewrite Hn1, u32_small by lia.
    eapply (Get_loop_item fs b (num + 1, 0)); try done.
    { apply Hne1. by destruct Hi as (?&?&?&?&?&_&_&_&_&_&->). }
    split_and!; cbn; try done. by exists 0.
Qed.

Lemma Get_all_stored fs b fuel cfuel items : ∀ p ps r,
  opened_ b = true → stored fs (filename_ b) p items ps →
  last (p :: ps) = Some (pos b) → 0 ≤ p.1 → p.1 + zlen items < 2 ^ 32 →
  Forall (λ x, x ≠ [] ∧ (length x ≤ cfuel)%nat) items →
  reader_at (NewFileName (filename_ b) p.1) p.1 p.2 r →
  ∃ r', Get_all fs b (2 + fuel) cfuel (length items) r =
      Some (zip_with (λ x q, (OK, x, q)) items ps, r') ∧
    reader_at (NewFileName (filename_ b) (pos b).1) (pos b).1 (pos b).2 r'.
Proof.
  induction items as [|x items IH]; intros p [|p' ps] r Ho Hst Hlast Hp Hp1 Hf R;
    cbn [stored] in Hst; try done.
  - injection Hlast as ->. by exists r.
  - destruct Hst as [Hi Hst]. apply Forall_cons in Hf as [[Hx Hc] Hf].
    rewrite zlen_cons in *. pose proof (zlen_nonneg items).
    pose proof (next_item_num _ _ _ _ _ Hi). pose proof (next_item_lt _ _ _ _ _ Hi) as Hlt.
    pose proof (stored_last _ _ _ _ _ _ Hst Hlast) as Hle.
    destruct (Get_next fs b p x p' fuel cfuel r (0, 0)) as (r1 & Hg & R1); try done; try lia.
    { intros ->. unfold plt in *. destruct Hle as [->|]; lia. }
    { intros Hp'. destruct Hi as [Hi|(?&?&_&_&_&Hi)];
        pose proof Hi as (?&out&?&bo&?&_&_&He&Hb&_&->); cbn in Hp'; [lia|].
      apply emits_bounds in He as [? _]; [|done]. intros Heq. rewrite <- Heq in Hle.
      unfold plt in Hle. cbn in Hle. const. destruct Hle as [[=]|]; lia. }
    destruct (IH p' ps r1) as (r2 & Hg2 & R2); try done; try lia.
    exists r2. split; [|done]. cbn [length Get_all]. unfold bind at 1. rewrite Hg.
    unfold bind at 1. by rewrite Hg2.
Qed.

Lemma Get_end fs b fuel cfuel o r f :
  opened_ b = true → reader_at f (pos b).1 (pos b).2 r →
  Get fs b (S fuel) cfuel [] o r = Some ((EndFile "End of cur log file", [], o), r).
Proof.
  intros Ho R. pose proof R as (Hl & Hq & _). unfold Get, bind, get.
  rewrite Hl, Hq, bool_decide_eq_true_2 by eauto. cbn [negb orb Get_loop].
  unfold bind. rewrite (ReadToTheEnd_eq _ _ _ _ _ Ho R).
  by rewrite bool_decide_eq_true_2 by by destruct (pos b).
Qed.

Lemma put_get fs b items ps fs' b' r fuel cfuel :
  binlog_wf fs b → 0 ≤ file_size_ b → pro_num_ b + zlen items < 2 ^ 32 →
  Forall (λ x, x ≠ [] ∧ item_fits b x ∧ (length x ≤ cfuel)%nat) items →
  Put_all items (fs, b) = Some (ps, (fs', b')) →
  reader_at (cur_file b) (pro_num_ b) (v_pro_offset (version_ b)) r →
  ∃ r', Get_all fs' b' (2 + fuel) cfuel (length items) r =
      Some (zip_with (λ x q, (OK, x, q)) items ps, r') ∧
    (∀ o, Get fs' b' (2 + fuel) cfuel [] o r' =
      Some ((EndFile "End of cur log file", [], o), r')) ∧
    length ps = length items.
Proof.
  intros W Hs Hn Hf Hp R.
  destruct (Put_all_stored items fs b ps fs' b') as (W' & Hst & Hlast & _ & Hfn & _);
    [done|done|by eapply Forall_impl; [done|cbn; intros ? (?&?&?)]|done|done|].
  rewrite <- Hfn in Hst. destruct (wf_version _ _ W) as (Hv&_).
  destruct (Get_all_stored fs' b' fuel cfuel items (pos b) ps r) as (r' & Hg & R');
    try done.
  - apply W'.
  - cbn. lia.
  - cbn. rewrite (wf_num _ _ W). done.
  - eapply Forall_impl; [done|]. cbn. by intros ? (?&?&?).
  - rewrite Hfn. unfold pos. cbn. by rewrite (wf_num _ _ W).
  - exists r'. split_and!; [done| |by eapply stored_length]. intros o.
    eapply (Get_end _ _ (S fuel)); [apply W'|done].
Qed.

(** C26. Items put into an open binlog are got back unchanged and in order by a
    reader that stands at the producer position before the run, whatever
    blocks and files they span; each [Get] reports the producer position after
    the corresponding [Put], and the [Get] after the last item reports the end
    of the log.  The hypotheses keep file numbers and offsets within their C++
    types; empty items are excluded. *)
Theorem binlog_put_get fs b items ps fs' b' r fuel cfuel :
  binlog_wf fs b → 0 ≤ file_size_ b → pro_num_ b + zlen items < 2 ^ 32 →
  Forall (λ x, x ≠ [] ∧ item_fits b x ∧ (length x ≤ cfuel)%nat) items →
  Put_all items (fs, b) = Some (ps, (fs', b')) →
  reader_at (cur_file b) (pro_num_ b) (v_pro_offset (version_ b)) r →
  ∃ r', Get_all fs' b' (2 + fuel) cfuel (length items) r =
      Some (zip_with (λ x q, (OK, x, q)) items ps, r') ∧
    ∀ o, Get fs' b' (2 + fuel) cfuel [] o r' =
      Some ((EndFile "End of cur log file", [], o), r').
Proof.
  intros W Hs Hn Hf Hp R. destruct (put_get fs b items ps fs' b' r fuel cfuel) as (r' & H & He & _);
    try done. by exists r'.
Qed.

(** *** Seeking *)

(** Position [p] can be reached by [Seek]: it is the end of records whose
    block prefix can be walked. *)
Definition seek_ok fs (nm : string) p : Prop :=
  ∃ pre post bo, file_data fs (NewFileName nm p.1) = Some (pre ++ post) ∧
    zlen pre = p.2 ∧ seekable bo pre ∧ 0 ≤ bo ≤ kBlockSize.

Lemma GetNext_unit fs f pre rec post g r :
  file_data fs f = Some (pre ++ rec ++ post) → unit_record rec →
  rqueue_ r = Some (f, zlen pre) →
  GetNext fs (S g) 0 r =
    Some ((false, zlen rec), set_rqueue (Some (f, zlen pre + zlen rec)) r).
Proof.
  intros Hd (n & now & t & frag & -> & -> & Hn & Ht) Hq.
  pose proof (zlen_nonneg pre). pose proof (zlen_nonneg post).
  cbn [GetNext]. unfold bind at 1, seq_read at 1. rewrite Hq.
  rewrite (law_read _ _ _ _ _ Hd);
    [|lia|const; lia|rewrite !zlen_app, zlen_header; lia].
  rewrite <- app_assoc, slice_app_eq by done. cbn [ok negb].
  rewrite decode_record_header
    by (destruct Ht as [->|[->| ->]]; const; unfold kFullType, kLastType, kBadRecord; lia).
  rewrite Z.gtb_ltb, (proj2 (Z.ltb_ge _ _)) by lia.
  assert (seq_read fs (zlen frag) (set_rqueue (Some (f, zlen pre + kHeaderSize)) r) =
    Some ((OK, frag), set_rqueue (Some (f, zlen pre + kHeaderSize + zlen frag)) r)) as Hrd.
  { unfold seq_read. cbn. rewrite (law_read _ _ _ _ _ Hd);
      [|const; lia|lia|rewrite !zlen_app, zlen_header; lia].
    rewrite <- app_assoc, (app_assoc pre), slice_app_eq; [done| |done].
    by rewrite zlen_app, zlen_header. }
  rewrite zlen_app, zlen_header, Z.add_assoc.
  unfold bind. destruct Ht as [->|[->| ->]]; cbn; by rewrite Hrd.
Qed.

Lemma Seek_loop_spec fs f g recs : ∀ fuel pre post res sb r,
  Forall unit_record recs → file_data fs f = Some (pre ++ concat recs ++ post) →
  rqueue_ r = Some (f, zlen pre) → (length recs < fuel)%nat → 0 ≤ res →
  Seek_loop fs fuel (S g) sb (res + zlen (concat recs)) res r =
    Some (0, mkReader (cur_filenum_ r) (sb + (res + zlen (concat recs)))
               ((sb + (res + zlen (concat recs))) mod kBlockSize) (logger_ r)
               (Some (f, zlen pre + zlen (concat recs)))).
Proof.
  induction recs as [|rec recs IH]; intros fuel pre post res sb r Hf Hd Hq Hfu Hr;
    (destruct fuel as [|fuel]; [cbn in Hfu; lia|]); cbn [Seek_loop].
  - cbn [concat]. rewrite zlen_nil, !Z.add_0_r, Z.geb_leb, (proj2 (Z.leb_le _ _)) by lia.
    unfold bind, modify, ret, set_pos. cbn. by rewrite Hq.
  - apply Forall_cons in Hf as [Hu Hf]. cbn [concat] in *.
    pose proof (zlen_nonneg (concat recs)) as Hz.
    assert (kHeaderSize ≤ zlen rec) as Hrec.
    { destruct Hu as (?&?&?&frag&->&->&?&_). rewrite zlen_app, zlen_header.
      pose proof (zlen_nonneg frag). lia. }
    rewrite zlen_app, Z.geb_leb, (proj2 (Z.leb_gt _ _)) by (const; lia).
    unfold bind at 1.
    rewrite (GetNext_unit fs f pre rec (concat recs ++ post)) by (done || by rewrite Hd, <- !app_assoc).
    replace (res + (zlen rec + zlen (concat recs)))
      with ((res + zlen rec) + zlen (concat recs)) by lia.
    rewrite (IH fuel (pre ++ rec) post); try done.
    + cbn. rewrite zlen_app.
      by replace (zlen pre + zlen rec + zlen (concat recs))
        with (zlen pre + (zlen rec + zlen (concat recs))) by lia.
    + by rewrite Hd, <- !app_assoc.
    + cbn. by rewrite zlen_app.
    + cbn in Hfu. lia.
    + const; lia.
Qed.

Lemma length_recs recs : Forall unit_record recs → (length recs ≤ length (concat recs))%nat.
Proof.
  induction 1 as [|r recs (?&?&?&frag&->&_) _ IH]; [done|].
  cbn [concat length]. rewrite !length_app. unfold record_header. cbn [length]. lia.
Qed.

Lemma Seek_spec fs b p g r :
  seek_ok fs (filename_ b) p →
  ∃ r', Seek fs b (S g) p.1 p.2 r = Some (0, r') ∧
    reader_at (NewFileName (filename_ b) p.1) p.1 p.2 r'.
Proof.
  intros (pre & post & bo & Hd & Hl & Hsk & Hb).
  destruct (seekable_mod _ _ Hsk Hb) as (pre' & w & -> & [k Hk] & (recs & -> & Hf) & Hz).
  destruct p as [num off]; cbn [fst snd] in *. subst off.
  set (f := NewFileName (filename_ b) num) in *. rewrite zlen_app in *.
  assert ((zlen pre' + zlen (concat recs)) / kBlockSize * kBlockSize = zlen pre') as Hdiv.
  { pose proof (Z.div_mod (zlen pre' + zlen (concat recs)) kBlockSize). const; lia. }
  unfold Seek. fold f. rewrite (proj2 (law_exists fs f)) by eauto.
  rewrite law_sequential by eauto. cbn [negb ok].
  unfold bind at 1 2 3 4, modify. rewrite Hdiv, <- Hz. unfold seq_skip at 1. cbn [set_rqueue
    set_logger set_pos rqueue_].
  pose proof (zlen_nonneg pre'). pose proof (zlen_nonneg (concat recs)). pose proof (zlen_nonneg post).
  rewrite (law_skip _ _ _ _ _ Hd) by (rewrite ?zlen_app; lia).
  rewrite <- app_assoc in Hd.
  pose proof (Seek_loop_spec fs f g recs (1 + Z.to_nat (zlen (concat recs))) pre' post 0
    (zlen pre') (mkReader num (zlen pre' + zlen (concat recs)) (num mod kBlockSize) true
      (Some (f, zlen pre'))) Hf Hd eq_refl) as Hs.
  rewrite !Z.add_0_l in *. unfold set_rqueue, set_logger, set_pos.
  cbn [cur_filenum_ cur_offset_ last_record_offset_ logger_].
  rewrite Hs; [|pose proof (length_recs recs Hf); unfold zlen; lia|lia].
  eexists. split; [done|]. split_and!; try done; cbn.
  - apply Z.mod_pos_bound. done.
  - pose proof (Z.mod_pos_bound (zlen pre' + zlen (concat recs)) kBlockSize). const; lia.
  - rewrite <- Hz, Hk. exists (- k). lia.
Qed.

Lemma next_item_seek fs nm p x p' : next_item fs nm p x p' →
  seek_ok fs nm p ∧ seek_ok fs nm p'.
Proof.
  assert (∀ q, item_at fs nm q x p' → seek_ok fs nm q ∧ seek_ok fs nm p') as Hi.
  { intros q (pre & out & post & bo & bo' & Hd & Hl & He & Hb & Hsk & ->). split.
    - by exists pre, (out ++ post), bo.
    - exists (pre ++ out), post, bo'. cbn. rewrite <- app_assoc, zlen_app, Hl.
      split_and!; [done|done|by eapply emits_seekable|..];
        destruct (emits_bounds _ _ _ _ _ He Hb) as (?&?&?&?); lia. }
  intros [?|(d & bo & Hd & Hl & [Hsk Hb] & ?)]; [by apply Hi|].
  split; [|by eapply Hi]. exists d, [], bo. by rewrite app_nil_r.
Qed.

Lemma stored_seek fs nm p xs ps : stored fs nm p xs ps → xs ≠ [] →
  Forall (seek_ok fs nm) (p :: ps).
Proof.
  revert p ps; induction xs as [|x xs IH]; intros p [|p' ps]; cbn [stored]; try done.
  intros [Hi Hst] _. apply next_item_seek in Hi as [Hp Hp'].
  constructor; [done|]. destruct xs as [|y ys].
  - destruct ps; [|done]. by constructor.
  - by apply IH.
Qed.

Lemma binlog_wf_seek fs b : binlog_wf fs b → seek_ok fs (filename_ b) (pos b).
Proof.
  intros W. destruct (wf_data _ _ W) as (d & Hd & Hl & Hsk).
  exists d, [], (block_offset_ b). cbn. rewrite app_nil_r, (wf_num _ _ W).
  split_and!; try done; apply W.
Qed.

(** [Seek] reaches every item boundary: after a run of successful [Put]s a
    reader, in whatever state, that seeks to the producer position before the
    run or after any of the items succeeds and stands exactly there. *)
Theorem binlog_seek_boundaries fs b items ps fs' b' q g r :
  binlog_wf fs b → 0 ≤ file_size_ b → pro_num_ b + zlen items < 2 ^ 32 →
  Forall (item_fits b) items → Put_all items (fs, b) = Some (ps, (fs', b')) →
  q ∈ pos b :: ps →
  ∃ r', Seek fs' b' (S g) q.1 q.2 r = Some (0, r') ∧
    reader_at (NewFileName (filename_ b) q.1) q.1 q.2 r'.
Proof.
  intros W Hs Hn Hf Hp Hq.
  destruct (Put_all_stored items fs b ps fs' b') as (W' & Hst & Hlast & _ & Hfn & _);
    [done..|].
  rewrite <- Hfn. apply Seek_spec. rewrite Hfn.
  destruct items as [|x items].
  - destruct ps; [|done]. apply list_elem_of_singleton in Hq as ->.
    assert (pos b = pos b') as -> by (cbn in Hlast; congruence).
    rewrite <- Hfn. by apply binlog_wf_seek.
  - eapply Forall_forall; [|done]. by eapply stored_seek.
Qed.
End RoundTrip.
