(* ===== verification/BinlogOpen.v ===== *)
(** * Opening, repositioning and truncating a binlog

    The other operations of src/pika_binlog.cc keep the invariant [binlog_wf]:
    a fresh or reopened binlog satisfies it, a reopened one stands where the
    last one stopped, [SetProducerStatus] and [Truncate] move the producer to
    the position asked for. *)

From S2P Require Import Prelude Define Env Binlog BinlogReader BinlogRoundTrip.
From stdpp Require Import base list strings pretty gmap.
From Stdlib Require Import ZArith Lia Init.Byte.
#[local] Open Scope string_scope.
#[local] Open Scope list_scope.
#[local] Open Scope Z_scope.

(** A path short enough for the file name buffer. *)
Definition path_ok (path : string) : Prop :=
  no_nul path = true ∧ (String.length path ≤ 235)%nat.

Lemma names_ok_new path b :
  path_ok path → filename_ b = path +:+ kBinlogPrefix →
  versionfile_ b = path +:+ kManifest → names_ok b.
Proof.
  intros [Hn Hl] Hf Hv. unfold names_ok. rewrite Hf, Hv, no_nul_app, Hn, length_append.
  split_and!; [done|cbn; lia|]. intros n. by apply manifest_not_log.
Qed.

Section Open.
Context {FS : Type} {E : SlashEnv FS} {L : SlashEnvLaws FS}.
Implicit Types (fs : FS) (b : Binlog).

Lemma massert_Some {S} (c : bool) (s s' : S) u :
  massert c s = Some (u, s') → c = true ∧ s' = s.
Proof. unfold massert, ret, abort. by destruct c; intros; simplify_eq. Qed.

(** A binlog opened where no manifest exists is empty and at position 0. *)
Lemma Binlog_new_fresh fs path file_size term0 fs' b :
  path_ok path → 0 ≤ term0 < 2 ^ 32 → env_exists fs (path +:+ kManifest) = false →
  Binlog_new fs path file_size term0 = Some (fs', b) →
  binlog_wf fs' b ∧ version_ b = mkVersion 0 0 0 term0 ∧
  filename_ b = path +:+ kBinlogPrefix ∧ versionfile_ b = path +:+ kManifest ∧
  file_size_ b = u64 file_size.
Proof.
  intros Hp Ht Hex H. unfold Binlog_new in H.
  destruct (Binlog_open _ _ _) as [[[] [fs0 b0]]|] eqn:Ho; [|done].
  cbn in H. injection H as -> ->.
  unfold Binlog_open, bind, modfs, getb, getfs in Ho. cbn in Ho.
  destruct (law_create_dir fs path) as [Cf Cr].
  assert (env_exists (env_create_dir fs path) (path +:+ kManifest) = false) as Hex'.
  { apply not_true_iff_false. rewrite law_exists, Cf, Cr, <- law_exists. by rewrite Hex. }
  rewrite Hex' in Ho. cbn in Ho.
  set (f := NewFileName (path +:+ kBinlogPrefix) 0) in *.
  match type of Ho with context [new_writable f (?fs1, ?b1)] =>
    destruct (new_writable_spec fs1 b1 f) as (s & fs2 & Hn & A & Hs) end.
  rewrite Hn in Ho. destruct (ok s) eqn:Eo; [|done]. apply ok_true in Eo as ->.
  cbn in Ho. pose proof (law_new_rwfile fs2 (path +:+ kManifest)) as Hrw.
  destruct (env_new_rwfile fs2 (path +:+ kManifest)) as [s fs3] eqn:Er.
  destruct (ok s) eqn:Eo; [|done]. apply ok_true in Eo as ->. cbn in Ho.
  destruct (Hrw fs3 eq_refl) as [Af Hd]. clear Hrw.
  assert (path +:+ kManifest ≠ f) as Hne by (apply manifest_not_log; apply Hp).
  rewrite (proj2 (A _ Hne)) in Hd.
  assert (env_rwdata (env_create_dir fs path) (path +:+ kManifest) = None) as Hnone.
  { destruct (env_rwdata (env_create_dir fs path) (path +:+ kManifest)) eqn:Em; [|done].
    rewrite (proj2 (law_exists _ _)) in Hex' by eauto. done. }
  rewrite Hnone in Hd. destruct Hd as (d & Hd & Hl).
  match type of Ho with context [StableSave (_, ?b1)] =>
    destruct (StableSave_spec fs3 b1 d Hd Hl) as (fs4 & rest & Hst & A4 & Hm) end.
  rewrite Hst in Ho.
  assert (file_data fs4 f = Some []) as Hf by (rewrite A4, Af; auto).
  rewrite (InitLogFile_eq _ _ f []) in Ho by done. injection Ho as <- <-.
  split_and!; try done. split; try done.
  - exists []. split_and!; [done..|]. apply seekable_nil.
  - by exists rest.
  - by apply (names_ok_new path).
Qed.

Lemma slice_image v rest :
  version_ok v →
  mkVersion (le_val (slice 0 4 (manifest_image v ++ rest)))
    (le_val (slice 4 8 (manifest_image v ++ rest)))
    (le_val (slice 12 8 (manifest_image v ++ rest)))
    (le_val (slice 20 4 (manifest_image v ++ rest))) = v.
Proof.
  intros (H1 & H2 & H3 & H4). unfold manifest_image. rewrite <- !app_assoc.
  rewrite (slice_app_eq0 4) by (by rewrite zlen_le_bytes).
  rewrite (slice_app_eq 4 8) by (by rewrite ?zlen_le_bytes).
  rewrite (app_assoc (le_bytes 4 _) (le_bytes 8 _)).
  rewrite (slice_app_eq 12 8) by (by rewrite ?zlen_app, ?zlen_le_bytes).
  rewrite (app_assoc (_ ++ _) (le_bytes 8 _)).
  rewrite (slice_app_eq 20 4) by (by rewrite ?zlen_app, ?zlen_le_bytes).
  rewrite !le_val_le_bytes_small by (cbn; lia). by destruct v.
Qed.

(** C27. Reopening: the binlog opened on the directory of an open binlog [b]
    (whose writer has stopped) restores [b]'s producer position, logic id and
    term from the manifest, keeps all log data, and is well formed, so putting
    can go on where it stopped. *)
Theorem Binlog_reopen fs b path file_size term0 fs' b' :
  binlog_wf fs b → path_ok path → filename_ b = path +:+ kBinlogPrefix →
  versionfile_ b = path +:+ kManifest →
  Binlog_new fs path file_size term0 = Some (fs', b') →
  binlog_wf fs' b' ∧ version_ b' = version_ b ∧ pro_num_ b' = pro_num_ b ∧
  filename_ b' = filename_ b ∧ agree_files fs fs'.
Proof.
  intros W Hp Hfn Hv H. unfold Binlog_new in H.
  destruct (Binlog_open _ _ _) as [[[] [fs0 b0]]|] eqn:Ho; [|done].
  cbn in H. injection H as -> ->.
  unfold Binlog_open, bind, modfs, getb, getfs in Ho. cbn in Ho.
  destruct (law_create_dir fs path) as [Cf Cr].
  destruct (wf_manifest _ _ W) as (rest & Hm). rewrite Hv in Hm.
  rewrite (proj2 (law_exists _ _)) in Ho by (right; rewrite Cr; eauto). cbn in Ho.
  pose proof (law_new_rwfile (env_create_dir fs path) (path +:+ kManifest)) as Hrw.
  destruct (env_new_rwfile _ _) as [s fs1] eqn:Er.
  destruct (ok s) eqn:Eo; [|done]. apply ok_true in Eo as ->. cbn in Ho.
  destruct (Hrw fs1 eq_refl) as [Af Hd]. clear Hrw Er. rewrite Cr, Hm in Hd.
  unfold Version_Init, bind, getb, getfs, modb in Ho. cbn in Ho. rewrite Hd in Ho.
  pose proof (slice_image _ rest (wf_version _ _ W)) as Hsl.
  pose proof (f_equal v_pro_num Hsl) as Hsn. pose proof (f_equal v_pro_offset Hsl) as Hso.
  cbn in Ho, Hsn, Hso. rewrite Hsl, Hsn, Hso in Ho. cbn in Ho.
  destruct (wf_data _ _ W) as (d & Hdat & Hl & Hal). unfold cur_file in Hdat.
  rewrite (wf_num _ _ W), <- Hfn in Ho.
  set (f := NewFileName (filename_ b) (pro_num_ b)) in *.
  unfold append_writable, bind, io, modb in Ho. cbn in Ho.
  assert (file_data fs1 f = Some d) as Hd1 by (by rewrite Af, Cf).
  pose proof (law_append_writable fs1 f (v_pro_offset (version_ b))) as Haw.
  pose proof (law_append_writable_frame fs1 f (v_pro_offset (version_ b))) as Hawf.
  pose proof (law_rw_append_writable fs1 f (v_pro_offset (version_ b))) as Haww.
  destruct (env_append_writable fs1 f _) as [s fs2] eqn:Ea. cbn in Ho, Hawf, Haww.
  destruct (ok s) eqn:Eo; [|done]. apply ok_true in Eo as ->. cbn in Ho.
  assert (file_data fs2 f = Some d) as Hd2.
  { rewrite (Haw fs2 d eq_refl Hd1) by (pose proof (zlen_nonneg d); lia).
    by rewrite <- Hl, ztake_all by lia. }
  rewrite (InitLogFile_eq _ _ f d) in Ho by done. injection Ho as <- <-.
  assert (agree_files fs fs2) as Hag.
  { intros g. destruct (decide (g = f)) as [->|Hg]; [by rewrite Hd2|].
    by rewrite Hawf, Af, Cf. }
  split_and!; try done.
  split; try done; cbn.
  - apply W.
  - apply W.
  - pose proof (Z.mod_pos_bound (zlen d) kBlockSize). const; lia.
  - exists d. split_and!; [done..|]. eapply seekable_mod; [done|apply W].
  - exists rest. rewrite Haww; [done|]. unfold f. rewrite Hfn.
    apply manifest_not_log; apply Hp.
  - by apply (names_ok_new path).
Qed.

(** *** Progress *)

Lemma new_writable_reliable `{!ReliableEnv FS} fs b f :
  ∃ fs', new_writable f (fs, b) = Some (OK, (fs', set_queue (Some f) b)) ∧
    agree_but f fs fs' ∧ file_data fs' f = Some [].
Proof.
  destruct (new_writable_spec fs b f) as (s & fs' & Hn & A & Hs).
  assert (s = OK) as ->.
  { unfold new_writable, bind, io, modb, ret in Hn.
    pose proof (rel_new_writable fs f) as Hr.
    destruct (env_new_writable fs f). cbn in *. by simplify_eq. }
  exists fs'. auto.
Qed.

Lemma Put_ok `{!ReliableEnv FS} fs b item :
  binlog_wf fs b → zlen item < 2 ^ 31 →
  ∃ fs' b', Put item (fs, b) = Some (OK, (fs', b')).
Proof.
  intros W Hi.
  assert (∃ fs1 b1, Put_roll (fs, b) = Some (tt, (fs1, b1))) as (fs1 & b1 & Hroll).
  { destruct (wf_data _ _ W) as (d & Hd & _). unfold Put_roll. unfold bind at 1.
    rewrite (queue_Filesize_eq _ _ _ _ (wf_queue _ _ W) Hd).
    unfold bind at 1, getb. cbn [snd]. destruct (zlen d >? file_size_ b); [|by do 2 eexists].
    unfold bind, modb. cbn.
    match goal with |- context [new_writable ?f (_, ?b0)] =>
      destruct (new_writable_reliable fs b0 f) as (fs' & Hn & A & Hd') end.
    rewrite Hn. cbn. destruct (wf_manifest _ _ W) as (rest & Hm).
    match goal with |- context [StableSave (_, ?b0)] =>
      destruct (StableSave_spec fs' b0 (manifest_image (version_ b) ++ rest))
        as (fs2 & rest2 & Hst & A2 & Hm2) end.
    { cbn. by rewrite (proj2 (A _ (proj2 (proj2 (wf_names _ _ W)) _))). }
    { rewrite zlen_app, zlen_manifest_image. pose proof (zlen_nonneg rest). lia. }
    rewrite Hst. do 2 eexists. erewrite InitLogFile_eq; [done|done|]. cbn. rewrite A2. done. }
  destruct (Put_roll_spec _ _ _ _ W Hroll) as [W1 _].
  destruct (wf_data _ _ W1) as (d & Hd & _). destruct (wf_manifest _ _ W1) as (rest & Hm).
  destruct (Produce_loop_spec (2 + length item) fs1 b1 (cur_file b1) item true
    (s32 (v_pro_offset (version_ b1)))) as (s & tpo & fs2 & bo' & Hp & A & _ & Hok);
    [apply W1|apply W1|apply s32_idemp|destruct (decide _); lia|].
  rewrite (Hok _ ltac:(eauto)) in Hp.
  unfold Put. unfold bind at 1, getb. cbn [snd]. rewrite (wf_opened _ _ W). cbn [negb].
  unfold bind at 1, Put_raw, massert. rewrite (proj2 (Z.ltb_lt _ _)) by done.
  unfold bind at 1, ret at 1. unfold bind at 1. rewrite Hroll.
  unfold Produce. unfold bind at 1 2, getb. cbn [snd]. rewrite Hp. cbn [ok].
  unfold bind, modb. cbn.
  match goal with |- context [StableSave (_, ?b0)] =>
    destruct (StableSave_spec fs2 b0 (manifest_image (version_ b1) ++ rest))
      as (fs3 & rest3 & Hst & _) end.
  { cbn. by rewrite (proj2 (A _ (proj2 (proj2 (wf_names _ _ W1)) _))). }
  { rewrite zlen_app, zlen_manifest_image. pose proof (zlen_nonneg rest). lia. }
  rewrite Hst. by do 2 eexists.
Qed.

(** C28. On a file system without I/O errors [Put] always returns, and returns
    [OK]: its loop terminates, no assertion fails, and rolling to a new file
    works. *)
Theorem Put_returns `{!ReliableEnv FS} fs b item :
  binlog_wf fs b → zlen item < 2 ^ 31 →
  ∃ fs' b', Put item (fs, b) = Some (OK, (fs', b')).
Proof. apply Put_ok. Qed.

(** *** Repositioning *)

(** The part of an offset that [AppendPadding] cannot fill: a block tail too
    short for a header. *)
Definition unpadded (n : Z) : Z :=
  if n mod kBlockSize <? kHeaderSize then n mod kBlockSize else 0.

Lemma append_record `{!ReliableEnv FS} fs b q d h w :
  queue_ b = Some q → file_data fs q = Some d →
  ∃ fs1 fs2 fs3, queue_Append h (fs, b) = Some (OK, (fs1, b)) ∧
    queue_Append w (fs1, b) = Some (OK, (fs2, b)) ∧
    queue_Flush (fs2, b) = Some (OK, (fs3, b)) ∧
    agree_but q fs fs3 ∧ file_data fs3 q = Some (d ++ h ++ w).
Proof.
  intros Hq Hd. rewrite (queue_Append_eq _ _ q) by done.
  pose proof (rel_append fs q h ltac:(eauto)) as R1. pose proof (agree_but_append fs q h) as A1.
  destruct (env_append fs q h) as [s1 fs1] eqn:E1. cbn in R1, A1. subst s1.
  pose proof (law_append _ _ _ _ _ E1 Hd) as Hd1.
  pose proof (rel_append fs1 q w ltac:(eauto)) as R2. pose proof (agree_but_append fs1 q w) as A2.
  destruct (env_append fs1 q w) as [s2 fs2] eqn:E2. cbn in R2, A2. subst s2.
  pose proof (law_append _ _ _ _ _ E2 Hd1) as Hd2.
  pose proof (rel_flush fs2 q ltac:(eauto)) as R3. pose proof (agree_flush fs2 q) as A3.
  destruct (env_flush fs2 q) as [s3 fs3] eqn:E3. cbn in R3, A3. subst s3.
  exists fs1, fs2, fs3. split_and!; [done| | | |].
  - rewrite (queue_Append_eq _ _ q) by done. by rewrite E2.
  - unfold queue_Flush, with_queue, bind, getb, io. cbn. rewrite Hq. by rewrite E3.
  - etrans; [done|]. etrans; [done|]. by apply agree_agree_but.
  - by rewrite (proj1 (A3 q)), Hd2, <- app_assoc.
Qed.

Lemma pad_record_unit now k : 0 ≤ k ≤ kBlockSize - kHeaderSize →
  unit_record (record_header k now kBadRecord ++ zrep k "*"%byte).
Proof.
  intros Hk. do 4 eexists. split_and!; [done|by rewrite zlen_zrep by lia|lia|lia|auto].
Qed.

Lemma AppendPadding_loop_spec `{!ReliableEnv FS} now fuel : ∀ lft fs b q d,
  queue_ b = Some q → file_data fs q = Some d → (kBlockSize | zlen d) → 0 ≤ lft →
  (Z.to_nat (lft / kBlockSize) + 2 ≤ fuel)%nat →
  ∃ fs' pad, AppendPadding_loop fuel now lft (fs, b) = Some ((OK, unpadded lft), (fs', b)) ∧
    agree_but q fs fs' ∧ file_data fs' q = Some (d ++ pad) ∧
    zlen pad = lft - unpadded lft ∧ seekable (zlen (d ++ pad) mod kBlockSize) (d ++ pad).
Proof.
  induction fuel as [|fuel IH]; intros lft fs b q d Hq Hd Hal Hl Hf; [lia|].
  cbn [AppendPadding_loop].
  assert (seekable 0 d) as Hs0.
  { exists d, []. rewrite app_nil_r. split_and!; [done|done|apply walk_nil|done]. }
  assert (lft < kHeaderSize → ∃ fs' pad, Some ((OK, lft), (fs, b)) = Some ((OK, unpadded lft), (fs', b)) ∧
    agree_but q fs fs' ∧ file_data fs' q = Some (d ++ pad) ∧
    zlen pad = lft - unpadded lft ∧ seekable (zlen (d ++ pad) mod kBlockSize) (d ++ pad)) as Hsmall.
  { intros Hlt. unfold unpadded. rewrite (Z.mod_small lft) by (const; lia).
    rewrite (proj2 (Z.ltb_lt _ _)) by lia. exists fs, []. rewrite app_nil_r, zlen_nil.
    split_and!; [done..|lia|]. eapply seekable_mod; [done|const; lia]. }
  destruct (Z.ltb_spec 0 lft); cbn [negb]; [|apply Hsmall; const; lia].
  destruct (Z.leb_spec kBlockSize lft) as [Hge|Hlt].
  - rewrite (proj2 (Z.ltb_ge _ _)) by (const; lia).
    destruct (append_record fs b q d (record_header (kBlockSize - kHeaderSize) now kBadRecord)
      (zrep (kBlockSize - kHeaderSize) "*"%byte) Hq Hd) as (fs1 & fs2 & fs3 & H1 & H2 & H3 & A & Hd3).
    unfold bind at 1. rewrite H1. cbn [ok negb]. unfold bind at 1. rewrite H2. cbn [ok negb].
    unfold bind at 1. rewrite H3. cbn [ok].
    assert (lft / kBlockSize = (lft - kBlockSize) / kBlockSize + 1) as Hdiv.
    { rewrite <- Z.div_add by (const; lia). f_equal. lia. }
    assert (0 ≤ (lft - kBlockSize) / kBlockSize) by (apply Z.div_pos; const; lia).
    destruct (IH (lft - kBlockSize) fs3 b q _ Hq Hd3) as (fs' & pad & Hlp & A' & Hd' & Hz & Hsk).
    { destruct Hal as [k Hk]. exists (k + 1).
      rewrite !zlen_app, zlen_header, zlen_zrep by (const; lia). lia. }
    { lia. }
    { lia. }
    assert (unpadded (lft - kBlockSize) = unpadded lft) as Hu.
    { unfold unpadded. replace (lft - kBlockSize) with (lft + (-1) * kBlockSize) by lia.
      by rewrite Z.mod_add by (const; lia). }
    rewrite Hu in *. rewrite <- app_assoc in Hd', Hsk.
    eexists fs', _. split_and!; [done|by etrans|exact Hd'| |exact Hsk].
    rewrite !zlen_app, zlen_header, zlen_zrep by (const; lia). lia.
  - destruct (Z.ltb_spec lft kHeaderSize); [by apply Hsmall|].
    destruct (append_record fs b q d (record_header (lft - kHeaderSize) now kBadRecord)
      (zrep (lft - kHeaderSize) "*"%byte) Hq Hd) as (fs1 & fs2 & fs3 & H1 & H2 & H3 & A & Hd3).
    unfold bind at 1. rewrite H1. cbn [ok negb]. unfold bind at 1. rewrite H2. cbn [ok negb].
    unfold bind at 1. rewrite H3. cbn [ok]. rewrite Z.sub_diag.
    destruct fuel as [|fuel]; [rewrite Z.div_small in Hf by lia; cbn in Hf; lia|].
    unfold unpadded. rewrite Z.mod_small, (proj2 (Z.ltb_ge _ _)) by lia.
    eexists fs3, _. split_and!; [done|done|exact Hd3| |].
    { rewrite !zlen_app, zlen_header, zlen_zrep by (const; lia). lia. }
    eapply (seekable_mod lft); [|lia]. exists d, (record_header (lft - kHeaderSize) now kBadRecord
      ++ zrep (lft - kHeaderSize) "*"%byte). split_and!; [done|done| |].
    + apply (walk_snoc []); [apply walk_nil|]. apply pad_record_unit. lia.
    + rewrite zlen_app, zlen_header, zlen_zrep by lia. lia.
Qed.

Lemma delete_if_exists_spec fs b f :
  ∃ fs', delete_if_exists f (fs, b) = Some (tt, (fs', b)) ∧ agree_but f fs fs'.
Proof.
  unfold delete_if_exists, bind, getfs, io, ret. cbn.
  destruct (env_exists fs f); [|by exists fs].
  pose proof (agree_but_delete fs f) as A. destruct (env_delete fs f) as [s fs'].
  by exists fs'.
Qed.

(** The effect of [AppendPadding] on a new file. *)
Lemma AppendPadding_spec `{!ReliableEnv FS} fs b q n :
  queue_ b = Some q → file_data fs q = Some [] → kHeaderSize ≤ n →
  ∃ fs' pad, AppendPadding n (fs, b) = Some ((OK, n - unpadded n), (fs', b)) ∧
    agree_but q fs fs' ∧ file_data fs' q = Some pad ∧
    zlen pad = n - unpadded n ∧ seekable (zlen pad mod kBlockSize) pad.
Proof.
  intros Hq Hd Hn. unfold AppendPadding. rewrite (proj2 (Z.ltb_ge _ _)) by lia.
  unfold bind, io. pose proof (agree_time fs) as At.
  destruct (env_time fs) as [now fs1]. cbn in At.
  assert (0 ≤ n) as Hn0 by (const; lia).
  destruct (AppendPadding_loop_spec now (2 + Z.to_nat (n / kBlockSize)) n fs1 b q [])
    as (fs' & pad & H & A & Hd' & Hz & Hs); [done| |by exists 0|done|lia|].
  { by rewrite (proj1 (At q)). }
  rewrite H. exists fs', pad. split_and!; try done.
  etrans; [by apply agree_agree_but|done].
Qed.

Lemma agree_but_rwdata f fs fs' m : agree_but f fs fs' → m ≠ f →
  env_rwdata fs' m = env_rwdata fs m.
Proof. intros A Hm. apply (A m Hm). Qed.

(** The common part of [SetProducerStatus]: the new file holds [pad] and the
    position is [r.2]. *)
Lemma SetProducerStatus_run `{!ReliableEnv FS} fs b num off t idx (P : Z → bytes → Prop) :
  binlog_wf fs b →
  (∀ fs1 b1, queue_ b1 = Some (NewFileName (filename_ b) num) →
     file_data fs1 (NewFileName (filename_ b) num) = Some [] →
     ∃ off' fs2 pad, AppendPadding (if off <? 4 then 0 else off) (fs1, b1) =
         Some ((OK, off'), (fs2, b1)) ∧
       agree_but (NewFileName (filename_ b) num) fs1 fs2 ∧
       file_data fs2 (NewFileName (filename_ b) num) = Some pad ∧ P off' pad) →
  ∃ fs' off' pad rest, SetProducerStatus num off t idx (fs, b) = Some (OK, (fs',
      set_opened true (set_block_offset (zlen pad mod kBlockSize)
       (set_version (mkVersion num off' idx t)
        (set_pro_num num (set_queue (Some (NewFileName (filename_ b) num)) b)))))) ∧
    file_data fs' (NewFileName (filename_ b) num) = Some pad ∧ P off' pad ∧
    env_rwdata fs' (versionfile_ b) =
      Some (manifest_image (mkVersion num off' idx t) ++ rest).
Proof.
  intros W HP. unfold SetProducerStatus. unfold bind at 1, getb. cbn [snd].
  rewrite (wf_opened _ _ W). cbn [negb]. unfold bind at 1, modb. cbn beta iota.
  set (f := NewFileName (filename_ b) num) in *.
  set (b1 := set_queue None b).
  destruct (wf_names _ _ W) as (_ & _ & N3). destruct (wf_manifest _ _ W) as (rest & Hm).
  destruct (delete_if_exists_spec fs b1 (NewFileName (filename_ b) 0)) as (fs1 & D1 & A1).
  unfold bind at 1. rewrite D1.
  destruct (delete_if_exists_spec fs1 b1 f) as (fs2 & D2 & A2).
  unfold bind at 1. rewrite D2.
  destruct (new_writable_reliable fs2 b1 f) as (fs3 & D3 & A3 & Hd3).
  unfold bind at 1. rewrite D3.
  destruct (HP fs3 (set_queue (Some f) b1) eq_refl Hd3) as (off' & fs4 & pad & D4 & A4 & Hd4 & Hp).
  unfold bind at 1. rewrite D4. unfold bind. cbn.
  match goal with |- context [StableSave (_, ?b0)] =>
    destruct (StableSave_spec fs4 b0 (manifest_image (version_ b) ++ rest))
      as (fs5 & rest5 & Hst & A5 & Hm5) end.
  { cbn. rewrite <- Hm, (agree_but_rwdata _ _ _ _ A4), (agree_but_rwdata _ _ _ _ A3),
      (agree_but_rwdata _ _ _ _ A2), (agree_but_rwdata _ _ _ _ A1) by apply N3. done. }
  { rewrite zlen_app, zlen_manifest_image. pose proof (zlen_nonneg rest). lia. }
  rewrite Hst. assert (file_data fs5 f = Some pad) as Hd5 by (by rewrite A5).
  rewrite (InitLogFile_eq _ _ f pad) by done.
  exists fs5, off', pad, rest5. done.
Qed.

(** Where [SetProducerStatus] puts the producer when it is asked for [off]. *)
Definition placed_offset (off : Z) : Z := if off <? 4 then 0 else off - unpadded off.

Lemma SetProducerStatus_places `{!ReliableEnv FS} fs b num off t idx :
  binlog_wf fs b → 0 ≤ num < 2 ^ 32 → 0 ≤ off < 2 ^ 31 → 0 ≤ t < 2 ^ 32 → 0 ≤ idx < 2 ^ 64 →
  off < 4 ∨ kHeaderSize ≤ off →
  ∃ fs' b', SetProducerStatus num off t idx (fs, b) = Some (OK, (fs', b')) ∧
    binlog_wf fs' b' ∧ version_ b' = mkVersion num (placed_offset off) idx t ∧
    off - kHeaderSize < placed_offset off ≤ off.
Proof.
  intros W Hn Ho Ht Hi Hoff.
  assert (off - kHeaderSize < placed_offset off ≤ off) as Hso.
  { unfold placed_offset, unpadded.
    pose proof (Z.mod_pos_bound off kBlockSize ltac:(const; lia)).
    destruct (Z.ltb_spec off 4); [const; lia|].
    destruct (Z.ltb_spec (off mod kBlockSize) kHeaderSize); const; lia. }
  destruct (SetProducerStatus_run fs b num off t idx (λ o pad,
    o = placed_offset off ∧ zlen pad = o ∧ seekable (zlen pad mod kBlockSize) pad))
    as (fs' & off' & pad & rest & H & Hd & (-> & Hz & Hs) & Hm); [done| |].
  { intros fs1 b1 Hq Hd. unfold placed_offset. destruct (Z.ltb_spec off 4) as [Hlt|Hge].
    - exists 0, fs1, []. split_and!; try done. apply seekable_nil.
    - destruct (AppendPadding_spec fs1 b1 _ off Hq Hd) as (fs2 & pad & H & A & Hd' & Hz & Hs);
        [lia|]. exists (off - unpadded off), fs2, pad. done. }
  eexists _, _. split_and!; [exact H| |done|lia|lia].
  assert (0 ≤ placed_offset off) by (rewrite <- Hz; apply zlen_nonneg).
  split; try done; cbn.
  - split_and!; cbn; lia.
  - pose proof (Z.mod_pos_bound (zlen pad) kBlockSize). const; lia.
  - by exists pad.
  - by exists rest.
  - apply W.
Qed.

(** Repositioning: without I/O errors [SetProducerStatus] returns [OK] and
    leaves a well-formed binlog (so that file contents, manifest and version
    agree) at file [num], logic id [idx], term [t], and at offset [off] but for
    a block tail shorter than a header. *)
Theorem SetProducerStatus_wf `{!ReliableEnv FS} fs b num off t idx :
  binlog_wf fs b → 0 ≤ num < 2 ^ 32 → 0 ≤ off < 2 ^ 31 → 0 ≤ t < 2 ^ 32 → 0 ≤ idx < 2 ^ 64 →
  off < 4 ∨ kHeaderSize ≤ off →
  ∃ fs' b', SetProducerStatus num off t idx (fs, b) = Some (OK, (fs', b')) ∧
    binlog_wf fs' b' ∧ version_ b' = mkVersion num (placed_offset off) idx t ∧
    off - kHeaderSize < placed_offset off ≤ off.
Proof. apply SetProducerStatus_places. Qed.

(** The guard of [SetProducerStatus] is 4 where a header has 8 bytes: for
    the offsets 4 to 7 it records an offset that the (empty) file does not
    have, so the binlog it leaves is not well formed. *)
Theorem SetProducerStatus_short_offset `{!ReliableEnv FS} fs b num off t idx :
  binlog_wf fs b → 4 ≤ off < kHeaderSize →
  ∃ fs' b', SetProducerStatus num off t idx (fs, b) = Some (OK, (fs', b')) ∧
    v_pro_offset (version_ b') = off ∧ file_data fs' (cur_file b') = Some [] ∧
    ~ binlog_wf fs' b'.
Proof.
  intros W Ho.
  destruct (SetProducerStatus_run fs b num off t idx (λ o pad, o = off ∧ pad = []))
    as (fs' & off' & pad & rest & H & Hd & (-> & ->) & Hm); [done| |].
  { intros fs1 b1 Hq Hd. rewrite (proj2 (Z.ltb_ge _ _)) by lia.
    unfold AppendPadding. rewrite (proj2 (Z.ltb_lt _ _)) by lia.
    by exists off, fs1, []. }
  eexists _, _. split_and!; [exact H|done|done|].
  intros W'. destruct (wf_data _ _ W') as (d & Hd' & Hz & _).
  unfold cur_file in Hd'. cbn in Hd', Hz. rewrite Hd in Hd'. injection Hd' as <-.
  rewrite zlen_nil in Hz. lia.
Qed.

(** What [Truncate] needs of a binlog: its names and its manifest. *)
Definition binlog_base fs b : Prop :=
  names_ok b ∧ version_ok (version_ b) ∧
  ∃ m, env_rwdata fs (versionfile_ b) = Some m ∧ 24 ≤ zlen m.

Lemma binlog_wf_base fs b : binlog_wf fs b → binlog_base fs b.
Proof.
  intros W. split; [apply W|]. split; [apply W|]. destruct (wf_manifest _ _ W) as (rest & Hm).
  eexists. split; [done|]. rewrite zlen_app, zlen_manifest_image.
  pose proof (zlen_nonneg rest). lia.
Qed.

(** [Truncate] to a record boundary always returns; when it returns [OK] the
    binlog is well formed at the new position, and without I/O errors it does. *)
Lemma Truncate_run fs b num off idx d :
  binlog_base fs b → 0 ≤ num < 2 ^ 32 → 0 ≤ off < 2 ^ 31 → 0 ≤ idx < 2 ^ 64 →
  file_data fs (NewFileName (filename_ b) num) = Some d → off ≤ zlen d →
  seekable (off mod kBlockSize) (ztake off d) →
  ∃ s fs' b', Truncate num off idx (fs, b) = Some (s, (fs', b')) ∧
    (ReliableEnv FS → s = OK) ∧
    (s = OK → binlog_wf fs' b' ∧
      version_ b' = mkVersion num off idx (v_term (version_ b)) ∧
      filename_ b' = filename_ b ∧ versionfile_ b' = versionfile_ b ∧
      cur_file b' = NewFileName (filename_ b) num ∧
      file_data fs' (cur_file b') = Some (ztake off d) ∧
      agree_files_but (cur_file b') fs fs').
Proof.
  intros W Hn Ho Hi Hd Hle Hs. unfold Truncate. unfold bind at 1, modb. cbn beta iota.
  unfold bind at 1 2, getb, getfs. cbn [fst snd].
  set (b1 := set_queue None b). change (filename_ b1) with (filename_ b).
  set (f := NewFileName (filename_ b) num) in *.
  destruct W as (Nm & Vok & man & Hm & Hml). destruct Nm as (N1 & N2 & N3).
  destruct (env_open_rdwr fs f) eqn:Eo; cbn [negb].
  2:{ eexists _, _, _. split_and!; [done| |done]. intros R.
      by rewrite rel_open_rdwr in Eo by eauto. }
  pose proof (λ R : ReliableEnv FS, rel_ftruncate fs f off ltac:(eauto)) as Rt.
  pose proof (law_ftruncate fs f off) as Lt.
  pose proof (law_ftruncate_frame fs f off) as Ft.
  pose proof (law_rw_ftruncate fs f off) as Fr.
  unfold bind at 1, io. destruct (env_ftruncate fs f off) as [r fs1]. cbn in Rt, Ft, Fr.
  destruct r; cbn [negb].
  2:{ eexists _, _, _. split_and!; [done| |done]. intros R. by specialize (Rt R). }
  clear Rt. specialize (Lt fs1 d eq_refl Hd ltac:(lia)). unfold bind. cbn.
  match goal with |- context [StableSave (_, ?b0)] =>
    destruct (StableSave_spec fs1 b0 man) as (fs2 & rest2 & Hst & A2 & Hm2) end.
  { cbn. by rewrite Fr by apply N3. }
  { done. }
  rewrite Hst. assert (file_data fs2 f = Some (ztake off d)) as Hd2 by (by rewrite A2).
  pose proof (λ R : ReliableEnv FS, rel_append_writable fs2 f off ltac:(eauto)) as Ra.
  pose proof (law_append_writable fs2 f off) as La.
  pose proof (law_append_writable_frame fs2 f off) as Fa.
  pose proof (law_rw_append_writable fs2 f off) as Fw.
  unfold append_writable, bind, io, modb.
  destruct (env_append_writable fs2 f off) as [s fs3]. cbn in Ra, Fa, Fw. cbn.
  destruct (ok s) eqn:Es; cbn.
  2:{ eexists _, _, _. split_and!; [done|done|]. by intros ->. }
  apply ok_true in Es as ->.
  specialize (La fs3 _ eq_refl Hd2). rewrite zlen_ztake in La by lia.
  specialize (La ltac:(lia)). rewrite (ztake_all off) in La by (rewrite zlen_ztake; lia).
  rewrite (InitLogFile_eq _ _ f (ztake off d)) by done.
  eexists _, _, _. split_and!; [done|done|]. intros _.
  split_and!; [|done|done|done|done|exact La|].
  - split; try done; cbn.
    + destruct Vok as (?&?&?&?). split_and!; cbn; lia.
    + pose proof (Z.mod_pos_bound (zlen (ztake off d)) kBlockSize). const; lia.
    + exists (ztake off d). rewrite zlen_ztake by lia. split_and!; done.
    + exists rest2. rewrite Fw by apply N3. done.
  - intros g Hg. change (g ≠ f) in Hg. by rewrite Fa, A2, Ft.
Qed.

(** Truncation: without I/O errors [Truncate] to a record boundary of the
    stored log returns [OK] and leaves a well-formed binlog at that position with
    logic id [idx] and the term unchanged, whose file holds exactly the bytes in
    front of it; the other files are untouched. *)
Theorem Truncate_wf `{!ReliableEnv FS} fs b num off idx d :
  binlog_wf fs b → 0 ≤ num < 2 ^ 32 → 0 ≤ off < 2 ^ 31 → 0 ≤ idx < 2 ^ 64 →
  file_data fs (NewFileName (filename_ b) num) = Some d → off ≤ zlen d →
  seekable (off mod kBlockSize) (ztake off d) →
  ∃ fs' b', Truncate num off idx (fs, b) = Some (OK, (fs', b')) ∧ binlog_wf fs' b' ∧
    version_ b' = mkVersion num off idx (v_term (version_ b)) ∧
    file_data fs' (cur_file b') = Some (ztake off d) ∧ agree_files_but (cur_file b') fs fs'.
Proof.
  intros W Hn Ho Hi Hd Hle Hs.
  destruct (Truncate_run fs b num off idx d (binlog_wf_base _ _ W) Hn Ho Hi Hd Hle Hs)
    as (s & fs' & b' & H & HR & Hok). rewrite (HR _) in *.
  destruct (Hok eq_refl) as (W' & Hv & _ & _ & _ & Hd' & A). exists fs', b'. done.
Qed.

(** [Get] reports [OK] at a padding record: in front of a record of type
    [kBadRecord] (what [AppendPadding] writes) [Consume] fails with an I/O
    error, which [Get] drops; it returns [OK] with an empty item, and the
    reader stands after the record. *)
Theorem Get_bad_record_ok fs b r f num pre n now frag post fuel cfuel scratch o :
  reader_at f num (zlen pre) r →
  file_data fs f = Some (pre ++ (record_header n now kBadRecord ++ frag) ++ post) →
  n = zlen frag → 0 < n → last_record_offset_ r + kHeaderSize + n ≤ kBlockSize →
  ReadToTheEnd b r = Some (false, r) →
  ∃ r', Consume fs (S cfuel) [] o r =
      Some ((IOError "Data Corruption", [], (num, zlen pre + kHeaderSize + n)), r') ∧
    Get fs b (S fuel) (S cfuel) scratch o r =
      Some ((OK, [], (num, zlen pre + kHeaderSize + n)), r') ∧
    reader_at f num (zlen pre + kHeaderSize + n) r'.
Proof.
  intros R Hd Hn Hpos Hb Hend. pose proof R as (Hl & Hq & _ & _ & Hlb & _).
  destruct (ReadPhysicalRecord_record fs f num (zlen pre) r pre n now kBadRecord frag post o)
    as (r' & Hrd & R' & _); try done; try lia.
  assert (Consume fs (S cfuel) [] o r =
    Some ((IOError "Data Corruption", [], (num, zlen pre + kHeaderSize + n)), r')) as Hc.
  { cbn [Consume]. unfold bind at 1. by rewrite Hrd. }
  exists r'. split_and!; [done| |done].
  unfold Get. unfold bind at 1, get. rewrite Hl, Hq. cbn [negb orb].
  rewrite (bool_decide_eq_true_2 (is_Some _)) by eauto. cbn [negb Get_loop].
  unfold bind at 1. rewrite Hend. unfold bind at 1. by rewrite Hc.
Qed.

(** *** For the users of the binlog *)

Lemma binlog_wf_agree fs fs' b : agree fs fs' → binlog_wf fs b → binlog_wf fs' b.
Proof.
  intros A [? ? ? ? ? Hd Hm ?]. split; try done.
  - by rewrite (proj1 (A _)).
  - by rewrite (proj2 (A _)).
Qed.

(** What [Put] does to the logical part of the version. *)
Lemma Put_version fs b x fs' b' :
  binlog_wf fs b → Put x (fs, b) = Some (OK, (fs', b')) →
  v_logic_id (version_ b') = u64 (v_logic_id (version_ b) + 1) ∧
  v_term (version_ b') = v_term (version_ b) ∧ versionfile_ b' = versionfile_ b ∧
  opened_ b' = true.
Proof.
  intros W H. destruct (Put_spec _ _ _ _ _ W H) as
    (fs1 & b1 & d & out & bo' & Hr & W1 & _ & _ & _ & _ & _ & _ & _ & -> & _).
  destruct (Put_roll_spec _ _ _ _ W Hr) as [_ Hroll]. cbn.
  destruct (_ >? _); [destruct Hroll as (-> & _)|destruct Hroll as [_ ->]]; cbn;
    split_and!; try done; apply W.
Qed.
End Open.
