(* ===== verification/Transverter.v ===== *)
(** * Binlog items (src/pika_binlog_transverter.cc, include/pika_binlog_transverter.h)

    The encoding of a replicated command as a binlog item: a 34-byte header of
    fixed-width fields and the command text.  The fixed-width coding
    ([FixedCoding]) and [ll2string] belong to a separate library and are
    interfaces. *)

From S2P Require Import Prelude Define Env.
From stdpp Require Import base list strings pretty gmap.
From Stdlib Require Import ZArith Lia Init.Byte.
#[local] Open Scope string_scope.
#[local] Open Scope list_scope.
#[local] Open Scope Z_scope.

(** ** Data *)

Definition BINLOG_ITEM_HEADER_SIZE : Z := 34.
Definition PADDING_BINLOG_PROTOCOL_SIZE : Z := 22.
Definition SPACE_STROE_PARAMETER_LENGTH : Z := 5.

Definition TypeFirst : Z := 1.

Record BinlogItem := mkItem {
  exec_time_ : Z; term_id_ : Z; logic_id_ : Z; filenum_ : Z; offset_ : Z; content_ : bytes }.

Definition BinlogItem_new : BinlogItem := mkItem 0 0 0 0 0 [].

Definition set_exec_time (x : Z) (i : BinlogItem) : BinlogItem :=
  mkItem x (term_id_ i) (logic_id_ i) (filenum_ i) (offset_ i) (content_ i).
Definition set_term_id (x : Z) (i : BinlogItem) : BinlogItem :=
  mkItem (exec_time_ i) x (logic_id_ i) (filenum_ i) (offset_ i) (content_ i).
Definition set_logic_id (x : Z) (i : BinlogItem) : BinlogItem :=
  mkItem (exec_time_ i) (term_id_ i) x (filenum_ i) (offset_ i) (content_ i).
Definition set_filenum (x : Z) (i : BinlogItem) : BinlogItem :=
  mkItem (exec_time_ i) (term_id_ i) (logic_id_ i) x (offset_ i) (content_ i).
Definition set_offset (x : Z) (i : BinlogItem) : BinlogItem :=
  mkItem (exec_time_ i) (term_id_ i) (logic_id_ i) (filenum_ i) x (content_ i).
Definition set_content (x : bytes) (i : BinlogItem) : BinlogItem :=
  mkItem (exec_time_ i) (term_id_ i) (logic_id_ i) (filenum_ i) (offset_ i) x.

Definition kNewLine : bytes := [x0d; x0a].

(** One character of the printed content: line ends are made visible. *)
Definition show_byte (c : byte) : bytes :=
  if bool_decide (c = x0a) then str "\n" else if bool_decide (c = x0d) then str "\r" else [c].

Definition ToString (i : BinlogItem) : bytes :=
  str ("exec_time: " +:+ pretty (exec_time_ i)) ++
  str (",term_id: " +:+ pretty (term_id_ i)) ++
  str (",logic_id: " +:+ pretty (logic_id_ i)) ++
  str (",filenum: " +:+ pretty (filenum_ i)) ++
  str (",offset: " +:+ pretty (offset_ i)) ++
  [x0a] ++ str "content: " ++
  concat (show_byte <$> content_ i) ++ [x0a].

(** [slash::ll2string]: the decimal text of a [long long]. *)
Class NumString := { ll2string : Z → bytes }.
Class NumStringLaws {N : NumString} := {
  law_ll2string z : - 2 ^ 63 ≤ z < 2 ^ 63 → ll2string z = str (pretty z) }.

#[export] Instance pretty_num : NumString := { ll2string z := str (pretty z) }.
#[export] Instance pretty_num_laws : NumStringLaws.
Proof. by split. Qed.

(** ** Operations *)

Section Ops.
Context {C : FixedCoding} {N : NumString}.

Definition RedisAppendContent (s value : bytes) : bytes := s ++ value ++ kNewLine.

Definition RedisAppendLen (s : bytes) (ori : Z) (prefix : bytes) : bytes :=
  s ++ prefix ++ ll2string ori ++ kNewLine.

Definition BinlogEncode (type exec_time term_id logic_id filenum offset : Z)
    (content : bytes) : bytes :=
  PutFixed 2 type ++ PutFixed 4 exec_time ++ PutFixed 4 term_id ++ PutFixed 8 logic_id ++
  PutFixed 4 filenum ++ PutFixed 8 offset ++ PutFixed 4 (u32 (zlen content)) ++ content.

(** The header fields after the type: what is left, and the item. *)
Definition decode_fields (s : bytes) (i : BinlogItem) : bytes * BinlogItem :=
  let '(a, s) := GetFixed 4 s (exec_time_ i) in
  let '(b, s) := GetFixed 4 s (term_id_ i) in
  let '(c, s) := GetFixed 8 s (logic_id_ i) in
  let '(d, s) := GetFixed 4 s (filenum_ i) in
  let '(e, s) := GetFixed 8 s (offset_ i) in
  (s, mkItem a b c d e (content_ i)).

(** The result and the item, which may be partly written on failure. *)
Definition BinlogDecode (type : Z) (binlog : bytes) (i : BinlogItem) : bool * BinlogItem :=
  let '(binlog_type, s) := GetFixed 2 binlog 0 in
  if negb (binlog_type =? type) then (false, i) else
  let '(s, i) := decode_fields s i in
  let '(content_length, s) := GetFixed 4 s 0 in
  if zlen s =? content_length then (true, set_content s i) else (false, i).

Definition BinlogItemWithoutContentDecode (type : Z) (binlog : bytes) (i : BinlogItem) :
    bool * BinlogItem :=
  let '(binlog_type, s) := GetFixed 2 binlog 0 in
  if negb (binlog_type =? type) then (false, i) else
  let '(s, i) := decode_fields s i in
  (true, i).

(** [None]: a failed assertion. *)
Definition ConstructPaddingBinlog (type size : Z) : option bytes :=
  if negb (size <=? kBlockSize - kHeaderSize) then None else
  if negb (BINLOG_ITEM_HEADER_SIZE + PADDING_BINLOG_PROTOCOL_SIZE
           + SPACE_STROE_PARAMETER_LENGTH <=? size) then None else
  let binlog := PutFixed 2 type ++ PutFixed 4 0 ++ PutFixed 4 0 ++ PutFixed 8 0 ++
                PutFixed 4 0 ++ PutFixed 8 0 in
  let content_len := s32 (size - BINLOG_ITEM_HEADER_SIZE) in
  let parameter_len := content_len - PADDING_BINLOG_PROTOCOL_SIZE
                       - SPACE_STROE_PARAMETER_LENGTH in
  if parameter_len <? 0 then Some [] else
  let content := RedisAppendContent
    (RedisAppendLen (RedisAppendLen [] 2 (str "*")) 7 (str "$")) (str "padding") in
  let parameter_len_str := str (pretty parameter_len) in
  if zlen parameter_len_str >? SPACE_STROE_PARAMETER_LENGTH then Some [] else
  let content := content ++ str "$" ++
    zrep (SPACE_STROE_PARAMETER_LENGTH - zlen parameter_len_str) "0"%byte ++
    parameter_len_str ++ kNewLine in
  let content := RedisAppendContent content (zrep parameter_len "*"%byte) in
  Some (binlog ++ PutFixed 4 content_len ++ content).
End Ops.

Arguments BinlogDecode : simpl never.
Arguments BinlogEncode : simpl never.

(** ** Facts *)

(** The fields fit their widths. *)
Definition item_ok (i : BinlogItem) : Prop :=
  0 ≤ exec_time_ i < 2 ^ 32 ∧ 0 ≤ term_id_ i < 2 ^ 32 ∧ 0 ≤ logic_id_ i < 2 ^ 64 ∧
  0 ≤ filenum_ i < 2 ^ 32 ∧ 0 ≤ offset_ i < 2 ^ 64.

Section Facts.
Context {C : FixedCoding} {N : NumString} {CL : FixedCodingLaws} {NL : NumStringLaws}.

(** The encoding of an item in front of [s]: the header fields. *)
Definition encode_item (type : Z) (i : BinlogItem) : bytes :=
  BinlogEncode type (exec_time_ i) (term_id_ i) (logic_id_ i) (filenum_ i) (offset_ i) (content_ i).

Lemma decode_fields_put i s old :
  item_ok i →
  decode_fields (PutFixed 4 (exec_time_ i) ++ PutFixed 4 (term_id_ i) ++
    PutFixed 8 (logic_id_ i) ++ PutFixed 4 (filenum_ i) ++ PutFixed 8 (offset_ i) ++ s) old =
  (s, set_content (content_ old) i).
Proof.
  intros (?&?&?&?&?). unfold decode_fields.
  by rewrite !law_get_put by (cbn; lia).
Qed.

Lemma decode_fields_rest s i : (28 ≤ length s)%nat → (decode_fields s i).1 = drop 28 s.
Proof.
  intros Hl. unfold decode_fields.
  repeat match goal with
    | |- context [GetFixed ?n ?x ?o] =>
        let Hr := fresh in
        pose proof (law_get_rest n x o ltac:(rewrite ?length_drop; lia)) as Hr;
        destruct (GetFixed n x o) as [??]; cbn [snd] in Hr; subst
    end.
  cbn [fst]. by rewrite !drop_drop.
Qed.

Lemma length_encode type i : zlen (encode_item type i) = BINLOG_ITEM_HEADER_SIZE + zlen (content_ i).
Proof.
  unfold encode_item, BinlogEncode, BINLOG_ITEM_HEADER_SIZE, zlen.
  rewrite !length_app, !law_put_length. lia.
Qed.

(** Encoding and decoding: a binlog item whose fields fit their widths and
    whose content is shorter than 4 GB is decoded to itself, whatever the
    destination held; the header-only decoder recovers the same fields and
    leaves the destination's content alone. *)
Theorem BinlogDecode_BinlogEncode type i old :
  0 ≤ type < 2 ^ 16 → item_ok i → zlen (content_ i) < 2 ^ 32 →
  BinlogDecode type (encode_item type i) old = (true, i) ∧
  BinlogItemWithoutContentDecode type (encode_item type i) old =
    (true, set_content (content_ old) i).
Proof.
  intros Ht Hi Hc. unfold encode_item, BinlogEncode, BinlogDecode, BinlogItemWithoutContentDecode.
  pose proof (zlen_nonneg (content_ i)).
  rewrite law_get_put by (cbn; lia). rewrite Z.eqb_refl. cbn [negb].
  rewrite decode_fields_put by done. split; [|done].
  rewrite u32_small by lia. rewrite law_get_put by (cbn; lia). rewrite Z.eqb_refl.
  by destruct i.
Qed.

(** What a successful decode means for a message that has a whole header. *)
Lemma BinlogDecode_true type s i i' :
  BINLOG_ITEM_HEADER_SIZE ≤ zlen s → BinlogDecode type s i = (true, i') →
  content_ i' = drop 34 s ∧ (GetFixed 2 s 0).1 = type ∧
  (GetFixed 4 (drop 30 s) 0).1 = zlen (drop 34 s).
Proof.
  unfold BINLOG_ITEM_HEADER_SIZE, zlen. intros Hl H. unfold BinlogDecode in H.
  pose proof (law_get_rest 2 s 0 ltac:(lia)) as H2.
  destruct (GetFixed 2 s 0) as [t s2]. cbn [fst snd] in *. subst s2.
  destruct (Z.eqb_spec t type) as [Et|]; cbn [negb] in H; [|done].
  pose proof (decode_fields_rest (drop 2 s) i ltac:(rewrite length_drop; lia)) as Hf.
  destruct (decode_fields (drop 2 s) i) as [s3 i3]. cbn [fst] in Hf. subst s3.
  rewrite drop_drop in H. cbn [Nat.add] in H.
  pose proof (law_get_rest 4 (drop 30 s) 0 ltac:(rewrite length_drop; lia)) as H4.
  destruct (GetFixed 4 (drop 30 s) 0) as [n s4]. cbn [fst snd] in *. subst s4.
  rewrite drop_drop in H. cbn [Nat.add] in H. unfold zlen in H.
  destruct (Z.eqb_spec (Z.of_nat (length (drop 34 s))) n); [|done].
  injection H as <-. done.
Qed.

(** Framing: of all byte strings that start with the header of an encoded
    item, [BinlogDecode] accepts only the encoding itself: a message that was cut
    inside its content, or that carries bytes after it, is rejected, and so is
    every message of another type. *)
Theorem BinlogDecode_framing type i s type' old :
  0 ≤ type < 2 ^ 16 → item_ok i → zlen (content_ i) < 2 ^ 32 →
  take 34 s = take 34 (encode_item type i) →
  zlen s ≠ zlen (encode_item type i) ∨ type' ≠ type →
  (BinlogDecode type' s old).1 = false.
Proof.
  intros Ht Hi Hc Hs Hne. pose proof (zlen_nonneg (content_ i)).
  pose proof (length_encode type i) as Hl.
  destruct (BinlogDecode type' s old) as [[] i'] eqn:Hd; [exfalso|done].
  set (h := PutFixed 2 type ++ PutFixed 4 (exec_time_ i) ++ PutFixed 4 (term_id_ i) ++
    PutFixed 8 (logic_id_ i) ++ PutFixed 4 (filenum_ i) ++ PutFixed 8 (offset_ i)).
  assert (length h = 30%nat) as Hh by (unfold h; rewrite !length_app, !law_put_length; done).
  assert (take 34 (encode_item type i) = h ++ PutFixed 4 (zlen (content_ i))) as Ht34.
  { assert (encode_item type i = (h ++ PutFixed 4 (zlen (content_ i))) ++ content_ i) as ->.
    { unfold encode_item, BinlogEncode, h. rewrite u32_small by lia. by rewrite <- !app_assoc. }
    rewrite take_app_length'; [done|]. by rewrite length_app, Hh, law_put_length. }
  assert (34 ≤ zlen s) as Hls.
  { apply (f_equal length) in Hs. rewrite Ht34, length_app, Hh, law_put_length, length_take in Hs.
    unfold zlen. lia. }
  destruct (BinlogDecode_true type' s old i' Hls Hd) as (_ & Hty & Hn).
  assert (s = h ++ PutFixed 4 (zlen (content_ i)) ++ drop 34 s) as Hsplit
    by (rewrite app_assoc, <- Ht34, <- Hs; by rewrite take_drop).
  assert (drop 30 s = PutFixed 4 (zlen (content_ i)) ++ drop 34 s) as H30.
  { rewrite Hsplit at 1. rewrite drop_app_length'; done. }
  rewrite H30, law_get_put in Hn by (cbn; lia). cbn [fst] in Hn.
  rewrite Hsplit in Hty. unfold h in Hty. rewrite <- !app_assoc in Hty.
  rewrite law_get_put in Hty by (cbn; lia). cbn in Hty.
  destruct Hne as [Hne|Hne]; [|congruence]. apply Hne. rewrite Hl, Hn.
  unfold BINLOG_ITEM_HEADER_SIZE, zlen in *. rewrite length_drop. lia.
Qed.

(** The content of a padding item with a parameter of [n] characters: the
    command [padding ****..] in the request protocol. *)
Definition padding_content (n : Z) : bytes :=
  str "*2" ++ kNewLine ++ str "$7" ++ kNewLine ++ str "padding" ++ kNewLine ++
  str "$" ++ zrep (5 - zlen (str (pretty n))) "0"%byte ++ str (pretty n) ++ kNewLine ++
  zrep n "*"%byte ++ kNewLine.

Lemma zlen_str_pretty n : 0 ≤ n < 100000 → 0 ≤ zlen (str (pretty n)) ≤ 5.
Proof.
  intros Hn. unfold zlen. rewrite length_str.
  pose proof (pretty_Z_length 5 n ltac:(lia) ltac:(cbn; lia)). lia.
Qed.

Lemma zlen_padding_content n : 0 ≤ n < 100000 → zlen (padding_content n) = 27 + n.
Proof.
  intros Hn. pose proof (zlen_str_pretty n Hn). unfold padding_content.
  rewrite !zlen_app, !zlen_zrep by lia.
  change (zlen kNewLine) with 2. change (zlen (str "*2")) with 2. change (zlen (str "$7")) with 2.
  change (zlen (str "padding")) with 7. change (zlen (str "$")) with 1. lia.
Qed.

(** A padding item fills exactly the space asked for: for every size that
    the assertions admit the result has that many bytes and decodes to the
    command [padding] with a parameter that takes up the rest. *)
Theorem ConstructPaddingBinlog_ok type size old :
  0 ≤ type < 2 ^ 16 → 61 ≤ size ≤ kBlockSize - kHeaderSize →
  ∃ s, ConstructPaddingBinlog type size = Some s ∧ zlen s = size ∧
    BinlogDecode type s old = (true, mkItem 0 0 0 0 0 (padding_content (size - 61))).
Proof.
  intros Ht Hs. set (i := mkItem 0 0 0 0 0 (padding_content (size - 61))).
  assert (kBlockSize - kHeaderSize = 65528) as Hk by done. rewrite Hk in Hs.
  pose proof (zlen_padding_content (size - 61) ltac:(lia)) as Hz.
  pose proof (zlen_str_pretty (size - 61) ltac:(lia)) as Hd.
  assert (ConstructPaddingBinlog type size = Some (encode_item type i)) as ->.
  { unfold ConstructPaddingBinlog, BINLOG_ITEM_HEADER_SIZE, PADDING_BINLOG_PROTOCOL_SIZE,
      SPACE_STROE_PARAMETER_LENGTH.
    rewrite Hk, !(proj2 (Z.leb_le _ _)) by lia. cbn [negb]. rewrite s32_small by lia.
    replace (size - 34 - 22 - 5) with (size - 61) by lia.
    rewrite (proj2 (Z.ltb_ge _ _)) by lia. rewrite Z.gtb_ltb, (proj2 (Z.ltb_ge _ _)) by lia.
    unfold encode_item, BinlogEncode, i. cbn [exec_time_ term_id_ logic_id_ filenum_ offset_ content_].
    rewrite Hz, u32_small by lia. replace (27 + (size - 61)) with (size - 34) by lia.
    unfold RedisAppendContent, RedisAppendLen, padding_content.
    rewrite !law_ll2string by lia. cbn [app]. rewrite <- !app_assoc. done. }
  exists (encode_item type i). split_and!; [done| |].
  { rewrite length_encode. unfold i. cbn [content_]. rewrite Hz.
    unfold BINLOG_ITEM_HEADER_SIZE. lia. }
  unfold encode_item, BinlogEncode, BinlogDecode.
  rewrite law_get_put, Z.eqb_refl by (cbn; lia). cbn [negb].
  rewrite decode_fields_put by (split_and!; cbn; lia).
  unfold i at 1 2. cbn [content_]. rewrite Hz, u32_small by lia.
  rewrite law_get_put by (cbn; lia). rewrite Hz, Z.eqb_refl. done.
Qed.
End Facts.

(** ** Examples *)

Definition item0 : BinlogItem := mkItem 1700000000 3 42 1 4096 (str "*1").

Lemma BinlogDecode_BinlogEncode_witness :
  BinlogDecode TypeFirst (encode_item TypeFirst item0) BinlogItem_new = (true, item0).
Proof.
  apply (BinlogDecode_BinlogEncode TypeFirst item0 BinlogItem_new).
  - unfold TypeFirst. lia.
  - split_and!; cbn; lia.
  - vm_compute. reflexivity.
Defined.

Lemma BinlogDecode_framing_witness :
  (BinlogDecode TypeFirst (take 35 (encode_item TypeFirst item0)) BinlogItem_new).1 = false.
Proof.
  apply (BinlogDecode_framing TypeFirst item0 (take 35 (encode_item TypeFirst item0))
    TypeFirst BinlogItem_new).
  - unfold TypeFirst. lia.
  - split_and!; cbn; lia.
  - vm_compute. reflexivity.
  - vm_compute. reflexivity.
  - left. vm_compute. discriminate.
Defined.

Lemma ConstructPaddingBinlog_ok_witness : ∃ s,
  ConstructPaddingBinlog TypeFirst 64 = Some s ∧ zlen s = 64.
Proof.
  destruct (ConstructPaddingBinlog_ok TypeFirst 64 BinlogItem_new) as (s & H & Hl & _).
  - unfold TypeFirst. lia.
  - vm_compute. split; discriminate.
  - exists s. split; [exact H|exact Hl].
Defined.
