(* ===== verification/Command.v ===== *)
(** * Commands as the log sees them (src/pika_command.cc)

    What the log needs of a command: the binlog item it becomes, the table it
    belongs to, and how it is read back.  [CmdOps] is the interface the
    coordinator uses; [Cmd_ToBinlog] is the item that [Cmd::ToBinlog] builds
    from the arguments of a command, in the request protocol.  The parser of
    the request protocol is a separate library. *)

From S2P Require Import Prelude Define Env Transverter.
From stdpp Require Import base list strings pretty gmap.
From Stdlib Require Import ZArith Lia Init.Byte.
#[local] Open Scope string_scope.
#[local] Open Scope list_scope.
#[local] Open Scope Z_scope.

(** [ToBinlog c exec_time term_id logic_id filenum offset]; [parse_cmd table s]:
    the command in a request text, for the table ([RedisParser] and
    [ConsensusCoordinator::InitCmd]). *)
Class CmdOps (Cmd : Type) := {
  ToBinlog : Cmd → Z → Z → Z → Z → Z → bytes;
  cmd_table_name : Cmd → string;
  parse_cmd : string → bytes → option Cmd;
}.

(** A log item carries the fields it was made with. *)
Class CmdLaws (Cmd : Type) {O : CmdOps Cmd} {C : FixedCoding} : Prop := {
  law_ToBinlog c i old : item_ok i →
    (BinlogItemWithoutContentDecode TypeFirst
       (ToBinlog c (exec_time_ i) (term_id_ i) (logic_id_ i) (filenum_ i) (offset_ i)) old).1
      = true ∧
    let i' := (BinlogItemWithoutContentDecode TypeFirst
       (ToBinlog c (exec_time_ i) (term_id_ i) (logic_id_ i) (filenum_ i) (offset_ i)) old).2 in
    exec_time_ i' = exec_time_ i ∧ term_id_ i' = term_id_ i ∧ logic_id_ i' = logic_id_ i ∧
    filenum_ i' = filenum_ i ∧ offset_ i' = offset_ i;
}.

Section Ops.
Context {C : FixedCoding} {N : NumString}.

(** The request text of a command. *)
Definition request_text (argv : list bytes) : bytes :=
  foldl (λ content v, RedisAppendContent (RedisAppendLen content (zlen v) (str "$")) v)
    (RedisAppendLen [] (zlen argv) (str "*")) argv.

Definition Cmd_ToBinlog (argv : list bytes) (exec_time term_id logic_id filenum offset : Z) :
    bytes :=
  BinlogEncode TypeFirst exec_time term_id logic_id filenum offset (request_text argv).
End Ops.

(** Commands that use the default [ToBinlog]; reading back, which belongs to the
    protocol library, keeps the text as the only argument. *)
Record PlainCmd := mkPlainCmd { argv_ : list bytes; plain_table_ : string }.

#[export] Instance PlainCmd_ops `{FixedCoding, NumString} : CmdOps PlainCmd := {
  ToBinlog c := Cmd_ToBinlog (argv_ c);
  cmd_table_name := plain_table_;
  parse_cmd t s := Some (mkPlainCmd [s] t);
}.

Lemma without_content_encode `{FixedCodingLaws} i content old :
  item_ok i →
  BinlogItemWithoutContentDecode TypeFirst
    (BinlogEncode TypeFirst (exec_time_ i) (term_id_ i) (logic_id_ i) (filenum_ i) (offset_ i)
       content) old = (true, set_content (content_ old) i).
Proof.
  intros Hi. unfold BinlogEncode, BinlogItemWithoutContentDecode.
  rewrite law_get_put by (unfold TypeFirst; cbn; lia). rewrite Z.eqb_refl. cbn [negb].
  by rewrite decode_fields_put.
Qed.

#[export] Instance PlainCmd_laws `{FixedCodingLaws, NumString} : CmdLaws PlainCmd.
Proof.
  split. intros c i old Hi. unfold ToBinlog, PlainCmd_ops, Cmd_ToBinlog.
  rewrite without_content_encode by done. by destruct i.
Qed.
