(* ===== verification/SlaveNode.v ===== *)
(** * Slave nodes and their sync windows (src/pika_slave_node.cc, include/pika_slave_node.h)

    A master keeps a node per slave.  Its [SyncWindow] holds the binlog offsets
    that were sent and not yet acknowledged as a prefix; acknowledgements name
    a range of it, may come out of order, and advance [acked_offset] over the
    acknowledged prefix.  The configuration the code reads through
    [g_pika_conf] is the record [PikaConf]. *)

From S2P Require Import Prelude Define Env Binlog BinlogReader.
From stdpp Require Import base list strings pretty gmap sorting.
From Stdlib Require Import ZArith Lia Init.Byte.
#[local] Open Scope string_scope.
#[local] Open Scope list_scope.
#[local] Open Scope Z_scope.

(** ** Configuration

    What the accessors of [PikaConf] return.  In this tree [consensus_level()]
    returns 0 and [classic_mode()] returns true whatever was configured
    ([conf_as_built]); the code under the other values is modelled as well. *)
Record PikaConf := mkConf {
  sync_window_size : Z; consensus_level : Z; classic_mode : bool; binlog_file_size : Z;
  expire_logs_nums : Z; expire_logs_days : Z; log_path : string; default_table : string;
  conf_port : Z }.

Definition conf_as_built (c : PikaConf) : PikaConf :=
  mkConf (sync_window_size c) 0 true (binlog_file_size c) (expire_logs_nums c)
    (expire_logs_days c) (log_path c) (default_table c) (conf_port c).

(** ** Sync windows *)

Record SyncWinItem := mkWinItem { win_offset_ : LogOffset; binlog_size_ : Z; acked_ : bool }.

Definition SyncWinItem_new (o : LogOffset) (size : Z) : SyncWinItem := mkWinItem o size false.

(** [SyncWinItem::operator==]. *)
Definition swi_eqb (a b : SyncWinItem) : bool :=
  (filenum (b_offset (win_offset_ a)) =? filenum (b_offset (win_offset_ b)))
  && (offset (b_offset (win_offset_ a)) =? offset (b_offset (win_offset_ b))).

Definition set_acked (x : SyncWinItem) : SyncWinItem :=
  mkWinItem (win_offset_ x) (binlog_size_ x) true.

Definition lo_ToString (o : LogOffset) : string :=
  "filenum: " +:+ pretty (filenum (b_offset o)) +:+ " offset: " +:+ pretty (offset (b_offset o))
  +:+ " " +:+ "term: " +:+ pretty (term (l_offset o)) +:+ " index: "
  +:+ pretty (index (l_offset o)).

Definition swi_ToString (x : SyncWinItem) : string :=
  lo_ToString (win_offset_ x) +:+ " binglog size: " +:+ pretty (binlog_size_ x)
  +:+ " acked: " +:+ (if acked_ x then "1" else "0").

Record SyncWindow := mkWindow { win_ : list SyncWinItem; total_size_ : Z }.

Definition SyncWindow_new : SyncWindow := mkWindow [] 0.

Definition Push (x : SyncWinItem) (w : SyncWindow) : SyncWindow :=
  mkWindow (win_ w ++ [x]) (u64 (total_size_ w + binlog_size_ x)).

(** The search of [Update]: the positions of the two items. *)
Fixpoint find_range (i start_pos end_pos : nat) (start_item end_item : SyncWinItem)
    (win : list SyncWinItem) : nat * nat :=
  match win with
  | [] => (start_pos, end_pos)
  | x :: win =>
      let start_pos := if swi_eqb x start_item then i else start_pos in
      if swi_eqb x end_item then (start_pos, i)
      else find_range (S i) start_pos end_pos start_item end_item win
  end.

(** The marking loop of [Update]: [k] items from position [i] on. *)
Fixpoint mark_acked (i k : nat) (w : SyncWindow) : SyncWindow :=
  match k with
  | O => w
  | S k =>
      let size := match win_ w !! i with Some x => binlog_size_ x | None => 0 end in
      mark_acked (S i) k (mkWindow (alter set_acked i (win_ w)) (u64 (total_size_ w - size)))
  end.

(** The popping loop of [Update]. *)
Fixpoint pop_acked (win : list SyncWinItem) (acked_offset : LogOffset) :
    LogOffset * list SyncWinItem :=
  match win with
  | x :: win' => if acked_ x then pop_acked win' (win_offset_ x) else (acked_offset, win)
  | [] => (acked_offset, [])
  end.

(** [Update]: the result, [*acked_offset] and the window. *)
Definition SyncWindow_Update (start_item end_item : SyncWinItem) (acked_offset : LogOffset)
    (w : SyncWindow) : bool * LogOffset * SyncWindow :=
  let n := length (win_ w) in
  let '(start_pos, end_pos) := find_range 0 n n start_item end_item (win_ w) in
  if (Nat.eqb start_pos n) || (Nat.eqb end_pos n) then (false, acked_offset, w) else
  let w := mark_acked start_pos (end_pos + 1 - start_pos) w in
  let '(acked_offset, win) := pop_acked (win_ w) acked_offset in
  (true, acked_offset, mkWindow win (total_size_ w)).

(** [Remaining] computes in [size_t] and returns an [int]. *)
Definition Remaining (c : PikaConf) (w : SyncWindow) : Z :=
  let remaining_size := u64 (sync_window_size c - zlen (win_ w)) in
  s32 (if remaining_size >? 0 then remaining_size else 0).

Definition GetTotalBinlogSize (w : SyncWindow) : Z := total_size_ w.
Definition SyncWindow_Reset (w : SyncWindow) : SyncWindow := mkWindow [] 0.

(** ** Slave nodes *)

Record SlaveNode := mkSlaveNode {
  rm : RmNode; slave_state : SlaveState; b_state : BinlogSyncState; sync_win : SyncWindow;
  sent_offset : LogOffset; acked_offset : LogOffset;
  binlog_reader : option PikaBinlogReader }.

Definition SlaveNode_new (ip : string) (port : Z) (table_name : string)
    (partition_id session_id : Z) : SlaveNode :=
  mkSlaveNode (RmNode_new ip port table_name partition_id session_id) kSlaveNotSync kNotSync
    SyncWindow_new LogOffset0 LogOffset0 None.

Definition set_rm (x : RmNode) (n : SlaveNode) : SlaveNode :=
  mkSlaveNode x (slave_state n) (b_state n) (sync_win n) (sent_offset n) (acked_offset n)
    (binlog_reader n).
Definition set_slave_state (x : SlaveState) (n : SlaveNode) : SlaveNode :=
  mkSlaveNode (rm n) x (b_state n) (sync_win n) (sent_offset n) (acked_offset n)
    (binlog_reader n).
Definition set_b_state (x : BinlogSyncState) (n : SlaveNode) : SlaveNode :=
  mkSlaveNode (rm n) (slave_state n) x (sync_win n) (sent_offset n) (acked_offset n)
    (binlog_reader n).
Definition set_sync_win (x : SyncWindow) (n : SlaveNode) : SlaveNode :=
  mkSlaveNode (rm n) (slave_state n) (b_state n) x (sent_offset n) (acked_offset n)
    (binlog_reader n).
Definition set_sent_offset (x : LogOffset) (n : SlaveNode) : SlaveNode :=
  mkSlaveNode (rm n) (slave_state n) (b_state n) (sync_win n) x (acked_offset n)
    (binlog_reader n).
Definition set_acked_offset (x : LogOffset) (n : SlaveNode) : SlaveNode :=
  mkSlaveNode (rm n) (slave_state n) (b_state n) (sync_win n) (sent_offset n) x
    (binlog_reader n).
Definition set_binlog_reader (x : option PikaBinlogReader) (n : SlaveNode) : SlaveNode :=
  mkSlaveNode (rm n) (slave_state n) (b_state n) (sync_win n) (sent_offset n)
    (acked_offset n) x.

(** [InitBinlogFileReader]; [gfuel] bounds the records of one item. *)
Definition InitBinlogFileReader {FS} {E : SlashEnv FS} (fs : FS) (gfuel : nat)
    (binlog : Binlog) (o : BinlogOffset) (n : SlaveNode) : option (Status * SlaveNode) :=
  match Seek fs binlog gfuel (filenum o) (offset o) Reader_new with
  | None => None
  | Some (res, r) =>
      let n := set_binlog_reader (Some r) n in
      if negb (res =? 0) then
        Some (Corruption (rm_ToString (rm n) +:+ "  binlog reader init failed"), n)
      else Some (OK, n)
  end.

(** [SlaveNode::Update]: the status, [*updated_offset] and the node. *)
Definition SlaveNode_Update (start end_ : LogOffset) (updated_offset : LogOffset)
    (n : SlaveNode) : Status * LogOffset * SlaveNode :=
  if negb (bool_decide (slave_state n = kSlaveBinlogSync))
  then (Corruption (rm_ToString (rm n) +:+ "state not BinlogSync"), updated_offset, n) else
  let '(res, updated_offset, w) :=
    SyncWindow_Update (SyncWinItem_new start 0) (SyncWinItem_new end_ 0) LogOffset0
      (sync_win n) in
  let n := set_sync_win w n in
  if negb res then (Corruption "UpdateAckedInfo failed", updated_offset, n) else
  if lo_eqb updated_offset LogOffset0 then (OK, acked_offset n, n)
  else (OK, updated_offset, set_acked_offset updated_offset n).

(** ** The window as a specification

    [key] is what items are compared by.  A window is well formed when its
    offsets increase, its front is not acknowledged, and [total_size_] is the
    size of what is not acknowledged. *)

Definition key (x : SyncWinItem) : BinlogOffset := b_offset (win_offset_ x).
Definition klt (x y : SyncWinItem) : Prop := bo_ltb (key x) (key y) = true.

Fixpoint pending (win : list SyncWinItem) : Z :=
  match win with
  | [] => 0
  | x :: win => (if acked_ x then 0 else binlog_size_ x) + pending win
  end.

Definition front_open (win : list SyncWinItem) : Prop :=
  match win with x :: _ => acked_ x = false | [] => True end.

Record win_wf (w : SyncWindow) : Prop := {
  ww_sorted : StronglySorted klt (win_ w);
  ww_front : front_open (win_ w);
  ww_total : total_size_ w = u64 (pending (win_ w));
}.

Lemma swi_eqb_key a b : swi_eqb a b = true ↔ key a = key b.
Proof. apply bo_eqb_eq. Qed.

#[export] Instance klt_trans : Transitive klt.
Proof. unfold klt. intros x y z. bo_solve. Qed.

Lemma klt_irrefl x y : klt x y → key x ≠ key y.
Proof.
  unfold klt. intros H E. rewrite E in H. revert H. generalize (key y) as k. intros k.
  unfold bo_ltb. rewrite !Z.ltb_irrefl, andb_false_r. done.
Qed.

Lemma u64_sub_u64 a b : u64 (u64 a - b) = u64 (a - b).
Proof. unfold u64. apply Zminus_mod_idemp_l. Qed.
Lemma u64_add_u64 a b : u64 (u64 a + b) = u64 (a + b).
Proof. unfold u64. apply Zplus_mod_idemp_l. Qed.

Lemma pending_app a b : pending (a ++ b) = pending a + pending b.
Proof. induction a as [|x a IH]; cbn; [done|]. rewrite IH. lia. Qed.

Lemma pending_acked a : pending (set_acked <$> a) = 0.
Proof. induction a as [|x a IH]; cbn; [done|]. by rewrite IH. Qed.

Lemma StronglySorted_mid (a b c : list SyncWinItem) x :
  StronglySorted klt (a ++ x :: b) → Forall (λ y, key y ≠ key x) a ∧ Forall (λ y, key x ≠ key y) b.
Proof.
  intros H. split.
  - induction a as [|y a IH]; [constructor|]. cbn in H. apply StronglySorted_inv in H as [H Hy].
    constructor; [|by apply IH]. apply Forall_app in Hy as [_ Hy].
    apply klt_irrefl. by apply Forall_inv in Hy.
  - apply StronglySorted_app_1_r, StronglySorted_inv in H as [_ H].
    eapply Forall_impl; [done|]. intros y. apply klt_irrefl.
Qed.

(** The search finds a range of the window. *)
Lemma find_range_none i sp ep s e l :
  Forall (λ x, swi_eqb x e = false) l → (find_range i sp ep s e l).2 = ep.
Proof.
  revert i sp. induction l as [|x l IH]; intros i sp H; cbn; [done|].
  apply Forall_cons in H as [Hx H]. rewrite Hx. by apply IH.
Qed.

Lemma find_range_some i sp ep s e a x b :
  Forall (λ y, swi_eqb y e = false) a → swi_eqb x e = true →
  find_range i sp ep s e (a ++ x :: b) =
    (if swi_eqb x s then (i + length a)%nat else (find_range i sp ep s e a).1,
     (i + length a)%nat).
Proof.
  revert i sp. induction a as [|y a IH]; intros i sp Ha Hx; cbn.
  - rewrite Hx, Nat.add_0_r. done.
  - apply Forall_cons in Ha as [Hy Ha]. rewrite Hy, IH, Nat.add_succ_r by done. done.
Qed.

Lemma find_range_start_none i sp ep s e l :
  Forall (λ x, swi_eqb x s = false) l → (find_range i sp ep s e l).1 = sp.
Proof.
  revert i. induction l as [|x l IH]; intros i H; cbn; [done|].
  apply Forall_cons in H as [Hx H]. rewrite Hx. destruct (swi_eqb x e); [done|]. by apply IH.
Qed.

Lemma find_range_start i sp ep s e a x b :
  Forall (λ y, swi_eqb y e = false) (a ++ x :: b) → swi_eqb x s = true →
  Forall (λ y, swi_eqb y s = false) b →
  (find_range i sp ep s e (a ++ x :: b)).1 = (i + length a)%nat.
Proof.
  revert i sp. induction a as [|y a IH]; intros i sp Ha Hx Hb; cbn.
  - apply Forall_cons in Ha as [Hxe Ha]. rewrite Hx, Hxe, find_range_start_none by done. lia.
  - apply Forall_cons in Ha as [Hy Ha]. rewrite Hy, IH by done. lia.
Qed.

Lemma mark_acked_mid pre mid post t :
  mark_acked (length pre) (length mid) (mkWindow (pre ++ mid ++ post) (u64 t)) =
  mkWindow (pre ++ (set_acked <$> mid) ++ post)
    (u64 (t - foldr (λ x s, binlog_size_ x + s) 0 mid)).
Proof.
  revert pre t. induction mid as [|x mid IH]; intros pre t; cbn [length mark_acked].
  - cbn. by rewrite Z.sub_0_r.
  - cbn [win_ total_size_ app]. rewrite list_lookup_middle by done.
    rewrite alter_app_r_alt by done. rewrite Nat.sub_diag. cbn [alter list_alter app]. rewrite u64_sub_u64.
    specialize (IH (pre ++ [set_acked x]) (t - binlog_size_ x)).
    rewrite length_app, Nat.add_1_r, <- !app_assoc in IH. cbn [app] in IH.
    rewrite IH. cbn. do 2 f_equal. lia.
Qed.

(** The range of the window an acknowledgement names: [mid]. *)
Definition ack_range (s e : SyncWinItem) (win pre mid post : list SyncWinItem) : Prop :=
  win = pre ++ mid ++ post ∧ key <$> head mid = Some (key s) ∧ key <$> last mid = Some (key e).

Lemma Forall_swi_neq l y :
  Forall (λ x, key x ≠ key y) l → Forall (λ x, swi_eqb x y = false) l.
Proof.
  intros H. eapply Forall_impl; [done|]. intros x Hx. cbn.
  apply not_true_iff_false. by rewrite swi_eqb_key.
Qed.

Lemma find_range_ack w s e pre mid post :
  StronglySorted klt (win_ w) → ack_range s e (win_ w) pre mid post →
  find_range 0 (length (win_ w)) (length (win_ w)) s e (win_ w) =
    (length pre, length pre + length mid - 1)%nat.
Proof.
  intros Hs (Hw & Hh & Hl). rewrite Hw in *.
  destruct (last mid) as [z|] eqn:Ez; [|done]. apply last_Some in Ez as [mid' ->].
  injection Hl as Hz. rewrite <- (app_assoc mid') in *. cbn [app] in *.
  rewrite app_assoc in Hs |- *.
  destruct (StronglySorted_mid (pre ++ mid') post [] z Hs) as [Hn _].
  rewrite Hz in Hn. apply Forall_swi_neq in Hn.
  rewrite find_range_some; [|done|by apply swi_eqb_key].
  rewrite !length_app, Nat.add_0_l. cbn [length]. f_equal; [|lia].
  destruct mid' as [|y mid'].
  - injection Hh as Hh. rewrite (proj2 (swi_eqb_key z s)) by done. cbn [length]. lia.
  - injection Hh as Hy. cbn [app length]. rewrite <- app_assoc in Hs. cbn [app] in Hs.
    destruct (StronglySorted_mid pre (mid' ++ z :: post) [] y Hs) as [_ Hn'].
    apply Forall_app in Hn' as [Hm Hzp]. apply Forall_inv in Hzp.
    rewrite (proj1 (not_true_iff_false (swi_eqb z s)))
      by (rewrite swi_eqb_key, <- Hy; intros ?; congruence).
    rewrite find_range_start; [lia|done|by apply swi_eqb_key|].
    apply Forall_swi_neq. rewrite <- Hy. eapply Forall_impl; [done|]. cbn. intros ? ? ?. congruence.
Qed.

(** What popping does. *)
Lemma pop_acked_spec win o o' win' :
  pop_acked win o = (o', win') →
  ∃ popped, win = popped ++ win' ∧ Forall (λ x, acked_ x = true) popped ∧ front_open win' ∧
    o' = default o (win_offset_ <$> last popped).
Proof.
  revert o. induction win as [|x win IH]; intros o H; cbn in H.
  - injection H as <- <-. by exists [].
  - destruct (acked_ x) eqn:Ex.
    + destruct (IH _ H) as (p & -> & Hp & Hf & ->). exists (x :: p).
      split_and!; [done|by constructor|done|]. by destruct p as [|y p]; [|rewrite last_cons_cons; destruct (last (y :: p)) eqn:E; [|by apply last_None in E]].
    + injection H as <- <-. exists []. split_and!; done.
Qed.

Lemma pending_set_acked mid : Forall (λ x, acked_ x = false) mid →
  pending mid = foldr (λ x s, binlog_size_ x + s) 0 mid.
Proof. induction 1 as [|x l Hx Hl IH]; cbn; [done|]. by rewrite Hx, IH. Qed.

Lemma pending_popped l : Forall (λ x, acked_ x = true) l → pending l = 0.
Proof. induction 1 as [|x l Hx Hl IH]; cbn; [done|]. by rewrite Hx, IH. Qed.

Lemma sorted_keys l k : key <$> l = key <$> k → StronglySorted klt l → StronglySorted klt k.
Proof.
  revert k. induction l as [|x l IH]; intros [|y k] H Hs; try done.
  cbn in H. injection H as Hxy H. apply StronglySorted_inv in Hs as [Hs Hx].
  constructor; [by apply IH|]. clear IH Hs. revert k H. induction l as [|z l IH]; intros [|u k] H; try done.
  cbn in H. injection H as Hzu H. apply Forall_cons in Hx as [Hz Hx].
  constructor; [unfold klt in *; congruence|by apply IH].
Qed.

Lemma keys_set_acked (l : list SyncWinItem) : key <$> (set_acked <$> l) = key <$> l.
Proof. rewrite <- list_fmap_compose. by apply list_fmap_ext. Qed.

Lemma SyncWindow_Update_eq w s e o pre mid post :
  win_wf w → ack_range s e (win_ w) pre mid post →
  SyncWindow_Update s e o w =
    (true, (pop_acked (pre ++ (set_acked <$> mid) ++ post) o).1,
     mkWindow (pop_acked (pre ++ (set_acked <$> mid) ++ post) o).2
       (u64 (pending (win_ w) - foldr (λ x s, binlog_size_ x + s) 0 mid))).
Proof.
  intros W R. unfold SyncWindow_Update.
  rewrite (find_range_ack w s e pre mid post (ww_sorted _ W) R).
  destruct R as (Hw & Hh & _). assert (0 < length mid)%nat by (destruct mid; [done|cbn; lia]).
  assert (length (win_ w) = length pre + length mid + length post)%nat as Hl
    by (rewrite Hw, !length_app; lia).
  rewrite (proj2 (Nat.eqb_neq _ _)), (proj2 (Nat.eqb_neq _ _)) by lia. cbn [orb].
  replace (length pre + length mid - 1 + 1 - length pre)%nat with (length mid) by lia.
  assert (w = mkWindow (pre ++ mid ++ post) (u64 (pending (win_ w)))) as Ew
    by (rewrite <- Hw, <- (ww_total _ W); by destruct w).
  assert (mark_acked (length pre) (length mid) w = mkWindow (pre ++ (set_acked <$> mid) ++ post)
    (u64 (pending (win_ w) - foldr (λ x s, binlog_size_ x + s) 0 mid))) as ->
    by (rewrite Ew at 1; apply mark_acked_mid).
  cbn [win_ total_size_].
  by destruct (pop_acked _ o).
Qed.

Lemma update_ok w s e o pre mid post :
  win_wf w → ack_range s e (win_ w) pre mid post → Forall (λ x, acked_ x = false) mid →
  ∃ o' w' popped, SyncWindow_Update s e o w = (true, o', w') ∧ win_wf w' ∧
    pre ++ (set_acked <$> mid) ++ post = popped ++ win_ w' ∧
    Forall (λ x, acked_ x = true) popped ∧ o' = default o (win_offset_ <$> last popped) ∧
    (pre = [] → length mid ≤ length popped)%nat.
Proof.
  intros W R Hm. rewrite (SyncWindow_Update_eq w s e o pre mid post W R).
  destruct (pop_acked (pre ++ (set_acked <$> mid) ++ post) o) as [o' win'] eqn:Hp.
  destruct (pop_acked_spec _ _ _ _ Hp) as (popped & Happ & Hpop & Hf & Ho).
  destruct R as (Hw & _).
  exists o', (mkWindow win' (u64 (pending (win_ w) - foldr (λ x s, binlog_size_ x + s) 0 mid))), popped.
  split_and!; try done.
  - split; cbn; [|done|].
    + eapply StronglySorted_app_1_r. rewrite <- Happ.
      eapply sorted_keys; [|apply W]. rewrite Hw, !fmap_app. by rewrite keys_set_acked.
    + f_equal. assert (pending (pre ++ (set_acked <$> mid) ++ post) = pending win') as <-
        by (rewrite Happ, pending_app, (pending_popped popped); done).
      rewrite Hw, !pending_app, pending_acked, (pending_set_acked mid) by done. lia.
  - intros ->. cbn [app] in Happ. destruct (Nat.le_gt_cases (length mid) (length popped)) as [|Hlt]; [done|].
    exfalso. destruct win' as [|x win']; [apply (f_equal length) in Happ;
      rewrite !length_app, length_fmap in Happ; cbn in Happ; lia|].
    assert (((set_acked <$> mid) ++ post) !! length popped = Some x) as Hx
      by (rewrite Happ; by apply list_lookup_middle).
    rewrite lookup_app_l in Hx by (rewrite length_fmap; lia).
    rewrite list_lookup_fmap in Hx. destruct (mid !! length popped); [|done].
    cbn in Hx. injection Hx as <-. done.
Qed.

(** Acknowledging: on a well-formed window an acknowledgement of a range
    whose items are not acknowledged yet succeeds; the items that leave the window
    are the longest acknowledged prefix, the reported offset is that of the last
    of them (or unchanged), everything else stays in order, and the window is well
    formed again; in particular its total size is that of the pending items.  When
    the range starts at the front, all of it leaves. *)
Theorem SyncWindow_Update_ok w s e o pre mid post :
  win_wf w → ack_range s e (win_ w) pre mid post → Forall (λ x, acked_ x = false) mid →
  ∃ o' w' popped, SyncWindow_Update s e o w = (true, o', w') ∧ win_wf w' ∧
    pre ++ (set_acked <$> mid) ++ post = popped ++ win_ w' ∧
    Forall (λ x, acked_ x = true) popped ∧ o' = default o (win_offset_ <$> last popped) ∧
    (pre = [] → length mid ≤ length popped)%nat.
Proof. apply update_ok. Qed.

Lemma update_accepts w s e o :
  win_wf w →
  ((SyncWindow_Update s e o w).1.1 = true ↔ ∃ pre mid post, ack_range s e (win_ w) pre mid post) ∧
  ((SyncWindow_Update s e o w).1.1 = false → SyncWindow_Update s e o w = (false, o, w)).
Proof.
  intros W. split.
  - split; [|intros (pre & mid & post & R); by rewrite (SyncWindow_Update_eq _ _ _ _ _ _ _ W R)].
    unfold SyncWindow_Update. set (n := length (win_ w)).
    destruct (decide (Exists (λ x, swi_eqb x e = true) (win_ w))) as [He|He].
    2:{ pose proof (find_range_none 0 n n s e (win_ w)) as Hn.
        destruct (find_range 0 n n s e (win_ w)) as [sp ep]. cbn in Hn.
        rewrite Hn, Nat.eqb_refl, orb_true_r; [done|].
        apply not_Exists_Forall in He; [|apply _]. eapply Forall_impl; [done|].
        intros x. cbn. by rewrite not_true_iff_false. }
    apply Exists_exists in He as (z & Hz & Hze). apply list_elem_of_split in Hz as (a & b & Hw).
    pose proof (ww_sorted _ W) as Hs. rewrite Hw in Hs.
    destruct (StronglySorted_mid a b [] z Hs) as [Ha _].
    apply swi_eqb_key in Hze as Hk. rewrite Hk in Ha. apply Forall_swi_neq in Ha.
    destruct (swi_eqb z s) eqn:Ezs.
    { intros _. exists a, [z], b. apply swi_eqb_key in Ezs. split_and!; [done|cbn; congruence..]. }
    destruct (decide (Exists (λ x, swi_eqb x s = true) a)) as [He|He].
    + intros _. apply Exists_exists in He as (y & Hy & Hys).
      apply list_elem_of_split in Hy as (a1 & a2 & ->). apply swi_eqb_key in Hys.
      exists a1, (y :: a2 ++ [z]), b. split_and!.
      * rewrite Hw, <- app_assoc. cbn [app]. by rewrite <- app_assoc.
      * cbn. congruence.
      * rewrite app_comm_cons, last_snoc. cbn. congruence.
    + rewrite Hw, (find_range_some _ _ _ _ _ _ _ _ Ha Hze), Ezs, find_range_start_none.
      * by rewrite Nat.eqb_refl.
      * apply not_Exists_Forall in He; [|apply _]. eapply Forall_impl; [done|].
        intros x. cbn. by rewrite not_true_iff_false.
  - unfold SyncWindow_Update. destruct (find_range _ _ _ _ _ _) as [sp ep].
    destruct (_ || _); [done|]. by destruct (pop_acked _ _).
Qed.

(** Rejection: on a well-formed window an acknowledgement is accepted exactly
    when it names a range of the window; otherwise nothing changes. *)
Theorem SyncWindow_Update_accepts w s e o :
  win_wf w →
  ((SyncWindow_Update s e o w).1.1 = true ↔ ∃ pre mid post, ack_range s e (win_ w) pre mid post) ∧
  ((SyncWindow_Update s e o w).1.1 = false → SyncWindow_Update s e o w = (false, o, w)).
Proof. apply update_accepts. Qed.

Lemma StronglySorted_snoc l x :
  StronglySorted klt l → Forall (λ y, klt y x) l → StronglySorted klt (l ++ [x]).
Proof.
  induction 1 as [|y l Hs IH Hy]; intros Hx; cbn; [by repeat constructor|].
  apply Forall_cons in Hx as [Hyx Hx]. constructor; [by apply IH|].
  apply Forall_app. split; [done|]. by constructor.
Qed.

Lemma Push_wf w x :
  win_wf w → acked_ x = false → Forall (λ y, klt y x) (win_ w) → win_wf (Push x w).
Proof.
  intros W Hx Hs. split; cbn.
  - by apply StronglySorted_snoc; [apply W|].
  - pose proof (ww_front _ W) as Hf. by destruct (win_ w).
  - rewrite (ww_total _ W), u64_add_u64, pending_app. cbn. rewrite Hx. f_equal. lia.
Qed.

(** [Remaining] is the plain difference of the configured size and the
    number of items in the window: the test against zero is made on an unsigned
    value, so an overfull window yields a negative count and not 0. *)
Theorem Remaining_eq c w :
  0 ≤ sync_window_size c < 2 ^ 31 → zlen (win_ w) < 2 ^ 31 →
  Remaining c w = sync_window_size c - zlen (win_ w).
Proof.
  intros Hc Hw. pose proof (zlen_nonneg (win_ w)) as H0. unfold Remaining.
  set (d := sync_window_size c - zlen (win_ w)).
  destruct (Z.lt_ge_cases d 0) as [Hd|Hd].
  - assert (u64 d = d + 2 ^ 64) as Hu
      by (unfold u64; symmetry; apply (Z.mod_unique _ _ (-1)); lia).
    rewrite Hu, Z.gtb_ltb, (proj2 (Z.ltb_lt _ _)) by lia.
    unfold s32. replace (d + 2 ^ 64 + 2 ^ 31) with (d + 2 ^ 31 + 2 ^ 32 * 2 ^ 32) by lia.
    rewrite Z.mod_add, Z.mod_small by lia. lia.
  - rewrite u64_small by lia. rewrite Z.gtb_ltb.
    destruct (Z.ltb_spec 0 d); rewrite s32_small; lia.
Qed.

(** ** Nodes *)

(** The window lies after the acknowledged offset. *)
Record node_wf (n : SlaveNode) : Prop := {
  nw_win : win_wf (sync_win n);
  nw_after : Forall (λ x, bo_ltb (b_offset (acked_offset n)) (key x) = true) (win_ (sync_win n));
  nw_pos : Forall (λ x, key x ≠ BinlogOffset0) (win_ (sync_win n));
}.

(** Acknowledgements of items that are still pending. *)
Definition fresh_ack (s e : LogOffset) (win : list SyncWinItem) : Prop :=
  ∀ pre mid post, ack_range (SyncWinItem_new s 0) (SyncWinItem_new e 0) win pre mid post →
    Forall (λ x, acked_ x = false) mid.

Lemma sorted_split p q x :
  StronglySorted klt (p ++ q) → x ∈ p → Forall (λ y, klt x y) q.
Proof.
  intros Hs Hx. induction p as [|y p IH]; [by apply elem_of_nil in Hx|].
  cbn in Hs. apply StronglySorted_inv in Hs as [Hs Hy]. apply elem_of_cons in Hx as [->|Hx].
  - by apply Forall_app in Hy as [_ Hy].
  - by apply IH.
Qed.

Lemma sorted_last l p x : StronglySorted klt (l ++ [p]) → x ∈ l ++ [p] → bo_leb (key x) (key p) = true.
Proof.
  intros Hs Hx. apply elem_of_app in Hx as [Hx|Hx].
  - eapply sorted_split in Hs; [|done]. apply Forall_inv in Hs. unfold klt in Hs. bo_solve.
  - apply list_elem_of_singleton in Hx as ->. apply bo_leb_refl.
Qed.

Lemma bo_ltb_trans a b c : bo_ltb a b = true → bo_ltb b c = true → bo_ltb a c = true.
Proof. bo_solve. Qed.

(** A successful update in terms of the offsets that left the window. *)
Lemma SyncWindow_Update_popped w s e o pre mid post o' w' :
  win_wf w → ack_range s e (win_ w) pre mid post → Forall (λ x, acked_ x = false) mid →
  SyncWindow_Update s e o w = (true, o', w') →
  ∃ popped, win_wf w' ∧ key <$> win_ w = key <$> (popped ++ win_ w') ∧
    StronglySorted klt (popped ++ win_ w') ∧ o' = default o (win_offset_ <$> last popped) ∧
    (pre = [] → key e ∈ key <$> popped).
Proof.
  intros W R Hm Hu.
  destruct (update_ok w s e o pre mid post W R Hm)
    as (o1 & w1 & popped & Hu' & W' & Happ & _ & Ho & Hfront).
  rewrite Hu in Hu'. injection Hu' as <- <-.
  assert (key <$> win_ w = key <$> (popped ++ win_ w')) as Hk.
  { rewrite <- Happ. destruct R as (-> & _). rewrite !fmap_app. by rewrite keys_set_acked. }
  exists popped. split_and!; [done|done|by eapply sorted_keys; [exact Hk|apply W]|done|].
  intros ->. specialize (Hfront eq_refl). destruct R as (_ & _ & Hl).
  destruct (last mid) as [z|] eqn:Ez; [|done]. apply last_Some in Ez as [mid' ->].
  injection Hl as <-. cbn [app] in Happ.
  assert ((key <$> popped) !! length mid' = Some (key z)) as Hx.
  { rewrite length_app in Hfront. cbn in Hfront.
    assert ((popped ++ win_ w') !! length mid' = Some (set_acked z)) as Hx.
    { rewrite <- Happ, fmap_app, <- app_assoc. cbn.
      rewrite <- (length_fmap set_acked mid'). by apply list_lookup_middle. }
    rewrite lookup_app_l in Hx by lia. by rewrite list_lookup_fmap, Hx. }
  by eapply list_elem_of_lookup_2.
Qed.

Lemma node_update n s e u o n' :
  node_wf n → fresh_ack s e (win_ (sync_win n)) →
  SlaveNode_Update s e u n = (OK, o, n') →
  node_wf n' ∧ lo_equiv o (acked_offset n') ∧ lo_le (acked_offset n) (acked_offset n') ∧
  (∀ mid post, ack_range (SyncWinItem_new s 0) (SyncWinItem_new e 0)
     (win_ (sync_win n)) [] mid post → lo_le e (acked_offset n')).
Proof.
  intros [W Ha Hp] Hf H. unfold SlaveNode_Update in H.
  destruct (bool_decide (slave_state n = kSlaveBinlogSync)); cbn [negb] in H; [|done].
  destruct (update_accepts (sync_win n) (SyncWinItem_new s 0) (SyncWinItem_new e 0)
    LogOffset0 W) as [Hacc _].
  destruct (SyncWindow_Update _ _ _ _) as [[res o1] w1] eqn:Hu. cbn [fst] in Hacc.
  destruct res; cbn [negb] in H; [|done].
  destruct (proj1 Hacc eq_refl) as (pre & mid & post & R). clear Hacc.
  destruct (SyncWindow_Update_popped _ _ _ _ _ _ _ _ _ W R (Hf _ _ _ R) Hu)
    as (popped & W' & Hk & Hs & Ho & Hfront).
  assert (Forall (λ k, bo_ltb (b_offset (acked_offset n)) k = true ∧ k ≠ BinlogOffset0)
    (key <$> (popped ++ win_ w1))) as Ha'.
  { rewrite <- Hk. apply Forall_fmap. apply Forall_and. done. }
  rewrite fmap_app in Ha'. apply Forall_app in Ha' as [Hap Haw].
  apply Forall_fmap in Hap, Haw. apply Forall_and in Haw as [Haw1 Haw2]. cbn in Haw1, Haw2.
  assert (∀ mid' post', ack_range (SyncWinItem_new s 0) (SyncWinItem_new e 0)
    (win_ (sync_win n)) [] mid' post' → b_offset e ∈ key <$> popped) as Hin.
  { intros mid' post' R'. apply Hfront.
    apply (find_range_ack _ _ _ _ _ _ (ww_sorted _ W)) in R, R'.
    rewrite R in R'. injection R' as R' _. by destruct pre. }
  destruct popped as [|p0 popped0 _] using rev_ind.
  - cbn in Ho. subst o1. unfold lo_eqb in H. rewrite (proj2 (bo_eqb_eq _ _)) in H by done.
    injection H as <- <-. cbn. split_and!; [by split|reflexivity|reflexivity|].
    intros mid' post' R'. by apply Hin, elem_of_nil in R'.
  - rewrite last_snoc in Ho. cbn in Ho. subst o1.
    apply Forall_app in Hap as [_ Hap]. apply Forall_inv in Hap as [Hap Hz]. unfold key in Hap, Hz.
    assert (lo_eqb (win_offset_ p0) LogOffset0 = false) as Hz'.
    { apply not_true_iff_false. unfold lo_eqb. by rewrite bo_eqb_eq. }
    rewrite Hz' in H. injection H as <- <-. cbn. split_and!; [|reflexivity| |].
    + split; cbn; [done| |done].
      eapply sorted_split in Hs; [exact Hs|]. apply elem_of_app. right. by apply list_elem_of_singleton.
    + unfold lo_le, lo_leb. bo_solve.
    + intros mid' post' R'. apply Hin, list_elem_of_fmap in R' as (x & Hx & Hx').
      unfold lo_le, lo_leb. rewrite Hx. apply StronglySorted_app_1_l in Hs.
      by eapply sorted_last.
Qed.

(** The acknowledged offset of a node only moves forward: a successful
    [SlaveNode::Update] of pending items reports the node's acknowledged offset,
    which is not before the old one, keeps the window after it, and reaches the end
    of the range when the range starts at the front of the window. *)
Theorem SlaveNode_Update_monotone n s e u o n' :
  node_wf n → fresh_ack s e (win_ (sync_win n)) →
  SlaveNode_Update s e u n = (OK, o, n') →
  node_wf n' ∧ lo_equiv o (acked_offset n') ∧ lo_le (acked_offset n) (acked_offset n') ∧
  (∀ mid post, ack_range (SyncWinItem_new s 0) (SyncWinItem_new e 0)
     (win_ (sync_win n)) [] mid post → lo_le e (acked_offset n')).
Proof. apply node_update. Qed.

Lemma set_acked_id l : Forall (λ x, acked_ x = true) l → set_acked <$> l = l.
Proof.
  induction 1 as [|x l Hx Hl IH]; [done|]. cbn. rewrite IH. f_equal.
  destruct x; cbn in *; by subst.
Qed.

(** Acknowledging a range again while it is still behind an open item is
    accepted and leaves the items alone, but subtracts their sizes from
    [total_size_] once more, so that it no longer counts the pending bytes (and can
    wrap below zero). *)
Theorem re_ack_drift w s e o pre mid post :
  win_wf w → ack_range s e (win_ w) pre mid post → Forall (λ x, acked_ x = true) mid →
  SyncWindow_Update s e o w =
    (true, o, mkWindow (win_ w)
       (u64 (total_size_ w - foldr (λ x s, binlog_size_ x + s) 0 mid))).
Proof.
  intros W R Hm. rewrite (SyncWindow_Update_eq w s e o pre mid post W R).
  rewrite (set_acked_id mid Hm). destruct R as (Hw & _). rewrite <- Hw.
  assert (pop_acked (win_ w) o = (o, win_ w)) as ->.
  { pose proof (ww_front _ W) as Hf. destruct (win_ w) as [|x l]; [done|]. cbn in *.
    by rewrite Hf. }
  cbn. by rewrite (ww_total _ W), u64_sub_u64.
Qed.

(** ** Examples *)

Definition off (f o : Z) : LogOffset := mkLogOffset (mkBinlogOffset f o) LogicOffset0.
Definition itemA : SyncWinItem := SyncWinItem_new (off 0 10) 10.
Definition itemB : SyncWinItem := SyncWinItem_new (off 0 30) 20.
Definition itemC : SyncWinItem := SyncWinItem_new (off 1 5) 5.
Definition window0 : SyncWindow := Push itemC (Push itemB (Push itemA SyncWindow_new)).

Lemma window0_wf : win_wf window0.
Proof.
  repeat apply Push_wf; try done; by repeat constructor.
Qed.

Lemma SyncWindow_Update_ok_witness :
  ∃ w', SyncWindow_Update itemA itemB LogOffset0 window0 = (true, off 0 30, w') ∧ win_wf w'.
Proof.
  destruct (SyncWindow_Update_ok window0 itemA itemB LogOffset0 [] [itemA; itemB] [itemC])
    as (o' & w' & popped & H & W & _).
  - exact window0_wf.
  - split; [reflexivity|split; reflexivity].
  - by repeat constructor.
  - exists w'. split; [|exact W]. vm_compute in H |- *. injection H as <- <-. reflexivity.
Defined.

Lemma SyncWindow_Update_accepts_witness :
  SyncWindow_Update itemB itemA LogOffset0 window0 = (false, LogOffset0, window0).
Proof.
  apply (SyncWindow_Update_accepts window0 itemB itemA LogOffset0 window0_wf).
  vm_compute. reflexivity.
Defined.

Definition conf0 : PikaConf := mkConf 2 0 true 100 10 7 "/log/" "db0" 9221.

Lemma Remaining_eq_witness : Remaining conf0 window0 = -1.
Proof. apply (Remaining_eq conf0 window0); vm_compute; [split; congruence|reflexivity]. Defined.

Definition node0 : SlaveNode :=
  mkSlaveNode (RmNode_new "10.0.0.1" 9221 "db0" 0 1) kSlaveBinlogSync kReadFromFile window0
    (off 1 5) LogOffset0 None.

Lemma node0_wf : node_wf node0.
Proof. split; [exact window0_wf| |]; by repeat constructor. Qed.

Lemma SlaveNode_Update_monotone_witness : ∃ o n',
  SlaveNode_Update (off 0 10) (off 0 30) LogOffset0 node0 = (OK, o, n') ∧
  lo_le (off 0 30) (acked_offset n').
Proof.
  destruct (SlaveNode_Update (off 0 10) (off 0 30) LogOffset0 node0) as [[s o] n'] eqn:H.
  destruct (SlaveNode_Update_monotone node0 (off 0 10) (off 0 30) LogOffset0 o n')
    as (_ & _ & _ & He).
  - exact node0_wf.
  - intros pre mid post (Hw & _). assert (Forall (λ x, acked_ x = false) (pre ++ mid ++ post)) as Hf
      by (rewrite <- Hw; by repeat constructor).
    apply Forall_app in Hf as [_ Hf]. by apply Forall_app in Hf as [Hf _].
  - vm_compute in H |- *. injection H as <- <- <-. reflexivity.
  - exists o, n'. split; [vm_compute in H |- *; injection H as <- <- <-; reflexivity|].
    apply (He [itemA; itemB] [itemC]). split; [reflexivity|split; reflexivity].
Defined.

(** [itemB] acknowledged behind [itemA]. *)
Definition window1 : SyncWindow := (SyncWindow_Update itemB itemB LogOffset0 window0).2.

Lemma re_ack_drift_witness :
  win_ (SyncWindow_Update itemB itemB LogOffset0 window1).2 = win_ window1 ∧
  total_size_ (SyncWindow_Update itemB itemB LogOffset0 window1).2 = 2 ^ 64 - 5.
Proof.
  rewrite (re_ack_drift window1 itemB itemB LogOffset0 [itemA] [set_acked itemB] [itemC]).
  - split; [reflexivity|vm_compute; reflexivity].
  - split; [|reflexivity|reflexivity]. repeat constructor.
  - split; [reflexivity|split; reflexivity].
  - by repeat constructor.
Defined.
