(* ===== verification/Consensus.v ===== *)
(** * The parts of the consensus layer (src/pika_consensus.cc, include/pika_consensus.h)

    - [Context]: the applied index, kept in a mapped file, and the window of
      log entries that are being applied;
    - [SyncProgress]: the slaves of a partition and how far each of them has
      acknowledged ([match_index_]), from which the committed index is
      computed;
    - [MemLog]: the log entries that are stored but not committed. *)

From S2P Require Import Prelude Define Env Binlog BinlogReader SlaveNode.
From stdpp Require Import base list strings pretty gmap sorting.
From Stdlib Require Import ZArith Lia Init.Byte.
#[local] Open Scope string_scope.
#[local] Open Scope list_scope.
#[local] Open Scope Z_scope.

(** ** The applied index *)

Record Context := mkContext {
  applied_index_ : LogOffset; applied_win_ : SyncWindow; path_ : string;
  save_ : option string }.

Definition Context_new (path : string) : Context :=
  mkContext LogOffset0 SyncWindow_new path None.

Definition set_applied_index (o : LogOffset) (c : Context) : Context :=
  mkContext o (applied_win_ c) (path_ c) (save_ c).
Definition set_applied_win (w : SyncWindow) (c : Context) : Context :=
  mkContext (applied_index_ c) w (path_ c) (save_ c).
Definition set_save (s : option string) (c : Context) : Context :=
  mkContext (applied_index_ c) (applied_win_ c) (path_ c) s.

Section Ops.
Context {FS : Type} {E : SlashEnv FS}.

Abbreviation CM := (M (FS * Context)).

Definition cget : CM Context := λ s, Some (s.2, s).
Definition cmod (f : Context → Context) : CM unit := λ '(fs, c), Some (tt, (fs, f c)).
Definition fget : CM FS := λ s, Some (s.1, s).
Definition fmod (f : FS → FS) : CM unit := λ '(fs, c), Some (tt, (f fs, c)).
Definition fio {A} (f : FS → A * FS) : CM A :=
  λ '(fs, c), let '(a, fs') := f fs in Some (a, (fs', c)).

(** A null [save_] is dereferenced: undefined ([None]). *)
Definition Context_StableSave : CM Status :=
  let* c := cget in let* fs := fget in
  match save_ c with
  | None => abort
  | Some p =>
      match env_rwdata fs p with
      | None => abort
      | Some _ =>
          let o := applied_index_ c in
          fmod (λ fs, env_rwstore fs p 0 (le_bytes 4 (filenum (b_offset o)))) ;;;
          fmod (λ fs, env_rwstore fs p 4 (le_bytes 8 (offset (b_offset o)))) ;;;
          fmod (λ fs, env_rwstore fs p 12 (le_bytes 4 (term (l_offset o)))) ;;;
          fmod (λ fs, env_rwstore fs p 16 (le_bytes 8 (index (l_offset o)))) ;;;
          ret OK
      end
  end.

Definition new_save : CM unit :=
  let* c := cget in
  let* s := fio (λ fs, env_new_rwfile fs (path_ c)) in
  massert (ok s) ;;;
  cmod (set_save (Some (path_ c))).

Definition Context_Init : CM Status :=
  let* c := cget in let* fs := fget in
  (if negb (env_exists fs (path_ c)) then
     new_save ;;; Context_StableSave ;;; ret tt
   else new_save) ;;;
  let* fs := fget in
  match env_rwdata fs (path_ c) with
  | Some d =>
      cmod (set_applied_index (mkLogOffset
        (mkBinlogOffset (le_val (slice 0 4 d)) (le_val (slice 4 8 d)))
        (mkLogicOffset (le_val (slice 12 4 d)) (le_val (slice 16 8 d))))) ;;;
      ret OK
  | None => ret (Corruption "Context init error")
  end.

Definition PrepareUpdateAppliedIndex (o : LogOffset) : CM unit :=
  cmod (λ c, set_applied_win (Push (SyncWinItem_new o 0) (applied_win_ c)) c).

Definition UpdateAppliedIndex (o : LogOffset) : CM unit :=
  let* c := cget in
  let '(_, cur_offset, w) :=
    SyncWindow_Update (SyncWinItem_new o 0) (SyncWinItem_new o 0) LogOffset0
      (applied_win_ c) in
  cmod (set_applied_win w) ;;;
  if lo_gtb cur_offset (applied_index_ c) then
    cmod (set_applied_index cur_offset) ;;;
    Context_StableSave ;;; ret tt
  else ret tt.

Definition Context_Reset (o : LogOffset) : CM unit :=
  cmod (set_applied_index o) ;;;
  cmod (λ c, set_applied_win (SyncWindow_Reset (applied_win_ c)) c) ;;;
  Context_StableSave ;;; ret tt.
End Ops.

Arguments Context_StableSave : simpl never.

(** ** Replication progress *)

Record SyncProgress := mkProgress {
  slaves_ : gmap string SlaveNode; match_index_ : gmap string LogOffset }.

Definition SyncProgress_new : SyncProgress := mkProgress ∅ ∅.

Definition slave_key (ip : string) (port : Z) : string := ip +:+ pretty port.

Definition GetSlaveNode (ip : string) (port : Z) (p : SyncProgress) : option SlaveNode :=
  slaves_ p !! slave_key ip port.
Definition GetAllSlaveNodes (p : SyncProgress) : gmap string SlaveNode := slaves_ p.
Definition GetAllMatchIndex (p : SyncProgress) : gmap string LogOffset := match_index_ p.
Definition SlaveSize (p : SyncProgress) : Z := Z.of_nat (size (slaves_ p)).

(** [now1], [now2]: the two readings of the clock. *)
Definition AddSlaveNode (now1 now2 : Z) (ip : string) (port : Z) (table_name : string)
    (partition_id session_id : Z) (p : SyncProgress) : Status * SyncProgress :=
  let k := slave_key ip port in
  match GetSlaveNode ip port p with
  | Some n =>
      (OK, mkProgress (<[k := set_rm (SetSessionId session_id (rm n)) n]> (slaves_ p))
             (match_index_ p))
  | None =>
      let n := SlaveNode_new ip port table_name partition_id session_id in
      let n := set_rm (rm_SetLastSendTime now1 (rm n)) n in
      let n := set_rm (rm_SetLastRecvTime now2 (rm n)) n in
      (OK, mkProgress (<[k := n]> (slaves_ p)) (<[k := LogOffset0]> (match_index_ p)))
  end.

Definition RemoveSlaveNode (ip : string) (port : Z) (p : SyncProgress) : Status * SyncProgress :=
  let k := slave_key ip port in
  (OK, mkProgress (delete k (slaves_ p)) (delete k (match_index_ p))).

(** The offsets in the order in which the map is traversed; [std::sort] orders
    them by binlog offset. *)
Definition InternalCalCommittedIndex (c : PikaConf) (match_index : gmap string LogOffset) :
    LogOffset :=
  let level := consensus_level c in
  if level =? 0 then LogOffset0 else
  if Z.of_nat (size match_index) <? level then LogOffset0 else
  let offsets := merge_sort lo_le (map_to_list match_index).*2 in
  default LogOffset0 (offsets !! (length offsets - Z.to_nat level)%nat).

(** [SyncProgress::Update]: the status, [*committed_index] and the progress. *)
Definition SyncProgress_Update (c : PikaConf) (ip : string) (port : Z) (start end_ committed_index : LogOffset)
    (p : SyncProgress) : Status * LogOffset * SyncProgress :=
  let k := slave_key ip port in
  match GetSlaveNode ip port p with
  | None => (NotFound ("ip " +:+ ip +:+ " port " +:+ pretty port), committed_index, p)
  | Some n =>
      let '(s, acked_offset, n') := SlaveNode_Update start end_ LogOffset0 n in
      let p := mkProgress (<[k := n']> (slaves_ p)) (match_index_ p) in
      if negb (ok s) then (s, committed_index, p) else
      let p := mkProgress (slaves_ p) (<[k := acked_offset]> (match_index_ p)) in
      (OK, InternalCalCommittedIndex c (GetAllMatchIndex p), p)
  end.

(** ** Uncommitted log entries *)

Section Ops.
(** Commands, client connections and response buffers are opaque here. *)
Context {Cmd Conn Resp : Type}.

Record LogItem := mkLogItem {
  li_offset : LogOffset; cmd_ptr : Cmd; conn_ptr : option Conn; resp_ptr : option Resp }.

Record MemLog := mkMemLog { logs_ : list LogItem; last_offset_ : LogOffset }.

Definition MemLog_new : MemLog := mkMemLog [] LogOffset0.

Definition MemLog_Size (m : MemLog) : Z := s32 (zlen (logs_ m)).

Definition AppendLog (x : LogItem) (m : MemLog) : MemLog :=
  mkMemLog (logs_ m ++ [x]) (li_offset x).
Definition SetLastOffset (o : LogOffset) (m : MemLog) : MemLog := mkMemLog (logs_ m) o.

(** The loops of the two searches from position [i] on; -1 when not found. *)
Fixpoint find_by_binlog (i : Z) (o : LogOffset) (l : list LogItem) : Z :=
  match l with
  | [] => -1
  | x :: l =>
      if lo_gtb (li_offset x) o then -1
      else if lo_eqb (li_offset x) o then i
      else find_by_binlog (i + 1) o l
  end.
Definition InternalFindLogByBinlogOffset (o : LogOffset) (m : MemLog) : Z :=
  find_by_binlog 0 o (logs_ m).

Fixpoint find_by_index (i : Z) (o : LogOffset) (l : list LogItem) : Z :=
  match l with
  | [] => -1
  | x :: l =>
      if index (l_offset (li_offset x)) >? index (l_offset o) then -1
      else if index (l_offset (li_offset x)) =? index (l_offset o) then i
      else find_by_index (i + 1) o l
  end.
Definition InternalFindLogByLogicIndex (o : LogOffset) (m : MemLog) : Z :=
  find_by_index 0 o (logs_ m).

(** [PurgeLogs]: the status, the purged items (the old [*logs] on failure)
    and the log. *)
Definition PurgeLogs (o : LogOffset) (logs : list LogItem) (m : MemLog) :
    Status * list LogItem * MemLog :=
  let i := InternalFindLogByBinlogOffset o m in
  if i <? 0 then (NotFound "Cant find correct index", logs, m)
  else (OK, ztake (i + 1) (logs_ m), mkMemLog (zdrop (i + 1) (logs_ m)) (last_offset_ m)).

Definition MemLog_TruncateTo (o : LogOffset) (m : MemLog) : Status * MemLog :=
  let i := InternalFindLogByBinlogOffset o m in
  if i <? 0 then (Corruption "Cant find correct index", m)
  else match logs_ m !! Z.to_nat i with
       | Some x => (OK, mkMemLog (ztake (i + 1) (logs_ m)) (li_offset x))
       | None => (OK, m)
       end.

Definition MemLog_Reset (o : LogOffset) (m : MemLog) : MemLog := mkMemLog [] o.

(** A negative [start] is outside the vector: undefined ([None]). *)
Definition GetRangeLogs (start end_ : Z) (logs : list LogItem) (m : MemLog) :
    option (Status * list LogItem) :=
  let log_size := s32 (zlen (logs_ m)) in
  if (start >? end_) || (start >=? log_size) || (end_ >=? log_size)
  then Some (Corruption "Invalid index", logs)
  else if start <? 0 then None
  else Some (OK, slice start (end_ + 1 - start) (logs_ m)).

Definition FindLogItem (o : LogOffset) (found_offset : LogOffset) (m : MemLog) :
    bool * LogOffset :=
  let i := InternalFindLogByLogicIndex o m in
  if i <? 0 then (false, found_offset)
  else match logs_ m !! Z.to_nat i with
       | Some x => (true, li_offset x)
       | None => (true, found_offset)
       end.
End Ops.

Arguments LogItem : clear implicits.
Arguments MemLog : clear implicits.

(** ** Facts about the applied index *)

(** The bytes [Context_StableSave] keeps of an offset. *)
Definition offset_image (o : LogOffset) : bytes :=
  le_bytes 4 (filenum (b_offset o)) ++ le_bytes 8 (offset (b_offset o)) ++
  le_bytes 4 (term (l_offset o)) ++ le_bytes 8 (index (l_offset o)).

Definition offset_ok (o : LogOffset) : Prop :=
  0 ≤ filenum (b_offset o) < 2 ^ 32 ∧ 0 ≤ offset (b_offset o) < 2 ^ 64 ∧
  0 ≤ term (l_offset o) < 2 ^ 32 ∧ 0 ≤ index (l_offset o) < 2 ^ 64.

Section Facts.
Context {FS : Type} {E : SlashEnv FS} {L : SlashEnvLaws FS}.
Implicit Types (fs : FS) (c : Context).

(** The saved index is the current one. *)
Record ctx_wf fs c : Prop := {
  cw_save : save_ c = Some (path_ c);
  cw_file : ∃ rest, env_rwdata fs (path_ c) = Some (offset_image (applied_index_ c) ++ rest);
  cw_range : offset_ok (applied_index_ c);
}.

Lemma zlen_offset_image o : zlen (offset_image o) = 24.
Proof. unfold offset_image. by rewrite !zlen_app, !zlen_le_bytes. Qed.

Lemma Context_StableSave_spec fs c d :
  save_ c = Some (path_ c) → env_rwdata fs (path_ c) = Some d → 24 ≤ zlen d →
  ∃ fs' rest, Context_StableSave (fs, c) = Some (OK, (fs', c)) ∧ agree_files fs fs' ∧
    env_rwdata fs' (path_ c) = Some (offset_image (applied_index_ c) ++ rest).
Proof.
  intros Hs Hd Hl. unfold Context_StableSave, bind, cget, fget, fmod, ret. cbn. rewrite Hs, Hd.
  do 2 eexists. split; [done|]. split.
  { do 4 (etrans; [|apply agree_files_rwstore]). done. }
  set (o := applied_index_ c). set (m := path_ c) in *.
  set (w1 := le_bytes 4 (filenum (b_offset o))). set (w2 := le_bytes 8 (offset (b_offset o))).
  set (w3 := le_bytes 4 (term (l_offset o))). set (w4 := le_bytes 8 (index (l_offset o))).
  assert (zlen w1 = 4 ∧ zlen w2 = 8 ∧ zlen w3 = 4 ∧ zlen w4 = 8) as (Z1 & Z2 & Z3 & Z4)
    by (split_and!; apply zlen_le_bytes).
  pose proof (rwstore_app fs m 0 [] w1 d eq_refl Hd ltac:(lia)) as H1.
  eapply (rwstore_app _ m 4 w1 w2) in H1; [|lia|rewrite zlen_zdrop; lia].
  eapply (rwstore_app _ m 12 (w1 ++ w2) w3) in H1;
    [|rewrite zlen_app; lia|rewrite zdrop_zdrop, zlen_zdrop; lia].
  eapply (rwstore_app _ m 16 ((w1 ++ w2) ++ w3) w4) in H1;
    [|rewrite !zlen_app; lia|rewrite !zdrop_zdrop, zlen_zdrop; lia].
  rewrite H1. unfold offset_image. fold o w1 w2 w3 w4.
  rewrite <- !(app_assoc w1), <- !(app_assoc w2), <- (app_assoc w3). done.
Qed.

Lemma offset_image_inv o rest :
  offset_ok o → let d := offset_image o ++ rest in
  mkLogOffset (mkBinlogOffset (le_val (slice 0 4 d)) (le_val (slice 4 8 d)))
    (mkLogicOffset (le_val (slice 12 4 d)) (le_val (slice 16 8 d))) = o.
Proof.
  intros (H1 & H2 & H3 & H4) d. unfold d, offset_image. rewrite <- !app_assoc.
  rewrite (slice_app_eq0 4) by (by rewrite zlen_le_bytes).
  rewrite (slice_app_eq 4 8) by (by rewrite ?zlen_le_bytes).
  rewrite (app_assoc (le_bytes 4 _) (le_bytes 8 _)).
  rewrite (slice_app_eq 12 4) by (by rewrite ?zlen_app, ?zlen_le_bytes).
  rewrite (app_assoc (_ ++ _) (le_bytes 4 _)).
  rewrite (slice_app_eq 16 8) by (by rewrite ?zlen_app, ?zlen_le_bytes).
  rewrite !le_val_le_bytes_small by (cbn; lia). by destruct o as [[] []].
Qed.

(** Recovery of the applied index: a context started on the file of
    another one restores the index saved last; started without a file it creates
    one and holds the initial index.  Either way what is saved is the current
    index. *)
Theorem Context_Init_restores fs path s fs' c' :
  Context_Init (fs, Context_new path) = Some (s, (fs', c')) →
  (env_exists fs path = false ∨
   ∃ o rest, offset_ok o ∧ env_rwdata fs path = Some (offset_image o ++ rest)) →
  s = OK ∧ ctx_wf fs' c' ∧
  (env_exists fs path = false → applied_index_ c' = LogOffset0) ∧
  (∀ o rest, offset_ok o → env_rwdata fs path = Some (offset_image o ++ rest) →
     applied_index_ c' = o).
Proof.
  intros H Hcase. unfold Context_Init, bind, cget, fget in H. cbn in H.
  unfold new_save, bind, cget, fio in H. cbn in H.
  pose proof (law_new_rwfile fs path) as Hrw.
  destruct (env_exists fs path) eqn:Hex; cbn in H.
  - destruct Hcase as [|(o & rest & Ho & Hd)]; [done|].
    destruct (env_new_rwfile fs path) as [s1 fs1]. destruct (ok s1) eqn:Eo; [|done].
    apply ok_true in Eo as ->. cbn in H. destruct (Hrw fs1 eq_refl) as [_ Hd1].
    rewrite Hd in Hd1. rewrite Hd1 in H. unfold cmod, ret in H.
    pose proof (offset_image_inv o rest Ho) as Hinv. cbv zeta in Hinv. rewrite Hinv in H.
    injection H as <- <- <-. split_and!; [done| |done|].
    + split; cbn; [done|by exists rest|done].
    + intros o' rest' Ho' Hd'. change (o = o').
      assert (offset_image o ++ rest = offset_image o' ++ rest') as Heq by congruence.
      rewrite <- (offset_image_inv o rest Ho), <- (offset_image_inv o' rest' Ho'), Heq. done.
  - assert (env_rwdata fs path = None) as Hnone.
    { destruct (env_rwdata fs path) eqn:Em; [|done].
      rewrite (proj2 (law_exists _ _)) in Hex by eauto. done. }
    destruct (env_new_rwfile fs path) as [s1 fs1]. destruct (ok s1) eqn:Eo; [|done].
    apply ok_true in Eo as ->. cbn in H. destruct (Hrw fs1 eq_refl) as [_ Hd1].
    rewrite Hnone in Hd1. destruct Hd1 as (d & Hd1 & Hl).
    match type of H with context [Context_StableSave (_, ?b0)] =>
      destruct (Context_StableSave_spec fs1 b0 d eq_refl Hd1 Hl) as (fs2 & rest & Hst & _ & Hm) end.
    rewrite Hst in H. cbn in H, Hm. rewrite Hm in H.
    unfold cmod, ret in H.
    assert (offset_ok LogOffset0) as Ho by (split_and!; cbn; lia).
    pose proof (offset_image_inv LogOffset0 rest Ho) as Hinv. cbv zeta in Hinv.
    rewrite Hinv in H. injection H as <- <- <-.
    split_and!; [done| |done|by rewrite Hnone].
    split; cbn; [done|by exists rest|done].
Qed.

(** [UpdateAppliedIndex] keeps the saved index current and never moves it
    back, whatever offset it is called with. *)
Theorem UpdateAppliedIndex_wf fs c o :
  ctx_wf fs c → Forall (λ x, offset_ok (win_offset_ x)) (win_ (applied_win_ c)) →
  ∃ fs' c', UpdateAppliedIndex o (fs, c) = Some (tt, (fs', c')) ∧ ctx_wf fs' c' ∧
    lo_le (applied_index_ c) (applied_index_ c') ∧ agree_files fs fs'.
Proof.
  intros W Hw. unfold UpdateAppliedIndex, bind at 1, cget. cbn [snd].
  destruct (SyncWindow_Update _ _ _ _) as [[r cur] w] eqn:Hu.
  assert (cur = LogOffset0 ∨ offset_ok cur) as Hcur.
  { revert Hu. unfold SyncWindow_Update. destruct (find_range _ _ _ _ _ _) as [sp ep].
    destruct (_ || _); [intros [= <- <- <-]; auto|].
    assert (∀ k i w0, Forall (λ x, offset_ok (win_offset_ x)) (win_ w0) →
      Forall (λ x, offset_ok (win_offset_ x)) (win_ (mark_acked i k w0))) as Hmark.
    { induction k as [|k IH]; intros i w0 H0; cbn; [done|]. apply IH. cbn.
      by apply Forall_alter. }
    specialize (Hmark (ep + 1 - sp)%nat sp _ Hw).
    destruct (pop_acked _ _) as [o1 win1] eqn:Hp. intros [= <- <- <-].
    destruct (pop_acked_spec _ _ _ _ Hp) as (popped & Hpp & _ & _ & ->).
    rewrite Hpp in Hmark. apply Forall_app in Hmark as [Hmark _].
    destruct (last popped) as [x|] eqn:El; cbn; [right|by left].
    apply last_Some in El as [l ->]. apply Forall_app in Hmark as [_ Hmark].
    by apply Forall_inv in Hmark. }
  unfold bind at 1, cmod. cbn beta iota.
  destruct (lo_gtb cur (applied_index_ c)) eqn:Hgt.
  - destruct (cw_file _ _ W) as (rest & Hd).
    assert (offset_ok cur) as Hok.
    { destruct Hcur as [->|]; [|done]. split_and!; cbn; lia. }
    unfold bind. cbn.
    destruct (Context_StableSave_spec fs (set_applied_index cur (set_applied_win w c))
      (offset_image (applied_index_ c) ++ rest)) as (fs' & rest' & Hst & A & Hm).
    { apply W. } { done. }
    { rewrite zlen_app, zlen_offset_image. pose proof (zlen_nonneg rest). lia. }
    rewrite Hst. eexists fs', _. split_and!; [done| |cbn; unfold lo_le; bo_solve|done].
    split; cbn; [apply W|by exists rest'|done].
  - eexists fs, _. split_and!; [done| |reflexivity|done]. split; cbn; apply W.
Qed.
End Facts.

(** ** Facts about replication progress *)

(** How many of the offsets have reached [o]. *)
Definition count_ge (o : LogOffset) (l : list LogOffset) : nat :=
  length (filter (λ x, lo_le o x) l).

#[export] Instance count_ge_perm : Proper (eq ==> (≡ₚ) ==> eq) count_ge.
Proof. intros o ? <- l k H. unfold count_ge. by rewrite H. Qed.

Lemma count_ge_app o l k : count_ge o (l ++ k) = (count_ge o l + count_ge o k)%nat.
Proof. unfold count_ge. by rewrite filter_app, length_app. Qed.

Lemma count_ge_all o l : Forall (lo_le o) l → count_ge o l = length l.
Proof.
  intros H. unfold count_ge. induction H as [|x l Hx Hl IH]; [done|].
  rewrite filter_cons_True by done. cbn. by rewrite IH.
Qed.

Lemma count_ge_none o l : Forall (λ x, ¬ lo_le o x) l → count_ge o l = 0%nat.
Proof.
  intros H. unfold count_ge. induction H as [|x l Hx Hl IH]; [done|].
  by rewrite filter_cons_False.
Qed.

Lemma count_ge_le o l : (count_ge o l ≤ length l)%nat.
Proof. apply length_filter. Qed.

Lemma lo_le_or a b : ¬ lo_le a b → lo_le b a.
Proof. intros H. destruct (total lo_le a b); done. Qed.

(** The [k]-th largest element of a sorted list is the greatest offset that [k]
    elements have reached. *)
Lemma kth_largest l k r :
  StronglySorted lo_le l → (1 ≤ k ≤ length l)%nat → l !! (length l - k)%nat = Some r →
  (k ≤ count_ge r l)%nat ∧ ∀ o, (k ≤ count_ge o l)%nat → lo_le o r.
Proof.
  intros Hs Hk Hr. set (i := (length l - k)%nat) in *.
  assert (length (take i l) = i) as Hi by (rewrite length_take; lia).
  rewrite <- (take_drop_middle l i r Hr) in Hs |- *.
  assert (Forall (lo_le r) (drop (S i) l)) as Hge.
  { apply StronglySorted_app_1_r, StronglySorted_inv in Hs. apply Hs. }
  assert (Forall (λ x, lo_le x r) (take i l)) as Hle.
  { clear -Hs. induction (take i l) as [|x p IH]; [constructor|].
    cbn in Hs. apply StronglySorted_inv in Hs as [Hs Hx]. constructor; [|by apply IH].
    apply Forall_app in Hx as [_ Hx]. by apply Forall_inv in Hx. }
  change (take i l ++ r :: drop (S i) l) with (take i l ++ [r] ++ drop (S i) l).
  assert (length (drop (S i) l) = (k - 1)%nat) as Hd by (rewrite length_drop; lia).
  split.
  - rewrite !count_ge_app, (count_ge_all r [r]), (count_ge_all r (drop _ _)) by (done || by repeat constructor).
    cbn. lia.
  - intros o Ho. destruct (decide (lo_le o r)) as [|Hn]; [done|exfalso].
    rewrite !count_ge_app, (count_ge_none o (take i l)), (count_ge_none o [r]) in Ho.
    + pose proof (count_ge_le o (drop (S i) l)). lia.
    + by repeat constructor.
    + eapply Forall_impl; [done|]. intros x Hx Hox. apply Hn. by transitivity x.
Qed.

(** The recorded offsets, in some order. *)
Definition values (m : gmap string LogOffset) : list LogOffset := (map_to_list m).*2.

Lemma length_values m : length (values m) = size m.
Proof. unfold values. by rewrite length_fmap, length_map_to_list. Qed.

Lemma commit_kth c m l :
  1 ≤ consensus_level c ≤ Z.of_nat (size m) → l ≡ₚ values m → StronglySorted lo_le l →
  ∃ r, l !! (length l - Z.to_nat (consensus_level c))%nat = Some r ∧
    lo_equiv (InternalCalCommittedIndex c m) r ∧
    (Z.to_nat (consensus_level c) ≤ count_ge r (values m))%nat ∧
    ∀ o, (Z.to_nat (consensus_level c) ≤ count_ge o (values m))%nat → lo_le o r.
Proof.
  intros Hc Hp Hs. set (k := Z.to_nat (consensus_level c)).
  assert (length l = size m) as Hl by (by rewrite Hp, length_values).
  assert (∀ l', l' ≡ₚ values m → StronglySorted lo_le l' → ∃ r, l' !! (length l' - k)%nat = Some r ∧
    (k ≤ count_ge r (values m))%nat ∧
    ∀ o, (k ≤ count_ge o (values m))%nat → lo_le o r) as H.
  { intros l' Hp' Hs'. assert (length l' = size m) as Hl' by (by rewrite Hp', length_values).
    destruct (lookup_lt_is_Some_2 l' (length l' - k)) as [r Hr]; [lia|].
    exists r. split; [done|]. destruct (kth_largest l' k r Hs') as [H1 H2]; [lia|done|].
    split; [by rewrite <- Hp'|]. intros o Ho. apply H2. by rewrite Hp'. }
  destruct (H l Hp Hs) as (r & Hr & H1 & H2). exists r. split_and!; try done.
  destruct (H (merge_sort lo_le (values m))) as (r' & Hr' & H1' & H2').
  { apply merge_sort_Permutation. }
  { apply (StronglySorted_merge_sort lo_le). }
  unfold InternalCalCommittedIndex.
  rewrite (proj2 (Z.eqb_neq _ _)), (proj2 (Z.ltb_ge _ _)) by lia.
  cbv zeta. change ((map_to_list m).*2) with (values m). fold k. rewrite Hr'. cbn.
  pose proof (H2 _ H1') as Ha. pose proof (H2' _ H1) as Hb.
  unfold lo_equiv, lo_le, lo_eqb, lo_leb in *. rewrite bo_eqb_eq. by apply bo_leb_antisym.
Qed.

Lemma quorum c m :
  1 ≤ consensus_level c ≤ Z.of_nat (size m) →
  let r := InternalCalCommittedIndex c m in
  consensus_level c ≤ Z.of_nat (count_ge r (values m)) ∧
  (∀ o, consensus_level c ≤ Z.of_nat (count_ge o (values m)) → lo_le o r) ∧
  (∀ l, l ≡ₚ values m → StronglySorted lo_le l →
     ∃ r', l !! (length l - Z.to_nat (consensus_level c))%nat = Some r' ∧ lo_equiv r r').
Proof.
  intros Hc r.
  assert (∀ a b, lo_equiv a b → count_ge a (values m) = count_ge b (values m)) as Hcount.
  { intros a b Hab. unfold count_ge. f_equal. apply list_filter_iff. intros x.
    unfold lo_le. by rewrite Hab. }
  destruct (commit_kth c m (merge_sort lo_le (values m)) Hc) as (r' & _ & Heq & H1 & H2).
  { apply merge_sort_Permutation. }
  { apply (StronglySorted_merge_sort lo_le). }
  fold r in Heq. split_and!.
  - rewrite (Hcount _ _ Heq). lia.
  - intros o Ho. unfold lo_le. rewrite Heq. apply H2. lia.
  - intros l Hp Hs. destruct (commit_kth c m l Hc Hp Hs) as (r2 & Hr2 & Heq2 & _). eauto.
Qed.

(** The committed index is what a quorum has: with [consensus_level = k]
    between 1 and the number of slaves, at least [k] slaves have acknowledged the
    result, and it is the greatest such offset.  The order in which the map is
    traversed and the (unstable) sort only decide between entries with the same
    binlog offset. *)
Theorem committed_index_quorum c m :
  1 ≤ consensus_level c ≤ Z.of_nat (size m) →
  let r := InternalCalCommittedIndex c m in
  consensus_level c ≤ Z.of_nat (count_ge r (values m)) ∧
  (∀ o, consensus_level c ≤ Z.of_nat (count_ge o (values m)) → lo_le o r) ∧
  (∀ l, l ≡ₚ values m → StronglySorted lo_le l →
     ∃ r', l !! (length l - Z.to_nat (consensus_level c))%nat = Some r' ∧ lo_equiv r r').
Proof. apply quorum. Qed.

(** The recorded offsets are the acknowledged offsets of the nodes. *)
Record prog_wf (p : SyncProgress) : Prop := {
  pw_nodes : map_Forall (λ _ n, node_wf n) (slaves_ p);
  pw_match : ∀ k, option_Forall2 lo_equiv (acked_offset <$> slaves_ p !! k) (match_index_ p !! k);
}.

Lemma node_wf_new ip port t i sid : node_wf (SlaveNode_new ip port t i sid).
Proof. by repeat constructor. Qed.

Lemma node_wf_set_rm x n : node_wf n → node_wf (set_rm x n).
Proof. intros []. by split. Qed.

Lemma pw_lookup p k n : prog_wf p → slaves_ p !! k = Some n →
  ∃ o, match_index_ p !! k = Some o ∧ lo_equiv (acked_offset n) o.
Proof.
  intros W Hk. pose proof (pw_match _ W k) as Hm. rewrite Hk in Hm. cbn in Hm.
  inversion Hm; subst. eauto.
Qed.

Lemma prog_wf_insert p k n o :
  prog_wf p → node_wf n → lo_equiv (acked_offset n) o →
  prog_wf (mkProgress (<[k := n]> (slaves_ p)) (<[k := o]> (match_index_ p))).
Proof.
  intros [Hn Hm] Hw Ho. split; cbn.
  - by apply map_Forall_insert_2.
  - intros k'. destruct (decide (k = k')) as [<-|Hk].
    + rewrite !lookup_insert_eq. by constructor.
    + by rewrite !lookup_insert_ne.
Qed.

(** The bookkeeping of slaves is consistent: adding, renewing and removing a
    slave keep [match_index_] in step with the nodes, and a new slave starts with
    nothing acknowledged. *)
Theorem slaves_match_index now1 now2 ip port t i sid p :
  prog_wf p →
  prog_wf (AddSlaveNode now1 now2 ip port t i sid p).2 ∧ prog_wf (RemoveSlaveNode ip port p).2 ∧
  match GetSlaveNode ip port p with
  | Some n => ∃ n', GetSlaveNode ip port (AddSlaveNode now1 now2 ip port t i sid p).2 = Some n' ∧
      acked_offset n' = acked_offset n ∧ sync_win n' = sync_win n ∧
      session_id_ (rm n') = s32 (u32 sid)
  | None => match_index_ (AddSlaveNode now1 now2 ip port t i sid p).2 !! slave_key ip port =
      Some LogOffset0
  end ∧
  GetSlaveNode ip port (RemoveSlaveNode ip port p).2 = None.
Proof.
  intros W. unfold AddSlaveNode, GetSlaveNode. set (k := slave_key ip port).
  destruct (slaves_ p !! k) as [n|] eqn:Hk; cbn [snd].
  - destruct (pw_lookup _ _ _ W Hk) as (o & Eo & Hm). split_and!.
    + replace (match_index_ p) with (<[k := o]> (match_index_ p)) by (by apply insert_id).
      apply prog_wf_insert; [done| |done]. apply node_wf_set_rm. by apply (pw_nodes _ W k).
    + split; cbn; [apply map_Forall_delete; apply W|]. intros k'. fold k.
      destruct (decide (k = k')) as [<-|Hne]; [rewrite !lookup_delete_eq; constructor|].
      rewrite !lookup_delete_ne by done. apply W.
    + eexists. cbn. rewrite lookup_insert_eq. split_and!; done.
    + cbn. fold k. by rewrite lookup_delete_eq.
  - split_and!.
    + apply prog_wf_insert; [done| |reflexivity]. by repeat apply node_wf_set_rm; apply node_wf_new.
    + split; cbn; [apply map_Forall_delete; apply W|]. intros k'. fold k.
      destruct (decide (k = k')) as [<-|Hne]; [rewrite !lookup_delete_eq; constructor|].
      rewrite !lookup_delete_ne by done. apply W.
    + cbn. by rewrite lookup_insert_eq.
    + cbn. fold k. by rewrite lookup_delete_eq.
Qed.

Lemma values_insert m k o :
  values (<[k := o]> m) ≡ₚ o :: values (delete k m).
Proof.
  unfold values. rewrite <- insert_delete_eq.
  rewrite map_to_list_insert by apply lookup_delete_eq. done.
Qed.

Lemma values_lookup m k o : m !! k = Some o → values m ≡ₚ o :: values (delete k m).
Proof. intros H. rewrite <- (values_insert m k o). by rewrite insert_id. Qed.

Lemma count_ge_cons_mono o a b l :
  lo_le a b → (count_ge o (a :: l) ≤ count_ge o (b :: l))%nat.
Proof.
  intros H. unfold count_ge. rewrite !filter_cons. destruct (decide (lo_le o a)) as [Ha|Ha].
  - rewrite decide_True by (by transitivity a). cbn. lia.
  - destruct (decide (lo_le o b)); cbn; lia.
Qed.

(** Progress never goes back: a successful acknowledgement of pending items
    by a slave keeps the bookkeeping consistent and yields a committed index that
    is not before the one the old state gives. *)
Theorem progress_commit_monotone c ip port start end_ o p o' p' :
  1 ≤ consensus_level c ≤ Z.of_nat (size (match_index_ p)) → prog_wf p →
  (∀ n, GetSlaveNode ip port p = Some n → fresh_ack start end_ (win_ (sync_win n))) →
  SyncProgress_Update c ip port start end_ o p = (OK, o', p') →
  prog_wf p' ∧ lo_le (InternalCalCommittedIndex c (match_index_ p)) o' ∧
  o' = InternalCalCommittedIndex c (match_index_ p') ∧
  size (match_index_ p') = size (match_index_ p).
Proof.
  intros Hc W Hf H. unfold SyncProgress_Update, GetSlaveNode in *. set (k := slave_key ip port) in *.
  destruct (slaves_ p !! k) as [n|] eqn:Hk; [|done].
  destruct (SlaveNode_Update start end_ LogOffset0 n) as [[s a] n'] eqn:Hu.
  destruct (ok s) eqn:Eo; cbn [negb] in H; [|injection H as -> _ _; done].
  apply ok_true in Eo as ->. injection H as <- <-.
  destruct (pw_lookup _ _ _ W Hk) as (old & Eold & Hm).
  destruct (node_update n start end_ LogOffset0 a n' (pw_nodes _ W k _ Hk) (Hf n eq_refl) Hu)
    as (W' & Ha & Hle & _).
  assert (size (<[k := a]> (match_index_ p)) = size (match_index_ p)) as Hsize.
  { rewrite <- !length_values, values_insert, (values_lookup _ _ _ Eold). done. }
  split_and!; [|cbn|done|done].
  - cbn. apply (prog_wf_insert (mkProgress (slaves_ p) (match_index_ p)) k n' a); [|done|].
    + by destruct p.
    + by symmetry.
  - destruct (quorum c (match_index_ p) Hc) as (H1 & _ & _).
    destruct (quorum c (<[k := a]> (match_index_ p))) as (_ & H2 & _); [by rewrite Hsize|].
    apply H2. etrans; [exact H1|]. apply inj_le.
    rewrite (values_lookup _ _ _ Eold), values_insert. apply count_ge_cons_mono.
    unfold lo_le. rewrite Ha, <- Hm. exact Hle.
Qed.

(** Slaves are looked up by [ip + port] without a separator, so two slaves
    can share an entry: after 10.0.0.1:19221 was added, adding 10.0.0.11:9221 only
    renews the session of the first, and one slave is counted. *)
Theorem slave_key_collision now1 now2 p1 p2 :
  (AddSlaveNode now1 now2 "10.0.0.1" 19221 "db0" 0 1 SyncProgress_new).2 = p1 →
  (AddSlaveNode now1 now2 "10.0.0.11" 9221 "db0" 0 2 p1).2 = p2 →
  SlaveSize p2 = 1 ∧
  ∃ n, GetSlaveNode "10.0.0.11" 9221 p2 = Some n ∧ ip_ (rm n) = "10.0.0.1" ∧
    port_ (rm n) = 19221 ∧ session_id_ (rm n) = 2.
Proof.
  intros <- <-. split; [vm_compute; reflexivity|]. eexists.
  split; [vm_compute; reflexivity|]. split_and!; reflexivity.
Qed.

(** ** Facts about the in-memory log *)

Section Facts.
Context {Cmd Conn Resp : Type}.
Abbreviation Item := (LogItem Cmd Conn Resp).
Implicit Types (x y : Item) (l a b : list Item) (m : MemLog Cmd Conn Resp).

Definition log_lt x y : Prop :=
  lo_ltb (li_offset x) (li_offset y) = true ∧
  index (l_offset (li_offset x)) < index (l_offset (li_offset y)).

(** Positions and logic indices increase along the log, and [last_offset_] is
    the end of it. *)
Record memlog_wf m : Prop := {
  mw_sorted : StronglySorted log_lt (logs_ m);
  mw_last : match last (logs_ m) with Some x => last_offset_ m = li_offset x | None => True end;
}.

Lemma sorted_app_mid a x b : StronglySorted log_lt (a ++ x :: b) →
  Forall (λ y, log_lt y x) a ∧ Forall (log_lt x) b.
Proof.
  intros H. split.
  - induction a as [|y a IH]; [constructor|]. cbn in H. apply StronglySorted_inv in H as [H Hy].
    constructor; [|by apply IH]. apply Forall_app in Hy as [_ Hy]. by apply Forall_inv in Hy.
  - by apply StronglySorted_app_1_r, StronglySorted_inv in H as [_ H].
Qed.

Lemma find_by_binlog_found i o a x b :
  StronglySorted log_lt (a ++ x :: b) → lo_equiv (li_offset x) o →
  find_by_binlog i o (a ++ x :: b) = i + zlen a.
Proof.
  revert i. induction a as [|y a IH]; intros i Hs Hx; cbn [app find_by_binlog].
  - unfold lo_gtb. rewrite bo_gtb_ltb. unfold lo_equiv, lo_eqb in Hx.
    assert (bo_ltb (b_offset o) (b_offset (li_offset x)) = false) as -> by bo_solve.
    unfold lo_eqb. rewrite Hx, zlen_nil. lia.
  - cbn in Hs. pose proof Hs as Hs'. apply StronglySorted_inv in Hs' as [Hs' Hy].
    apply Forall_app in Hy as [_ Hy]. apply Forall_inv in Hy as [Hy _].
    assert (lo_ltb (li_offset y) o = true) as Hyo by (unfold lo_equiv in Hx; bo_solve).
    assert (lo_gtb (li_offset y) o = false) as -> by bo_solve.
    assert (lo_eqb (li_offset y) o = false) as -> by bo_solve.
    rewrite IH, zlen_cons by done. lia.
Qed.

Lemma find_by_binlog_none i o l :
  Forall (λ x, ¬ lo_equiv (li_offset x) o) l → find_by_binlog i o l = -1.
Proof.
  revert i. induction l as [|x l IH]; intros i H; cbn; [done|].
  apply Forall_cons in H as [Hx H]. destruct (lo_gtb _ _); [done|].
  unfold lo_equiv in Hx. destruct (lo_eqb _ _); [done|]. by apply IH.
Qed.

Lemma find_by_index_found i o a x b :
  StronglySorted log_lt (a ++ x :: b) → index (l_offset (li_offset x)) = index (l_offset o) →
  find_by_index i o (a ++ x :: b) = i + zlen a.
Proof.
  revert i. induction a as [|y a IH]; intros i Hs Hx; cbn [app find_by_index].
  - rewrite Hx, Z.gtb_ltb, Z.ltb_irrefl, Z.eqb_refl, zlen_nil. lia.
  - cbn in Hs. pose proof Hs as Hs'. apply StronglySorted_inv in Hs' as [Hs' Hy].
    apply Forall_app in Hy as [_ Hy]. apply Forall_inv in Hy as [_ Hy].
    rewrite Z.gtb_ltb, (proj2 (Z.ltb_ge _ _)), (proj2 (Z.eqb_neq _ _)) by lia.
    rewrite IH, zlen_cons by done. lia.
Qed.

Lemma ztake_snoc a x b : ztake (zlen a + 1) (a ++ x :: b) = a ++ [x].
Proof.
  unfold ztake, zlen. replace (Z.to_nat _) with (length (a ++ [x]))
    by (rewrite length_app; cbn; lia).
  change (x :: b) with ([x] ++ b). by rewrite (app_assoc a [x] b), take_app_length.
Qed.
Lemma zdrop_snoc a x b : zdrop (zlen a + 1) (a ++ x :: b) = b.
Proof.
  unfold zdrop, zlen. replace (Z.to_nat _) with (length (a ++ [x]))
    by (rewrite length_app; cbn; lia).
  change (x :: b) with ([x] ++ b). by rewrite (app_assoc a [x] b), drop_app_length.
Qed.

Lemma memlog_wf_prefix a b o : StronglySorted log_lt (a ++ b) →
  (match last a with Some x => o = li_offset x | None => True end) → memlog_wf (mkMemLog a o).
Proof. intros Hs Ho. split; [|done]. by eapply StronglySorted_app_1_l. Qed.

Lemma PurgeLogs_cases o l0 m :
  memlog_wf m →
  (∀ a x b, logs_ m = a ++ x :: b → lo_equiv (li_offset x) o →
     PurgeLogs o l0 m = (OK, a ++ [x], mkMemLog b (last_offset_ m)) ∧
     memlog_wf (mkMemLog b (last_offset_ m))) ∧
  (Forall (λ x, ¬ lo_equiv (li_offset x) o) (logs_ m) →
     PurgeLogs o l0 m = (NotFound "Cant find correct index", l0, m)).
Proof.
  intros W. unfold PurgeLogs, InternalFindLogByBinlogOffset. split.
  - intros a x b Hl Hx. pose proof (mw_sorted _ W) as Hs. rewrite Hl in Hs |- *.
    rewrite find_by_binlog_found by done. pose proof (zlen_nonneg a).
    rewrite (proj2 (Z.ltb_ge _ _)), Z.add_0_l, ztake_snoc, zdrop_snoc by lia.
    split; [done|]. split; cbn.
    + by apply StronglySorted_app_1_r, StronglySorted_inv in Hs as [Hs _].
    + pose proof (mw_last _ W) as Hlast. rewrite Hl in Hlast.
      destruct b as [|y b]; [done|]. by rewrite last_app_cons, last_cons_cons in Hlast.
  - intros Hn. by rewrite find_by_binlog_none.
Qed.

(** Committing takes a prefix: [PurgeLogs] at the position of a log entry
    hands out exactly the entries up to it, in order, and keeps the later ones;
    at any other position it fails and changes nothing. *)
Theorem PurgeLogs_spec o l0 m :
  memlog_wf m →
  (∀ a x b, logs_ m = a ++ x :: b → lo_equiv (li_offset x) o →
     PurgeLogs o l0 m = (OK, a ++ [x], mkMemLog b (last_offset_ m)) ∧
     memlog_wf (mkMemLog b (last_offset_ m))) ∧
  (Forall (λ x, ¬ lo_equiv (li_offset x) o) (logs_ m) →
     PurgeLogs o l0 m = (NotFound "Cant find correct index", l0, m)).
Proof. apply PurgeLogs_cases. Qed.

Lemma MemLog_TruncateTo_cases o m :
  memlog_wf m →
  (∀ a x b, logs_ m = a ++ x :: b → lo_equiv (li_offset x) o →
     MemLog_TruncateTo o m = (OK, mkMemLog (a ++ [x]) (li_offset x)) ∧
     memlog_wf (mkMemLog (a ++ [x]) (li_offset x))) ∧
  (Forall (λ x, ¬ lo_equiv (li_offset x) o) (logs_ m) →
     MemLog_TruncateTo o m = (Corruption "Cant find correct index", m)).
Proof.
  intros W. unfold MemLog_TruncateTo, InternalFindLogByBinlogOffset. split.
  - intros a x b Hl Hx. pose proof (mw_sorted _ W) as Hs. rewrite Hl in Hs |- *.
    rewrite find_by_binlog_found by done. pose proof (zlen_nonneg a).
    rewrite (proj2 (Z.ltb_ge _ _)), Z.add_0_l, ztake_snoc by lia.
    replace (Z.to_nat (zlen a)) with (length a) by (unfold zlen; lia).
    rewrite list_lookup_middle by done. split; [done|].
    apply (memlog_wf_prefix (a ++ [x]) b); [by rewrite <- app_assoc|]. by rewrite last_snoc.
  - intros Hn. by rewrite find_by_binlog_none.
Qed.

(** Truncation keeps a prefix: [MemLog_TruncateTo] at the position of a log entry
    keeps exactly the entries up to it and makes it the last one; at any other
    position it fails and changes nothing. *)
Theorem MemLog_TruncateTo_spec o m :
  memlog_wf m →
  (∀ a x b, logs_ m = a ++ x :: b → lo_equiv (li_offset x) o →
     MemLog_TruncateTo o m = (OK, mkMemLog (a ++ [x]) (li_offset x)) ∧
     memlog_wf (mkMemLog (a ++ [x]) (li_offset x))) ∧
  (Forall (λ x, ¬ lo_equiv (li_offset x) o) (logs_ m) →
     MemLog_TruncateTo o m = (Corruption "Cant find correct index", m)).
Proof. apply MemLog_TruncateTo_cases. Qed.

Lemma AppendLog_wf x m :
  memlog_wf m → Forall (λ y, log_lt y x) (logs_ m) → memlog_wf (AppendLog x m).
Proof.
  intros W Hx. split; cbn; [|by rewrite last_snoc].
  pose proof (mw_sorted _ W) as Hs. induction Hs as [|y l Hs IH Hy]; cbn; [by repeat constructor|].
  apply Forall_cons in Hx as [Hyx Hx]. constructor; [by apply IH|].
  apply Forall_app. split; [done|]. by constructor.
Qed.

Lemma FindLogItem_found o o0 m a x b :
  memlog_wf m → logs_ m = a ++ x :: b →
  index (l_offset (li_offset x)) = index (l_offset o) →
  FindLogItem o o0 m = (true, li_offset x).
Proof.
  intros W Hl Hx. unfold FindLogItem, InternalFindLogByLogicIndex.
  pose proof (mw_sorted _ W) as Hs. rewrite Hl in Hs |- *.
  rewrite find_by_index_found by done. pose proof (zlen_nonneg a).
  rewrite (proj2 (Z.ltb_ge _ _)) by lia. rewrite Z.add_0_l.
  replace (Z.to_nat (zlen a)) with (length a) by (unfold zlen; lia).
  by rewrite list_lookup_middle.
Qed.
End Facts.
