(* ===== verification/StableLog.v ===== *)
(** * The stable log of a partition (src/pika_stable_log.cc, include/pika_stable_log.h)

    A [StableLog] owns the binlog of a partition, knows the position of its
    first item, and deletes old or truncated binlog files.  [slash::string2l],
    the file times and the check whether a file is still needed by a slave
    ([SyncMasterPartition::BinlogCloudPurge], reached through [g_pika_rm]) are
    arguments; [time(NULL)] is the clock of the environment. *)

From S2P Require Import Prelude Define Env Binlog BinlogReader BinlogRoundTrip BinlogOpen.
From S2P Require Import Transverter SlaveNode.
From stdpp Require Import base list strings pretty gmap sorting.
From Stdlib Require Import ZArith Lia Init.Byte Ascii.
#[local] Open Scope string_scope.
#[local] Open Scope list_scope.
#[local] Open Scope Z_scope.

(** [slash::string2l]: the number a text denotes, if it is one. *)
Class StringNum := { string2l : string → option Z }.
Class StringNumLaws {S : StringNum} := {
  law_string2l n : - 2 ^ 63 ≤ n < 2 ^ 63 → string2l (pretty n) = Some n;
  (** Only the canonical text of a number is accepted. *)
  law_string2l_inv s n : string2l s = Some n → s = pretty n }.

Record StableLog := mkStableLog {
  purging_ : bool; sl_table_name_ : string; sl_partition_id_ : Z; log_path_ : string;
  stable_logger_ : Binlog; first_offset_ : LogOffset }.

Definition set_purging (x : bool) (l : StableLog) : StableLog :=
  mkStableLog x (sl_table_name_ l) (sl_partition_id_ l) (log_path_ l) (stable_logger_ l)
    (first_offset_ l).
Definition set_stable_logger (x : Binlog) (l : StableLog) : StableLog :=
  mkStableLog (purging_ l) (sl_table_name_ l) (sl_partition_id_ l) (log_path_ l) x
    (first_offset_ l).
Definition SetFirstOffset (x : LogOffset) (l : StableLog) : StableLog :=
  mkStableLog (purging_ l) (sl_table_name_ l) (sl_partition_id_ l) (log_path_ l)
    (stable_logger_ l) x.

(** [std::map<uint32_t, std::string>]: an association list in key order;
    [insert] keeps an existing entry. *)
Fixpoint map_insert (k : Z) (v : string) (m : list (Z * string)) : list (Z * string) :=
  match m with
  | [] => [(k, v)]
  | (k', v') :: m' =>
      if k <? k' then (k, v) :: m
      else if k =? k' then m
      else (k', v') :: map_insert k v m'
  end.

Fixpoint map_find (k : Z) (m : list (Z * string)) : option string :=
  match m with
  | [] => None
  | (k', v) :: m => if k =? k' then Some v else map_find k m
  end.

Fixpoint str_drop (n : nat) (s : string) : string :=
  match n, s with
  | S n, String _ s => str_drop n s
  | _, _ => s
  end.

Section Ops.
Context {FS : Type} {E : SlashEnv FS} {C : FixedCoding} {SN : StringNum}.
(** [st_mtime] of a file. *)
Context (st_mtime : FS → string → option Z).

Abbreviation LM := (M (FS * StableLog)).

Definition lget : LM StableLog := λ s, Some (s.2, s).
Definition lmod (f : StableLog → StableLog) : LM unit := λ '(fs, l), Some (tt, (fs, f l)).
Definition lfs : LM FS := λ s, Some (s.1, s).
Definition lio {A} (f : FS → A * FS) : LM A :=
  λ '(fs, l), let '(a, fs') := f fs in Some (a, (fs', l)).
(** Operations on the binlog. *)
Definition on_logger {A} (m : M (FS * Binlog) A) : LM A :=
  zoom (λ s, (s.1, stable_logger_ s.2)) (λ t s, (t.1, set_stable_logger t.2 s.2)) m.

(** One file name of [GetBinlogFiles]. *)
Definition add_binlog (name : string) (binlogs : list (Z * string)) : list (Z * string) :=
  if negb (bool_decide (str_take kBinlogPrefixLen name = kBinlogPrefix)) then binlogs else
  match string2l (str_drop kBinlogPrefixLen name) with
  | Some i => map_insert (u32 i) name binlogs
  | None => binlogs
  end.

Definition GetBinlogFiles (fs : FS) (path : string) : option (list (Z * string)) :=
  let '(r, children) := env_children fs path in
  if negb (r =? 0) then None
  else Some (foldl (λ m name, add_binlog name m) [] children).

(** The loop of [UpdateFirstOffset]: the first item that is not padding. *)
Fixpoint first_item (fs : FS) (logger : Binlog) (fuel gfuel cfuel : nat)
    (out : Z * Z) (item : BinlogItem) : M PikaBinlogReader (option (BinlogItem * (Z * Z))) :=
  match fuel with
  | O => abort
  | S fuel =>
      let* rd := Get fs logger gfuel cfuel [] out in
      let '(s, binlog, out) := rd in
      if negb (ok s) then ret None else
      let '(good, item) := BinlogItemWithoutContentDecode TypeFirst binlog item in
      if negb good then ret None else
      if negb (exec_time_ item =? 0) then ret (Some (item, out))
      else first_item fs logger fuel gfuel cfuel out item
  end.

(** [fuel] bounds the items, [gfuel] the files, [cfuel] the records of an item. *)
Definition UpdateFirstOffset (fuel gfuel cfuel : nat) (num : Z) : LM unit :=
  let* l := lget in let* fs := lfs in
  match Seek fs (stable_logger_ l) cfuel num 0 Reader_new with
  | None => abort
  | Some (res, r) =>
      if negb (res =? 0) then ret tt else
      match first_item fs (stable_logger_ l) fuel gfuel cfuel (0, 0) BinlogItem_new r with
      | None => abort
      | Some (None, _) => ret tt
      | Some (Some (item, out), _) =>
          lmod (SetFirstOffset (mkLogOffset (mkBinlogOffset out.1 out.2)
                                  (mkLogicOffset (term_id_ item) (logic_id_ item))))
      end
  end.

(** The constructor. *)
Definition StableLog_new (c : PikaConf) (fuel gfuel cfuel : nat) (term0 : Z) (fs : FS)
    (table_name : string) (partition_id : Z) (log_path : string) : option (FS * StableLog) :=
  match Binlog_new fs log_path (binlog_file_size c) term0 with
  | None => None
  | Some (fs, b) =>
      let l := mkStableLog false table_name partition_id log_path b LogOffset0 in
      match GetBinlogFiles fs log_path with
      | None => None
      | Some [] => Some (fs, l)
      | Some ((n, _) :: _) => snd <$> UpdateFirstOffset fuel gfuel cfuel n (fs, l)
      end
  end.

Definition StableLog_Close : LM unit := on_logger Close.

(** [PurgeStableLogs]: whether a purge was scheduled. *)
Definition PurgeStableLogs : LM bool :=
  let* l := lget in
  if purging_ l then ret false else lmod (set_purging true) ;;; ret true.
Definition ClearPurge : LM unit := lmod (set_purging false).

(** Whether [PurgeFiles] wants to delete a file. *)
Definition purge_wanted (c : PikaConf) (fs : FS) (path : string) (to_ : Z) (manual : bool)
    (total remain_expire_num delete_num : Z) (e : Z * string) : bool :=
  (manual && (e.1 <=? to_)) || (0 <? remain_expire_num)
  || ((u64 (total - delete_num) >? 10)
      && match st_mtime fs (path +:+ e.2) with
         | Some t => t <? (env_time fs).1 - expire_logs_days c * 24 * 3600
         | None => false
         end).

(** The loop of [PurgeFiles]; the result is [None] where the function returns
    false, and the number of deleted files otherwise.  [cloud_purge i]: [None]
    when the partition is not found, and [BinlogCloudPurge(i)] otherwise. *)
Fixpoint PurgeFiles_loop (c : PikaConf) (cloud_purge : Z → option bool) (to_ : Z)
    (manual : bool) (total remain_expire_num delete_num : Z) (todo : list (Z * string)) :
    LM (option Z) :=
  match todo with
  | [] => ret (Some delete_num)
  | e :: todo =>
      let* l := lget in let* fs := lfs in
      if negb (purge_wanted c fs (log_path_ l) to_ manual total remain_expire_num delete_num e)
      then ret (Some delete_num) else
      match cloud_purge e.1 with
      | None => ret None
      | Some false => ret None
      | Some true =>
          let* s := lio (λ fs, env_delete fs (log_path_ l +:+ e.2)) in
          if ok s then PurgeFiles_loop c cloud_purge to_ manual total
                         (remain_expire_num - 1) (delete_num + 1) todo
          else PurgeFiles_loop c cloud_purge to_ manual total remain_expire_num
                 delete_num todo
      end
  end.

Definition PurgeFiles (c : PikaConf) (cloud_purge : Z → option bool)
    (fuel gfuel cfuel : nat) (to_ : Z) (manual : bool) : LM bool :=
  let* l := lget in let* fs := lfs in
  match GetBinlogFiles fs (log_path_ l) with
  | None => ret false
  | Some binlogs =>
      let* r := PurgeFiles_loop c cloud_purge to_ manual (zlen binlogs)
                  (s32 (zlen binlogs - expire_logs_nums c)) 0 binlogs in
      match r with
      | None => ret false
      | Some delete_num =>
          if delete_num =? 0 then ret true else
          let* fs := lfs in
          match GetBinlogFiles fs (log_path_ l) with
          | None => ret false
          | Some [] => ret true
          | Some ((n, _) :: _) => UpdateFirstOffset fuel gfuel cfuel n ;;; ret true
          end
      end
  end.

Definition DoPurgeStableLogs (c : PikaConf) (cloud_purge : Z → option bool)
    (fuel gfuel cfuel : nat) (to_ : Z) (manual : bool) : LM unit :=
  PurgeFiles c cloud_purge fuel gfuel cfuel to_ manual ;;; ClearPurge.

(** The loop of [PurgeFileAfter]. *)
Fixpoint purge_after (num : Z) (todo : list (Z * string)) : LM Status :=
  match todo with
  | [] => ret OK
  | (n, name) :: todo =>
      if n >? num then
        let* l := lget in
        let* s := lio (λ fs, env_delete fs (log_path_ l +:+ name)) in
        if negb (ok s) then ret s else purge_after num todo
      else purge_after num todo
  end.

Definition PurgeFileAfter (num : Z) : LM Status :=
  let* l := lget in let* fs := lfs in
  match GetBinlogFiles fs (log_path_ l) with
  | None => ret (Corruption "GetBinlogFiles failed")
  | Some binlogs => purge_after num binlogs
  end.

Definition StableLog_TruncateTo (o : LogOffset) : LM Status :=
  let* s := PurgeFileAfter (filenum (b_offset o)) in
  if negb (ok s) then ret s else
  on_logger (Truncate (filenum (b_offset o)) (offset (b_offset o)) (index (l_offset o))).
End Ops.

(** ** Facts *)

(** The name of binlog file [n] in its directory. *)
Definition log_name (n : Z) : string := kBinlogPrefix +:+ pretty n.

Lemma map_insert_elem k v m e : e ∈ map_insert k v m → e = (k, v) ∨ e ∈ m.
Proof.
  induction m as [|[k' v'] m IH]; cbn.
  - intros H. apply list_elem_of_singleton in H. auto.
  - destruct (k <? k'); [intros H; apply elem_of_cons in H as []; auto|].
    destruct (k =? k'); [auto|]. intros H. apply elem_of_cons in H as [->|H].
    + right. by apply elem_of_cons; left.
    + destruct (IH H); [auto|]. right. by apply elem_of_cons; right.
Qed.

Lemma map_insert_keep k v m e : e ∈ m → e ∈ map_insert k v m.
Proof.
  induction m as [|[k' v'] m IH]; cbn; [by intros H%elem_of_nil|]. intros H.
  destruct (k <? k'); [by apply elem_of_cons; right|]. destruct (k =? k'); [done|].
  apply elem_of_cons in H as [->|H]; apply elem_of_cons; [by left|right; auto].
Qed.

Lemma map_insert_key k v m : ∃ v', (k, v') ∈ map_insert k v m.
Proof.
  induction m as [|[k' v'] m [v0 IH]]; cbn.
  - exists v. by apply list_elem_of_singleton.
  - destruct (k <? k'); [exists v; by apply elem_of_cons; left|].
    destruct (Z.eqb_spec k k') as [->|]; [exists v'; by apply elem_of_cons; left|].
    exists v0. by apply elem_of_cons; right.
Qed.

Lemma str_take_drop n s : str_take n s +:+ str_drop n s = s.
Proof.
  revert s. induction n as [|n IH]; intros [|c s]; try done.
  change (String c (str_take n s +:+ str_drop n s) = String c s). by rewrite IH.
Qed.

Lemma no_slash_log_name n : no_slash (log_name n) = true.
Proof. unfold log_name, no_slash. by rewrite lacks_app, lacks_pretty. Qed.

Lemma NewFileName_log_name path n : path_ok path → 0 ≤ n < 2 ^ 32 →
  NewFileName (path +:+ kBinlogPrefix) n = path +:+ log_name n.
Proof.
  intros [Hp Hl] Hn. unfold NewFileName, log_name.
  rewrite c_str_no_nul by (rewrite no_nul_app, Hp; done).
  rewrite str_take_short, append_assoc; [done|].
  rewrite !length_append. pose proof (pretty_u32_length n Hn). cbn. lia.
Qed.

Section Facts.
Context {FS : Type} {E : SlashEnv FS} {L : SlashEnvLaws FS}.
Context {SN : StringNum} {SL : StringNumLaws}.
Implicit Types (fs : FS) (l : StableLog).

(** The numbers of the binlog files in a directory are 32-bit. *)
Definition numbers_ok (children : list string) : Prop :=
  ∀ name i, name ∈ children → str_take kBinlogPrefixLen name = kBinlogPrefix →
    string2l (str_drop kBinlogPrefixLen name) = Some i → 0 ≤ i < 2 ^ 32.

Lemma add_binlog_elem name m e :
  (∀ i, str_take kBinlogPrefixLen name = kBinlogPrefix →
     string2l (str_drop kBinlogPrefixLen name) = Some i → 0 ≤ i < 2 ^ 32) →
  e ∈ add_binlog name m → e ∈ m ∨ (e.2 = log_name e.1 ∧ e.2 = name ∧ 0 ≤ e.1 < 2 ^ 32).
Proof.
  intros Hn H. unfold add_binlog in H.
  destruct (decide (str_take kBinlogPrefixLen name = kBinlogPrefix)) as [Hp|Hp].
  2:{ rewrite bool_decide_eq_false_2 in H by done. auto. }
  rewrite bool_decide_eq_true_2 in H by done. cbn [negb] in H.
  destruct (string2l (str_drop kBinlogPrefixLen name)) as [i|] eqn:Hi; [|auto].
  specialize (Hn i Hp eq_refl). rewrite u32_small in H by done.
  apply map_insert_elem in H as [->|H]; [right|auto]. cbn. split_and!; [|done|lia|lia].
  rewrite <- (str_take_drop kBinlogPrefixLen name), Hp, (law_string2l_inv _ _ Hi). done.
Qed.

Lemma add_binlog_self n m : 0 ≤ n < 2 ^ 32 → ∃ v, (n, v) ∈ add_binlog (log_name n) m.
Proof.
  intros Hn. unfold add_binlog, log_name.
  change (str_take kBinlogPrefixLen (kBinlogPrefix +:+ pretty n)) with kBinlogPrefix.
  change (str_drop kBinlogPrefixLen (kBinlogPrefix +:+ pretty n)) with (pretty n).
  rewrite bool_decide_eq_true_2, law_string2l, u32_small by (done || lia). apply map_insert_key.
Qed.

Lemma add_binlog_keep name m e : e ∈ m → e ∈ add_binlog name m.
Proof.
  intros H. unfold add_binlog. destruct (negb _); [done|].
  destruct (string2l _); [by apply map_insert_keep|done].
Qed.

Lemma binlogs_sound children : numbers_ok children → ∀ m e,
  e ∈ foldl (λ m name, add_binlog name m) m children →
  e ∈ m ∨ (e.2 = log_name e.1 ∧ 0 ≤ e.1 < 2 ^ 32).
Proof.
  induction children as [|name cs IH]; intros Hn m e H; cbn in H; [auto|].
  apply IH in H as [H|H]; [|auto|].
  - apply add_binlog_elem in H as [H|(?&?&?)]; [auto|auto|].
    intros i Hp Hi. eapply Hn; [|done|done]. by apply elem_of_cons; left.
  - intros nm i Hnm. apply Hn. by apply elem_of_cons; right.
Qed.

Lemma binlogs_keep children m e :
  e ∈ m → e ∈ foldl (λ m name, add_binlog name m) m children.
Proof.
  revert m. induction children as [|name cs IH]; intros m H; cbn; [done|].
  by apply IH, add_binlog_keep.
Qed.

Lemma binlogs_complete children n m : 0 ≤ n < 2 ^ 32 → log_name n ∈ children →
  ∃ v, (n, v) ∈ foldl (λ m name, add_binlog name m) m children.
Proof.
  intros Hn. revert m. induction children as [|name cs IH]; intros m H; [by apply elem_of_nil in H|].
  cbn. apply elem_of_cons in H as [<-|H]; [|by apply IH].
  destruct (add_binlog_self n m Hn) as [v Hv]. exists v. by apply binlogs_keep.
Qed.

(** The listing names exactly the binlog files of the directory. *)
Lemma GetBinlogFiles_spec fs path children binlogs :
  env_children fs path = (0, children) → numbers_ok children →
  GetBinlogFiles fs path = Some binlogs →
  (∀ e, e ∈ binlogs → e.2 = log_name e.1 ∧ 0 ≤ e.1 < 2 ^ 32) ∧
  (∀ n, 0 ≤ n < 2 ^ 32 →
     is_Some (file_data fs (path +:+ log_name n)) → (n, log_name n) ∈ binlogs).
Proof.
  intros Hc Hn H. unfold GetBinlogFiles in H. rewrite Hc in H. cbn in H. injection H as <-.
  assert (∀ e, e ∈ foldl (λ m name, add_binlog name m) [] children →
    e.2 = log_name e.1 ∧ 0 ≤ e.1 < 2 ^ 32) as Hs.
  { intros e He. destruct (binlogs_sound children Hn [] e He) as [He'|]; [|done].
    by apply elem_of_nil in He'. }
  split; [done|]. intros n Hr Hf.
  destruct (binlogs_complete children n [] Hr 
    (law_children _ _ _ _ Hc (no_slash_log_name n) Hf)) as [v Hv].
  destruct (Hs _ Hv) as [Hv' _]. cbn in Hv'. by rewrite Hv' in Hv.
Qed.

(** What [PurgeFileAfter] does to the files. *)
Lemma purge_after_spec num todo : ∀ fs l fs' l',
  purge_after num todo (fs, l) = Some (OK, (fs', l')) →
  l' = l ∧
  (∀ e, e ∈ todo → num < e.1 → file_data fs' (log_path_ l +:+ e.2) = None) ∧
  (∀ g, (∀ e, e ∈ todo → num < e.1 → g ≠ log_path_ l +:+ e.2) →
     file_data fs' g = file_data fs g ∧ env_rwdata fs' g = env_rwdata fs g).
Proof.
  induction todo as [|[n name] todo IH]; intros fs l fs' l' H; cbn [purge_after] in H.
  - unfold ret in H. injection H as <- <-. split_and!; [done| |done].
    by intros e He%elem_of_nil.
  - rewrite Z.gtb_ltb in H. destruct (Z.ltb_spec num n) as [Hn|Hn].
    + unfold bind at 1, lget in H. cbn [snd] in H. unfold bind at 1, lio in H.
      pose proof (law_delete fs (log_path_ l +:+ name)) as Hd.
      pose proof (law_delete_frame fs (log_path_ l +:+ name)) as Hf.
      pose proof (law_rw_delete fs (log_path_ l +:+ name)) as Hr.
      destruct (env_delete fs (log_path_ l +:+ name)) as [s fs1]. cbn in Hf, Hr.
      destruct (ok s) eqn:Eo; cbn [negb] in H; [|by injection H as ->].
      apply ok_true in Eo as ->. specialize (Hd fs1 eq_refl).
      destruct (IH _ _ _ _ H) as (-> & H1 & H2). split_and!; [done| |].
      * intros e He Hlt. apply elem_of_cons in He as [->|He]; [|by apply H1]. cbn.
        destruct (decide (Exists (λ e, num < e.1 ∧ log_path_ l +:+ name = log_path_ l +:+ e.2) todo))
          as [Hex|Hex].
        -- apply Exists_exists in Hex as (e & He & Hlt' & ->). by apply H1.
        -- rewrite (proj1 (H2 _ (λ e He Hlt' Heq, Hex (proj2 (Exists_exists _ _)
             (ex_intro _ e (conj He (conj Hlt' Heq))))))). done.
      * intros g Hg. assert (g ≠ log_path_ l +:+ name) as Hne
          by (apply (Hg (n, name)); [by apply elem_of_cons; left|done]).
        destruct (H2 g) as [-> ->]; [intros e He; apply Hg; by apply elem_of_cons; right|].
        split; auto.
    + destruct (IH _ _ _ _ H) as (-> & H1 & H2). split_and!; [done| |].
      * intros e He Hlt. apply elem_of_cons in He as [->|He]; [cbn in Hlt; lia|by apply H1].
      * intros g Hg. apply H2. intros e He. apply Hg. by apply elem_of_cons; right.
Qed.

(** The log stands in its directory. *)
Record stable_wf fs l : Prop := {
  sw_binlog : binlog_wf fs (stable_logger_ l);
  sw_path : path_ok (log_path_ l);
  sw_name : filename_ (stable_logger_ l) = log_path_ l +:+ kBinlogPrefix;
  sw_manifest : versionfile_ (stable_logger_ l) = log_path_ l +:+ kManifest;
}.

Lemma log_name_inj n m : 0 ≤ n → 0 ≤ m → log_name n = log_name m → n = m.
Proof. intros _ _ H. by apply (inj (String.append kBinlogPrefix)), (inj pretty) in H. Qed.

(** Truncating the stable log: when [TruncateTo] a record boundary of file
    [o.filenum] returns [OK], the binlog is well formed at that position, no later
    binlog file is left, and the earlier ones are untouched. *)
Theorem StableLog_TruncateTo_drops fs l o children d fs' l' :
  let num := filenum (b_offset o) in let off := offset (b_offset o) in
  stable_wf fs l → env_children fs (log_path_ l) = (0, children) → numbers_ok children →
  0 ≤ num < 2 ^ 32 → 0 ≤ off < 2 ^ 31 → 0 ≤ index (l_offset o) < 2 ^ 64 →
  file_data fs (log_path_ l +:+ log_name num) = Some d → off ≤ zlen d →
  seekable (off mod kBlockSize) (ztake off d) →
  StableLog_TruncateTo o (fs, l) = Some (OK, (fs', l')) →
  stable_wf fs' l' ∧
  version_ (stable_logger_ l') =
    mkVersion num off (index (l_offset o)) (v_term (version_ (stable_logger_ l))) ∧
  file_data fs' (log_path_ l +:+ log_name num) = Some (ztake off d) ∧
  (∀ n, num < n < 2 ^ 32 → file_data fs' (log_path_ l +:+ log_name n) = None) ∧
  (∀ n, 0 ≤ n < num → file_data fs' (log_path_ l +:+ log_name n) =
     file_data fs (log_path_ l +:+ log_name n)).
Proof.
  intros num off [W Hp Hnm Hv] Hc Hnum Hn Ho Hi Hd Hle Hs H.
  unfold StableLog_TruncateTo, PurgeFileAfter in H. fold num off in H.
  unfold bind at 1 2 3, lget, lfs in H. cbn [fst snd] in H.
  destruct (GetBinlogFiles fs (log_path_ l)) as [binlogs|] eqn:Hb; [|done].
  destruct (GetBinlogFiles_spec _ _ _ _ Hc Hnum Hb) as [Hsound Hcompl].
  destruct (purge_after num binlogs (fs, l)) as [[s [fs1 l1]]|] eqn:Hpa; [|done].
  destruct (ok s) eqn:Eo; cbn [negb] in H; [|injection H as ->; done].
  apply ok_true in Eo as ->. destruct (purge_after_spec _ _ _ _ _ _ Hpa) as (-> & H1 & H2).
  assert (∀ n, 0 ≤ n ≤ num → file_data fs1 (log_path_ l +:+ log_name n) =
    file_data fs (log_path_ l +:+ log_name n)) as Hkeep.
  { intros n Hr. apply H2. intros e He Hlt Heq. destruct (Hsound e He) as [He2 He1].
    rewrite He2 in Heq. apply (inj (String.append (log_path_ l))), log_name_inj in Heq; lia. }
  assert (∀ n, num < n < 2 ^ 32 → file_data fs1 (log_path_ l +:+ log_name n) = None) as Hgone.
  { intros n Hr. destruct (decide ((n, log_name n) ∈ binlogs)) as [Hin|Hin].
    - apply (H1 (n, log_name n)); [done|cbn; lia].
    - destruct (file_data fs (log_path_ l +:+ log_name n)) as [x|] eqn:Ex.
      + destruct Hin. apply Hcompl; [lia|eauto].
      + rewrite <- Ex. apply H2. intros e He Hlt Heq. destruct (Hsound e He) as [He2 He1].
        rewrite He2 in Heq. apply (inj (String.append (log_path_ l))), log_name_inj in Heq; [|lia|lia].
        destruct Hin. rewrite Heq, <- He2. by destruct e. }
  unfold on_logger, zoom in H. cbn [fst snd] in H.
  assert (binlog_base fs1 (stable_logger_ l)) as B1.
  { destruct (binlog_wf_base _ _ W) as (B1 & B2 & m & Hm & Hml). split_and!; try done.
    exists m. split; [|done]. rewrite <- Hm. apply H2. intros e He Hlt.
    destruct (Hsound e He) as [-> He1]. rewrite Hv. rewrite <- NewFileName_log_name by done.
    by apply manifest_not_log; apply Hp. }
  destruct (Truncate_run fs1 (stable_logger_ l) num off (index (l_offset o)) d B1 Hn Ho Hi)
    as (s & fs2 & b2 & Ht & _ & Hok); [|done|done|].
  { rewrite Hnm, NewFileName_log_name by done. rewrite Hkeep by lia. done. }
  rewrite Ht in H. injection H as -> <- <-.
  destruct (Hok eq_refl) as (W2 & Hver & Hfn & Hvf & Hcur & Hdat & A).
  rewrite Hcur, Hnm, NewFileName_log_name in * by done.
  split_and!; [|done|done| |].
  - split; cbn; [done|done|by rewrite Hfn|by rewrite Hvf].
  - intros n Hr. rewrite A; [by apply Hgone|]. intros Heq.
    apply (inj (String.append (log_path_ l))), log_name_inj in Heq; lia.
  - intros n Hr. rewrite A; [apply Hkeep; lia|]. intros Heq.
    apply (inj (String.append (log_path_ l))), log_name_inj in Heq; lia.
Qed.

(** The listing is in the order of the file numbers. *)
Definition num_lt (a b : Z * string) : Prop := a.1 < b.1.

Lemma map_insert_sorted k v m :
  StronglySorted num_lt m → StronglySorted num_lt (map_insert k v m).
Proof.
  induction 1 as [|[k' v'] m Hs IH Hx]; cbn; [by repeat constructor|].
  destruct (Z.ltb_spec k k').
  - constructor; [by constructor|]. constructor; [done|].
    eapply Forall_impl; [done|]. unfold num_lt. cbn. intros. lia.
  - destruct (Z.eqb_spec k k'); [by constructor|]. constructor; [done|].
    apply Forall_forall. intros e He. apply map_insert_elem in He as [->|He].
    + unfold num_lt. cbn. lia.
    + by eapply Forall_forall in Hx.
Qed.

Lemma GetBinlogFiles_sorted fs path binlogs :
  GetBinlogFiles fs path = Some binlogs → StronglySorted num_lt binlogs.
Proof.
  unfold GetBinlogFiles. destruct (env_children fs path) as [r children].
  destruct (negb _); [done|]. intros [= <-].
  assert (∀ m, StronglySorted num_lt m →
    StronglySorted num_lt (foldl (λ m name, add_binlog name m) m children)) as H.
  { induction children as [|name cs IH]; intros m Hm; cbn; [done|]. apply IH.
    unfold add_binlog. destruct (negb _); [done|].
    destruct (string2l _); [by apply map_insert_sorted|done]. }
  apply H. constructor.
Qed.

Lemma PurgeFiles_loop_spec stm c cloud to_ manual total todo : ∀ rem del fs l r fs' l',
  PurgeFiles_loop stm c cloud to_ manual total rem del todo (fs, l) = Some (r, (fs', l')) →
  l' = l ∧ ∃ gone kept, todo = gone ++ kept ∧ Forall (λ e, cloud e.1 = Some true) gone ∧
    ∀ g, (∀ e, e ∈ gone → g ≠ log_path_ l +:+ e.2) → file_data fs' g = file_data fs g.
Proof.
  induction todo as [|e todo IH]; intros rem del fs l r fs' l' H; cbn [PurgeFiles_loop] in H.
  { unfold ret in H. injection H as <- <- <-. split; [done|]. by exists [], []. }
  unfold bind at 1 2, lget, lfs in H. cbn [fst snd] in H.
  assert (Some (@None Z, (fs, l)) = Some (r, (fs', l')) ∨
    Some (Some del, (fs, l)) = Some (r, (fs', l')) → l' = l ∧ ∃ gone kept,
    e :: todo = gone ++ kept ∧ Forall (λ e, cloud e.1 = Some true) gone ∧
    ∀ g, (∀ e, e ∈ gone → g ≠ log_path_ l +:+ e.2) → file_data fs' g = file_data fs g) as Hstop.
  { intros [[= <- <- <-]|[= <- <- <-]]; (split; [done|]); by exists [], (e :: todo). }
  destruct (purge_wanted _ _ _ _ _ _ _ _ _ _); cbn [negb] in H; [|by apply Hstop; right].
  destruct (cloud e.1) as [[]|] eqn:Hcl; [|by apply Hstop; left..]. clear Hstop.
  unfold bind at 1, lio in H.
  pose proof (law_delete_frame fs (log_path_ l +:+ e.2)) as Hf.
  destruct (env_delete fs (log_path_ l +:+ e.2)) as [s fs1]. cbn [snd] in Hf.
  assert (∃ rem' del', PurgeFiles_loop stm c cloud to_ manual total rem' del' todo (fs1, l) =
    Some (r, (fs', l'))) as (rem' & del' & H') by (destruct (ok s); eauto).
  destruct (IH _ _ _ _ _ _ _ H') as (-> & gone & kept & -> & Hg & Hk). split; [done|].
  exists (e :: gone), kept. split_and!; [done|by constructor|].
  intros g Hne. rewrite Hk.
  - apply Hf. apply Hne. by apply elem_of_cons; left.
  - intros e' He'. apply Hne. by apply elem_of_cons; right.
Qed.

Lemma UpdateFirstOffset_frame `{C : FixedCoding} fuel gfuel cfuel n fs l fs' l' :
  UpdateFirstOffset fuel gfuel cfuel n (fs, l) = Some (tt, (fs', l')) →
  fs' = fs ∧ stable_logger_ l' = stable_logger_ l.
Proof.
  unfold UpdateFirstOffset, bind, lget, lfs, lmod, ret, abort. cbn [fst snd].
  destruct (Seek _ _ _ _ _ _) as [[res r]|]; [|done].
  destruct (negb _); [by intros [= <- <-]|].
  destruct (first_item _ _ _ _ _ _ _ _) as [[[[item out]|] ?]|]; [| |done]; by intros [= <- <-].
Qed.

Lemma PurgeFiles_run `{C : FixedCoding} stm c cloud fuel gfuel cfuel to_ manual fs l r fs' l' children :
  env_children fs (log_path_ l) = (0, children) → numbers_ok children →
  PurgeFiles stm c cloud fuel gfuel cfuel to_ manual (fs, l) = Some (r, (fs', l')) →
  stable_logger_ l' = stable_logger_ l ∧
  ∀ g, file_data fs' g ≠ file_data fs g → ∃ n, 0 ≤ n < 2 ^ 32 ∧
    g = log_path_ l +:+ log_name n ∧ cloud n = Some true ∧
    (∀ m, 0 ≤ m < n → is_Some (file_data fs (log_path_ l +:+ log_name m)) → cloud m = Some true).
Proof.
  intros Hc Hnum H. unfold PurgeFiles in H. unfold bind at 1 2, lget, lfs in H. cbn [fst snd] in H.
  destruct (GetBinlogFiles fs (log_path_ l)) as [binlogs|] eqn:Hb.
  2:{ unfold ret in H. injection H as <- <- <-. by split. }
  destruct (GetBinlogFiles_spec _ _ _ _ Hc Hnum Hb) as [Hsound Hcompl].
  pose proof (GetBinlogFiles_sorted _ _ _ Hb) as Hsort.
  unfold bind at 1 in H.
  destruct (PurgeFiles_loop _ _ _ _ _ _ _ _ _ _) as [[res [fs1 l1]]|] eqn:Hl; [|done].
  destruct (PurgeFiles_loop_spec _ _ _ _ _ _ _ _ _ _ _ _ _ _ Hl) as (-> & gone & kept & Hgk & Hg & Hk).
  assert (fs' = fs1 ∧ stable_logger_ l' = stable_logger_ l) as [-> ->].
  { destruct res as [del|]; [|unfold ret in H; by injection H as <- <- <-].
    destruct (del =? 0); [unfold ret in H; by injection H as <- <- <-|].
    unfold bind at 1, lfs in H. cbn [fst] in H.
    destruct (GetBinlogFiles fs1 (log_path_ l)) as [[|[n v] bs]|];
      [unfold ret in H; by injection H as <- <- <-| |unfold ret in H; by injection H as <- <- <-].
    unfold bind in H.
    destruct (UpdateFirstOffset _ _ _ _ _) as [[[] [fs2 l2]]|] eqn:Hu; [|done].
    unfold ret in H. injection H as <- <- <-. by apply UpdateFirstOffset_frame in Hu. }
  split; [done|]. intros g Hne.
  destruct (decide (Exists (λ e, g = log_path_ l +:+ e.2) gone)) as [Hex|Hex].
  2:{ destruct Hne. apply Hk. intros e He Heq. apply Hex, Exists_exists. eauto. }
  apply Exists_exists in Hex as (e & He & ->).
  destruct (Hsound e) as [He2 He1]; [rewrite Hgk; apply elem_of_app; auto|].
  exists e.1. rewrite He2. split_and!; [lia|lia|done|by eapply Forall_forall in Hg|].
  intros m Hm Hf. assert ((m, log_name m) ∈ gone ++ kept) as Hin by (rewrite <- Hgk; apply Hcompl; [lia|done]).
  apply elem_of_app in Hin as [Hin|Hin]; [by eapply Forall_forall in Hg; [|exact Hin]|exfalso].
  rewrite Hgk in Hsort. apply list_elem_of_split in He as (g1 & g2 & ->).
  rewrite <- app_assoc in Hsort. apply StronglySorted_app_1_r in Hsort. cbn in Hsort.
  apply StronglySorted_inv in Hsort as [_ Hsort]. eapply Forall_forall in Hsort;
    [|apply elem_of_app; right; exact Hin]. unfold num_lt in Hsort. cbn in Hsort. lia.
Qed.

(** Purging is safe: whatever the configuration and however the run ends,
    a binlog file that [PurgeFiles] removes, and every older one, is one that
    [BinlogCloudPurge] had released; files that are not binlogs are not touched,
    and the writer is left alone. *)
Theorem PurgeFiles_released `{C : FixedCoding} stm c cloud fuel gfuel cfuel to_ manual fs l r fs' l' children :
  env_children fs (log_path_ l) = (0, children) → numbers_ok children →
  PurgeFiles stm c cloud fuel gfuel cfuel to_ manual (fs, l) = Some (r, (fs', l')) →
  stable_logger_ l' = stable_logger_ l ∧
  ∀ g, file_data fs' g ≠ file_data fs g → ∃ n, 0 ≤ n < 2 ^ 32 ∧
    g = log_path_ l +:+ log_name n ∧ cloud n = Some true ∧
    (∀ m, 0 ≤ m < n → is_Some (file_data fs (log_path_ l +:+ log_name m)) → cloud m = Some true).
Proof. apply PurgeFiles_run. Qed.
End Facts.
