(* ===== verification/BinlogWitness.v ===== *)
(** * The log: examples

    A concrete binlog in memory ([MemFS]) with a file size of 100 bytes, and the instances
    of the theorems on the binlog and the stable log there. *)

From S2P Require Import Prelude Define Env Binlog BinlogReader BinlogRoundTrip BinlogOpen Transverter.
From S2P Require Import SlaveNode StableLog.
From stdpp Require Import base list strings pretty gmap sorting.
From Stdlib Require Import ZArith Lia Init.Byte Ascii.
#[local] Open Scope string_scope.
#[local] Open Scope list_scope.
#[local] Open Scope Z_scope.

Definition disk0 : MemFS := mkMemFS ∅ ∅ 1000.
Definition no_log : Binlog := mkBinlog false (mkVersion 0 0 0 0) None "" 0 0 "" 0 false.
Definition log0 : MemFS * Binlog := default (disk0, no_log) (Binlog_new disk0 "/log/" 100 7).

(** A computation known to return is its result. *)
Lemma default_eq {A} (d : A) (o : option A) :
  match o with Some _ => true | None => false end = true → o = Some (default d o).
Proof. by destruct o. Qed.

Lemma run_pairs {A B C} (m : M (A * B) C) (p : A * B) (q : C * (A * B)) :
  m p = Some q → m (p.1, p.2) = Some (q.1, (q.2.1, q.2.2)).
Proof. by destruct p, q as [? []]. Qed.

Lemma log0_wf : binlog_wf log0.1 log0.2.
Proof.
  destruct (Binlog_new_fresh disk0 "/log/" 100 7 log0.1 log0.2) as [? _]; [|lia| | |done].
  - split; [done|]. cbn. lia.
  - reflexivity.
  - vm_compute. reflexivity.
Qed.

(** Two small items, one that spans two blocks, and one more: three files. *)
Definition items0 : list bytes :=
  [zrep 50 "a"%byte; zrep 60 "b"%byte; zrep 70000 "c"%byte; zrep 5 "d"%byte].

Definition run0 : list (Z * Z) * (MemFS * Binlog) :=
  default ([], log0) (Put_all items0 log0).

Lemma run0_eq : Put_all items0 (log0.1, log0.2) = Some (run0.1, (run0.2.1, run0.2.2)).
Proof.
  apply run_pairs. unfold run0. apply default_eq. vm_compute. reflexivity.
Qed.

Lemma items0_fit : Forall (λ x, x ≠ [] ∧ item_fits log0.2 x ∧ (length x ≤ Z.to_nat 70000)%nat) items0.
Proof.
  assert (∀ n c, 0 < n ≤ 70000 → zrep n c ≠ [] ∧ item_fits log0.2 (zrep n c) ∧
    (length (zrep n c) ≤ Z.to_nat 70000)%nat) as H.
  { intros n c Hn. pose proof (zlen_zrep n c ltac:(lia)) as Hz. split_and!.
    - intros H0. rewrite H0, zlen_nil in Hz. lia.
    - unfold item_fits. rewrite Hz. change (file_size_ log0.2) with 100. lia.
    - unfold zlen in Hz. lia. }
  repeat (constructor; [apply H; lia|]). constructor.
Qed.

Definition reader0 : PikaBinlogReader := mkReader 0 0 0 true (Some ("/log/write2file0", 0)).

Lemma binlog_put_get_witness :
  run0.1 = [(0, 58); (0, 126); (1, 70016); (2, 13)] ∧ ∃ r',
  Get_all run0.2.1 run0.2.2 2 (Z.to_nat 70000) 4 reader0 =
    Some (zip_with (λ x q, (OK, x, q)) items0 run0.1, r').
Proof.
  split; [vm_compute; reflexivity|].
  destruct (binlog_put_get log0.1 log0.2 items0 run0.1 run0.2.1 run0.2.2 reader0 0
    (Z.to_nat 70000)) as (r' & H & _).
  - exact log0_wf.
  - vm_compute. discriminate.
  - vm_compute. reflexivity.
  - exact items0_fit.
  - exact run0_eq.
  - split_and!; try done; [vm_compute; discriminate..|by exists 0].
  - exists r'. exact H.
Defined.

Lemma binlog_seek_boundaries_witness : ∃ r',
  Seek run0.2.1 run0.2.2 9 1 70016 Reader_new = Some (0, r') ∧ cur_offset_ r' = 70016.
Proof.
  destruct (binlog_seek_boundaries log0.1 log0.2 items0 run0.1 run0.2.1 run0.2.2 (1, 70016) 8
    Reader_new) as (r' & H & (_ & _ & _ & Ho & _)).
  - exact log0_wf.
  - vm_compute. discriminate.
  - vm_compute. reflexivity.
  - eapply Forall_impl; [exact items0_fit|]. by intros x (_ & H & _).
  - exact run0_eq.
  - apply (bool_decide_eq_true_1 (_ ∈ _)). vm_compute. reflexivity.
  - exists r'. split; [exact H|exact Ho].
Defined.

Lemma run0_wf : binlog_wf run0.2.1 run0.2.2.
Proof.
  destruct (Put_all_stored items0 log0.1 log0.2 run0.1 run0.2.1 run0.2.2) as [H _].
  - exact log0_wf.
  - vm_compute. discriminate.
  - eapply Forall_impl; [exact items0_fit|]. by intros x (_ & H & _).
  - vm_compute. reflexivity.
  - exact run0_eq.
  - exact H.
Qed.

Definition log1 : MemFS * Binlog := default log0 (Binlog_new run0.2.1 "/log/" 100 5).

Lemma Binlog_reopen_witness :
  version_ log1.2 = mkVersion 2 13 4 7 ∧ binlog_wf log1.1 log1.2.
Proof.
  destruct (Binlog_reopen run0.2.1 run0.2.2 "/log/" 100 5 log1.1 log1.2) as (W & Hv & _).
  - exact run0_wf.
  - split; [reflexivity|cbn; lia].
  - vm_compute. reflexivity.
  - vm_compute. reflexivity.
  - rewrite <- surjective_pairing. apply default_eq. vm_compute. reflexivity.
  - split; [|exact W]. rewrite Hv. vm_compute. reflexivity.
Defined.

Lemma Put_returns_witness : ∃ fs' b',
  Put (zrep 80 "x"%byte) (run0.2.1, run0.2.2) = Some (OK, (fs', b')).
Proof.
  apply Put_returns; [exact run0_wf|]. rewrite zlen_zrep; lia.
Defined.

Lemma SetProducerStatus_wf_witness : ∃ fs' b',
  SetProducerStatus 9 (65536 + 3) 2 77 (run0.2.1, run0.2.2) = Some (OK, (fs', b')) ∧
  binlog_wf fs' b' ∧ version_ b' = mkVersion 9 65536 77 2.
Proof.
  destruct (SetProducerStatus_wf run0.2.1 run0.2.2 9 (65536 + 3) 2 77)
    as (fs' & b' & H & W & Hv & _); [exact run0_wf|lia|lia|lia|lia|const; lia|].
  exists fs', b'. split; [exact H|]. split; [exact W|exact Hv].
Defined.

Lemma SetProducerStatus_short_offset_witness : ∃ fs' b',
  SetProducerStatus 9 6 2 77 (run0.2.1, run0.2.2) = Some (OK, (fs', b')) ∧
  v_pro_offset (version_ b') = 6 ∧ file_data fs' (cur_file b') = Some [].
Proof.
  destruct (SetProducerStatus_short_offset run0.2.1 run0.2.2 9 6 2 77)
    as (fs' & b' & H & Ho & Hd & _); [exact run0_wf|const; lia|].
  exists fs', b'. split; [exact H|]. split; [exact Ho|exact Hd].
Defined.

(** The first file after the run: two records of 58 and 68 bytes. *)
Definition rec_a : bytes := record_header 50 1000 kFullType ++ zrep 50 "a"%byte.
Definition rec_b : bytes := record_header 60 1001 kFullType ++ zrep 60 "b"%byte.

Lemma Truncate_wf_witness : ∃ fs' b',
  Truncate 0 58 1 (run0.2.1, run0.2.2) = Some (OK, (fs', b')) ∧ binlog_wf fs' b' ∧
  version_ b' = mkVersion 0 58 1 7 ∧ file_data fs' (cur_file b') = Some rec_a.
Proof.
  destruct (Truncate_wf run0.2.1 run0.2.2 0 58 1 (rec_a ++ rec_b))
    as (fs' & b' & H & W & Hv & Hd & _); [exact run0_wf|lia|lia|lia| | | |].
  - vm_compute. reflexivity.
  - vm_compute. discriminate.
  - exists [], rec_a. split; [reflexivity|]. split; [by exists 0|]. split; [|reflexivity].
    apply (walk_snoc [] rec_a walk_nil). exists 50, 1000, kFullType, (zrep 50 "a"%byte).
    split_and!; try done; try (vm_compute; discriminate). auto.
  - exists fs', b'. split; [exact H|]. split; [exact W|]. split; [exact Hv|exact Hd].
Defined.

(** A reader in front of a padding record. *)
Definition padded : MemFS := mkMemFS
  {[ "/log/write2file9" := record_header 4 5 kBadRecord ++ zrep 4 "*"%byte ]} ∅ 0.
Definition reader9 : PikaBinlogReader := mkReader 9 0 0 true (Some ("/log/write2file9", 0)).

Lemma Get_bad_record_ok_witness : ∃ r',
  Get padded run0.2.2 1 1 [] (0, 0) reader9 = Some ((OK, [], (9, 12)), r').
Proof.
  destruct (Get_bad_record_ok padded run0.2.2 reader9 "/log/write2file9" 9 [] 4 5
    (zrep 4 "*"%byte) [] 0 0 [] (0, 0)) as (r' & _ & H & _).
  - split_and!; try done; [vm_compute; discriminate..|by exists 0].
  - vm_compute. reflexivity.
  - reflexivity.
  - lia.
  - vm_compute. discriminate.
  - vm_compute. reflexivity.
  - exists r'. exact H.
Defined.

(** * Stable log examples

    A number parser that satisfies the laws of [string2l], and the instances of
    the stable log theorems on the binlog of [BinlogWitness]. *)

(** The value of a digit text. *)
Fixpoint digits_val (acc : N) (s : string) : N :=
  match s with
  | EmptyString => acc
  | String c s => digits_val (acc * 10 + (Ascii.N_of_ascii c - 48)) s
  end.

Definition digits_z (s : string) : Z :=
  match s with
  | String c t => if bool_decide (c = Ascii.ascii_of_nat 45) then - Z.of_N (digits_val 0 t) else Z.of_N (digits_val 0 s)
  | EmptyString => 0
  end.

#[export] Instance digits_num : StringNum := {
  string2l s := let n := digits_z s in if bool_decide (pretty n = s) then Some n else None }.

Lemma digits_val_go x s : digits_val 0 (pretty_N_go x s) = digits_val x s.
Proof.
  revert s. induction (N.lt_wf_0 x) as [x _ IH]; intros s.
  destruct (decide (x = 0)%N) as [->|Hx]; [by rewrite pretty_N_go_0|].
  rewrite pretty_N_go_step by lia. rewrite IH by (apply N.div_lt; lia). cbn [digits_val].
  f_equal. assert (Ascii.N_of_ascii (pretty_N_char (x mod 10)) = x mod 10 + 48)%N as ->.
  { assert (x mod 10 < 10)%N as Hm by (apply N.mod_lt; lia).
    destruct (x mod 10)%N as [|p]; [done|].
    do 4 (destruct p as [p|p|]; try reflexivity; try lia). }
  generalize (N.div_mod x 10 ltac:(lia)). generalize (x `div` 10)%N (x mod 10)%N. intros; lia.
Qed.

Lemma digits_val_pos p : digits_val 0 (pretty (N.pos p)) = N.pos p.
Proof. unfold pretty, pretty_N. rewrite decide_False by done. by rewrite digits_val_go. Qed.

Lemma digits_z_pretty n : digits_z (pretty n) = n.
Proof.
  destruct n as [|p|p]; [done| |].
  - change (pretty (Z.pos p)) with (pretty (N.pos p)). pose proof (digits_val_pos p) as H.
    assert (lacks (Ascii.ascii_of_nat 45) (pretty (N.pos p)) = true) as Hm.
    { unfold pretty, pretty_N. rewrite decide_False by done. by apply lacks_pretty_go. }
    destruct (pretty (N.pos p)) as [|c t] eqn:E; [done|]. cbn [lacks] in Hm. apply andb_true_iff in Hm as [Hc _].
    apply negb_true_iff in Hc. unfold digits_z. rewrite Hc, H. done.
  - change (digits_z (String (Ascii.ascii_of_nat 45) (pretty (N.pos p))) = Z.neg p). cbn [digits_z].
    rewrite bool_decide_eq_true_2, digits_val_pos by done. done.
Qed.

#[export] Instance digits_num_laws : StringNumLaws.
Proof.
  split.
  - intros n _. unfold string2l, digits_num. rewrite digits_z_pretty. by rewrite bool_decide_eq_true_2.
  - intros s n. unfold string2l, digits_num.
    destruct (decide (pretty (digits_z s) = s)) as [H|H].
    + cbv zeta. rewrite bool_decide_eq_true_2 by done. by intros [= <-].
    + cbv zeta. by rewrite bool_decide_eq_false_2.
Qed.

Definition stable0 : StableLog := mkStableLog false "db0" 0 "/log/" run0.2.2 LogOffset0.

Lemma path_ok0 : path_ok "/log/".
Proof. split; [reflexivity|cbn; lia]. Qed.

Lemma stable0_wf : stable_wf run0.2.1 stable0.
Proof.
  split; [exact run0_wf|exact path_ok0|vm_compute; reflexivity|vm_compute; reflexivity].
Qed.

Definition children0 : list string := (env_children run0.2.1 "/log/").2.

Lemma children0_eq : env_children run0.2.1 (log_path_ stable0) = (0, children0).
Proof. vm_compute. reflexivity. Qed.

Lemma children0_ok : numbers_ok children0.
Proof.
  assert (forallb (λ name, match string2l (str_drop kBinlogPrefixLen name) with
      | Some i => (0 <=? i) && (i <? 2 ^ 32) | None => true end) children0 = true) as H
    by (vm_compute; reflexivity).
  intros name i Hname _ Hi. rewrite forallb_forall in H.
  specialize (H name (proj1 (list_elem_of_In _ _) Hname)). rewrite Hi in H. lia.
Qed.

Definition offset58 : LogOffset := mkLogOffset (mkBinlogOffset 0 58) (mkLogicOffset 7 1).
Definition truncated0 : Status * (MemFS * StableLog) :=
  default (Busy "", (run0.2.1, stable0)) (StableLog_TruncateTo offset58 (run0.2.1, stable0)).

Lemma truncated0_eq : StableLog_TruncateTo offset58 (run0.2.1, stable0) =
  Some (OK, (truncated0.2.1, truncated0.2.2)).
Proof.
  assert (truncated0.1 = OK) as H by (vm_compute; reflexivity). rewrite <- H.
  assert (∀ x : Status * (MemFS * StableLog), x = (x.1, (x.2.1, x.2.2))) as Hx by (by intros [? []]).
  rewrite <- Hx. apply default_eq. vm_compute. reflexivity.
Qed.

Lemma StableLog_TruncateTo_drops_witness :
  file_data truncated0.2.1 "/log/write2file1" = None ∧
  file_data truncated0.2.1 "/log/write2file0" = Some rec_a ∧
  binlog_wf truncated0.2.1 (stable_logger_ truncated0.2.2).
Proof.
  destruct (StableLog_TruncateTo_drops run0.2.1 stable0 offset58 children0 (rec_a ++ rec_b)
    truncated0.2.1 truncated0.2.2) as (W & _ & Hd & Hgone & _).
  - exact stable0_wf.
  - exact children0_eq.
  - exact children0_ok.
  - cbn. lia.
  - cbn. lia.
  - cbn. lia.
  - vm_compute. reflexivity.
  - vm_compute. discriminate.
  - exists [], rec_a. split; [reflexivity|]. split; [by exists 0|]. split; [|reflexivity].
    apply (walk_snoc [] rec_a walk_nil). exists 50, 1000, kFullType, (zrep 50 "a"%byte).
    split_and!; try done; try (vm_compute; discriminate). auto.
  - exact truncated0_eq.
  - split; [apply (Hgone 1); cbn; lia|]. split; [exact Hd|apply W].
Defined.

(** Purging with two files to keep: file 0 goes. *)
Definition conf_purge : PikaConf := mkConf 2 0 true 100 2 7 "/log/" "db0" 9221.
Definition released0 (i : Z) : option bool := Some (i <? 1).
Definition purged0 : bool * (MemFS * StableLog) :=
  default (false, (run0.2.1, stable0))
    (PurgeFiles (λ _ _, None) conf_purge released0 9 9 9 0 false (run0.2.1, stable0)).

Lemma purged0_eq :
  PurgeFiles (λ _ _, None) conf_purge released0 9 9 9 0 false (run0.2.1, stable0) =
  Some (purged0.1, (purged0.2.1, purged0.2.2)).
Proof.
  assert (∀ x : bool * (MemFS * StableLog), x = (x.1, (x.2.1, x.2.2))) as Hx by (by intros [? []]).
  rewrite <- Hx. apply default_eq. vm_compute. reflexivity.
Qed.

Lemma PurgeFiles_released_witness :
  file_data purged0.2.1 "/log/write2file0" = None ∧ ∃ n, "/log/write2file0" = "/log/" +:+ log_name n ∧
  released0 n = Some true.
Proof.
  split; [vm_compute; reflexivity|].
  destruct (PurgeFiles_released (λ _ _, None) conf_purge released0 9 9 9 0 false run0.2.1 stable0
    purged0.1 purged0.2.1 purged0.2.2 children0) as [_ H].
  - exact children0_eq.
  - exact children0_ok.
  - exact purged0_eq.
  - destruct (H "/log/write2file0") as (n & _ & Hn & Hr & _); [vm_compute; discriminate|].
    exists n. split; [exact Hn|exact Hr].
Defined.
