(* ===== verification/Coordinator.v ===== *)
(** * The consensus coordinator of a partition (src/pika_consensus.cc)

    [ConsensusCoordinator] ties the parts together: the stable log, the
    in-memory log, the applied index, the slaves and the committed index.  Its
    operations run in the monad [M Coord]; the tasks it hands to other threads
    ([InternalApply], [InternalApplyFollower], the I/O error flag of a table)
    are recorded in order in [events_].

    Section variables bound the loops that read the log: [fuel] items, [gfuel]
    files, [cfuel] records of an item. *)

From S2P Require Import Prelude Define Env Binlog BinlogReader Transverter Command SlaveNode.
From S2P Require Import Consensus StableLog.
From stdpp Require Import base list strings pretty gmap sorting.
From Stdlib Require Import ZArith Lia Init.Byte.
#[local] Open Scope string_scope.
#[local] Open Scope list_scope.
#[local] Open Scope Z_scope.

Section Coordinator.
Context {FS : Type} {E : SlashEnv FS} {C : FixedCoding} {SN : StringNum}.
Context {Cmd Conn Resp : Type} {CO : CmdOps Cmd}.
Context (conf : PikaConf) (fuel gfuel cfuel : nat).

Inductive Event :=
  | EvApply (log : LogItem Cmd Conn Resp)
  | EvApplyFollower (log : LogItem Cmd Conn Resp)
  | EvSetBinlogIoError (table : string).

Record Coord := mkCoord {
  c_fs : FS; committed_index_ : LogOffset; context_ : Context; term_ : Z;
  c_table_name_ : string; c_partition_id_ : Z; sync_pros_ : SyncProgress;
  stable_ : StableLog; mem_logger_ : MemLog Cmd Conn Resp; events_ : list Event }.

Definition set_committed (x : LogOffset) (s : Coord) : Coord :=
  mkCoord (c_fs s) x (context_ s) (term_ s) (c_table_name_ s) (c_partition_id_ s)
    (sync_pros_ s) (stable_ s) (mem_logger_ s) (events_ s).
Definition set_context (fs : FS) (x : Context) (s : Coord) : Coord :=
  mkCoord fs (committed_index_ s) x (term_ s) (c_table_name_ s) (c_partition_id_ s)
    (sync_pros_ s) (stable_ s) (mem_logger_ s) (events_ s).
Definition set_term_ (x : Z) (s : Coord) : Coord :=
  mkCoord (c_fs s) (committed_index_ s) (context_ s) x (c_table_name_ s) (c_partition_id_ s)
    (sync_pros_ s) (stable_ s) (mem_logger_ s) (events_ s).
Definition set_sync_pros (x : SyncProgress) (s : Coord) : Coord :=
  mkCoord (c_fs s) (committed_index_ s) (context_ s) (term_ s) (c_table_name_ s)
    (c_partition_id_ s) x (stable_ s) (mem_logger_ s) (events_ s).
Definition set_stable (fs : FS) (x : StableLog) (s : Coord) : Coord :=
  mkCoord fs (committed_index_ s) (context_ s) (term_ s) (c_table_name_ s)
    (c_partition_id_ s) (sync_pros_ s) x (mem_logger_ s) (events_ s).
Definition set_mem_logger (x : MemLog Cmd Conn Resp) (s : Coord) : Coord :=
  mkCoord (c_fs s) (committed_index_ s) (context_ s) (term_ s) (c_table_name_ s)
    (c_partition_id_ s) (sync_pros_ s) (stable_ s) x (events_ s).
Definition add_event (x : Event) (s : Coord) : Coord :=
  mkCoord (c_fs s) (committed_index_ s) (context_ s) (term_ s) (c_table_name_ s)
    (c_partition_id_ s) (sync_pros_ s) (stable_ s) (mem_logger_ s) (events_ s ++ [x]).

Abbreviation KM := (M Coord).

(** Operations on the parts. *)
Definition on_context {A} (m : M (FS * Context) A) : KM A :=
  zoom (λ s, (c_fs s, context_ s)) (λ t s, set_context t.1 t.2 s) m.
Definition on_stable {A} (m : M (FS * StableLog) A) : KM A :=
  zoom (λ s, (c_fs s, stable_ s)) (λ t s, set_stable t.1 t.2 s) m.
Definition on_binlog {A} (m : M (FS * Binlog) A) : KM A := on_stable (on_logger m).
Definition logger_of (s : Coord) : Binlog := stable_logger_ (stable_ s).

(** *** Reading the log *)

(** [GetBinlogOffset(start_offset, log_offset)]: the status and [*log_offset]. *)
Definition GetBinlogOffset (fs : FS) (logger : Binlog) (start_offset : BinlogOffset)
    (log_offset : LogOffset) : option (Status * LogOffset) :=
  match Seek fs logger cfuel (filenum start_offset) (offset start_offset) Reader_new with
  | None => None
  | Some (res, r) =>
      if negb (res =? 0) then Some (Corruption "Binlog reader init failed", log_offset) else
      match Get fs logger gfuel cfuel [] (0, 0) r with
      | None => None
      | Some ((s, binlog, (n, o)), _) =>
          if negb (ok s) then Some (Corruption "Binlog reader get failed", log_offset) else
          let '(good, item) := BinlogItemWithoutContentDecode TypeFirst binlog BinlogItem_new in
          if negb good then Some (Corruption "Binlog item decode failed", log_offset)
          else Some (OK, mkLogOffset (mkBinlogOffset n o)
                           (mkLogicOffset (term_id_ item) (logic_id_ item)))
      end
  end.

(** The loop of [GetBinlogOffset(start_offset, end_offset, log_offset)]. *)
Fixpoint range_loop (fs : FS) (logger : Binlog) (fuel : nat) (end_offset : BinlogOffset)
    (acc : list LogOffset) (r : PikaBinlogReader) : option (Status * list LogOffset) :=
  match fuel with
  | O => None
  | S fuel =>
      match Get fs logger gfuel cfuel [] (0, 0) r with
      | None => None
      | Some ((s, binlog, (n, o)), r) =>
          if IsEndFile s then Some (OK, acc)
          else if IsCorruption s || IsIOError s then Some (Corruption "Read Binlog error", acc)
          else
          let '(good, item) := BinlogItemWithoutContentDecode TypeFirst binlog BinlogItem_new in
          if negb good then Some (Corruption "Binlog item decode failed", acc) else
          let x := mkLogOffset (mkBinlogOffset n o)
                     (mkLogicOffset (term_id_ item) (logic_id_ item)) in
          if bo_gtb (b_offset x) end_offset then Some (OK, acc)
          else range_loop fs logger fuel end_offset (acc ++ [x]) r
      end
  end.

Definition GetBinlogOffset_range (fs : FS) (logger : Binlog)
    (start_offset end_offset : BinlogOffset) (log_offset : list LogOffset) :
    option (Status * list LogOffset) :=
  match Seek fs logger cfuel (filenum start_offset) (offset start_offset) Reader_new with
  | None => None
  | Some (res, r) =>
      if negb (res =? 0) then Some (Corruption "Binlog reader init failed", log_offset)
      else range_loop fs logger fuel end_offset log_offset r
  end.

(** The loop of [FindBinlogFileNum]: the status and [*founded_filenum]. *)
Fixpoint find_filenum (fs : FS) (logger : Binlog) (steps : nat) (lb_binlogs hb_binlogs : Z)
    (target_index : Z) (first_time_left first_time_right : bool) (num : Z) :
    option (Status * Z) :=
  match steps with
  | O => None
  | S steps =>
      match GetBinlogOffset fs logger (mkBinlogOffset num 0) LogOffset0 with
      | None => None
      | Some (s, first_offset) =>
          if negb (ok s) then Some (s, num) else
          if target_index <? index (l_offset first_offset) then
            if first_time_right then Some (OK, u32 (num - 1))
            else if (num =? 0) || (u32 (num - 1) <? lb_binlogs)
            then Some (NotFound (pretty target_index +:+ " hit low boundary"), num)
            else find_filenum fs logger steps lb_binlogs hb_binlogs target_index true
                   first_time_right (u32 (num - 1))
          else if target_index >? index (l_offset first_offset) then
            if first_time_left then Some (OK, num)
            else if u32 (num + 1) >? hb_binlogs then Some (OK, num)
            else find_filenum fs logger steps lb_binlogs hb_binlogs target_index
                   first_time_left true (u32 (num + 1))
          else Some (OK, num)
      end
  end.

(** [binlogs] is not empty.  Every file is visited at most once. *)
Definition FindBinlogFileNum (fs : FS) (logger : Binlog) (binlogs : list (Z * string))
    (target_index start_filenum : Z) : option (Status * Z) :=
  let lb_binlogs := default 0 (fst <$> head binlogs) in
  let hb_binlogs := default 0 (fst <$> last binlogs) in
  find_filenum fs logger (2 + Z.to_nat (hb_binlogs - lb_binlogs)) lb_binlogs hb_binlogs
    target_index false false start_filenum.

Definition FindLogicOffsetBySearchingBinlog (fs : FS) (l : StableLog)
    (hint_offset : BinlogOffset) (target_index : Z) (found_offset : LogOffset) :
    option (Status * LogOffset) :=
  match GetBinlogFiles fs (log_path_ l) with
  | None => Some (Corruption "Get binlog files failed", found_offset)
  | Some [] => Some (NotFound "Binlogs is empty", found_offset)
  | Some binlogs =>
      let start_offset :=
        match map_find (filenum hint_offset) binlogs with
        | None => mkBinlogOffset (default 0 (fst <$> last binlogs)) 0
        | Some _ => hint_offset
        end in
      match FindBinlogFileNum fs (stable_logger_ l) binlogs target_index
              (filenum start_offset) with
      | None => None
      | Some (s, found_filenum) =>
          if negb (ok s) then Some (s, found_offset) else
          match GetBinlogOffset_range fs (stable_logger_ l) (mkBinlogOffset found_filenum 0)
                  (mkBinlogOffset (u32 (found_filenum + 1)) 0) [] with
          | None => None
          | Some (s, offsets) =>
              if negb (ok s) then Some (s, found_offset) else
              match list_find (λ x, index (l_offset x) = target_index) offsets with
              | Some (_, x) => Some (OK, x)
              | None => Some (NotFound "Logic index not found", found_offset)
              end
          end
      end
  end.

Definition FindLogicOffset (fs : FS) (l : StableLog) (start_offset : BinlogOffset)
    (target_index : Z) (found_offset : LogOffset) : option (Status * LogOffset) :=
  match GetBinlogOffset fs (stable_logger_ l) start_offset LogOffset0 with
  | None => None
  | Some (s, possible_offset) =>
      if negb (ok s) || negb (index (l_offset possible_offset) =? target_index)
      then FindLogicOffsetBySearchingBinlog fs l start_offset target_index found_offset
      else Some (OK, possible_offset)
  end.

Definition GetLogsBefore (fs : FS) (l : StableLog) (start_offset : BinlogOffset)
    (hints : list LogOffset) : option (Status * list LogOffset) :=
  let start_num := if filenum start_offset =? 0 then 0 else filenum start_offset - 1 in
  match GetBinlogFiles fs (log_path_ l) with
  | None => Some (Corruption "Get binlog files failed", hints)
  | Some binlogs =>
      let start_num := match map_find start_num binlogs with
                       | None => filenum start_offset
                       | Some _ => start_num
                       end in
      match GetBinlogOffset_range fs (stable_logger_ l) (mkBinlogOffset start_num 0)
              start_offset [] with
      | None => None
      | Some (s, res) =>
          if negb (ok s) then Some (s, hints)
          else Some (OK, if zlen res >? 100 then zdrop (zlen res - 100) res else res)
      end
  end.

(** *** Appending *)

(** [InternalAppendBinlog]: the status and [*log_offset]. *)
Definition InternalAppendBinlog (item : BinlogItem) (c : Cmd) (log_offset : LogOffset) :
    KM (Status * LogOffset) :=
  let binlog := ToBinlog c (exec_time_ item) (term_id_ item) (logic_id_ item)
                  (filenum_ item) (offset_ item) in
  let* s := on_binlog (Put binlog) in
  if negb (ok s) then
    let table_name := if bool_decide (cmd_table_name c = "") then default_table conf
                      else cmd_table_name c in
    modify (add_event (EvSetBinlogIoError table_name)) ;;;
    ret (s, log_offset)
  else
    let* st := get in
    let '(_, (num, off, _, _)) := Binlog.GetProducerStatus (logger_of st) in
    ret (OK, mkLogOffset (mkBinlogOffset num off)
               (mkLogicOffset (term_id_ item) (logic_id_ item))).

Definition InternalAppendLog (item : BinlogItem) (c : Cmd) (conn : option Conn)
    (resp : option Resp) : KM Status :=
  let* r := InternalAppendBinlog item c LogOffset0 in
  let '(s, log_offset) := r in
  if negb (ok s) then ret s else
  if consensus_level conf =? 0 then ret OK else
  modify (λ st, set_mem_logger (AppendLog (mkLogItem log_offset c conn resp) (mem_logger_ st)) st) ;;;
  ret OK.

Definition ProposeLog (c : Cmd) (conn : option Conn) (resp : option Resp) : KM Status :=
  let* st := get in
  let '(s, (num, off, term, logic_id)) := Binlog.GetProducerStatus (logger_of st) in
  if negb (ok s) then ret s else
  let* now := on_binlog (io env_time) in
  let item := set_exec_time (u32 now) BinlogItem_new in
  let item := set_term_id term item in
  let item := set_logic_id (u64 (logic_id + 1)) item in
  let item := set_filenum num item in
  let item := set_offset off item in
  let* s := InternalAppendLog item c conn resp in
  if negb (ok s) then ret s else ret OK.

(** *** Committing *)

(** The result and [*updated_committed_index]. *)
Definition InternalUpdateCommittedIndex (slave_committed_index updated : LogOffset) :
    KM (bool * LogOffset) :=
  let* st := get in
  if lo_leb slave_committed_index (committed_index_ st) then ret (false, updated)
  else modify (set_committed slave_committed_index) ;;; ret (true, slave_committed_index).

Definition InternalApply (log : LogItem Cmd Conn Resp) : KM unit :=
  modify (add_event (EvApply log)).
Definition InternalApplyFollower (log : LogItem Cmd Conn Resp) : KM unit :=
  modify (add_event (EvApplyFollower log)).

(** The loop of [ScheduleApplyLog] and [ScheduleApplyFollowerLog]. *)
Fixpoint apply_logs (apply : LogItem Cmd Conn Resp → KM unit)
    (logs : list (LogItem Cmd Conn Resp)) : KM unit :=
  match logs with
  | [] => ret tt
  | log :: logs =>
      on_context (PrepareUpdateAppliedIndex (li_offset log)) ;;;
      apply log ;;;
      apply_logs apply logs
  end.

Definition schedule (apply : LogItem Cmd Conn Resp → KM unit) (committed_index : LogOffset) :
    KM Status :=
  let* st := get in
  let '(s, logs, m) := PurgeLogs committed_index [] (mem_logger_ st) in
  modify (set_mem_logger m) ;;;
  if negb (ok s) then
    ret (NotFound ("committed index not found " +:+ lo_ToString committed_index))
  else apply_logs apply logs ;;; ret OK.

Definition ScheduleApplyLog : LogOffset → KM Status := schedule InternalApply.
Definition ScheduleApplyFollowerLog : LogOffset → KM Status := schedule InternalApplyFollower.

Definition UpdateSlave (ip : string) (port : Z) (start end_ : LogOffset) : KM Status :=
  let* st := get in
  let '(s, committed_index, p) :=
    SyncProgress_Update conf ip port start end_ LogOffset0 (sync_pros_ st) in
  modify (set_sync_pros p) ;;;
  if negb (ok s) then ret s else
  if consensus_level conf =? 0 then ret OK else
  if negb (term (l_offset committed_index) =? term_ st) then ret OK else
  let* r := InternalUpdateCommittedIndex committed_index LogOffset0 in
  let '(need_update, updated_committed_index) := r in
  if need_update then
    let* s := ScheduleApplyLog updated_committed_index in
    if negb (ok s) && negb (IsNotFound s) then ret s else ret OK
  else ret OK.

Definition ProcessLocalUpdate (leader_commit : LogOffset) : KM Status :=
  if consensus_level conf =? 0 then ret OK else
  let* st := get in
  let last_index := last_offset_ (mem_logger_ st) in
  let committed_index := if lo_ltb last_index leader_commit then last_index else leader_commit in
  let* r := InternalUpdateCommittedIndex committed_index LogOffset0 in
  let '(need_update, updated_committed_index) := r in
  if need_update then
    let* s := ScheduleApplyFollowerLog updated_committed_index in
    if negb (ok s) then ret s else ret OK
  else ret OK.

Definition ProcessLeaderLog (c : Cmd) (attribute : BinlogItem) : KM Status :=
  let* st := get in
  let last_index := last_offset_ (mem_logger_ st) in
  if logic_id_ attribute <? index (l_offset last_index) then ret OK else
  InternalAppendLog attribute c None None ;;;
  if consensus_level conf =? 0 then
    InternalApplyFollower (mkLogItem LogOffset0 c None None) ;;; ret OK
  else ret OK.

(** *** Slaves and terms *)

Definition MatchConsensusLevel (st : Coord) : bool :=
  SlaveSize (sync_pros_ st) >=? consensus_level conf.
Definition CheckEnoughFollower (st : Coord) : Status :=
  if negb (MatchConsensusLevel st) then Incomplete "Not enough follower" else OK.

Definition Coord_AddSlaveNode (now1 now2 : Z) (ip : string) (port session_id : Z) : KM Status :=
  let* st := get in
  let '(s, p) := AddSlaveNode now1 now2 ip port (c_table_name_ st) (c_partition_id_ st)
                   session_id (sync_pros_ st) in
  modify (set_sync_pros p) ;;; ret s.
Definition Coord_RemoveSlaveNode (ip : string) (port : Z) : KM Status :=
  let* st := get in
  let '(s, p) := RemoveSlaveNode ip port (sync_pros_ st) in
  modify (set_sync_pros p) ;;; ret s.

Definition UpdateTerm (t : Z) : KM unit :=
  modify (set_term_ t) ;;; on_binlog (SetTerm t).

(** *** Start and reset *)

(** The loop of [Init]: the items after the committed one. *)
Fixpoint load_logs (fs : FS) (logger : Binlog) (table : string) (fuel : nat)
    (m : MemLog Cmd Conn Resp) (r : PikaBinlogReader) : option (MemLog Cmd Conn Resp) :=
  match fuel with
  | O => None
  | S fuel =>
      match Get fs logger gfuel cfuel [] (0, 0) r with
      | None => None
      | Some ((s, binlog, (n, o)), r) =>
          if IsEndFile s then Some m
          else if IsCorruption s || IsIOError s then None
          else
          let '(good, item) := BinlogItemWithoutContentDecode TypeFirst binlog BinlogItem_new in
          if negb good then None else
          match parse_cmd table (zdrop BINLOG_ITEM_HEADER_SIZE binlog) with
          | None => None
          | Some c =>
              load_logs fs logger table fuel
                (AppendLog (mkLogItem (mkLogOffset (mkBinlogOffset n o)
                                         (mkLogicOffset (term_id_ item) (logic_id_ item)))
                              c None None) m) r
          end
      end
  end.

Definition Coord_Init : KM unit :=
  on_context Context_Init ;;;
  modify (λ st, set_committed (applied_index_ (context_ st)) st) ;;;
  modify (λ st, set_term_ (v_term (version_ (logger_of st))) st) ;;;
  let* st := get in
  if lo_eqb (committed_index_ st) LogOffset0 then ret tt else
  modify (λ st, set_mem_logger (SetLastOffset (committed_index_ st) (mem_logger_ st)) st) ;;;
  let* st := get in
  match Seek (c_fs st) (logger_of st) cfuel (filenum (b_offset (committed_index_ st)))
          (offset (b_offset (committed_index_ st))) Reader_new with
  | None => abort
  | Some (res, r) =>
      if negb (res =? 0) then abort else
      match load_logs (c_fs st) (logger_of st) (c_table_name_ st) fuel (mem_logger_ st) r with
      | None => abort
      | Some m => modify (set_mem_logger m)
      end
  end.

(** The constructor; [term0] and [bterm0] are the uninitialised terms of the
    coordinator and of the binlog version. *)
Definition Coord_new (fs : FS) (term0 bterm0 : Z) (table_name : string) (partition_id : Z) :
    option Coord :=
  let table_log_path := log_path conf +:+ "log_" +:+ table_name +:+ "/" in
  let path := if classic_mode conf then table_log_path
              else table_log_path +:+ pretty partition_id +:+ "/" in
  match StableLog_new conf fuel gfuel cfuel bterm0 fs table_name partition_id path with
  | None => None
  | Some (fs, l) =>
      let st := mkCoord fs LogOffset0 (Context_new (path +:+ kContext)) term0 table_name
                  partition_id SyncProgress_new l MemLog_new [] in
      if negb (consensus_level conf =? 0) then snd <$> Coord_Init st else Some st
  end.

Definition Coord_Reset (o : LogOffset) : KM Status :=
  on_context (Context_Reset o) ;;;
  modify (set_committed o) ;;;
  UpdateTerm (term (l_offset o)) ;;;
  let* s := on_binlog (SetProducerStatus (filenum (b_offset o)) (offset (b_offset o))
                         (term (l_offset o)) (index (l_offset o))) in
  if negb (ok s) then ret s else
  modify (λ st, set_stable (c_fs st) (SetFirstOffset o (stable_ st)) st) ;;;
  modify (λ st, set_mem_logger (MemLog_Reset o (mem_logger_ st)) st) ;;;
  ret OK.

(** *** Negotiation *)

Definition Coord_TruncateTo (o : LogOffset) : KM Status :=
  let* st := get in
  match FindLogicOffset (c_fs st) (stable_ st) (b_offset o) (index (l_offset o)) LogOffset0 with
  | None => abort
  | Some (s, founded_offset) =>
      if negb (ok s) then ret s else
      let committed := committed_index_ st in
      let '(s, m) :=
        if index (l_offset founded_offset) =? index (l_offset committed)
        then (OK, MemLog_Reset committed (mem_logger_ st))
        else MemLog_TruncateTo founded_offset (mem_logger_ st) in
      modify (set_mem_logger m) ;;;
      if negb (ok s) then ret s else
      let* s := on_stable (StableLog_TruncateTo founded_offset) in
      if negb (ok s) then ret s else ret OK
  end.

(** [LeaderNegotiate]: the status, [*reject] and [*hints]. *)
Definition LeaderNegotiate (st : Coord) (f_last_offset : LogOffset) (hints : list LogOffset) :
    option (Status * bool * list LogOffset) :=
  let f_index := index (l_offset f_last_offset) in
  let last_offset := last_offset_ (mem_logger_ st) in
  if f_index >? index (l_offset last_offset) then
    match GetLogsBefore (c_fs st) (stable_ st) (b_offset last_offset) hints with
    | None => None
    | Some (s, hints) => Some (s, true, hints)
    end
  else if f_index <? index (l_offset (first_offset_ (stable_ st))) then
    Some (NotFound "logic index", true, hints)
  else if f_index =? 0 then Some (OK, false, hints)
  else
    match FindLogicOffset (c_fs st) (stable_ st) (b_offset f_last_offset) f_index LogOffset0 with
    | None => None
    | Some (s, found_offset) =>
        if negb (ok s) then Some (s, true, hints) else
        if negb (term (l_offset found_offset) =? term (l_offset f_last_offset))
           || negb (bo_eqb (b_offset f_last_offset) (b_offset found_offset)) then
          match GetLogsBefore (c_fs st) (stable_ st) (b_offset found_offset) hints with
          | None => None
          | Some (s, hints) => Some (s, true, hints)
          end
        else Some (OK, false, hints)
    end.

(** Truncate, and reply with the last offset then. *)
Definition truncate_reply (o reply_offset : LogOffset) : KM (Status * LogOffset) :=
  let* s := Coord_TruncateTo o in
  if negb (ok s) then ret (s, reply_offset) else
  let* st := get in
  ret (OK, last_offset_ (mem_logger_ st)).

(** The [for] loop of [FollowerNegotiate], over the hints from the last one
    down; [None] when it falls through. *)
Fixpoint negotiate_loop (committed reply_offset : LogOffset) (rev_hints : list LogOffset) :
    KM (option (Status * LogOffset)) :=
  match rev_hints with
  | [] => ret None
  | h :: rest =>
      if index (l_offset h) <? index (l_offset committed) then
        ret (Some (Corruption "hints less than committed index", reply_offset))
      else if (index (l_offset h) =? index (l_offset committed))
              && (term (l_offset h) =? term (l_offset committed)) then
        let* r := truncate_reply h reply_offset in ret (Some r)
      else
        let* st := get in
        let '(res, found_offset) := FindLogItem h LogOffset0 (mem_logger_ st) in
        if negb res then
          ret (Some (Corruption ("hints not found " +:+ lo_ToString h), reply_offset))
        else if term (l_offset found_offset) =? term (l_offset h) then
          let* r := truncate_reply found_offset reply_offset in ret (Some r)
        else negotiate_loop committed reply_offset rest
  end.

(** [FollowerNegotiate]: the status and [*reply_offset]. *)
Definition FollowerNegotiate (hints : list LogOffset) (reply_offset : LogOffset) :
    KM (Status * LogOffset) :=
  match head hints, last hints with
  | Some h0, Some hn =>
      let* st := get in
      let last_index := index (l_offset (last_offset_ (mem_logger_ st))) in
      if last_index <? index (l_offset h0) then ret (OK, last_offset_ (mem_logger_ st)) else
      if index (l_offset (committed_index_ st)) >? index (l_offset hn) then
        ret (Corruption "invalid hints all smaller than committed_index", reply_offset)
      else
      let* s := if last_index >? index (l_offset hn) then Coord_TruncateTo hn else ret OK in
      if negb (ok s) then ret (s, reply_offset) else
      let* st := get in
      let* r := negotiate_loop (committed_index_ st) reply_offset (rev hints) in
      match r with
      | Some r => ret r
      | None => truncate_reply h0 reply_offset
      end
  | _, _ => ret (Corruption "hints empty", reply_offset)
  end.
End Coordinator.
