(* ===== verification/CoordinatorFacts.v ===== *)
(** * Properties of the consensus coordinator

    Proposing keeps the stable log and the in-memory log in step, committing
    hands out the log in order and once, the committed index only grows, the
    binary search for a log index is right, and a follower is accepted only
    where its last entry is the leader's. *)

From S2P Require Import Prelude Define Env Binlog BinlogReader BinlogRoundTrip BinlogOpen.
From S2P Require Import Transverter Command SlaveNode Consensus StableLog Coordinator.
From stdpp Require Import base list strings pretty gmap sorting.
From Stdlib Require Import ZArith Lia Init.Byte.
#[local] Open Scope string_scope.
#[local] Open Scope list_scope.
#[local] Open Scope Z_scope.

Section Facts.
Context {FS : Type} {E : SlashEnv FS} {L : SlashEnvLaws FS}.
Context {C : FixedCoding} {SN : StringNum}.
Context {Cmd Conn Resp : Type} {CO : CmdOps Cmd}.
Context (conf : PikaConf) (fuel gfuel cfuel : nat).
Abbreviation Coord := (@Coord FS Cmd Conn Resp).
Implicit Types (st : Coord).

(** ** Proposing *)

(** The producer position as a log offset. *)
Definition log_end st : LogOffset :=
  let v := version_ (logger_of st) in
  mkLogOffset (mkBinlogOffset (v_pro_num v) (v_pro_offset v))
    (mkLogicOffset (v_term v) (v_logic_id v)).

(** The two logs are well formed and end at the same entry. *)
Record coord_wf st : Prop := {
  kw_stable : stable_wf (c_fs st) (stable_ st);
  kw_mem : memlog_wf (mem_logger_ st);
  kw_end : b_offset (last_offset_ (mem_logger_ st)) = b_offset (log_end st) ∧
           index (l_offset (last_offset_ (mem_logger_ st))) = v_logic_id (version_ (logger_of st));
}.

Lemma memlog_before_last (m : MemLog Cmd Conn Resp) :
  memlog_wf m → Forall (λ x, lo_le (li_offset x) (last_offset_ m) ∧
    index (l_offset (li_offset x)) ≤ index (l_offset (last_offset_ m))) (logs_ m).
Proof.
  intros [Hs Hl]. destruct (logs_ m) as [|x l] using rev_ind; [constructor|]. clear IHl.
  rewrite last_snoc in Hl. rewrite Hl. destruct (sorted_app_mid l x [] Hs) as [Hx _].
  apply Forall_app. split; [|by repeat constructor].
  eapply Forall_impl; [done|]. intros y [H1 H2]. split; [|lia].
  unfold lo_le. unfold lo_ltb in H1. unfold lo_leb. bo_solve.
Qed.

(** The item [ProposeLog] builds at time [now]. *)
Definition proposed st (now : Z) : BinlogItem :=
  let v := version_ (logger_of st) in
  mkItem (u32 now) (v_term v) (u64 (v_logic_id v + 1)) (v_pro_num v) (v_pro_offset v) [].

Definition proposed_binlog st (now : Z) (c : Cmd) : bytes :=
  let i := proposed st now in
  ToBinlog c (exec_time_ i) (term_id_ i) (logic_id_ i) (filenum_ i) (offset_ i).

Lemma stable_wf_logger fs fs' l b' :
  stable_wf fs l → binlog_wf fs' b' → filename_ b' = filename_ (stable_logger_ l) →
  versionfile_ b' = versionfile_ (stable_logger_ l) →
  stable_wf fs' (set_stable_logger b' l).
Proof.
  intros [W Hp Hn Hm] W' Hfn Hvf. split; cbn; [done|done|by rewrite Hfn|by rewrite Hvf].
Qed.

(** The run of [ProposeLog] up to the outcome of [Put]. *)
Lemma ProposeLog_run st c conn resp :
  coord_wf st → consensus_level conf ≠ 0 →
  ∀ now fs1, env_time (c_fs st) = (now, fs1) →
  ∀ s fs' b', Put (proposed_binlog st now c) (fs1, logger_of st) = Some (s, (fs', b')) →
  s = OK → opened_ b' = true →
   ProposeLog conf c conn resp st = Some (OK,
     set_mem_logger (AppendLog (mkLogItem
        (mkLogOffset (mkBinlogOffset (v_pro_num (version_ b')) (v_pro_offset (version_ b')))
           (mkLogicOffset (v_term (version_ (logger_of st)))
              (u64 (v_logic_id (version_ (logger_of st)) + 1)))) c conn resp) (mem_logger_ st))
       (set_stable fs' (set_stable_logger b' (stable_ st)) st)).
Proof.
  intros W Hlev now fs1 Ht s fs' b' Hput -> Hop.
  unfold ProposeLog, bind at 1, get. cbn beta iota.
  assert (opened_ (logger_of st) = true) as Hopen by apply (sw_binlog _ _ (kw_stable _ W)).
  unfold GetProducerStatus at 1. rewrite Hopen.
  cbn [negb ok]. unfold bind at 1, on_binlog, on_stable, on_logger, zoom, io. cbn. rewrite Ht. cbn.
  unfold InternalAppendLog, InternalAppendBinlog, bind, on_binlog, on_stable, on_logger, zoom. cbn.
  change (stable_logger_ (set_stable_logger (logger_of st) (stable_ st))) with (logger_of st).
  unfold proposed_binlog, proposed in Hput. cbn in Hput. unfold logger_of in *. rewrite Hput.
  cbn. unfold get, ret, modify. cbn. unfold GetProducerStatus, logger_of. cbn. rewrite Hop. cbn.
  rewrite (proj2 (Z.eqb_neq _ _)) by done. cbn. done.
Qed.


(** ** Committing *)

(** The state [st'] differs from [st] only in the applied window, the in-memory
    log and the events. *)
Definition same_core st st' : Prop :=
  c_fs st' = c_fs st ∧ committed_index_ st' = committed_index_ st ∧ term_ st' = term_ st ∧
  sync_pros_ st' = sync_pros_ st ∧ stable_ st' = stable_ st ∧
  applied_index_ (context_ st') = applied_index_ (context_ st).

#[export] Instance same_core_preorder : PreOrder same_core.
Proof.
  split; [by intros st; split_and!|]. unfold same_core. intros a b c H1 H2.
  destruct_and!. split_and!; congruence.
Qed.

Definition win_item (x : LogItem Cmd Conn Resp) : SyncWinItem := SyncWinItem_new (li_offset x) 0.

Lemma apply_logs_spec (mk : LogItem Cmd Conn Resp → Event) logs : ∀ st,
  ∃ st', apply_logs (λ log, modify (add_event (mk log))) logs st = Some (tt, st') ∧
    events_ st' = events_ st ++ (mk <$> logs) ∧
    win_ (applied_win_ (context_ st')) =
      win_ (applied_win_ (context_ st)) ++ (win_item <$> logs) ∧
    mem_logger_ st' = mem_logger_ st ∧ same_core st st'.
Proof.
  induction logs as [|x logs IH]; intros st; cbn [apply_logs].
  - exists st. cbn. rewrite !app_nil_r. split_and!; try done.
  - unfold bind at 1 2, on_context, zoom, PrepareUpdateAppliedIndex, cmod, modify. cbn.
    match goal with |- context [apply_logs _ logs ?s1] => destruct (IH s1) as (st' & Ha & He & Hw & Hm & Hc) end.
    cbn in He, Hw, Hm. rewrite <- app_assoc in He, Hw.
    exists st'. split_and!; [exact Ha|done|done|done|]. etrans; [|exact Hc]. by split_and!.
Qed.

Lemma schedule_spec (mk : LogItem Cmd Conn Resp → Event) o st :
  ∃ s st', schedule (λ log, modify (add_event (mk log))) o st = Some (s, st') ∧ same_core st st' ∧
    (memlog_wf (mem_logger_ st) →
     (∀ a x b, logs_ (mem_logger_ st) = a ++ x :: b → lo_equiv (li_offset x) o →
       s = OK ∧ events_ st' = events_ st ++ (mk <$> a ++ [x]) ∧
       logs_ (mem_logger_ st') = b ∧ memlog_wf (mem_logger_ st') ∧
       win_ (applied_win_ (context_ st')) =
         win_ (applied_win_ (context_ st)) ++ (win_item <$> a ++ [x])) ∧
     (Forall (λ x, ¬ lo_equiv (li_offset x) o) (logs_ (mem_logger_ st)) →
       IsNotFound s = true ∧ events_ st' = events_ st ∧ mem_logger_ st' = mem_logger_ st)).
Proof.
  pose proof (apply_logs_spec mk) as Hrun.
  set (apply := λ log : LogItem Cmd Conn Resp, modify (add_event (mk log))) in *.
  unfold schedule, bind at 1, get. cbn beta iota.
  destruct (PurgeLogs o [] (mem_logger_ st)) as [[s logs] m] eqn:Hp.
  unfold bind at 1, modify. cbn beta iota. destruct (ok s) eqn:Eo; cbn [negb].
  - apply ok_true in Eo as ->. unfold bind at 1.
    destruct (Hrun logs (set_mem_logger m st)) as (st' & Ha & He & Hw & Hm & Hc).
    rewrite Ha. cbn in He, Hw, Hm. eexists _, st'. split_and!; [done| |].
    { etrans; [|exact Hc]. by split_and!. }
    intros W. destruct (PurgeLogs_cases o [] (mem_logger_ st) W) as [H1 H2]. split.
    + intros a x b Hl Hx. destruct (H1 a x b Hl Hx) as [Hpl Hwf]. rewrite Hpl in Hp.
      injection Hp as <- <-. rewrite Hm. split_and!; done.
    + intros Hn. rewrite (H2 Hn) in Hp. done.
  - eexists _, _. split_and!; [done|by split_and!|].
    intros W. destruct (PurgeLogs_cases o [] (mem_logger_ st) W) as [H1 H2]. split.
    + intros a x b Hl Hx. destruct (H1 a x b Hl Hx) as [Hpl _]. rewrite Hpl in Hp.
      by injection Hp as <- _ _.
    + intros Hn. rewrite (H2 Hn) in Hp. injection Hp as <- <- <-. done.
Qed.

(** Committing hands out the log in order, each entry once: for a committed
    index at the position of an entry, [ScheduleApplyLog] hands the entries up to
    it, in log order, to the workers, opens them in the applied window in the same
    order, and keeps exactly the later ones; for an index that is not in the log it
    reports [NotFound] and changes nothing. *)
Theorem ScheduleApplyLog_in_order o st :
  memlog_wf (mem_logger_ st) →
  ∃ s st', ScheduleApplyLog o st = Some (s, st') ∧ same_core st st' ∧
    (∀ a x b, logs_ (mem_logger_ st) = a ++ x :: b → lo_equiv (li_offset x) o →
       s = OK ∧ events_ st' = events_ st ++ (EvApply <$> a ++ [x]) ∧
       logs_ (mem_logger_ st') = b ∧ memlog_wf (mem_logger_ st') ∧
       win_ (applied_win_ (context_ st')) =
         win_ (applied_win_ (context_ st)) ++ (win_item <$> a ++ [x])) ∧
    (Forall (λ x, ¬ lo_equiv (li_offset x) o) (logs_ (mem_logger_ st)) →
       IsNotFound s = true ∧ events_ st' = events_ st ∧ mem_logger_ st' = mem_logger_ st).
Proof.
  intros W. destruct (schedule_spec EvApply o st) as (s & st' & H & Hc & Hs).
  destruct (Hs W). exists s, st'. done.
Qed.

Lemma update_committed o u st :
  InternalUpdateCommittedIndex o u st =
    if lo_leb o (committed_index_ st) then Some ((false, u), st)
    else Some ((true, o), set_committed o st).
Proof. unfold InternalUpdateCommittedIndex, bind, get, modify, ret. by destruct (lo_leb _ _). Qed.

Lemma lo_leb_false a b : lo_leb a b = false → lo_ltb b a = true.
Proof. bo_solve. Qed.


(** ** Searching the log *)

Section Search.
Context (fs : FS) (logger : Binlog) (lb hb target : Z) (firsts : Z → Z).
(** The files [lb] to [hb] are there and not empty; [firsts] are the indices of
    their first items, which increase. *)
Context (Hread : ∀ n, lb ≤ n ≤ hb → ∃ o,
  GetBinlogOffset gfuel cfuel fs logger (mkBinlogOffset n 0) LogOffset0 = Some (OK, o) ∧
  index (l_offset o) = firsts n).
Context (Hinc : ∀ n m, lb ≤ n < m → m ≤ hb → firsts n < firsts m).
Context (Hlb : 0 ≤ lb) (Hhb : hb + 1 < 2 ^ 32).

Definition found_file (r : option (Status * Z)) : Prop :=
  ∃ s n, r = Some (s, n) ∧ (target < firsts lb → IsNotFound s = true) ∧
    (firsts lb ≤ target → s = OK ∧ lb ≤ n ≤ hb ∧ firsts n ≤ target ∧
       (n < hb → target < firsts (n + 1))).

Lemma firsts_le n : lb ≤ n ≤ hb → firsts lb ≤ firsts n.
Proof. intros Hn. destruct (decide (n = lb)) as [->|]; [lia|]. apply Z.lt_le_incl, Hinc; lia. Qed.

Lemma find_left steps : ∀ num, lb ≤ num < hb → target < firsts (num + 1) →
  (Z.to_nat (num - lb) < steps)%nat →
  found_file (find_filenum gfuel cfuel fs logger steps lb hb target true false num).
Proof.
  induction steps as [|steps IH]; intros num Hn Ht Hs; [lia|]. cbn [find_filenum].
  destruct (Hread num ltac:(lia)) as (o & -> & Ho). cbn [ok negb]. rewrite Ho, Z.gtb_ltb.
  pose proof (firsts_le num ltac:(lia)).
  destruct (Z.ltb_spec target (firsts num)) as [Hlt|Hge].
  - destruct (decide (num = lb)) as [->|Hne].
    + assert ((lb =? 0) || (u32 (lb - 1) <? lb) = true) as ->.
      { destruct (Z.eqb_spec lb 0); [done|]. cbn. rewrite u32_small by lia. lia. }
      eexists _, _. split_and!; [done|done|lia].
    + assert ((num =? 0) || (u32 (num - 1) <? lb) = false) as ->.
      { rewrite u32_small by lia. lia. }
      rewrite u32_small by lia. apply IH; [lia| |lia]. by replace (num - 1 + 1) with num by lia.
  - assert (found_file (Some (OK, num))) as Hf.
    { exists OK, num. split_and!; [done|lia|]. intros _. split_and!; try done; lia. }
    by destruct (firsts num <? target).
Qed.

Lemma find_right steps : ∀ num, lb < num ≤ hb → firsts (num - 1) < target →
  (Z.to_nat (hb - num) < steps)%nat →
  found_file (find_filenum gfuel cfuel fs logger steps lb hb target false true num).
Proof.
  induction steps as [|steps IH]; intros num Hn Ht Hs; [lia|]. cbn [find_filenum].
  destruct (Hread num ltac:(lia)) as (o & -> & Ho). cbn [ok negb]. rewrite Ho, !Z.gtb_ltb.
  pose proof (firsts_le (num - 1) ltac:(lia)).
  destruct (Z.ltb_spec target (firsts num)) as [Hlt|Hge].
  - rewrite u32_small by lia. eexists _, _. split_and!; [done|lia|]. intros _.
    split_and!; try done; try lia. intros _. by replace (num - 1 + 1) with num by lia.
  - assert (found_file (Some (OK, num)) ∨ firsts num < target ∧ num < hb) as [Hf|[Hgt Hn']].
    { destruct (decide (firsts num = target)) as [He|]; [left|destruct (decide (num = hb)) as [->|]; [left|right; lia]].
      - exists OK, num. split_and!; [done|lia|]. intros _. split_and!; try done; try lia.
        intros. rewrite <- He. apply Hinc; lia.
      - exists OK, hb. split_and!; [done|lia|]. intros _. split_and!; try done; lia. }
    + destruct (Z.ltb_spec (firsts num) target); [|done].
      rewrite u32_small by lia. destruct (Z.ltb_spec hb (num + 1)); [done|].
      apply IH; [lia| |lia]. by replace (num + 1 - 1) with num by lia.
    + rewrite (proj2 (Z.ltb_lt _ _) Hgt), u32_small by lia.
      destruct (Z.ltb_spec hb (num + 1)); [lia|].
      apply IH; [lia| |lia]. by replace (num + 1 - 1) with num by lia.
Qed.

Lemma find_file binlogs start :
  fst <$> head binlogs = Some lb → fst <$> last binlogs = Some hb → lb ≤ start ≤ hb →
  found_file (FindBinlogFileNum gfuel cfuel fs logger binlogs target start).
Proof.
  intros H1 H2 Hst. unfold FindBinlogFileNum. rewrite H1, H2. cbn [default from_option id].
  cbn [Nat.add]. remember (S (Z.to_nat (hb - lb))) as k eqn:Hk. cbn [find_filenum].
  destruct (Hread start ltac:(lia)) as (o & Hg & Ho). rewrite Hg. cbn [ok negb].
  rewrite Ho, !Z.gtb_ltb. pose proof (firsts_le start ltac:(lia)).
  destruct (Z.ltb_spec target (firsts start)) as [Hlt|Hge].
  - destruct (decide (start = lb)) as [->|Hne].
    + assert ((lb =? 0) || (u32 (lb - 1) <? lb) = true) as ->.
      { destruct (Z.eqb_spec lb 0); [done|]. cbn. rewrite u32_small by lia. lia. }
      eexists _, _. split_and!; [done|done|lia].
    + assert ((start =? 0) || (u32 (start - 1) <? lb) = false) as ->.
      { rewrite u32_small by lia. lia. }
      rewrite u32_small by lia. apply find_left; [lia| |lia].
      by replace (start - 1 + 1) with start by lia.
  - assert (target = firsts start ∨ start = hb → found_file (Some (OK, start))) as Hf.
    { intros Hc. exists OK, start. split_and!; [done|lia|]. intros _.
      split_and!; try done; try lia. intros Hn. destruct Hc as [Hc|]; [rewrite Hc; apply Hinc; lia|lia]. }
    destruct (Z.ltb_spec (firsts start) target); [|apply Hf; left; lia].
    rewrite u32_small by lia. destruct (Z.ltb_spec hb (start + 1)); [apply Hf; right; lia|].
    apply find_right; [lia| |lia]. by replace (start + 1 - 1) with start by lia.
Qed.
End Search.

(** The search for the file of a log index ends and is right: in a run of
    readable files whose first indices increase, from any of them, within as many
    steps as there are files, [FindBinlogFileNum] returns the last file whose first
    index is not after the target, and [NotFound] when the target is before all of
    them. *)
Theorem FindBinlogFileNum_spec fs logger lb hb target firsts binlogs start :
  (∀ n, lb ≤ n ≤ hb → ∃ o,
     GetBinlogOffset gfuel cfuel fs logger (mkBinlogOffset n 0) LogOffset0 = Some (OK, o) ∧
     index (l_offset o) = firsts n) →
  (∀ n m, lb ≤ n < m → m ≤ hb → firsts n < firsts m) →
  0 ≤ lb → hb + 1 < 2 ^ 32 →
  fst <$> head binlogs = Some lb → fst <$> last binlogs = Some hb → lb ≤ start ≤ hb →
  ∃ s n, FindBinlogFileNum gfuel cfuel fs logger binlogs target start = Some (s, n) ∧
    (target < firsts lb → IsNotFound s = true) ∧
    (firsts lb ≤ target → s = OK ∧ lb ≤ n ≤ hb ∧ firsts n ≤ target ∧
       (n < hb → target < firsts (n + 1))).
Proof. intros Hread Hinc Hlb Hhb H1 H2 Hst. by apply find_file. Qed.

(** ** Negotiation *)

(** [x] is an entry that can be read from the log. *)
Definition log_entry (fs : FS) (logger : Binlog) (x : LogOffset) : Prop :=
  (∃ start, GetBinlogOffset gfuel cfuel fs logger start LogOffset0 = Some (OK, x)) ∨
  (∃ start end_ l, GetBinlogOffset_range fuel gfuel cfuel fs logger start end_ [] = Some (OK, l) ∧ x ∈ l).

Lemma FindLogicOffset_sound fs l start target o s x :
  FindLogicOffset fuel gfuel cfuel fs l start target o = Some (s, x) → s = OK →
  log_entry fs (stable_logger_ l) x ∧ index (l_offset x) = target.
Proof.
  unfold FindLogicOffset. intros H ->.
  destruct (GetBinlogOffset gfuel cfuel fs (stable_logger_ l) start LogOffset0) as [[s y]|] eqn:Hg; [|done].
  destruct (negb (ok s) || negb (index (l_offset y) =? target)) eqn:Hc.
  - unfold FindLogicOffsetBySearchingBinlog in H.
    destruct (GetBinlogFiles fs (log_path_ l)) as [[|[n v] bs]|]; try done.
    destruct (FindBinlogFileNum _ _ _ _ _ _ _) as [[s1 num]|]; [|done].
    destruct (negb (ok s1)) eqn:Hs1; [injection H as -> _; done|].
    destruct (GetBinlogOffset_range _ _ _ _ _ _ _ _) as [[s2 offs]|] eqn:Hr; [|done].
    destruct (ok s2) eqn:Hs2; cbn [negb] in H; [|injection H as -> _; done].
    apply ok_true in Hs2 as ->.
    destruct (list_find _ offs) as [[i z]|] eqn:Hf; [|done]. injection H as ->.
    apply list_find_Some in Hf as (Hi & Hx & _). split; [right|done].
    eexists _, _, offs. split; [exact Hr|]. by eapply list_elem_of_lookup_2.
  - apply orb_false_iff in Hc as [Hs Hi]. apply negb_false_iff, ok_true in Hs as ->.
    injection H as ->. split; [left; eauto|]. by apply negb_false_iff, Z.eqb_eq in Hi.
Qed.

Lemma GetLogsBefore_sound fs l start hints s hints' :
  GetLogsBefore fuel gfuel cfuel fs l start hints = Some (s, hints') → s = OK →
  zlen hints' ≤ 100 ∧ Forall (log_entry fs (stable_logger_ l)) hints'.
Proof.
  unfold GetLogsBefore. intros H ->. destruct (GetBinlogFiles _ _) as [bs|]; [|done].
  destruct (GetBinlogOffset_range _ _ _ _ _ _ _ _) as [[s res]|] eqn:Hr; [|done].
  destruct (ok s) eqn:Hs; cbn [negb] in H; [|injection H as -> _; done].
  apply ok_true in Hs as ->. injection H as <-.
  assert (Forall (log_entry fs (stable_logger_ l)) res) as Hall.
  { apply Forall_forall. intros x Hx. right. eauto. }
  rewrite Z.gtb_ltb. destruct (Z.ltb_spec 100 (zlen res)); [|by split; [lia|]]. split.
  - rewrite zlen_zdrop; lia.
  - by apply Forall_drop.
Qed.

(** A follower is accepted only where it agrees with the leader: if
    [LeaderNegotiate] does not reject, it returns [OK] and the follower's last
    offset is empty (index 0) or is, with its file, position, term and index, an
    entry of the leader's log between its first and its last index.  If it rejects
    with hints, these are at most 100 entries of the log. *)
Theorem LeaderNegotiate_sound st f hints s reject hints' :
  LeaderNegotiate fuel gfuel cfuel st f hints = Some (s, reject, hints') →
  (reject = false → s = OK ∧
     index (l_offset (first_offset_ (stable_ st))) ≤ index (l_offset f)
       ≤ index (l_offset (last_offset_ (mem_logger_ st))) ∧
     (index (l_offset f) = 0 ∨ log_entry (c_fs st) (logger_of st) f)) ∧
  (reject = true → s = OK →
     zlen hints' ≤ 100 ∧ Forall (log_entry (c_fs st) (logger_of st)) hints').
Proof.
  unfold LeaderNegotiate. intros H. rewrite Z.gtb_ltb in H.
  destruct (Z.ltb_spec (index (l_offset (last_offset_ (mem_logger_ st)))) (index (l_offset f))).
  { destruct (GetLogsBefore _ _ _ _ _ _ _) as [[s1 h]|] eqn:Hl; [|done]. injection H as <- <- <-.
    split; [done|]. intros _. by eapply GetLogsBefore_sound. }
  destruct (Z.ltb_spec (index (l_offset f)) (index (l_offset (first_offset_ (stable_ st))))).
  { injection H as <- <- <-. by split. }
  destruct (Z.eqb_spec (index (l_offset f)) 0).
  { injection H as <- <- <-. split; [|done]. intros _. split_and!; [done|lia|lia|by left]. }
  destruct (FindLogicOffset _ _ _ _ _ _ _ _) as [[s1 x]|] eqn:Hf; [|done].
  destruct (ok s1) eqn:Hs1; cbn [negb] in H.
  2:{ injection H as <- <- <-. split; [done|]. by intros _ ->. }
  apply ok_true in Hs1 as ->. apply FindLogicOffset_sound in Hf as [Hx Hi]; [|done].
  destruct (negb (term (l_offset x) =? term (l_offset f))
    || negb (bo_eqb (b_offset f) (b_offset x))) eqn:Hc.
  - destruct (GetLogsBefore _ _ _ _ _ _ _) as [[s1 h]|] eqn:Hl; [|done]. injection H as <- <- <-.
    split; [done|]. intros _. by eapply GetLogsBefore_sound.
  - injection H as <- <- <-. split; [|done]. intros _. split_and!; [done|lia|lia|right].
    apply orb_false_iff in Hc as [Ht Hb]. apply negb_false_iff, Z.eqb_eq in Ht.
    apply negb_false_iff, bo_eqb_eq in Hb. replace f with x; [exact Hx|].
    destruct x as [xb [xt xi]], f as [fb [ft fi]]. cbn in *. congruence.
Qed.
End Facts.
