(* ===== verification/WriteQueue.v ===== *)
(** * The write queues of the replica manager (src/pika_rm.cc)

    Binlog records on their way to slaves wait in one queue per host and
    partition.  [ProduceWriteQueue] appends; [ConsumeWriteQueue] takes batches
    off the front of every queue and sends them; [DropItemInWriteQueue] forgets
    a host.  An unordered map is traversed in the order of [map_to_list]; no
    theorem depends on that order.  [slash::ParseIpPortString] is an argument,
    and so is the sending of a batch, which the replication server does
    ([PikaReplServer::SendSlaveBinlogChips]). *)

From S2P Require Import Prelude Define.
From stdpp Require Import base list strings pretty gmap.
From Stdlib Require Import ZArith Lia Init.Byte.
#[local] Open Scope string_scope.
#[local] Open Scope list_scope.
#[local] Open Scope Z_scope.

Definition kBinlogSendPacketNum : nat := 40.
Definition kBinlogSendBatchNum : Z := 100.

(** [map<ip:port, map<partition_id, queue<WriteTask>>>]. *)
Abbreviation WriteQueues := (gmap string (gmap Z (list WriteTask))).

Definition queue_index (ip : string) (port : Z) : string := ip +:+ ":" +:+ pretty port.

Definition push_task (index : string) (partition_id : Z) (q : WriteQueues) (t : WriteTask) :
    WriteQueues :=
  let p_map := default ∅ (q !! index) in
  <[index := <[partition_id := default [] (p_map !! partition_id) ++ [t]]> p_map]> q.

Definition ProduceWriteQueue (ip : string) (port : Z) (partition_id : Z)
    (tasks : list WriteTask) (q : WriteQueues) : WriteQueues :=
  foldl (push_task (queue_index ip port) partition_id) q tasks.

Definition DropItemInWriteQueue (ip : string) (port : Z) (q : WriteQueues) : WriteQueues :=
  delete (queue_index ip port) q.

Definition task_size (t : WriteTask) : Z := zlen (binlog_ (binlog_chip_ t)).

(** The innermost loop: at most [n] tasks, not more than
    [PIKA_MAX_CONN_RBUF_HB] bytes; [batch_size] is an [int].  The batch and the
    queue. *)
Fixpoint take_batch (n : nat) (batch_size : Z) (queue : list WriteTask) :
    list WriteTask * list WriteTask :=
  match n, queue with
  | S n, task :: queue' =>
      let batch_size := s32 (batch_size + task_size task) in
      if batch_size >? PIKA_MAX_CONN_RBUF_HB then ([], queue)
      else let '(to_send, queue) := take_batch n batch_size queue' in
           (task :: to_send, queue)
  | _, _ => ([], queue)
  end.

(** The loop over the packets of one queue. *)
Fixpoint take_batches (packets : nat) (queue : list WriteTask) :
    list (list WriteTask) * list WriteTask :=
  match packets with
  | O => ([], queue)
  | S packets =>
      match queue with
      | [] => ([], queue)
      | _ =>
          let batch_index :=
            if zlen queue >? kBinlogSendBatchNum then kBinlogSendBatchNum else zlen queue in
          let '(to_send, queue) := take_batch (Z.to_nat batch_index) 0 queue in
          let '(batches, queue) := take_batches packets queue in
          (match to_send with [] => batches | _ => to_send :: batches end, queue)
      end
  end.

Definition queue_batches (queue : list WriteTask) : list (list WriteTask) :=
  (take_batches kBinlogSendPacketNum queue).1.
Definition queue_rest (queue : list WriteTask) : list WriteTask :=
  (take_batches kBinlogSendPacketNum queue).2.

(** [to_send_map]: the batches per host, the queues of a host one after another. *)
Definition to_send (q : WriteQueues) : gmap string (list (list WriteTask)) :=
  omap (M := gmap string)
    (λ p_map, match concat (queue_batches <$> (map_to_list p_map).*2) with
              | [] => None
              | batches => Some batches
              end) q.

Definition after_take (q : WriteQueues) : WriteQueues :=
  fmap (M := gmap string) (fmap (M := gmap Z) queue_rest) q.

Section Consume.
Context (ParseIpPortString : string → option (string * Z)).
(** [SendSlaveBinlogChips] on the state of the network. *)
Context {Net : Type} (SendSlaveBinlogChips : string → Z → list WriteTask → Net → Status * Net).

(** The inner sending loop; the flag: a send failed. *)
Fixpoint send_batches (ip : string) (port : Z) (batches : list (list WriteTask)) (net : Net) :
    bool * Net :=
  match batches with
  | [] => (false, net)
  | b :: batches =>
      let '(s, net) := SendSlaveBinlogChips ip port b net in
      let '(failed, net) := send_batches ip port batches net in
      (negb (ok s) || failed, net)
  end.

(** The outer sending loop: the hosts to delete. *)
Fixpoint send_hosts (hosts : list (string * list (list WriteTask))) (net : Net) :
    list string * Net :=
  match hosts with
  | [] => ([], net)
  | (ip_port, batches) :: hosts =>
      match ParseIpPortString ip_port with
      | None => send_hosts hosts net
      | Some (ip, port) =>
          let '(failed, net) := send_batches ip port batches net in
          let '(to_delete, net) := send_hosts hosts net in
          (if failed then ip_port :: to_delete else to_delete, net)
      end
  end.

(** [ConsumeWriteQueue]: the number of tasks taken, the queues and the network. *)
Definition ConsumeWriteQueue (q : WriteQueues) (net : Net) : Z * WriteQueues * Net :=
  let m := to_send q in
  let counter := s32 (zlen (concat (concat (map_to_list m).*2))) in
  let '(to_delete, net) := send_hosts (map_to_list m) net in
  (counter, foldr delete (after_take q) to_delete, net).
End Consume.

(** ** Facts about batches *)

Definition batch_bytes (b : list WriteTask) : Z := foldr (λ t n, task_size t + n) 0 b.

(** Sizes that do not overflow the [int] of a batch. *)
Definition small_task (t : WriteTask) : Prop := task_size t < 2 ^ 31 - 2 ^ 29.

Lemma task_size_nonneg t : 0 ≤ task_size t.
Proof. apply zlen_nonneg. Qed.

Lemma take_batch_app n : ∀ size l, (take_batch n size l).1 ++ (take_batch n size l).2 = l.
Proof.
  induction n as [|n IH]; intros size [|t l]; cbn [take_batch]; try done.
  destruct (_ >? _); [done|]. specialize (IH (s32 (size + task_size t)) l).
  destruct (take_batch n _ l) as [b r]. cbn in *. by rewrite IH.
Qed.

Lemma take_batch_bounds n : ∀ size l, 0 ≤ size ≤ 2 ^ 29 → Forall small_task l →
  (length (take_batch n size l).1 ≤ n)%nat ∧ size + batch_bytes (take_batch n size l).1 ≤ 2 ^ 29.
Proof.
  induction n as [|n IH]; intros size [|t l] Hs Hl; cbn [take_batch]; try (cbn; lia).
  apply Forall_cons in Hl as [Ht Hl]. unfold small_task in Ht.
  pose proof (task_size_nonneg t). rewrite s32_small by lia.
  change PIKA_MAX_CONN_RBUF_HB with (2 ^ 29). rewrite Z.gtb_ltb.
  destruct (Z.ltb_spec (2 ^ 29) (size + task_size t)); [cbn; lia|].
  destruct (IH (size + task_size t) l ltac:(lia) Hl) as [Hn Hb].
  destruct (take_batch n _ l) as [b r]. cbn in *. lia.
Qed.

Lemma take_batch_head n size t l :
  0 ≤ size → 0 < n → size + task_size t ≤ 2 ^ 29 → (take_batch (Z.to_nat n) size (t :: l)).1 ≠ [].
Proof.
  intros Hs Hn Ht. destruct (Z.to_nat n) as [|k] eqn:E; [lia|]. cbn [take_batch].
  pose proof (task_size_nonneg t). rewrite s32_small by lia.
  change PIKA_MAX_CONN_RBUF_HB with (2 ^ 29). rewrite Z.gtb_ltb.
  destruct (Z.ltb_spec (2 ^ 29) (size + task_size t)); [lia|]. by destruct (take_batch k _ l).
Qed.

Lemma take_batch_stuck n t l :
  2 ^ 29 < task_size t < 2 ^ 31 → take_batch n 0 (t :: l) = ([], t :: l).
Proof.
  intros Ht. destruct n as [|n]; [done|]. cbn [take_batch]. rewrite s32_small by lia.
  change PIKA_MAX_CONN_RBUF_HB with (2 ^ 29). rewrite Z.gtb_ltb.
  destruct (Z.ltb_spec (2 ^ 29) (0 + task_size t)); [done|lia].
Qed.

Definition batch_limit (l : list WriteTask) : Z :=
  if zlen l >? kBinlogSendBatchNum then kBinlogSendBatchNum else zlen l.

Lemma batch_limit_range t l : 0 < batch_limit (t :: l) ≤ 100.
Proof.
  unfold batch_limit, kBinlogSendBatchNum. rewrite zlen_cons, Z.gtb_ltb.
  pose proof (zlen_nonneg l). destruct (Z.ltb_spec 100 (1 + zlen l)); lia.
Qed.

Lemma take_batches_app k : ∀ l, concat (take_batches k l).1 ++ (take_batches k l).2 = l.
Proof.
  induction k as [|k IH]; intros [|t l]; cbn [take_batches]; try done.
  fold (batch_limit (t :: l)).
  pose proof (take_batch_app (Z.to_nat (batch_limit (t :: l))) 0 (t :: l)) as H.
  destruct (take_batch _ 0 (t :: l)) as [b r]. cbn [fst snd] in H. specialize (IH r).
  destruct (take_batches k r) as [bs r']. cbn [fst snd] in IH |- *.
  destruct b as [|x b]; cbn [concat fst]; [by rewrite IH|]. by rewrite <- app_assoc, IH.
Qed.

Definition batch_ok (b : list WriteTask) : Prop :=
  b ≠ [] ∧ zlen b ≤ kBinlogSendBatchNum ∧ batch_bytes b ≤ PIKA_MAX_CONN_RBUF_HB.

Lemma take_batches_ok k : ∀ l, Forall small_task l →
  Forall batch_ok (take_batches k l).1 ∧ (length (take_batches k l).1 ≤ k)%nat.
Proof.
  induction k as [|k IH]; intros [|t l] Hl; cbn [take_batches]; try (split; [constructor|cbn; lia]).
  fold (batch_limit (t :: l)). pose proof (batch_limit_range t l) as Hr.
  pose proof (take_batch_app (Z.to_nat (batch_limit (t :: l))) 0 (t :: l)) as H.
  destruct (take_batch_bounds (Z.to_nat (batch_limit (t :: l))) 0 (t :: l) ltac:(lia) Hl) as [H1 H2].
  destruct (take_batch _ 0 (t :: l)) as [b r]. cbn [fst snd] in *.
  assert (Forall small_task r) as Hsr by (rewrite <- H in Hl; by apply Forall_app in Hl as [_ ?]).
  destruct (IH r Hsr) as [Hok Hn].
  destruct (take_batches k r) as [bs r']. cbn [fst snd] in *.
  destruct b as [|x b]; cbn [fst]; [split; [done|lia]|].
  split; [|cbn; lia]. constructor; [|done]. split; [done|].
  unfold kBinlogSendBatchNum, zlen. change PIKA_MAX_CONN_RBUF_HB with (2 ^ 29). lia.
Qed.

Lemma take_batches_head k t l :
  task_size t ≤ 2 ^ 29 → (take_batches (S k) (t :: l)).1 ≠ [].
Proof.
  intros Ht. cbn [take_batches]. fold (batch_limit (t :: l)).
  pose proof (batch_limit_range t l) as Hr.
  pose proof (take_batch_head (batch_limit (t :: l)) 0 t l ltac:(lia) ltac:(lia) Ht) as Hh.
  destruct (take_batch _ 0 (t :: l)) as [[|x b] r]; cbn [fst] in Hh; [by destruct Hh|].
  by destruct (take_batches k r).
Qed.

Lemma queue_rest_shrinks l :
  Forall (λ t, task_size t ≤ PIKA_MAX_CONN_RBUF_HB) l → l ≠ [] →
  (length (queue_rest l) < length l)%nat.
Proof.
  change PIKA_MAX_CONN_RBUF_HB with (2 ^ 29). intros Hl Hne. destruct l as [|t l]; [done|].
  pose proof (take_batches_app kBinlogSendPacketNum (t :: l)) as Happ.
  fold (queue_batches (t :: l)) (queue_rest (t :: l)) in Happ.
  pose proof (take_batches_head 39 t l (Forall_inv Hl)) as Hb.
  fold kBinlogSendPacketNum in Hb. fold (queue_batches (t :: l)) in Hb.
  assert (Forall batch_ok (queue_batches (t :: l))) as Hok.
  { apply take_batches_ok. eapply Forall_impl; [exact Hl|]. intros x Hx. unfold small_task. cbn in *. lia. }
  destruct (queue_batches (t :: l)) as [|b bs]; [done|]. apply Forall_cons in Hok as [(Hb0 & _) _].
  destruct b as [|x b]; [done|]. rewrite <- Happ at 2. cbn [concat app]. rewrite length_cons, !length_app. lia.
Qed.

Lemma queue_drains n : ∀ l,
  Forall (λ t, task_size t ≤ PIKA_MAX_CONN_RBUF_HB) l → (length l ≤ n)%nat →
  Nat.iter n queue_rest l = [].
Proof.
  induction n as [|n IH]; intros l Hl Hn; [destruct l; [done|cbn in Hn; lia]|].
  rewrite Nat.iter_succ_r. destruct (decide (l = [])) as [->|Hne].
  - apply IH; [constructor|cbn; lia].
  - pose proof (queue_rest_shrinks l Hl Hne). apply IH; [|lia].
    rewrite <- (take_batches_app kBinlogSendPacketNum l) in Hl.
    by apply Forall_app in Hl as [_ ?].
Qed.

Lemma take_batch_blocked n t b : 2 ^ 29 < task_size t → small_task t → ∀ size a,
  0 ≤ size ≤ 2 ^ 29 → Forall small_task a → ∃ a', (take_batch n size (a ++ t :: b)).2 = a' ++ t :: b ∧
  Forall small_task a'.
Proof.
  unfold small_task. intros Ht Ht'. induction n as [|n IH]; intros size a Hs Ha.
  { exists a. by destruct a. }
  destruct a as [|x a]; cbn [app take_batch].
  - rewrite s32_small by lia. change PIKA_MAX_CONN_RBUF_HB with (2 ^ 29). rewrite Z.gtb_ltb.
    destruct (Z.ltb_spec (2 ^ 29) (size + task_size t)); [|lia]. by exists [].
  - apply Forall_cons in Ha as [Hx Ha]. pose proof (task_size_nonneg x).
    rewrite s32_small by lia. change PIKA_MAX_CONN_RBUF_HB with (2 ^ 29). rewrite Z.gtb_ltb.
    destruct (Z.ltb_spec (2 ^ 29) (size + task_size x)).
    + exists (x :: a). split; [done|]. by constructor.
    + destruct (IH (size + task_size x) a ltac:(lia) Ha) as (a' & He & Ha').
      exists a'. split; [|done]. by destruct (take_batch n _ _).
Qed.

Lemma take_batches_blocked k t b : 2 ^ 29 < task_size t → small_task t → ∀ a,
  Forall small_task a → ∃ a', (take_batches k (a ++ t :: b)).2 = a' ++ t :: b ∧ Forall small_task a'.
Proof.
  intros Ht Ht'. induction k as [|k IH]; intros a Ha; cbn [take_batches]; [by exists a|].
  destruct (a ++ t :: b) as [|y l] eqn:E; [by destruct a|]. rewrite <- E. clear y l E.
  set (n := Z.to_nat _).
  destruct (take_batch_blocked n t b Ht Ht' 0 a ltac:(lia) Ha) as (a1 & H1 & Ha1).
  destruct (take_batch n 0 (a ++ t :: b)) as [x r]. cbn in H1. subst r.
  destruct (IH a1 Ha1) as (a2 & H2 & Ha2). exists a2. split; [|done].
  by destruct (take_batches k _).
Qed.

Lemma queue_blocked a t b n :
  2 ^ 29 < task_size t → small_task t → Forall small_task a →
  ∃ a', Nat.iter n queue_rest (a ++ t :: b) = a' ++ t :: b.
Proof.
  intros Ht Ht' Ha. assert (∃ a', Nat.iter n queue_rest (a ++ t :: b) = a' ++ t :: b ∧
    Forall small_task a') as (a' & H & _); [|by exists a'].
  induction n as [|n (a' & IH & Ha')]; [by exists a|]. rewrite Nat.iter_succ, IH.
  by apply take_batches_blocked.
Qed.

(** A queue that is not refilled drains exactly if no record in it is larger
    than the buffer limit: if none is, it is empty after at most as many rounds as
    it has tasks; if one is, then it and everything behind it are never taken,
    however many rounds are run. *)
Theorem write_queue_drains l :
  Forall small_task l →
  (Forall (λ t, task_size t ≤ PIKA_MAX_CONN_RBUF_HB) l → Nat.iter (length l) queue_rest l = []) ∧
  (∀ a t b n, l = a ++ t :: b → PIKA_MAX_CONN_RBUF_HB < task_size t →
     ∃ a', Nat.iter n queue_rest l = a' ++ t :: b).
Proof.
  intros Hs. split; [intros Hl; by apply queue_drains|]. intros a t b n -> Ht.
  apply Forall_app in Hs as [Ha Hs]. apply Forall_cons in Hs as [Hst _]. by apply queue_blocked.
Qed.

(** ** Facts about a round *)

Section Round.
Context (parse : string → option (string * Z)) (up : string → Z → bool).
Context (Hinj : ∀ h h' x, parse h = Some x → parse h' = Some x → h = h').

(** A network that keeps what is sent to it, with hosts that are up or down. *)
Definition record_send (ip : string) (port : Z) (b : list WriteTask)
    (sent : list (string * Z * list WriteTask)) : Status * list (string * Z * list WriteTask) :=
  (if up ip port then OK else Corruption "write", sent ++ [((ip, port), b)]).

Definition sent_to (x : string * Z) (sent : list (string * Z * list WriteTask)) :
    list (list WriteTask) := (filter (λ e, e.1 = x) sent).*2.

Lemma sent_to_app x a b : sent_to x (a ++ b) = sent_to x a ++ sent_to x b.
Proof. unfold sent_to. by rewrite filter_app, fmap_app. Qed.

Lemma send_batches_spec x ip port bs : ∀ sent,
  sent_to x (send_batches record_send ip port bs sent).2 =
    sent_to x sent ++ (if decide ((ip, port) = x) then bs else []) ∧
  (send_batches record_send ip port bs sent).1 =
    match bs with [] => false | _ => negb (up ip port) end.
Proof.
  induction bs as [|b bs IH]; intros sent; cbn [send_batches].
  - cbn. by destruct (decide _); rewrite app_nil_r.
  - assert (record_send ip port b sent = (if up ip port then OK else Corruption "write",
      sent ++ [((ip, port), b)])) as -> by done.
    destruct (IH (sent ++ [((ip, port), b)])) as [H1 H2].
    destruct (send_batches record_send ip port bs _) as [failed sent']. cbn [fst snd] in *.
    rewrite sent_to_app in H1. split.
    + rewrite H1, <- app_assoc. f_equal. unfold sent_to. rewrite filter_cons. cbn [fst].
      destruct (decide ((ip, port) = x)); [done|]. by rewrite filter_nil.
    + rewrite H2. destruct (up ip port); [by destruct bs|done].
Qed.

Lemma send_hosts_spec h ip port hosts : parse h = Some (ip, port) → ∀ sent,
  sent_to (ip, port) (send_hosts parse record_send hosts sent).2 =
    sent_to (ip, port) sent ++ concat (filter (λ e, e.1 = h) hosts).*2 ∧
  (h ∈ (send_hosts parse record_send hosts sent).1 ↔
    up ip port = false ∧ Exists (λ e, e.1 = h ∧ e.2 ≠ []) hosts).
Proof.
  intros Hh. induction hosts as [|[k bs] hosts IH]; intros sent; cbn [send_hosts].
  - cbn. rewrite app_nil_r. split; [done|]. rewrite elem_of_nil, Exists_nil. tauto.
  - rewrite filter_cons, Exists_cons. cbn [fst snd].
    destruct (parse k) as [[ip' port']|] eqn:Hk.
    + destruct (send_batches_spec (ip, port) ip' port' bs sent) as [H1 H2].
      destruct (send_batches _ ip' port' bs sent) as [failed sent1]. cbn [fst snd] in *.
      destruct (IH sent1) as [H3 H4].
      destruct (send_hosts _ _ hosts sent1) as [del sent2]. cbn [fst snd] in *.
      rewrite H3, H1, <- app_assoc. destruct (decide ((ip', port') = (ip, port))) as [Heq|Hne].
      * injection Heq as -> ->. assert (k = h) as -> by (by eapply Hinj). rewrite decide_True by done.
        split; [done|]. rewrite H2. destruct (up ip port); cbn [negb].
        -- destruct bs; rewrite H4; naive_solver.
        -- destruct bs as [|b bs]; [rewrite H4; naive_solver|]. rewrite elem_of_cons. naive_solver.
      * assert (k ≠ h) as Hkh by (intros ->; congruence). rewrite decide_False by done.
        split; [done|]. destruct failed; rewrite ?elem_of_cons, H4; naive_solver.
    + assert (k ≠ h) as Hkh by (intros ->; congruence). rewrite decide_False by done.
      destruct (IH sent) as [H3 H4]. split; [done|]. rewrite H4. naive_solver.
Qed.
End Round.

Lemma filter_key {A} (h : string) (x : A) (l : list (string * A)) :
  NoDup l.*1 → (h, x) ∈ l → filter (λ e, e.1 = h) l = [(h, x)].
Proof.
  intros Hn Hin. apply list_elem_of_split in Hin as (a & b & ->).
  rewrite fmap_app in Hn. cbn in Hn. apply NoDup_app in Hn as (_ & Ha & Hb).
  apply NoDup_cons in Hb as [Hb _].
  assert (∀ c : list (string * A), h ∉ c.*1 → filter (λ e, e.1 = h) c = []) as Hnil.
  { intros c Hc. induction c as [|[k y] c IHc]; [done|]. cbn in Hc. apply not_elem_of_cons in Hc as [Hk Hc].
    rewrite filter_cons_False by (cbn; congruence). by apply IHc. }
  rewrite filter_app, Hnil, filter_cons_True, Hnil; [done|done|done|].
  intros Hc. apply (Ha h Hc). by left.
Qed.

Lemma filter_no_key {A} (h : string) (l : list (string * A)) :
  h ∉ l.*1 → filter (λ e, e.1 = h) l = [].
Proof.
  intros Hc. induction l as [|[k y] c IHc]; [done|]. cbn in Hc. apply not_elem_of_cons in Hc as [Hk Hc].
  rewrite filter_cons_False by (cbn; congruence). by apply IHc.
Qed.

Lemma foldr_delete_lookup {A} (m : gmap string A) (l : list string) h :
  foldr delete m l !! h = if decide (h ∈ l) then None else m !! h.
Proof.
  induction l as [|k l IH]; [done|]. cbn [foldr]. destruct (decide (k = h)) as [->|Hne].
  - rewrite lookup_delete_eq. destruct (decide (h ∈ h :: l)) as [|Hn]; [done|]. destruct Hn. by left.
  - rewrite lookup_delete_ne, IH by done. apply decide_ext. rewrite elem_of_cons. split; [by right|].
    intros [Heq|Hin]; [by destruct Hne|done].
Qed.

(** The batches a round takes off the queues of a host. *)
Definition host_batches (p_map : gmap Z (list WriteTask)) : list (list WriteTask) :=
  concat (queue_batches <$> (map_to_list p_map).*2).

Lemma to_send_lookup q h :
  to_send q !! h = match host_batches <$> q !! h with Some (b :: bs) => Some (b :: bs) | _ => None end.
Proof.
  unfold to_send. rewrite lookup_omap. destruct (q !! h) as [m|]; [|done]. cbn.
  unfold host_batches. by destruct (concat _).
Qed.

(** A round of the write queues neither loses, duplicates nor reorders: for
    every host what is sent to it is, queue by queue, a prefix of the queue cut
    into batches of at most 100 tasks and the buffer limit in bytes, at most 40 of
    them; what stays queued is the rest, unless a send to the host failed, which
    drops the host's queues. *)
Theorem ConsumeWriteQueue_in_order parse up q c q' sent h ip port p_map :
  (∀ h h' x, parse h = Some x → parse h' = Some x → h = h') →
  parse h = Some (ip, port) → q !! h = Some p_map →
  ConsumeWriteQueue parse (record_send up) q [] = (c, q', sent) →
  sent_to (ip, port) sent = host_batches p_map ∧
  (q' !! h = if decide (up ip port = false ∧ host_batches p_map ≠ []) then None
             else Some (queue_rest <$> p_map)) ∧
  ∀ p queue, p_map !! p = Some queue →
    concat (queue_batches queue) ++ queue_rest queue = queue ∧
    (Forall small_task queue →
     Forall batch_ok (queue_batches queue) ∧ (length (queue_batches queue) ≤ kBinlogSendPacketNum)%nat).
Proof.
  intros Hinj Hh Hq H. unfold ConsumeWriteQueue in H.
  destruct (send_hosts_spec parse up Hinj h ip port (map_to_list (to_send q)) Hh []) as [H1 H2].
  destruct (send_hosts _ _ _ []) as [del net]. cbn [fst snd] in *. injection H as _ <- <-.
  pose proof (to_send_lookup q h) as Hl. rewrite Hq in Hl. cbn in Hl.
  assert ((map_to_list (to_send q)).*1 = (map_to_list (to_send q)).*1) as _ by done.
  pose proof (NoDup_fst_map_to_list (to_send q)) as Hnd.
  split_and!.
  - rewrite H1. cbn. destruct (host_batches p_map) as [|b bs] eqn:Hb.
    + rewrite filter_no_key; [done|]. intros Hc. apply list_elem_of_fmap in Hc as ([k y] & -> & Hc).
      apply elem_of_map_to_list in Hc. cbn in Hl. congruence.
    + apply elem_of_map_to_list in Hl. rewrite (filter_key h (b :: bs)) by done. cbn. by rewrite app_nil_r.
  - rewrite foldr_delete_lookup. unfold after_take. rewrite lookup_fmap, Hq. cbn.
    apply decide_ext. rewrite H2, Exists_exists. split.
    + intros (Hu & [k y] & Hin & Hk & Hy). cbn in Hk, Hy. subst k. split; [done|].
      apply elem_of_map_to_list in Hin. rewrite Hin in Hl. intros Hn. by rewrite Hn in Hl.
    + intros (Hu & Hn). split; [done|]. destruct (host_batches p_map) as [|b bs]; [done|].
      exists (h, b :: bs). split; [by apply elem_of_map_to_list|done].
  - intros p queue _. split; [apply take_batches_app|]. intros Hs. by apply take_batches_ok.
Qed.

(** ** Examples *)

Definition task (n : Z) (c : byte) : WriteTask :=
  mkWriteTask RmNode0 (mkBinlogChip LogOffset0 (zrep n c)) LogOffset0.

Lemma task_size_task n c : 0 ≤ n → task_size (task n c) = n.
Proof. apply zlen_zrep. Qed.

Lemma write_queue_drains_witness :
  Nat.iter 2 queue_rest [task 3 "a"; task 5 "b"] = [] ∧
  ∃ a', Nat.iter 7 queue_rest ([task 1 "a"] ++ task (2 ^ 30) "b" :: [task 2 "c"]) =
    a' ++ task (2 ^ 30) "b" :: [task 2 "c"].
Proof.
  split.
  - apply (write_queue_drains [task 3 "a"; task 5 "b"]);
      repeat (apply Forall_cons; split; [vm_compute; (reflexivity || discriminate)|]); constructor.
  - apply (write_queue_drains ([task 1 "a"] ++ task (2 ^ 30) "b" :: [task 2 "c"])) with (a := [task 1 "a"]).
    + repeat (apply Forall_cons; split; [unfold small_task; rewrite task_size_task; lia|]). constructor.
    + reflexivity.
    + rewrite task_size_task by lia. reflexivity.
Defined.

Definition queues0 : WriteQueues :=
  ProduceWriteQueue "10.0.0.1" 9221 0 [task 3 "a"; task 5 "b"]
    (ProduceWriteQueue "10.0.0.2" 9221 0 [task 1 "c"] ∅).
Definition parse0 (s : string) : option (string * Z) :=
  if bool_decide (s = "10.0.0.1:9221") then Some ("10.0.0.1", 9221)
  else if bool_decide (s = "10.0.0.2:9221") then Some ("10.0.0.2", 9221) else None.
Definition round0 : Z * WriteQueues * list (string * Z * list WriteTask) :=
  ConsumeWriteQueue parse0 (record_send (λ _ _, true)) queues0 [].

Lemma ConsumeWriteQueue_in_order_witness :
  sent_to ("10.0.0.1", 9221) round0.2 = [[task 3 "a"; task 5 "b"]] ∧
  round0.1.2 !! "10.0.0.1:9221" = Some {[ 0 := [] ]}.
Proof.
  destruct (ConsumeWriteQueue_in_order parse0 (λ _ _, true) queues0 round0.1.1 round0.1.2 round0.2
    "10.0.0.1:9221" "10.0.0.1" 9221 {[ 0 := [task 3 "a"; task 5 "b"] ]}) as (H1 & H2 & _).
  - intros h h' x. unfold parse0. repeat case_bool_decide; intros; congruence.
  - vm_compute. reflexivity.
  - vm_compute. reflexivity.
  - rewrite <- !surjective_pairing. reflexivity.
  - split; [rewrite H1; vm_compute; reflexivity|]. rewrite H2. vm_compute. reflexivity.
Defined.
