(* ===== verification/MasterPartition.v ===== *)
(** * The master side of a partition (src/pika_rm.cc: SyncPartition, SyncMasterPartition)

    A master partition owns the consensus coordinator and feeds the slaves: it
    reads the binlog through each slave's reader into the slave's sync window
    and write queue, answers acknowledgements, checks timeouts, and decides
    which binlog files the slaves still need.

    The slave nodes are shared objects: an operation that changes a node puts
    it back in the map of [SyncProgress].  The readings of the clock are
    arguments; sending a batch acts on the state [Net] of the network. *)

From S2P Require Import Prelude Define Env Binlog BinlogReader Transverter Command SlaveNode.
From S2P Require Import Consensus StableLog Coordinator WriteQueue.
From stdpp Require Import base list strings pretty gmap sorting.
From Stdlib Require Import ZArith Lia Init.Byte.
#[local] Open Scope string_scope.
#[local] Open Scope list_scope.
#[local] Open Scope Z_scope.

(** In microseconds. *)
Definition kSendKeepAliveTimeout : Z := 2 * 1000000.
Definition kRecvKeepAliveTimeout : Z := 20 * 1000000.

(** [SyncPartition::PartitionName]. *)
Definition PartitionName (conf : PikaConf) (p : PartitionInfo) : string :=
  if classic_mode conf then table_name_ p else pi_ToString p.

Section MasterPartition.
Context {FS : Type} {E : SlashEnv FS} {C : FixedCoding} {SN : StringNum}.
Context {Cmd Conn Resp : Type} {CO : CmdOps Cmd}.
Context (conf : PikaConf) (fuel gfuel cfuel : nat).
Abbreviation Coord := (@Coord FS Cmd Conn Resp).

Record SyncMasterPartition := mkMaster {
  mp_info_ : PartitionInfo; mp_session_id_ : Z; coordinator_ : Coord }.

Definition SyncMasterPartition_new (fs : FS) (term0 bterm0 : Z) (table_name : string)
    (partition_id : Z) : option SyncMasterPartition :=
  mkMaster (mkPartitionInfo table_name partition_id) 0
    <$> Coord_new conf fuel gfuel cfuel fs term0 bterm0 table_name partition_id.

Definition set_coordinator (c : Coord) (mp : SyncMasterPartition) : SyncMasterPartition :=
  mkMaster (mp_info_ mp) (mp_session_id_ mp) c.

(** Run a coordinator operation. *)
Definition on_coord {A} (m : M Coord A) : M SyncMasterPartition A :=
  zoom coordinator_ set_coordinator m.

Definition mp_slaves (mp : SyncMasterPartition) : gmap string SlaveNode :=
  GetAllSlaveNodes (sync_pros_ (coordinator_ mp)).
Definition mp_GetSlaveNode (ip : string) (port : Z) (mp : SyncMasterPartition) :
    option SlaveNode :=
  GetSlaveNode ip port (sync_pros_ (coordinator_ mp)).
Definition mp_logger (mp : SyncMasterPartition) : Binlog := logger_of (coordinator_ mp).
Definition mp_fs (mp : SyncMasterPartition) : FS := c_fs (coordinator_ mp).

(** The changed node at its key. *)
Definition put_slave (key : string) (n : SlaveNode) (mp : SyncMasterPartition) :
    SyncMasterPartition :=
  let p := sync_pros_ (coordinator_ mp) in
  set_coordinator (set_sync_pros (mkProgress (<[key := n]> (slaves_ p)) (match_index_ p))
                     (coordinator_ mp)) mp.

Definition GetNumberOfSlaveNode (mp : SyncMasterPartition) : Z :=
  SlaveSize (sync_pros_ (coordinator_ mp)).
Definition CheckSlaveNodeExist (ip : string) (port : Z) (mp : SyncMasterPartition) : bool :=
  match mp_GetSlaveNode ip port mp with Some _ => true | None => false end.

Definition slave_not_found (ip : string) (port : Z) : Status :=
  NotFound ("ip " +:+ ip +:+ " port " +:+ pretty port).

(** The status and [*session]. *)
Definition GetSlaveNodeSession (ip : string) (port session : Z) (mp : SyncMasterPartition) :
    Status * Z :=
  match mp_GetSlaveNode ip port mp with
  | None => (NotFound ("slave " +:+ ip +:+ ":" +:+ pretty port +:+ " not found"), session)
  | Some n => (OK, session_id_ (rm n))
  end.

Definition mp_AddSlaveNode (now1 now2 : Z) (ip : string) (port session_id : Z) :
    M SyncMasterPartition Status :=
  let* s := on_coord (Coord_AddSlaveNode now1 now2 ip port session_id) in
  if negb (ok s) then ret s else ret OK.
Definition mp_RemoveSlaveNode (ip : string) (port : Z) : M SyncMasterPartition Status :=
  let* s := on_coord (Coord_RemoveSlaveNode ip port) in
  if negb (ok s) then ret s else ret OK.

(** *** Feeding a slave *)

(** The task for the item [msg] of [n] at [o]. *)
Definition slave_task (n : SlaveNode) (o : LogOffset) (msg : bytes) : WriteTask :=
  mkWriteTask (RmNode_new (ip_ (rm n)) (port_ (rm n)) (table_name_ (partition_info_ (rm n)))
                 (partition_id_ (partition_info_ (rm n))) (session_id_ (rm n)))
    (mkBinlogChip o msg) (sent_offset n).

(** The effect on the node of sending [msg] at [o]. *)
Definition sent_node (now : Z) (n : SlaveNode) (o : LogOffset) (msg : bytes) : SlaveNode :=
  let n := set_sync_win (Push (mkWinItem o (zlen msg) false) (sync_win n)) n in
  let n := set_rm (rm_SetLastSendTime now (rm n)) n in
  set_sent_offset o n.

(** The loop of [ReadBinlogFileToWq], with the clock at each turn: the status
    it returns early with, the tasks and the node. *)
Fixpoint read_loop (fs : FS) (logger : Binlog) (clock : nat → Z) (cnt : nat)
    (tasks : list WriteTask) (n : SlaveNode) : option (option Status * list WriteTask * SlaveNode) :=
  match cnt, binlog_reader n with
  | O, _ | _, None => Some (None, tasks, n)
  | S cnt, Some reader =>
      if GetTotalBinlogSize (sync_win n) >? PIKA_MAX_CONN_RBUF_HB * 2 then Some (None, tasks, n)
      else
      match Get fs logger gfuel cfuel [] (0, 0) reader with
      | None => None
      | Some ((s, msg, (num, off)), reader) =>
          let n := set_binlog_reader (Some reader) n in
          if IsEndFile s then Some (None, tasks, n)
          else if IsCorruption s || IsIOError s then Some (Some s, tasks, n)
          else
          let '(good, item) := BinlogItemWithoutContentDecode TypeFirst msg BinlogItem_new in
          if negb good then Some (Some (Corruption "Binlog item decode failed"), tasks, n) else
          let o := mkLogOffset (mkBinlogOffset num off)
                     (mkLogicOffset (term_id_ item) (logic_id_ item)) in
          read_loop fs logger clock cnt (tasks ++ [slave_task n o msg])
            (sent_node (clock (length tasks)) n o msg)
      end
  end.

Definition ReadBinlogFileToWq (clock : nat → Z) (mp : SyncMasterPartition) (q : WriteQueues)
    (n : SlaveNode) : option (Status * WriteQueues * SlaveNode) :=
  match binlog_reader n with
  | None => Some (OK, q, n)
  | Some _ =>
      match read_loop (mp_fs mp) (mp_logger mp) clock (Z.to_nat (Remaining conf (sync_win n))) [] n with
      | None => None
      | Some (Some s, _, n) => Some (s, q, n)
      | Some (None, tasks, n) =>
          Some (OK, match tasks with
                    | [] => q
                    | _ => ProduceWriteQueue (ip_ (rm n)) (port_ (rm n))
                             (partition_id_ (mp_info_ mp)) tasks q
                    end, n)
      end
  end.

Definition SyncBinlogToWq (clock : nat → Z) (ip : string) (port : Z) (mp : SyncMasterPartition)
    (q : WriteQueues) : option (Status * WriteQueues * SyncMasterPartition) :=
  match mp_GetSlaveNode ip port mp with
  | None => Some (slave_not_found ip port, q, mp)
  | Some n =>
      match ReadBinlogFileToWq clock mp q n with
      | None => None
      | Some (s, q, n) => Some (s, q, put_slave (slave_key ip port) n mp)
      end
  end.

(** The error text leaves out what [ToString] of the inner status appends. *)
Definition ActivateSlaveBinlogSync (clock : nat → Z) (ip : string) (port : Z) (offset : LogOffset)
    (mp : SyncMasterPartition) (q : WriteQueues) :
    option (Status * WriteQueues * SyncMasterPartition) :=
  match mp_GetSlaveNode ip port mp with
  | None => Some (slave_not_found ip port, q, mp)
  | Some n =>
      let n := set_slave_state kSlaveBinlogSync n in
      let n := set_sent_offset offset n in
      let n := set_acked_offset offset n in
      match InitBinlogFileReader (mp_fs mp) cfuel (mp_logger mp) (b_offset offset) n with
      | None => None
      | Some (s, n) =>
          let key := slave_key ip port in
          if negb (ok s)
          then Some (Corruption "Init binlog file reader failed", q, put_slave key n mp)
          else SyncBinlogToWq clock ip port (put_slave key (set_b_state kReadFromFile n) mp) q
      end
  end.

Definition ActivateSlaveDbSync (ip : string) (port : Z) (mp : SyncMasterPartition) :
    Status * SyncMasterPartition :=
  match mp_GetSlaveNode ip port mp with
  | None => (slave_not_found ip port, mp)
  | Some n => (OK, put_slave (slave_key ip port) (set_slave_state kSlaveDbSync n) mp)
  end.

(** The loop of [WakeUpSlaveBinlogSync]: the queues, the partition and the
    nodes to delete. *)
Fixpoint wake_loop (clock : nat → Z) (slaves : list (string * SlaveNode)) (q : WriteQueues)
    (mp : SyncMasterPartition) (to_del : list SlaveNode) :
    option (WriteQueues * SyncMasterPartition * list SlaveNode) :=
  match slaves with
  | [] => Some (q, mp, to_del)
  | (key, n) :: slaves =>
      if lo_eqb (sent_offset n) (acked_offset n) then
        match ReadBinlogFileToWq clock mp q n with
        | None => None
        | Some (s, q, n) =>
            wake_loop clock slaves q (put_slave key n mp)
              (if negb (ok s) then to_del ++ [n] else to_del)
        end
      else wake_loop clock slaves q mp to_del
  end.

Fixpoint remove_slaves (nodes : list (string * Z)) : M SyncMasterPartition unit :=
  match nodes with
  | [] => ret tt
  | (ip, port) :: nodes => mp_RemoveSlaveNode ip port ;;; remove_slaves nodes
  end.

Definition WakeUpSlaveBinlogSync (clock : nat → Z) (mp : SyncMasterPartition) (q : WriteQueues) :
    option (Status * WriteQueues * SyncMasterPartition) :=
  match wake_loop clock (map_to_list (mp_slaves mp)) q mp [] with
  | None => None
  | Some (q, mp, to_del) =>
      match remove_slaves ((λ n, (ip_ (rm n), port_ (rm n))) <$> to_del) mp with
      | None => None
      | Some (_, mp) => Some (OK, q, mp)
      end
  end.

(** *** Reports on a slave *)

Definition GetSlaveSyncBinlogInfo (ip : string) (port : Z) (sent acked : BinlogOffset)
    (mp : SyncMasterPartition) : Status * (BinlogOffset * BinlogOffset) :=
  match mp_GetSlaveNode ip port mp with
  | None => (slave_not_found ip port, (sent, acked))
  | Some n => (OK, (b_offset (sent_offset n), b_offset (acked_offset n)))
  end.

Definition GetSlaveState (ip : string) (port : Z) (state : SlaveState)
    (mp : SyncMasterPartition) : Status * SlaveState :=
  match mp_GetSlaveNode ip port mp with
  | None => (slave_not_found ip port, state)
  | Some n => (OK, slave_state n)
  end.

Definition SetLastSendTime (ip : string) (port time : Z) (mp : SyncMasterPartition) :
    Status * SyncMasterPartition :=
  match mp_GetSlaveNode ip port mp with
  | None => (slave_not_found ip port, mp)
  | Some n => (OK, put_slave (slave_key ip port) (set_rm (rm_SetLastSendTime time (rm n)) n) mp)
  end.
Definition GetLastSendTime (ip : string) (port time : Z) (mp : SyncMasterPartition) : Status * Z :=
  match mp_GetSlaveNode ip port mp with
  | None => (slave_not_found ip port, time)
  | Some n => (OK, last_send_time_ (rm n))
  end.
Definition SetLastRecvTime (ip : string) (port time : Z) (mp : SyncMasterPartition) :
    Status * SyncMasterPartition :=
  match mp_GetSlaveNode ip port mp with
  | None => (slave_not_found ip port, mp)
  | Some n => (OK, put_slave (slave_key ip port) (set_rm (rm_SetLastRecvTime time (rm n)) n) mp)
  end.
Definition GetLastRecvTime (ip : string) (port time : Z) (mp : SyncMasterPartition) : Status * Z :=
  match mp_GetSlaveNode ip port mp with
  | None => (slave_not_found ip port, time)
  | Some n => (OK, last_recv_time_ (rm n))
  end.

(** *** Which binlog files the slaves need *)

(** The loop of [GetSafetyPurgeBinlog]: [success] and [purge_max]. *)
Fixpoint safety_loop (slaves : list SlaveNode) (purge_max : Z) : bool * Z :=
  match slaves with
  | [] => (true, purge_max)
  | n :: slaves =>
      if bool_decide (slave_state n = kSlaveBinlogSync)
         && (filenum (b_offset (acked_offset n)) >? 0)
      then safety_loop slaves (Z.min (u32 (filenum (b_offset (acked_offset n)) - 1)) purge_max)
      else (false, purge_max)
  end.

(** The status and [*safety_purge]. *)
Definition GetSafetyPurgeBinlog (safety_purge : string) (mp : SyncMasterPartition) :
    Status * string :=
  let '(s, (num, _, _, _)) := Binlog.GetProducerStatus (mp_logger mp) in
  if negb (ok s) then (s, safety_purge) else
  let '(success, purge_max) :=
    if num >=? 10 then safety_loop (map_to_list (mp_slaves mp)).*2 (num - 10) else (false, num) in
  (OK, if success then kBinlogPrefix +:+ pretty (s32 purge_max) else "none").

(** The loop of [BinlogCloudPurge]. *)
Fixpoint cloud_loop (index : Z) (slaves : list SlaveNode) : bool :=
  match slaves with
  | [] => true
  | n :: slaves =>
      if bool_decide (slave_state n = kSlaveDbSync) then false
      else if bool_decide (slave_state n = kSlaveBinlogSync)
              && (index >=? filenum (b_offset (acked_offset n))) then false
      else cloud_loop index slaves
  end.

Definition BinlogCloudPurge (index : Z) (mp : SyncMasterPartition) : bool :=
  let '(s, (num, _, _, _)) := Binlog.GetProducerStatus (mp_logger mp) in
  if negb (ok s) then false
  else if index >? u32 (num - 10) then false
  else cloud_loop index (map_to_list (mp_slaves mp)).*2.

(** *** Timeouts *)

Section Timeouts.
Context {Net : Type} (SendSlaveBinlogChips : string → Z → list WriteTask → Net → Status * Net).

(** An empty task, the ping. *)
Definition ping_task (n : SlaveNode) : WriteTask :=
  mkWriteTask (RmNode_new (ip_ (rm n)) (port_ (rm n)) (table_name_ (partition_info_ (rm n)))
                 (partition_id_ (partition_info_ (rm n))) (session_id_ (rm n)))
    (mkBinlogChip LogOffset0 []) LogOffset0.

(** The first loop of [CheckSyncTimeout]: the status it returns early with, the
    partition, the network and the nodes to delete. *)
Fixpoint timeout_loop (now : Z) (slaves : list (string * SlaveNode)) (mp : SyncMasterPartition)
    (net : Net) (to_del : list (string * Z)) :
    option Status * SyncMasterPartition * Net * list (string * Z) :=
  match slaves with
  | [] => (None, mp, net, to_del)
  | (key, n) :: slaves =>
      if u64 (last_recv_time_ (rm n) + kRecvKeepAliveTimeout) <? now then
        timeout_loop now slaves mp net (to_del ++ [(ip_ (rm n), port_ (rm n))])
      else if (u64 (last_send_time_ (rm n) + kSendKeepAliveTimeout) <? now)
              && lo_eqb (sent_offset n) (acked_offset n) then
        let '(s, net) := SendSlaveBinlogChips (ip_ (rm n)) (port_ (rm n)) [ping_task n] net in
        let mp := put_slave key (set_rm (rm_SetLastSendTime now (rm n)) n) mp in
        if negb (ok s) then
          (Some (Corruption ("Send ping failed: " +:+ ip_ (rm n) +:+ ":" +:+ pretty (port_ (rm n)))),
           mp, net, to_del)
        else timeout_loop now slaves mp net to_del
      else timeout_loop now slaves mp net to_del
  end.

(** The second loop. *)
Fixpoint drop_slaves (nodes : list (string * Z)) (mp : SyncMasterPartition) (q : WriteQueues) :
    SyncMasterPartition * WriteQueues :=
  match nodes with
  | [] => (mp, q)
  | (ip, port) :: nodes =>
      let p := (RemoveSlaveNode ip port (sync_pros_ (coordinator_ mp))).2 in
      drop_slaves nodes (set_coordinator (set_sync_pros p (coordinator_ mp)) mp)
        (DropItemInWriteQueue ip port q)
  end.

Definition mp_CheckSyncTimeout (now : Z) (mp : SyncMasterPartition) (q : WriteQueues) (net : Net) :
    Status * SyncMasterPartition * WriteQueues * Net :=
  match timeout_loop now (map_to_list (mp_slaves mp)) mp net [] with
  | (Some s, mp, net, _) => (s, mp, q, net)
  | (None, mp, net, to_del) =>
      let '(mp, q) := drop_slaves to_del mp q in (OK, mp, q, net)
  end.
End Timeouts.

Definition GetValidSlaveNames (mp : SyncMasterPartition) : list string :=
  (λ n, ip_ (rm n) +:+ ":" +:+ pretty (port_ (rm n)))
    <$> filter (λ n, slave_state n = kSlaveBinlogSync) (map_to_list (mp_slaves mp)).*2.

Definition SlaveStateMsg (s : SlaveState) : string :=
  match s with
  | kSlaveNotSync => "SlaveNotSync" | kSlaveDbSync => "SlaveDbSync"
  | kSlaveBinlogSync => "SlaveBinlogSync"
  end.

Definition crlf : string :=
  String (Ascii.ascii_of_nat 13) (String (Ascii.ascii_of_nat 10) EmptyString).

(** The lag of [GetInfo]: the file numbers are [uint32_t] and the file size an
    [int], so their product is a [uint32_t]; the offsets are [uint64_t]. *)
Definition slave_lag (num off : Z) (n : SlaveNode) : Z :=
  u64 (u32 (u32 (num - filenum (b_offset (acked_offset n))) * u32 (binlog_file_size conf))
       + u64 (off - offset (b_offset (acked_offset n)))).

(** The loop of [GetInfo]: the status and the text. *)
Fixpoint info_loop (i : Z) (slaves : list SlaveNode) (mp : SyncMasterPartition) (text : string) :
    Status * string :=
  match slaves with
  | [] => (OK, text)
  | n :: slaves =>
      let text := text +:+ "  slave[" +:+ pretty i +:+ "]: " +:+ ip_ (rm n) +:+ ":"
                  +:+ pretty (port_ (rm n)) +:+ crlf
                  +:+ "  replication_status: " +:+ SlaveStateMsg (slave_state n) +:+ crlf in
      if bool_decide (slave_state n = kSlaveBinlogSync) then
        let '(s, (num, off, _, _)) := Binlog.GetProducerStatus (mp_logger mp) in
        if negb (ok s) then (s, text)
        else info_loop (i + 1) slaves mp
               (text +:+ "  lag: " +:+ pretty (slave_lag num off n) +:+ crlf)
      else info_loop (i + 1) slaves mp text
  end.

Definition mp_GetInfo (info : string) (mp : SyncMasterPartition) : Status * string :=
  let text := "  Role: Master" +:+ crlf +:+ "  connected_slaves: "
              +:+ pretty (GetNumberOfSlaveNode mp) +:+ crlf in
  let '(s, text) := info_loop 0 (map_to_list (mp_slaves mp)).*2 mp text in
  if negb (ok s) then (s, info) else (OK, info +:+ text).

(** *** Sessions *)

Definition GenSessionId (mp : SyncMasterPartition) : Z * SyncMasterPartition :=
  (mp_session_id_ mp, mkMaster (mp_info_ mp) (s32 (mp_session_id_ mp + 1)) (coordinator_ mp)).

Definition CheckSessionId (ip : string) (port session_id : Z) (mp : SyncMasterPartition) : bool :=
  match mp_GetSlaveNode ip port mp with
  | None => false
  | Some n => session_id =? session_id_ (rm n)
  end.

(** *** The consensus of the partition *)

Definition ConsensusUpdateSlave (ip : string) (port : Z) (start end_ : LogOffset) :
    M SyncMasterPartition Status :=
  let* s := on_coord (UpdateSlave conf ip port start end_) in
  if negb (ok s) then ret s else ret OK.
Definition ConsensusUpdateAppliedIndex (o : LogOffset) : M SyncMasterPartition Status :=
  on_coord (on_context (UpdateAppliedIndex o)) ;;; ret OK.
Definition ConsensusAppliedIndex (mp : SyncMasterPartition) : LogOffset :=
  applied_index_ (context_ (coordinator_ mp)).
Definition ConsensusProposeLog (c : Cmd) (conn : option Conn) (resp : option Resp) :
    M SyncMasterPartition Status := on_coord (ProposeLog conf c conn resp).
Definition ConsensusSanityCheck (mp : SyncMasterPartition) : Status :=
  CheckEnoughFollower conf (coordinator_ mp).
Definition ConsensusProcessLeaderLog (c : Cmd) (attribute : BinlogItem) :
    M SyncMasterPartition Status := on_coord (ProcessLeaderLog conf c attribute).
Definition ConsensusProcessLocalUpdate (leader_commit : LogOffset) :
    M SyncMasterPartition Status := on_coord (ProcessLocalUpdate conf leader_commit).
Definition ConsensusCommittedIndex (mp : SyncMasterPartition) : LogOffset :=
  committed_index_ (coordinator_ mp).
Definition ConsensusLastIndex (mp : SyncMasterPartition) : LogOffset :=
  last_offset_ (mem_logger_ (coordinator_ mp)).
Definition ConsensusTerm (mp : SyncMasterPartition) : Z := term_ (coordinator_ mp).
Definition ConsensusLeaderNegotiate (f_last_offset : LogOffset) (hints : list LogOffset)
    (mp : SyncMasterPartition) : option (Status * bool * list LogOffset) :=
  LeaderNegotiate fuel gfuel cfuel (coordinator_ mp) f_last_offset hints.
Definition ConsensusFollowerNegotiate (hints : list LogOffset) (reply_offset : LogOffset) :
    M SyncMasterPartition (Status * LogOffset) :=
  on_coord (FollowerNegotiate fuel gfuel cfuel hints reply_offset).
Definition ConsensusReset (applied_offset : LogOffset) : M SyncMasterPartition Status :=
  on_coord (Coord_Reset applied_offset).
End MasterPartition.
