(* ===== verification/MasterFacts.v ===== *)
(** * Properties of a master partition

    What is queued for a slave is the log, in order and without a gap; purging
    spares the files the slaves still need; the reported lag. *)

From S2P Require Import Prelude Define Env Binlog BinlogReader BinlogRoundTrip BinlogOpen.
From S2P Require Import Transverter Command SlaveNode Consensus StableLog Coordinator WriteQueue.
From S2P Require Import MasterPartition.
From stdpp Require Import base list strings pretty gmap sorting.
From Stdlib Require Import ZArith Lia Init.Byte.
#[local] Open Scope string_scope.
#[local] Open Scope list_scope.
#[local] Open Scope Z_scope.

(** Every task names the offset of the one before it: from [prev] to [last]. *)
Fixpoint chained (prev : LogOffset) (tasks : list WriteTask) (last : LogOffset) : Prop :=
  match tasks with
  | [] => last = prev
  | t :: tasks => prev_offset_ t = prev ∧ chained (chip_offset_ (binlog_chip_ t)) tasks last
  end.

(** The window item of a task. *)
Definition task_item (t : WriteTask) : SyncWinItem :=
  mkWinItem (chip_offset_ (binlog_chip_ t)) (task_size t) false.

(** The parts of a node that feeding it does not touch. *)
Definition same_slave (n n' : SlaveNode) : Prop :=
  ip_ (rm n') = ip_ (rm n) ∧ port_ (rm n') = port_ (rm n) ∧
  partition_info_ (rm n') = partition_info_ (rm n) ∧ session_id_ (rm n') = session_id_ (rm n) ∧
  slave_state n' = slave_state n ∧ acked_offset n' = acked_offset n.

#[export] Instance same_slave_preorder : PreOrder same_slave.
Proof.
  split; [by intros n; split_and!|]. unfold same_slave. intros a b c H1 H2.
  destruct_and!. split_and!; congruence.
Qed.

(** A read of the log gave [t]'s item. *)
Definition read_gives (x : Status * bytes * (Z * Z)) (t : WriteTask) : Prop :=
  IsEndFile x.1.1 = false ∧ IsCorruption x.1.1 = false ∧ IsIOError x.1.1 = false ∧
  binlog_ (binlog_chip_ t) = x.1.2 ∧
  b_offset (chip_offset_ (binlog_chip_ t)) = mkBinlogOffset x.2.1 x.2.2.

Section Facts.
Context {FS : Type} {E : SlashEnv FS} {L : SlashEnvLaws FS}.
Context {C : FixedCoding} {SN : StringNum}.
Context {Cmd Conn Resp : Type} {CO : CmdOps Cmd}.
Context (conf : PikaConf) (gfuel cfuel : nat).
Abbreviation Master := (@SyncMasterPartition FS Cmd Conn Resp).

(** The node [n], whose reader is [rd], was fed the tasks [new] and became [n']. *)
Record fed fs logger n rd (new : list WriteTask) n' : Prop := {
  fd_same : same_slave n n';
  fd_chain : chained (sent_offset n) new (sent_offset n');
  fd_win : win_ (sync_win n') = win_ (sync_win n) ++ (task_item <$> new);
  fd_reads : ∃ reads rd', Get_all fs logger gfuel cfuel (length new) rd = Some (reads, rd') ∧
    Forall2 read_gives reads new;
}.

Lemma fed_nil fs logger n rd n' :
  same_slave n n' → sent_offset n' = sent_offset n → sync_win n' = sync_win n →
  fed fs logger n rd [] n'.
Proof.
  intros Hs Ho Hw. split; [done|done|by rewrite Hw, app_nil_r|]. exists [], rd. by split.
Qed.

Lemma fed_cons fs logger n rd s msg num off rd1 l now new n' :
  Get fs logger gfuel cfuel [] (0, 0) rd = Some ((s, msg, (num, off)), rd1) →
  IsEndFile s = false → IsCorruption s = false → IsIOError s = false →
  let o := mkLogOffset (mkBinlogOffset num off) l in
  let m := set_binlog_reader (Some rd1) n in
  fed fs logger (sent_node now m o msg) rd1 new n' →
  fed fs logger n rd (slave_task m o msg :: new) n'.
Proof.
  intros Hg H1 H2 H3 o m [Hs Hc Hw (reads & rd' & Hr & Hf)]. split.
  - etrans; [|exact Hs]. by split_and!.
  - cbn. done.
  - rewrite Hw. cbn. by rewrite <- app_assoc.
  - exists ((s, msg, (num, off)) :: reads), rd'. split; [|constructor; [by split_and!|done]].
    cbn [length Get_all]. unfold bind. rewrite Hg, Hr. done.
Qed.

Lemma read_loop_fed fs logger clock cnt : ∀ tasks n r tasks' n' rd,
  read_loop gfuel cfuel fs logger clock cnt tasks n = Some (r, tasks', n') →
  binlog_reader n = Some rd →
  ∃ new, tasks' = tasks ++ new ∧ (length new ≤ cnt)%nat ∧ fed fs logger n rd new n'.
Proof.
  assert (∀ (tasks : list WriteTask) cnt n rd n', same_slave n n' → sent_offset n' = sent_offset n →
    sync_win n' = sync_win n →
    ∃ new, tasks = tasks ++ new ∧ (length new ≤ cnt)%nat ∧ fed fs logger n rd new n') as Hstop.
  { intros. exists []. rewrite app_nil_r. split_and!; [done|cbn; lia|by apply fed_nil]. }
  induction cnt as [|cnt IH]; intros tasks n r tasks' n' rd H Hrd; cbn [read_loop] in H.
  { injection H as <- <- <-. by apply Hstop. }
  rewrite Hrd in H. destruct (_ >? _) in H; [injection H as <- <- <-; by apply Hstop|].
  destruct (Get _ _ _ _ _ _ _) as [[[[s msg] [num off]] rd1]|] eqn:Hg; [|done].
  destruct (IsEndFile s) eqn:H1; [injection H as <- <- <-; by apply Hstop|].
  destruct (IsCorruption s) eqn:H2; [injection H as <- <- <-; by apply Hstop|].
  destruct (IsIOError s) eqn:H3; [injection H as <- <- <-; by apply Hstop|]. cbn [orb] in H.
  destruct (BinlogItemWithoutContentDecode _ _ _) as [[] item]; cbn [negb] in H;
    [|injection H as <- <- <-; by apply Hstop].
  apply (IH _ _ _ _ _ rd1) in H as (new & -> & Hn & Hf); [|done].
  eexists (_ :: new). rewrite <- app_assoc. split_and!; [done|cbn; lia|]. by eapply fed_cons.
Qed.

(** What is queued for a slave is the log, in order and without a gap: for a
    node with a reader, [ReadBinlogFileToWq] reads some next items of the log, not
    more than the window has room for, makes a task for each that carries the item,
    its position and the offset of the item before it (for the first one, the
    offset sent last), opens them in the window in the same order, and appends them
    to the slave's write queue.  If it fails on the way the node has advanced but
    nothing is queued. *)
Theorem ReadBinlogFileToWq_chain clock (mp : Master) q n s q' n' rd :
  binlog_reader n = Some rd →
  ReadBinlogFileToWq conf gfuel cfuel clock mp q n = Some (s, q', n') →
  ∃ new, fed (mp_fs mp) (mp_logger mp) n rd new n' ∧
    Z.of_nat (length new) ≤ Z.max 0 (Remaining conf (sync_win n)) ∧
    q' = if ok s
         then ProduceWriteQueue (ip_ (rm n)) (port_ (rm n)) (partition_id_ (mp_info_ mp)) new q
         else q.
Proof.
  intros Hrd H. unfold ReadBinlogFileToWq in H. rewrite Hrd in H.
  destruct (read_loop _ _ _ _ _ _ _ _) as [[[r tasks] m]|] eqn:Hl; [|done].
  pose proof Hl as Hl'. apply (read_loop_fed _ _ _ _ _ _ _ _ _ rd) in Hl' as (new & -> & Hn & Hf); [|done].
  cbn [app] in *. exists new. pose proof (fd_same _ _ _ _ _ _ Hf) as (Hip & Hport & _).
  destruct r as [e|].
  - injection H as <- <- <-. split_and!; [done|lia|].
    assert (∀ cnt tasks k r tasks' k', read_loop gfuel cfuel (mp_fs mp) (mp_logger mp) clock cnt tasks k
      = Some (Some r, tasks', k') → ok r = false) as Hbad.
    { clear. induction cnt as [|cnt IH]; intros tasks k r tasks' k' H; cbn [read_loop] in H; [done|].
      destruct (binlog_reader k); [|done]. destruct (_ >? _); [done|].
      destruct (Get _ _ _ _ _ _ _) as [[[[s msg] [num off]] rd1]|]; [|done].
      destruct (IsEndFile s) eqn:H1; [done|]. destruct (IsCorruption s || IsIOError s) eqn:H2.
      { injection H as <- _ _. by destruct s. }
      destruct (BinlogItemWithoutContentDecode _ _ _) as [[] item]; cbn [negb] in H;
        [by eapply IH|by injection H as <- _ _]. }
    apply Hbad in Hl. by rewrite Hl.
  - injection H as <- <- <-. split_and!; [done|lia|]. cbn [ok]. rewrite Hip, Hport. by destruct new.
Qed.

(** ** The stream is complete *)

Definition decodes (x : bytes) : Prop :=
  (BinlogItemWithoutContentDecode TypeFirst x BinlogItem_new).1 = true.

Definition total_bytes (items : list bytes) : Z := foldr (λ x n, zlen x + n) 0 items.

(** The tasks carry the items, at the positions [ps]. *)
Definition carry (tasks : list WriteTask) (items : list bytes) (ps : list (Z * Z)) : Prop :=
  (λ t, binlog_ (binlog_chip_ t)) <$> tasks = items ∧
  (λ t, b_offset (chip_offset_ (binlog_chip_ t))) <$> tasks =
    (λ p, mkBinlogOffset p.1 p.2) <$> ps.

Lemma total_bytes_nonneg items : 0 ≤ total_bytes items.
Proof.
  induction items as [|x items IH]; [done|]. change (0 ≤ zlen x + total_bytes items).
  pose proof (zlen_nonneg x). lia.
Qed.

Lemma read_loop_all fs logger clock items : ∀ ps cnt tasks n rd rd',
  binlog_reader n = Some rd →
  Get_all fs logger gfuel cfuel (length items) rd =
    Some (zip_with (λ x q, (OK, x, q)) items ps, rd') → length ps = length items →
  (∀ o, Get fs logger gfuel cfuel [] o rd' = Some ((EndFile "End of cur log file", [], o), rd')) →
  Forall decodes items → (length items ≤ cnt)%nat →
  0 ≤ total_size_ (sync_win n) → total_size_ (sync_win n) + total_bytes items ≤ 2 ^ 30 →
  ∃ new n', read_loop gfuel cfuel fs logger clock cnt tasks n = Some (None, tasks ++ new, n') ∧
    same_slave n n' ∧ carry new items ps.
Proof.
  induction items as [|x items IH]; intros ps cnt tasks n rd rd' Hrd Hg Hps He Hd Hc H0 Ht.
  { destruct ps; [|done]. cbn in Hg. injection Hg as ->.
    destruct cnt as [|cnt]; cbn [read_loop]; rewrite ?Hrd.
    - exists [], n. rewrite app_nil_r. by split_and!.
    - destruct (_ >? _); [exists [], n; rewrite app_nil_r; by split_and!|]. rewrite He. cbn.
      exists [], (set_binlog_reader (Some rd') n). rewrite app_nil_r. by split_and!. }
  destruct ps as [|[num off] ps]; [done|]. destruct cnt as [|cnt]; [cbn in Hc; lia|].
  cbn [length Get_all] in Hg. unfold bind in Hg.
  destruct (Get fs logger gfuel cfuel [] (0, 0) rd) as [[y rd1]|] eqn:Hg1; [|done].
  destruct (Get_all fs logger gfuel cfuel (length items) rd1) as [[ys rd2]|] eqn:Hg2; [|done].
  cbn in Hg. injection Hg as -> -> ->.
  apply Forall_cons in Hd as [Hx Hd]. unfold decodes in Hx. cbn [read_loop]. rewrite Hrd.
  pose proof (total_bytes_nonneg items). pose proof (zlen_nonneg x). cbn [total_bytes foldr] in Ht.
  fold (total_bytes items) in Ht. unfold GetTotalBinlogSize.
  change (PIKA_MAX_CONN_RBUF_HB * 2) with (2 ^ 30). rewrite Z.gtb_ltb.
  destruct (Z.ltb_spec (2 ^ 30) (total_size_ (sync_win n))); [lia|]. rewrite Hg1. cbn [IsEndFile IsCorruption IsIOError orb].
  destruct (BinlogItemWithoutContentDecode TypeFirst x BinlogItem_new) as [good item] eqn:Hi.
  cbn in Hx. subst good. cbn [negb].
  set (o := mkLogOffset _ _). set (m := set_binlog_reader (Some rd1) n).
  destruct (IH ps cnt (tasks ++ [slave_task m o x]) (sent_node (clock (length tasks)) m o x) rd1 rd')
    as (new & n' & Hr & Hs & HC1 & HC2); try done.
  - cbn in Hps. lia.
  - cbn in Hc. lia.
  - cbn. apply u64_range.
  - cbn. rewrite u64_small by lia. lia.
  - exists (slave_task m o x :: new), n'. rewrite Hr, <- app_assoc. split; [done|].
    split; [etrans; [|exact Hs]; by split_and!|]. split; cbn; [by rewrite HC1|by rewrite HC2].
Qed.

(** C39. The stream to a slave is complete: after a run of successful [Put]s of log
    items, a slave whose reader stands where the run began, and whose window has
    room for the items, is queued exactly the items, in order, each at the
    position it was written at. *)
Theorem ReadBinlogFileToWq_complete fs b items ps clock (mp : Master) q n rd :
  2 ≤ Z.of_nat gfuel → binlog_wf fs b → 0 ≤ file_size_ b → pro_num_ b + zlen items < 2 ^ 32 →
  Forall (λ x, x ≠ [] ∧ item_fits b x ∧ (length x ≤ cfuel)%nat ∧ decodes x) items →
  Put_all items (fs, b) = Some (ps, (mp_fs mp, mp_logger mp)) →
  binlog_reader n = Some rd →
  reader_at (cur_file b) (pro_num_ b) (v_pro_offset (version_ b)) rd →
  zlen items ≤ Remaining conf (sync_win n) →
  0 ≤ total_size_ (sync_win n) → total_size_ (sync_win n) + total_bytes items ≤ 2 ^ 30 →
  ∃ new n', ReadBinlogFileToWq conf gfuel cfuel clock mp q n = Some (OK,
      ProduceWriteQueue (ip_ (rm n)) (port_ (rm n)) (partition_id_ (mp_info_ mp)) new q, n') ∧
    carry new items ps.
Proof.
  intros Hg W Hs Hn Hf Hp Hrd R Hroom H0 Ht.
  destruct gfuel as [|[|g]] eqn:Eg; [lia|lia|]. rewrite <- Eg.
  destruct (put_get fs b items ps (mp_fs mp) (mp_logger mp) rd g cfuel) as (rd' & Ha & He & Hps);
    try done.
  { eapply Forall_impl; [exact Hf|]. by intros x (?&?&?&?). }
  change (2 + g)%nat with (S (S g)) in *. rewrite <- Eg in *.
  destruct (read_loop_all (mp_fs mp) (mp_logger mp) clock items ps
    (Z.to_nat (Remaining conf (sync_win n))) [] n rd rd') as (new & n' & Hr & (Hip & Hport & _) & Hc);
    try done.
  { eapply Forall_impl; [exact Hf|]. by intros x (?&?&?&?). }
  { unfold zlen in Hroom. lia. }
  exists new, n'. split; [|done]. unfold ReadBinlogFileToWq. rewrite Hrd, Hr, Hip, Hport. by destruct new.
Qed.

(** ** What the slaves need *)

(** Whether a slave lets binlog file [index] go. *)
Definition releases (index : Z) (n : SlaveNode) : Prop :=
  slave_state n ≠ kSlaveDbSync ∧
  (slave_state n = kSlaveBinlogSync → index < filenum (b_offset (acked_offset n))).

Lemma cloud_loop_true index slaves :
  cloud_loop index slaves = true ↔ Forall (releases index) slaves.
Proof.
  induction slaves as [|n slaves IH]; cbn [cloud_loop]; [split; [constructor|done]|].
  rewrite Forall_cons, <- IH. unfold releases. rewrite Z.geb_leb.
  destruct (decide (slave_state n = kSlaveDbSync)) as [Hd|Hd].
  { rewrite bool_decide_eq_true_2 by done. split; [done|]. intros [[Hn _] _]. by destruct Hn. }
  rewrite bool_decide_eq_false_2 by done.
  destruct (decide (slave_state n = kSlaveBinlogSync)) as [Hb|Hb].
  - rewrite bool_decide_eq_true_2 by done. cbn [andb].
    destruct (Z.leb_spec (filenum (b_offset (acked_offset n))) index).
    + split; [done|]. intros [[_ Hn] _]. specialize (Hn Hb). lia.
    + split; [by intros H'|tauto].
  - rewrite bool_decide_eq_false_2 by done. split; [intros H'; by split_and!|tauto].
Qed.

Lemma BinlogCloudPurge_true index (mp : Master) :
  BinlogCloudPurge index mp = true →
  opened_ (mp_logger mp) = true ∧ index ≤ u32 (v_pro_num (version_ (mp_logger mp)) - 10) ∧
  map_Forall (λ _ n, releases index n) (mp_slaves mp).
Proof.
  unfold BinlogCloudPurge, GetProducerStatus. destruct (opened_ (mp_logger mp)); [|done].
  cbn [negb ok]. rewrite Z.gtb_ltb.
  destruct (Z.ltb_spec (u32 (v_pro_num (version_ (mp_logger mp)) - 10)) index); [done|].
  intros Hc. apply cloud_loop_true in Hc. split_and!; [done|lia|].
  intros k n Hk. eapply Forall_forall in Hc; [exact Hc|].
  apply list_elem_of_fmap. exists (k, n). split; [done|]. by apply elem_of_map_to_list.
Qed.


(** ** The reported lag *)

(** How far [n] is behind the position of the log, in full files. *)
Definition true_lag (num off : Z) (n : SlaveNode) : Z :=
  (num - filenum (b_offset (acked_offset n))) * binlog_file_size conf
  + (off - offset (b_offset (acked_offset n))).

(** The reported lag is off by the multiples of 2^32 that the product of the
    file distance and the file size loses in 32 bits: it is the true lag exactly
    when that product is below 2^32. *)
Theorem slave_lag_truncated num off n :
  0 ≤ filenum (b_offset (acked_offset n)) ≤ num → num < 2 ^ 32 →
  0 < binlog_file_size conf < 2 ^ 31 → 0 ≤ offset (b_offset (acked_offset n)) → 0 ≤ off →
  offset (b_offset (acked_offset n)) ≤ off → off < 2 ^ 63 →
  let files := (num - filenum (b_offset (acked_offset n))) * binlog_file_size conf in
  slave_lag conf num off n = true_lag num off n - 2 ^ 32 * (files / 2 ^ 32) ∧
  (slave_lag conf num off n = true_lag num off n ↔ files < 2 ^ 32).
Proof.
  intros Hf Hn Hs Ho Hoff Hle Hmax files. unfold slave_lag, true_lag. fold files.
  assert (0 ≤ files) as Hpos by (apply Z.mul_nonneg_nonneg; lia).
  rewrite (u32_small (num - _)), (u32_small (binlog_file_size conf)), (u64_small (off - _)) by lia.
  fold files. unfold u32. pose proof (Z.div_mod files (2 ^ 32) ltac:(lia)) as Hd.
  pose proof (Z.mod_pos_bound files (2 ^ 32) ltac:(lia)) as Hm.
  rewrite u64_small by lia. split; [lia|]. split; intros H.
  - assert (files / 2 ^ 32 = 0) by lia. lia.
  - rewrite (Z.mod_small files) by lia. lia.
Qed.
End Facts.
