(* ===== verification/CoordinatorWitness.v ===== *)
(** * Consensus and the master's side: examples

    Contexts, progress and the in-memory log; a coordinator that proposes three commands;
    and a master partition with one slave. *)

From S2P Require Import Prelude Define Env Binlog BinlogReader BinlogRoundTrip BinlogOpen Transverter Command.
From S2P Require Import SlaveNode Consensus StableLog BinlogWitness Coordinator CoordinatorFacts WriteQueue.
From S2P Require Import MasterPartition MasterFacts.
From stdpp Require Import base list strings pretty gmap sorting.
From Stdlib Require Import ZArith Lia Init.Byte.
#[local] Open Scope string_scope.
#[local] Open Scope list_scope.
#[local] Open Scope Z_scope.

Definition lo (f o t i : Z) : LogOffset := mkLogOffset (mkBinlogOffset f o) (mkLogicOffset t i).

(** ** The applied index *)

Definition ctx_disk : MemFS :=
  mkMemFS ∅ {[ "/log/context" := offset_image (lo 1 500 3 42) ++ zrep 8 x00 ]} 0.

Definition ctx_started : Status * (MemFS * Context) :=
  default (OK, (ctx_disk, Context_new "/log/context")) (Context_Init (ctx_disk, Context_new "/log/context")).

Lemma ctx_started_eq : Context_Init (ctx_disk, Context_new "/log/context") =
  Some (ctx_started.1, (ctx_started.2.1, ctx_started.2.2)).
Proof. vm_compute. reflexivity. Qed.

Lemma lo_ok : offset_ok (lo 1 500 3 42).
Proof. split_and!; cbn; lia. Qed.

Lemma Context_Init_restores_witness : applied_index_ ctx_started.2.2 = lo 1 500 3 42.
Proof.
  destruct (Context_Init_restores ctx_disk "/log/context" ctx_started.1 ctx_started.2.1
    ctx_started.2.2) as (_ & _ & _ & H).
  - exact ctx_started_eq.
  - right. exists (lo 1 500 3 42), (zrep 8 x00). split; [exact lo_ok|reflexivity].
  - apply (H (lo 1 500 3 42) (zrep 8 x00)); [exact lo_ok|reflexivity].
Defined.

Definition ctx1 : Context :=
  mkContext (lo 1 500 3 42) (Push (SyncWinItem_new (lo 1 600 3 43) 0) SyncWindow_new)
    "/log/context" (Some "/log/context").

Lemma UpdateAppliedIndex_wf_witness : ∃ fs' c',
  UpdateAppliedIndex (lo 1 600 3 43) (ctx_disk, ctx1) = Some (tt, (fs', c')) ∧ ctx_wf fs' c'.
Proof.
  destruct (UpdateAppliedIndex_wf ctx_disk ctx1 (lo 1 600 3 43)) as (fs' & c' & H & W & _).
  - split; [reflexivity|by exists (zrep 8 x00)|exact lo_ok].
  - repeat constructor; cbn; lia.
  - exists fs', c'. split; [exact H|exact W].
Defined.

(** ** Progress *)

Definition conf2 : PikaConf := mkConf 100 2 false 100 10 7 "/log/" "db0" 9221.
Definition match3 : gmap string LogOffset :=
  {[ "a" := lo 0 30 1 3; "b" := lo 0 10 1 1; "c" := lo 0 20 1 2 ]}.

Lemma committed_index_quorum_witness :
  InternalCalCommittedIndex conf2 match3 = lo 0 20 1 2 ∧
  2 ≤ Z.of_nat (count_ge (lo 0 20 1 2) (values match3)).
Proof.
  assert (InternalCalCommittedIndex conf2 match3 = lo 0 20 1 2) as E by (vm_compute; reflexivity).
  split; [exact E|]. rewrite <- E.
  apply (committed_index_quorum conf2 match3). vm_compute. split; discriminate.
Defined.

Lemma prog_wf_new : prog_wf SyncProgress_new.
Proof. split; [by intros k n ?|]. intros k. constructor. Qed.

Lemma slaves_match_index_witness :
  match_index_ (AddSlaveNode 5 6 "10.0.0.1" 9221 "db0" 0 1 SyncProgress_new).2
    !! slave_key "10.0.0.1" 9221 = Some LogOffset0.
Proof.
  apply (slaves_match_index 5 6 "10.0.0.1" 9221 "db0" 0 1 SyncProgress_new). exact prog_wf_new.
Defined.

Definition key0 : string := slave_key "10.0.0.1" 9221.
Definition prog1 : SyncProgress :=
  mkProgress {[ key0 := node0 ]} {[ key0 := LogOffset0 ]}.
Definition conf1 : PikaConf := mkConf 100 1 false 100 10 7 "/log/" "db0" 9221.
Definition acked1 : Status * LogOffset * SyncProgress :=
  SyncProgress_Update conf1 "10.0.0.1" 9221 (off 0 10) (off 0 30) LogOffset0 prog1.

Lemma prog1_wf : prog_wf prog1.
Proof.
  split.
  - intros k n Hk. cbn in Hk. apply lookup_singleton_Some in Hk as [_ <-]. exact node0_wf.
  - intros k. cbn. destruct (decide (key0 = k)) as [<-|Hk].
    + rewrite !lookup_singleton_eq. constructor. reflexivity.
    + rewrite !lookup_singleton_ne by done. constructor.
Qed.

Lemma progress_commit_monotone_witness :
  acked1.1.2 = off 0 30 ∧ lo_le LogOffset0 acked1.1.2 ∧ prog_wf acked1.2.
Proof.
  destruct (progress_commit_monotone conf1 "10.0.0.1" 9221 (off 0 10) (off 0 30) LogOffset0 prog1
    acked1.1.2 acked1.2) as (W & Hle & _).
  - vm_compute. split; discriminate.
  - exact prog1_wf.
  - intros n Hn pre mid post (Hw & _).
    assert (n = node0) as ->.
    { assert (GetSlaveNode "10.0.0.1" 9221 prog1 = Some node0) as H0 by (vm_compute; reflexivity).
      rewrite H0 in Hn. by injection Hn. }
    assert (Forall (λ x, acked_ x = false) (pre ++ mid ++ post)) as Hf
      by (rewrite <- Hw; by repeat constructor).
    apply Forall_app in Hf as [_ Hf]. by apply Forall_app in Hf as [Hf _].
  - vm_compute. reflexivity.
  - split; [vm_compute; reflexivity|]. split; [|exact W].
    vm_compute. reflexivity.
Defined.

Lemma slave_key_collision_witness :
  SlaveSize (AddSlaveNode 1 1 "10.0.0.11" 9221 "db0" 0 2
    (AddSlaveNode 1 1 "10.0.0.1" 19221 "db0" 0 1 SyncProgress_new).2).2 = 1.
Proof. by apply (slave_key_collision 1 1 _ _ eq_refl eq_refl). Defined.

(** ** The in-memory log *)

Abbreviation NatItem := (LogItem nat nat nat).
Definition li (f o t i : Z) (c : nat) : NatItem := mkLogItem (lo f o t i) c None None.
Definition mem1 : MemLog nat nat nat :=
  mkMemLog [li 0 10 1 1 7; li 0 20 1 2 8; li 1 5 1 3 9] (lo 1 5 1 3).

Lemma mem1_wf : memlog_wf mem1.
Proof. split; [|reflexivity]. cbn. repeat constructor. Qed.

Lemma PurgeLogs_spec_witness :
  PurgeLogs (lo 0 20 0 0) [] mem1 =
    (OK, [li 0 10 1 1 7; li 0 20 1 2 8], mkMemLog [li 1 5 1 3 9] (lo 1 5 1 3)).
Proof.
  apply (PurgeLogs_spec (lo 0 20 0 0) [] mem1 mem1_wf) with (a := [li 0 10 1 1 7])
    (x := li 0 20 1 2 8) (b := [li 1 5 1 3 9]); reflexivity.
Defined.

Lemma MemLog_TruncateTo_spec_witness :
  MemLog_TruncateTo (lo 0 20 0 0) mem1 =
    (OK, mkMemLog [li 0 10 1 1 7; li 0 20 1 2 8] (lo 0 20 1 2)).
Proof.
  apply (MemLog_TruncateTo_spec (lo 0 20 0 0) mem1 mem1_wf) with (a := [li 0 10 1 1 7])
    (x := li 0 20 1 2 8) (b := [li 1 5 1 3 9]); reflexivity.
Defined.

(** * Coordinator examples

    A coordinator over the empty log of [BinlogWitness], with consensus level 1,
    that proposes three commands; and the instances of the coordinator's
    theorems on it. *)

Abbreviation PlainCoord := (Coord (FS := MemFS) (Cmd := PlainCmd) (Conn := nat) (Resp := nat)).

Definition stable1 : StableLog := mkStableLog false "db0" 0 "/log/" log0.2 LogOffset0.
Definition coord0 : PlainCoord :=
  mkCoord log0.1 LogOffset0 (Context_new "/log/context") 7 "db0" 0 SyncProgress_new stable1
    MemLog_new [].
Definition set_cmd : PlainCmd := mkPlainCmd [str "set"; str "k"; str "v"] "db0".

Lemma coord0_wf : coord_wf coord0.
Proof.
  split; [|split; [constructor|done]|split; vm_compute; reflexivity].
  split; [exact log0_wf|exact path_ok0|vm_compute; reflexivity|vm_compute; reflexivity].
Qed.


(** Three proposals: two items in file 0, one in file 1. *)
Definition propose (st : PlainCoord) : PlainCoord :=
  (default (OK, st) (ProposeLog conf1 set_cmd None None st)).2.
Definition coord3 : PlainCoord := propose (propose (propose coord0)).

Definition mem3 : MemLog PlainCmd nat nat := mem_logger_ coord3.

Definition entry (f o i : Z) : LogItem PlainCmd nat nat := mkLogItem (lo f o 7 i) set_cmd None None.

Lemma mem3_eq : mem3 = mkMemLog [entry 0 69 1; entry 0 138 2; entry 1 69 3] (lo 1 69 7 3).
Proof. vm_compute. reflexivity. Qed.

Lemma mem3_wf : memlog_wf mem3.
Proof. rewrite mem3_eq. split; [|reflexivity]. cbn. repeat constructor. Qed.

Lemma ScheduleApplyLog_in_order_witness : ∃ st',
  ScheduleApplyLog (lo 0 138 7 2) coord3 = Some (OK, st') ∧
  events_ st' = [EvApply (entry 0 69 1); EvApply (entry 0 138 2)] ∧
  logs_ (mem_logger_ st') = [entry 1 69 3].
Proof.
  destruct (ScheduleApplyLog_in_order (lo 0 138 7 2) coord3) as (s & st' & H & _ & Hin & _).
  - exact mem3_wf.
  - destruct (Hin [entry 0 69 1] (entry 0 138 2) [entry 1 69 3]) as (-> & He & Hl & _).
    + fold mem3. by rewrite mem3_eq.
    + reflexivity.
    + exists st'. split; [exact H|]. split; [exact He|exact Hl].
Defined.

(** The first index of file 0 is 1, of file 1 it is 3. *)
Lemma FindBinlogFileNum_spec_witness : ∃ s n,
  FindBinlogFileNum 9 9 (c_fs coord3) (logger_of coord3)
    [(0, "write2file0"); (1, "write2file1")] 2 1 = Some (s, n) ∧ s = OK ∧ n = 0.
Proof.
  destruct (FindBinlogFileNum_spec 9 9 (c_fs coord3) (logger_of coord3) 0 1 2
    (λ n, 1 + 2 * n) [(0, "write2file0"); (1, "write2file1")] 1) as (s & n & H & _ & Hn).
  - intros n Hn. assert (n = 0 ∨ n = 1) as [-> | ->] by lia.
    + exists (lo 0 69 7 1). vm_compute. split; reflexivity.
    + exists (lo 1 69 7 3). vm_compute. split; reflexivity.
  - lia.
  - lia.
  - lia.
  - reflexivity.
  - reflexivity.
  - lia.
  - exists s, n. split; [exact H|]. destruct Hn as (-> & Hn & Hle & Hlt); [lia|]. split; [reflexivity|lia].
Defined.

(** A follower that has the first two entries. *)
Definition negotiated : Status * bool * list LogOffset :=
  default (Busy "", true, []) (LeaderNegotiate 9 9 99 coord3 (lo 0 138 7 2) []).

Lemma LeaderNegotiate_sound_witness :
  negotiated.1.2 = false ∧ log_entry 9 9 99 (c_fs coord3) (logger_of coord3) (lo 0 138 7 2).
Proof.
  assert (negotiated.1.2 = false) as Hr by (vm_compute; reflexivity). split; [exact Hr|].
  destruct (LeaderNegotiate_sound 9 9 99 coord3 (lo 0 138 7 2) [] negotiated.1.1 negotiated.1.2
    negotiated.2) as [H _].
  - rewrite <- !surjective_pairing. apply default_eq. vm_compute. reflexivity.
  - destruct (H Hr) as (_ & _ & [H0|He]); [discriminate H0|exact He].
Defined.

(** * Master partition examples

    A master partition over a small log, with one slave, and the instances of
    the theorems on it. *)

Abbreviation PlainMaster :=
  (SyncMasterPartition (FS := MemFS) (Cmd := PlainCmd) (Conn := nat) (Resp := nat)).

Definition item3 (i : Z) : bytes := Cmd_ToBinlog [str "del"; str "k"] 9 7 i 0 0.
Definition items3 : list bytes := [item3 1; item3 2; item3 3].
Definition run3 : list (Z * Z) * (MemFS * Binlog) := default ([], log0) (Put_all items3 log0).

Lemma run3_eq : Put_all items3 (log0.1, log0.2) = Some (run3.1, (run3.2.1, run3.2.2)).
Proof. apply run_pairs. unfold run3. apply default_eq. vm_compute. reflexivity. Qed.

(** A master partition over a log. *)
Definition master_on (fs : MemFS) (b : Binlog) (slaves : gmap string SlaveNode) : PlainMaster :=
  mkMaster (mkPartitionInfo "db0" 0) 4
    (mkCoord fs LogOffset0 (Context_new "/log/context") 7 "db0" 0 (mkProgress slaves ∅)
       (mkStableLog false "db0" 0 "/log/" b LogOffset0) MemLog_new []).

Definition slave3 : SlaveNode :=
  set_binlog_reader (Some reader0) (set_slave_state kSlaveBinlogSync
    (SlaveNode_new "10.0.0.1" 9221 "db0" 0 3)).
Definition master3 : PlainMaster := master_on run3.2.1 run3.2.2 {[ key0 := slave3 ]}.

Definition fed3 : Status * WriteQueues * SlaveNode :=
  default (OK, ∅, slave3) (ReadBinlogFileToWq conf1 9 99 (λ _, 50) master3 ∅ slave3).

Lemma fed3_eq : ReadBinlogFileToWq conf1 9 99 (λ _, 50) master3 ∅ slave3 =
  Some (fed3.1.1, fed3.1.2, fed3.2).
Proof.
  rewrite <- !surjective_pairing. unfold fed3. apply default_eq. vm_compute. reflexivity.
Qed.

Lemma ReadBinlogFileToWq_chain_witness : fed3.1.1 = OK ∧
  ∃ new, fed 9 99 (mp_fs master3) (mp_logger master3) slave3 reader0 new fed3.2 ∧
  fed3.1.2 = ProduceWriteQueue "10.0.0.1" 9221 0 new ∅.
Proof.
  assert (fed3.1.1 = OK) as Hok by (vm_compute; reflexivity). split; [exact Hok|].
  destruct (ReadBinlogFileToWq_chain conf1 9 99 (λ _, 50) master3 ∅ slave3 fed3.1.1 fed3.1.2
    fed3.2 reader0) as (new & Hf & _ & Hq).
  - reflexivity.
  - exact fed3_eq.
  - exists new. split; [exact Hf|]. rewrite Hok in Hq. exact Hq.
Defined.

Lemma ReadBinlogFileToWq_complete_witness : ∃ new n',
  ReadBinlogFileToWq conf1 9 99 (λ _, 50) master3 ∅ slave3 =
    Some (OK, ProduceWriteQueue "10.0.0.1" 9221 0 new ∅, n') ∧ carry new items3 run3.1.
Proof.
  apply (ReadBinlogFileToWq_complete conf1 9 99 log0.1 log0.2 items3 run3.1 (λ _, 50) master3 ∅
    slave3 reader0).
  - lia.
  - exact log0_wf.
  - vm_compute. discriminate.
  - vm_compute. reflexivity.
  - repeat (apply Forall_cons; split; [split; [discriminate|split; [vm_compute; reflexivity|
      split; [vm_compute; lia|vm_compute; reflexivity]]]|]). constructor.
  - exact run3_eq.
  - reflexivity.
  - split_and!; try done; [vm_compute; discriminate..|by exists 0].
  - vm_compute. discriminate.
  - vm_compute. discriminate.
  - vm_compute. discriminate.
Defined.

(** A log of eleven files, its first file purged away. *)
Definition set12 : Status * (MemFS * Binlog) :=
  default (OK, run0.2) (SetProducerStatus 12 0 7 9 run0.2).
Definition slave_at (f : Z) : SlaveNode :=
  set_acked_offset (lo f 0 7 1) (set_slave_state kSlaveBinlogSync
    (SlaveNode_new "10.0.0.1" 9221 "db0" 0 3)).
Definition master12 : PlainMaster := master_on set12.2.1 set12.2.2 {[ key0 := slave_at 2 ]}.
Definition stable12 : StableLog := stable_ (coordinator_ master12).
Definition purge12 : bool * (MemFS * StableLog) :=
  default (false, (mp_fs master12, stable12))
    (PurgeFiles (λ _ _, None) conf_purge (λ n, Some (BinlogCloudPurge n master12)) 9 9 9 5 true
       (mp_fs master12, stable12)).
Definition children12 : list string := (env_children (mp_fs master12) "/log/").2.

Lemma children12_eq : env_children (mp_fs master12) (log_path_ stable12) = (0, children12).
Proof. vm_compute. reflexivity. Qed.

Lemma children12_ok : numbers_ok children12.
Proof.
  assert (forallb (λ name, match string2l (str_drop kBinlogPrefixLen name) with
      | Some i => (0 <=? i) && (i <? 2 ^ 32) | None => true end) children12 = true) as H
    by (vm_compute; reflexivity).
  intros name i Hname _ Hi. rewrite forallb_forall in H.
  specialize (H name (proj1 (list_elem_of_In _ _) Hname)). rewrite Hi in H. lia.
Qed.

Lemma purge12_eq : PurgeFiles (λ _ _, None) conf_purge
  (λ n, Some (BinlogCloudPurge n master12)) 9 9 9 5 true (mp_fs master12, stable12) =
  Some (purge12.1, (purge12.2.1, purge12.2.2)).
Proof.
  assert (∀ x : bool * (MemFS * StableLog), x = (x.1, (x.2.1, x.2.2))) as Hx by (by intros [? []]).
  rewrite <- Hx. apply default_eq. vm_compute. reflexivity.
Qed.


(** Files of 100 MB: at a distance of 41 files 4 GB are missing. *)
Definition conf_100mb : PikaConf :=
  mkConf 100 0 true (100 * 1024 * 1024) 10 7 "/log/" "db0" 9221.

Lemma slave_lag_truncated_witness :
  slave_lag conf_100mb 43 5 (slave_at 2) = 41 * (100 * 1024 * 1024) + 5 - 2 ^ 32 ∧
  slave_lag conf_100mb 43 5 (slave_at 2) ≠ true_lag conf_100mb 43 5 (slave_at 2).
Proof.
  destruct (slave_lag_truncated conf_100mb 43 5 (slave_at 2)) as [H1 H2]; [cbn; lia..|].
  split; [rewrite H1; vm_compute; reflexivity|]. intros H. apply H2 in H. cbn in H. lia.
Defined.
