(* ===== verification/SlavePartition.v ===== *)
(** * The slave side of a partition (src/pika_rm.cc: SyncSlavePartition)

    A slave partition is a state machine: which master it follows, and how far
    the connection to it has come ([ReplState]).  [SlaveStep] is the relation
    of all its operations. *)

From S2P Require Import Prelude Define MasterPartition.
From stdpp Require Import base list strings pretty relations.
From Stdlib Require Import ZArith Lia.
#[local] Open Scope string_scope.
#[local] Open Scope Z_scope.

Record SyncSlavePartition := mkSlave {
  sp_info_ : PartitionInfo; m_info_ : RmNode; repl_state_ : ReplState; local_ip_ : string }.

Definition set_m_info (x : RmNode) (sp : SyncSlavePartition) : SyncSlavePartition :=
  mkSlave (sp_info_ sp) x (repl_state_ sp) (local_ip_ sp).
Definition set_repl_state (x : ReplState) (sp : SyncSlavePartition) : SyncSlavePartition :=
  mkSlave (sp_info_ sp) (m_info_ sp) x (local_ip_ sp).

Definition SyncSlavePartition_new (now : Z) (table_name : string) (partition_id : Z) :
    SyncSlavePartition :=
  mkSlave (mkPartitionInfo table_name partition_id) (rm_SetLastRecvTime now RmNode0) kNoConnect "".

Definition Deactivate (sp : SyncSlavePartition) : SyncSlavePartition :=
  set_repl_state kNoConnect (set_m_info RmNode0 sp).

Definition SetReplState (s : ReplState) (sp : SyncSlavePartition) : SyncSlavePartition :=
  if bool_decide (s = kNoConnect) then Deactivate sp else set_repl_state s sp.

Definition State (sp : SyncSlavePartition) : ReplState := repl_state_ sp.

Definition sp_SetLastRecvTime (time : Z) (sp : SyncSlavePartition) : SyncSlavePartition :=
  set_m_info (rm_SetLastRecvTime time (m_info_ sp)) sp.
Definition LastRecvTime (sp : SyncSlavePartition) : Z := last_recv_time_ (m_info_ sp).

(** The partition, and whether the server's state machine loop is woken
    ([SetLoopPartitionStateMachine]). *)
Definition sp_CheckSyncTimeout (now : Z) (sp : SyncSlavePartition) :
    Status * bool * SyncSlavePartition :=
  if negb (bool_decide (repl_state_ sp = kWaitDBSync))
     && negb (bool_decide (repl_state_ sp = kConnected)) then (OK, false, sp)
  else if u64 (last_recv_time_ (m_info_ sp) + kRecvKeepAliveTimeout) <? now
  then (OK, true, set_repl_state kTryConnect sp)
  else (OK, false, sp).

Definition MasterIp (sp : SyncSlavePartition) : string := ip_ (m_info_ sp).
Definition MasterPort (sp : SyncSlavePartition) : Z := port_ (m_info_ sp).
Definition SetMasterSessionId (session_id : Z) (sp : SyncSlavePartition) : SyncSlavePartition :=
  set_m_info (SetSessionId session_id (m_info_ sp)) sp.
Definition MasterSessionId (sp : SyncSlavePartition) : Z := session_id_ (m_info_ sp).
Definition SetLocalIp (ip : string) (sp : SyncSlavePartition) : SyncSlavePartition :=
  mkSlave (sp_info_ sp) (m_info_ sp) (repl_state_ sp) ip.
Definition LocalIp (sp : SyncSlavePartition) : string := local_ip_ sp.

Definition Activate (now : Z) (master : RmNode) (s : ReplState) (sp : SyncSlavePartition) :
    SyncSlavePartition :=
  set_m_info (rm_SetLastRecvTime now master) (set_repl_state s (set_m_info master sp)).

Definition sp_GetInfo (info : string) (sp : SyncSlavePartition) : Status * string :=
  (OK, info +:+ "  Role: Slave" +:+ crlf +:+ "  master: " +:+ MasterIp sp +:+ ":"
       +:+ pretty (MasterPort sp) +:+ crlf +:+ "  slave status: "
       +:+ ReplStateMsg (repl_state_ sp) +:+ crlf).

Definition sp_ToStringStatus (sp : SyncSlavePartition) : string :=
  "  Master: " +:+ MasterIp sp +:+ ":" +:+ pretty (MasterPort sp) +:+ crlf
  +:+ "  SessionId: " +:+ pretty (MasterSessionId sp) +:+ crlf
  +:+ "  SyncStatus " +:+ ReplStateMsg (repl_state_ sp) +:+ crlf.

(** ** The state machine *)

Inductive SlaveStep : SyncSlavePartition → SyncSlavePartition → Prop :=
  | step_SetReplState s sp : SlaveStep sp (SetReplState s sp)
  | step_SetLastRecvTime t sp : SlaveStep sp (sp_SetLastRecvTime t sp)
  | step_CheckSyncTimeout now sp : SlaveStep sp (sp_CheckSyncTimeout now sp).2
  | step_SetMasterSessionId i sp : SlaveStep sp (SetMasterSessionId i sp)
  | step_SetLocalIp ip sp : SlaveStep sp (SetLocalIp ip sp)
  | step_Activate now master s sp : s ≠ kNoConnect → SlaveStep sp (Activate now master s sp)
  | step_Deactivate sp : SlaveStep sp (Deactivate sp).

(** States in which the slave waits for its master, and the timeout runs. *)
Definition waiting (s : ReplState) : bool :=
  bool_decide (s = kWaitDBSync) || bool_decide (s = kConnected).

Lemma CheckSyncTimeout_cases now sp :
  sp_CheckSyncTimeout now sp =
    if waiting (repl_state_ sp) && (u64 (last_recv_time_ (m_info_ sp) + kRecvKeepAliveTimeout) <? now)
    then (OK, true, set_repl_state kTryConnect sp) else (OK, false, sp).
Proof.
  unfold sp_CheckSyncTimeout, waiting. destruct (bool_decide _), (bool_decide _); done.
Qed.

(** A slave that is not connected follows nobody: from the start on, whatever
    operations run in whatever order (activation asks for a connection), a slave
    partition in state [kNoConnect] names no master, and a partition never changes
    its identity. *)
Theorem slave_no_master now table_name partition_id sp :
  rtc SlaveStep (SyncSlavePartition_new now table_name partition_id) sp →
  sp_info_ sp = mkPartitionInfo table_name partition_id ∧
  (repl_state_ sp = kNoConnect → MasterIp sp = "" ∧ MasterPort sp = 0).
Proof.
  set (P sp := sp_info_ sp = mkPartitionInfo table_name partition_id ∧
    (repl_state_ sp = kNoConnect → MasterIp sp = "" ∧ MasterPort sp = 0)).
  change (rtc SlaveStep (SyncSlavePartition_new now table_name partition_id) sp → P sp).
  intros H. assert (P (SyncSlavePartition_new now table_name partition_id)) as H0 by by split.
  induction H as [|a b c Hs _ IH]; [done|]. apply IH. clear IH c. destruct H0 as [Hi Hm].
  destruct Hs as [s a|t a|t a|i a|ip a|t m s a Hne|a]; unfold P; try by split.
  - unfold SetReplState. case_bool_decide; [by split|]. by split.
  - rewrite CheckSyncTimeout_cases. destruct (_ && _); by split.
Qed.

Lemma slave_no_master_witness :
  let sp := Deactivate (Activate 9 (RmNode_new "10.0.0.9" 9221 "db0" 0 1) kTryConnect
              (SyncSlavePartition_new 5 "db0" 0)) in
  repl_state_ sp = kNoConnect ∧ MasterIp sp = "" ∧ MasterPort sp = 0.
Proof.
  split; [reflexivity|].
  apply (slave_no_master 5 "db0" 0).
  - eapply rtc_l; [apply (step_Activate 9 (RmNode_new "10.0.0.9" 9221 "db0" 0 1) kTryConnect);
      discriminate|]. eapply rtc_l; [apply step_Deactivate|]. apply rtc_refl.
  - reflexivity.
Defined.
