(* ===== verification/ReplicaManager.v ===== *)
(** * The replica manager (src/pika_rm.cc: PikaReplicaManager)

    The manager holds the master partitions in an array of [kMaxDbNum] entries
    indexed by the digit of the table name, the slave partitions in a map, and
    the write queues.  Its operations run in the monad [M Rm]; a failed
    [assert] aborts.  An unordered map is traversed in the order of
    [map_to_list].  The network ([Net]) with what is sent over it, and the
    choice of a local address, are arguments.

    Every coordinator carries the file system of its own log directory. *)

From S2P Require Import Prelude Define Env Binlog BinlogReader Transverter Command SlaveNode.
From S2P Require Import Consensus StableLog Coordinator WriteQueue MasterPartition SlavePartition.
From stdpp Require Import base list strings pretty gmap sorting.
From Stdlib Require Import ZArith Lia Init.Byte.
#[local] Open Scope string_scope.
#[local] Open Scope list_scope.
#[local] Open Scope Z_scope.

Section ReplicaManager.
Context {FS : Type} {E : SlashEnv FS} {C : FixedCoding} {SN : StringNum}.
Context {Cmd Conn Resp : Type} {CO : CmdOps Cmd}.
Context (conf : PikaConf) (fuel gfuel cfuel : nat).
Context {Net : Type}.
Context (SendSlaveBinlogChips : string → Z → list WriteTask → Net → Status * Net).
Context (SendRemoveSlaveNode : string → Z → string → Z → string → Net → Status * Net).
Context (SelectLocalIp : string → Z → Net → Status * string).
Abbreviation Master := (@SyncMasterPartition FS Cmd Conn Resp).

Record Rm := mkRm {
  sync_master_partitions_ : list (option Master);
  sync_slave_partitions_ : gmap PartitionInfo SyncSlavePartition;
  write_queues_ : WriteQueues;
  (** The server's flag [loop_partition_state_machine_]. *)
  loop_partition_state_machine_ : bool;
  net_ : Net }.

Definition Rm_new (net : Net) : Rm := mkRm (replicate kMaxDbNum None) ∅ ∅ false net.

Definition set_masters (x : list (option Master)) (r : Rm) : Rm :=
  mkRm x (sync_slave_partitions_ r) (write_queues_ r) (loop_partition_state_machine_ r) (net_ r).
Definition set_slaves (x : gmap PartitionInfo SyncSlavePartition) (r : Rm) : Rm :=
  mkRm (sync_master_partitions_ r) x (write_queues_ r) (loop_partition_state_machine_ r) (net_ r).
Definition set_queues (x : WriteQueues) (r : Rm) : Rm :=
  mkRm (sync_master_partitions_ r) (sync_slave_partitions_ r) x
    (loop_partition_state_machine_ r) (net_ r).
Definition set_loop (x : bool) (r : Rm) : Rm :=
  mkRm (sync_master_partitions_ r) (sync_slave_partitions_ r) (write_queues_ r) x (net_ r).
Definition set_net (x : Net) (r : Rm) : Rm :=
  mkRm (sync_master_partitions_ r) (sync_slave_partitions_ r) (write_queues_ r)
    (loop_partition_state_machine_ r) x.

Abbreviation RM := (M Rm).

(** [sync_master_partitions_.find(key)]; the partition id is not looked at. *)
Definition find_master (key : PartitionInfo) : RM (option Master) :=
  let* r := get in
  match DbIdxFromStr (table_name_ key) with
  | None => abort
  | Some idx => ret (default None (sync_master_partitions_ r !! idx))
  end.

(** [sync_master_partitions_[key]], which asserts partition 0: the index. *)
Definition master_index (key : PartitionInfo) : RM nat :=
  massert (partition_id_ key =? 0) ;;;
  match DbIdxFromStr (table_name_ key) with
  | None => abort
  | Some idx => ret idx
  end.

Definition GetSyncMasterPartitionByName (key : PartitionInfo) : RM (option Master) :=
  let* idx := master_index key in
  gets (λ r, default None (sync_master_partitions_ r !! idx)).

Definition put_master (key : PartitionInfo) (mp : option Master) : RM unit :=
  let* idx := master_index key in
  modify (λ r, set_masters (<[idx := mp]> (sync_master_partitions_ r)) r).

(** A method call on the master partition of [key]; a null one aborts. *)
Definition on_master {A} (key : PartitionInfo) (m : M Master A) : RM A :=
  let* mp := GetSyncMasterPartitionByName key in
  match mp with
  | None => abort
  | Some mp =>
      match m mp with
      | None => abort
      | Some (a, mp) => put_master key (Some mp) ;;; ret a
      end
  end.

Definition GetSyncSlavePartitionByName (key : PartitionInfo) (r : Rm) :
    option SyncSlavePartition := sync_slave_partitions_ r !! key.
Definition put_slave_partition (key : PartitionInfo) (sp : SyncSlavePartition) : RM unit :=
  modify (λ r, set_slaves (<[key := sp]> (sync_slave_partitions_ r)) r).

(** *** Adding and removing partitions *)

Fixpoint add_check_loop (p_infos : list PartitionInfo) : RM Status :=
  match p_infos with
  | [] => ret OK
  | p :: p_infos =>
      let* mp := find_master p in
      let* r := get in
      match mp, sync_slave_partitions_ r !! p with
      | None, None => add_check_loop p_infos
      | _, _ => ret (Corruption ("sync partition " +:+ pi_ToString p +:+ " exist"))
      end
  end.
Definition AddSyncPartitionSanityCheck : list PartitionInfo → RM Status := add_check_loop.

(** [new_master p]: the partition with its log; [now]: the clock. *)
Fixpoint add_loop (new_master : PartitionInfo → option Master) (now : Z)
    (p_infos : list PartitionInfo) : RM unit :=
  match p_infos with
  | [] => ret tt
  | p :: p_infos =>
      match new_master p with
      | None => abort
      | Some mp =>
          put_master p (Some mp) ;;;
          put_slave_partition p (SyncSlavePartition_new now (table_name_ p) (partition_id_ p)) ;;;
          add_loop new_master now p_infos
      end
  end.

Definition AddSyncPartition (new_master : PartitionInfo → option Master) (now : Z)
    (p_infos : list PartitionInfo) : RM Status :=
  let* s := AddSyncPartitionSanityCheck p_infos in
  if negb (ok s) then ret s else add_loop new_master now p_infos ;;; ret OK.

(** [InitPartition]: the partitions of every table. *)
Definition InitPartition (new_master : PartitionInfo → option Master) (now : Z)
    (table_structs : list (string * list Z)) : RM unit :=
  add_loop new_master now
    (concat ((λ t : string * list Z, mkPartitionInfo t.1 <$> t.2) <$> table_structs)).

Fixpoint remove_check_loop (p_infos : list PartitionInfo) : RM Status :=
  match p_infos with
  | [] => ret OK
  | p :: p_infos =>
      let* mp := find_master p in
      let* r := get in
      match mp, sync_slave_partitions_ r !! p with
      | Some _, Some sp =>
          let* mp := GetSyncMasterPartitionByName p in
          match mp with
          | None => abort
          | Some mp =>
              if negb (GetNumberOfSlaveNode mp =? 0) then
                ret (Corruption ("sync master partition " +:+ pi_ToString p +:+ " in syncing"))
              else if negb (bool_decide (State sp = kNoConnect))
                      && negb (bool_decide (State sp = kError)) then
                ret (Corruption ("sync slave partition " +:+ pi_ToString p +:+ " in "
                                 +:+ ReplStateMsg (State sp) +:+ " state"))
              else remove_check_loop p_infos
          end
      | _, _ => ret (Corruption ("sync partition " +:+ pi_ToString p +:+ " not found"))
      end
  end.
Definition RemoveSyncPartitionSanityCheck : list PartitionInfo → RM Status := remove_check_loop.

(** [StableLog::Leave], which closes the log and moves its directory away, is
    not modelled: the partition is gone with its view of the directory. *)
Fixpoint remove_loop (p_infos : list PartitionInfo) : RM unit :=
  match p_infos with
  | [] => ret tt
  | p :: p_infos =>
      put_master p None ;;;
      modify (λ r, set_slaves (delete p (sync_slave_partitions_ r)) r) ;;;
      remove_loop p_infos
  end.
Definition RemoveSyncPartition (p_infos : list PartitionInfo) : RM Status :=
  let* s := RemoveSyncPartitionSanityCheck p_infos in
  if negb (ok s) then ret s else remove_loop p_infos ;;; ret OK.

(** *** Slave partitions *)

Definition ActivateSyncSlavePartition (now : Z) (node : RmNode) (repl_state : ReplState) :
    RM Status :=
  let* r := get in
  let p := partition_info_ node in
  match sync_slave_partitions_ r !! p with
  | None => ret (NotFound ("Sync Slave partition " +:+ rm_ToString node +:+ " not found"))
  | Some sp =>
      if negb (bool_decide (State sp = kNoConnect)) && negb (bool_decide (State sp = kDBNoConnect))
      then ret (Corruption ("Sync Slave partition in " +:+ ReplStateMsg (State sp)))
      else
        let '(s, local_ip) := SelectLocalIp (ip_ node) (port_ node) (net_ r) in
        if ok s then
          put_slave_partition p (Activate now node repl_state (SetLocalIp local_ip sp)) ;;; ret s
        else ret s
  end.

Definition DeactivateSyncSlavePartition (p : PartitionInfo) : RM Status :=
  let* r := get in
  match sync_slave_partitions_ r !! p with
  | None => ret (NotFound ("Sync Slave partition " +:+ pi_ToString p))
  | Some sp => put_slave_partition p (Deactivate sp) ;;; ret OK
  end.

Definition SendRemoveSlaveNodeRequest (table : string) (partition_id : Z) : RM Status :=
  let* r := get in
  let p := mkPartitionInfo table partition_id in
  match sync_slave_partitions_ r !! p with
  | None => ret (NotFound ("Sync Slave partition " +:+ pi_ToString p))
  | Some sp =>
      let '(s, net) := SendRemoveSlaveNode (MasterIp sp) (MasterPort sp) table partition_id
                         (LocalIp sp) (net_ r) in
      modify (set_net net) ;;;
      (if ok s then put_slave_partition p (SetReplState kDBNoConnect sp) else ret tt) ;;;
      ret s
  end.

(** [PikaServer::GetTablePartitionBinlogOffset]. *)
Definition GetTablePartitionBinlogOffset (table_name : string) (partition_id : Z) :
    RM (option BinlogOffset) :=
  let* mp := GetSyncMasterPartitionByName (mkPartitionInfo table_name partition_id) in
  match mp with
  | None => ret None
  | Some mp =>
      let '(s, (num, off, _, _)) := Binlog.GetProducerStatus (mp_logger mp) in
      ret (if ok s then Some (mkBinlogOffset num off) else None)
  end.

(** [CheckSlavePartitionState]: whether to reconnect. *)
Definition CheckSlavePartitionState (ip : string) (port : Z) (r : Rm) : bool :=
  forallb (λ sp, negb (bool_decide (State sp = kDBNoConnect) && bool_decide (MasterIp sp = ip)
                       && (MasterPort sp + kPortShiftReplServer =? port)))
    (map_to_list (sync_slave_partitions_ r)).*2.

(** *** The master side: acknowledgements, wake-ups, timeouts *)

Definition UpdateSyncBinlogStatus (clock : nat → Z) (slave : RmNode)
    (range_start range_end : LogOffset) : RM Status :=
  let p := partition_info_ slave in
  let* mp := find_master p in
  match mp with
  | None => ret (NotFound (rm_ToString slave +:+ " not found"))
  | Some _ =>
      let* s := on_master p (ConsensusUpdateSlave conf (ip_ slave) (port_ slave)
                               range_start range_end) in
      if negb (ok s) then ret s else
      let* mp := GetSyncMasterPartitionByName p in
      let* r := get in
      match mp with
      | None => abort
      | Some mp =>
          match SyncBinlogToWq conf gfuel cfuel clock (ip_ slave) (port_ slave) mp (write_queues_ r) with
          | None => abort
          | Some (s, q, mp) =>
              modify (set_queues q) ;;;
              put_master p (Some mp) ;;;
              (if negb (ok s) then ret s else ret OK)
          end
      end
  end.

(** The loops over the master partitions that are there. *)
Fixpoint masters_loop (f : Master → Rm → option (Status * Master * Rm)) (todo : list nat)
  : RM Status :=
  match todo with
  | [] => ret OK
  | i :: todo =>
      let* r := get in
      match sync_master_partitions_ r !! i with
      | Some (Some mp) =>
          match f mp r with
          | None => abort
          | Some (s, mp, r) =>
              put (set_masters (<[i := Some mp]> (sync_master_partitions_ r)) r) ;;;
              if ok s then masters_loop f todo else ret s
          end
      | _ => masters_loop f todo
      end
  end.

Definition all_masters : list nat := seq 0 kMaxDbNum.

Definition WakeUpBinlogSync (clock : nat → Z) : RM Status :=
  masters_loop (λ mp r,
    match WakeUpSlaveBinlogSync conf gfuel cfuel clock mp (write_queues_ r) with
    | None => None
    | Some (s, q, mp) => Some (s, mp, set_queues q r)
    end) all_masters.

(** The slave loop of [CheckSyncTimeout]: the partitions, and the flag. *)
Definition check_slave_timeouts (now : Z) (r : Rm) : Rm :=
  let slaves := sync_slave_partitions_ r in
  let woken := existsb (λ sp, (sp_CheckSyncTimeout now sp).1.2) (map_to_list slaves).*2 in
  set_loop (loop_partition_state_machine_ r || woken)
    (set_slaves ((λ sp, (sp_CheckSyncTimeout now sp).2) <$> slaves) r).

Definition CheckSyncTimeout (now : Z) : RM Status :=
  masters_loop (λ mp r,
    let '(_, mp, q, net) :=
      mp_CheckSyncTimeout SendSlaveBinlogChips now mp (write_queues_ r) (net_ r) in
    Some (OK, mp, set_net net (set_queues q r))) all_masters ;;;
  modify (check_slave_timeouts now) ;;;
  ret OK.

(** The slave partitions that follow the lost node. *)
Definition drop_master (ip : string) (port : Z) (sp : SyncSlavePartition) : SyncSlavePartition :=
  if bool_decide (MasterIp sp = ip) && (MasterPort sp =? port) then Deactivate sp else sp.

Definition LostConnection (ip : string) (port : Z) : RM Status :=
  masters_loop (λ mp r,
    match mp_RemoveSlaveNode ip port mp with
    | None => None
    | Some (_, mp) => Some (OK, mp, r)
    end) all_masters ;;;
  modify (λ r, set_slaves (drop_master ip port <$> sync_slave_partitions_ r) r) ;;;
  ret OK.

(** *** Roles and reports *)

(** The status and [*role]. *)
Definition CheckPartitionRole (table : string) (partition_id : Z) : RM (Status * Z) :=
  let p := mkPartitionInfo table partition_id in
  let not_found := NotFound (table +:+ pretty partition_id +:+ " not found") in
  let* mp := find_master p in
  let* r := get in
  match mp, sync_slave_partitions_ r !! p with
  | Some _, Some sp =>
      let* mp := GetSyncMasterPartitionByName p in
      match mp with
      | None => abort
      | Some mp =>
          let n := GetNumberOfSlaveNode mp in
          let role := if negb (n =? 0) || ((n =? 0) && bool_decide (State sp = kNoConnect))
                      then Z.lor 0 PIKA_ROLE_MASTER else 0 in
          let role := if negb (bool_decide (State sp = kNoConnect))
                      then Z.lor role PIKA_ROLE_SLAVE else role in
          ret (OK, role)
      end
  | _, _ => ret (not_found, 0)
  end.

(** The status and [*info]. *)
Definition GetPartitionInfo (table : string) (partition_id : Z) (info : string) :
    RM (Status * string) :=
  let p := mkPartitionInfo table partition_id in
  let not_found := NotFound (table +:+ pretty partition_id +:+ " not found") in
  let* x := CheckPartitionRole table partition_id in
  let '(s, role) := x in
  if negb (ok s) then ret (s, info) else
  let is_master := negb (Z.land role PIKA_ROLE_MASTER =? 0) in
  let is_slave := negb (Z.land role PIKA_ROLE_SLAVE =? 0) in
  let* mp := find_master p in
  let* r := get in
  let '(s, info) :=
    if is_master then
      match mp with Some mp => mp_GetInfo conf info mp | None => (not_found, info) end
    else (OK, info) in
  if negb (ok s) then ret (s, info) else
  let info := if is_master && is_slave then info +:+ "  -----------" +:+ crlf else info in
  let '(s, info) :=
    if is_slave then
      match sync_slave_partitions_ r !! p with
      | Some sp => sp_GetInfo info sp
      | None => (not_found, info)
      end
    else (OK, info) in
  if negb (ok s) then ret (s, info) else ret (OK, info +:+ crlf).

Definition SyncTableSanityCheck (table_name : string) : RM Status :=
  let* r := get in
  let master_here := existsb (λ x : nat * option Master,
      match x.2 with
      | None => false
      | Some _ => bool_decide ("db" +:+ pretty x.1 = table_name)
      end) (imap pair (sync_master_partitions_ r)) in
  let slave_here := existsb (λ p, bool_decide (table_name_ p = table_name))
                      (map_to_list (sync_slave_partitions_ r)).*1 in
  ret (if master_here || slave_here then Corruption "sync partition exist" else OK).

(** The names of the replicas of all masters. *)
Definition replica_names (masters : list (option Master)) : list string :=
  concat ((λ mp, match mp with Some mp => GetValidSlaveNames mp | None => [] end) <$> masters).

(** [replica_slotnum]: how often each name occurs. *)
Definition replica_slotnum (names : list string) : gmap string nat :=
  foldl (λ m name, <[name := S (default 0%nat (m !! name))]> m) ∅ names.

(** [sync_master_partitions_.size()] is the length of the array. *)
Definition FindCompleteReplica (r : Rm) : list string :=
  (filter (λ e : string * nat, e.2 = length (sync_master_partitions_ r))
     (map_to_list (replica_slotnum (replica_names (sync_master_partitions_ r))))).*1.

(** The loop of [FindCommonMaster]; [None]: the early return. *)
Fixpoint common_loop (slaves : list SyncSlavePartition) (common_ip : string) (common_port : Z) :
    option (string * Z) :=
  match slaves with
  | [] => Some (common_ip, common_port)
  | sp :: slaves =>
      if negb (bool_decide (State sp = kConnected)) then None else
      let '(common_ip, common_port) :=
        if bool_decide (common_ip = "") && (common_port =? 0)
        then (MasterIp sp, MasterPort sp) else (common_ip, common_port) in
      if negb (bool_decide (MasterIp sp = common_ip)) || negb (MasterPort sp =? common_port)
      then None
      else common_loop slaves common_ip common_port
  end.

Definition FindCommonMaster (master : string) (r : Rm) : string :=
  match common_loop (map_to_list (sync_slave_partitions_ r)).*2 "" 0 with
  | None => master
  | Some (ip, port) =>
      if negb (bool_decide (ip = "")) && negb (port =? 0)
      then ip +:+ ":" +:+ pretty port else master
  end.
End ReplicaManager.
