(* ===== verification/ReplicaFacts.v ===== *)
(** * Properties of the replica manager

    Losing a connection clears it everywhere; which replicas count as complete;
    when the slave partitions have a common master. *)

From S2P Require Import Prelude Define Env Binlog BinlogReader Transverter Command SlaveNode.
From S2P Require Import Consensus StableLog Coordinator WriteQueue MasterPartition SlavePartition.
From S2P Require Import ReplicaManager.
From stdpp Require Import base list strings pretty gmap sorting.
From Stdlib Require Import ZArith Lia Init.Byte.
#[local] Open Scope string_scope.
#[local] Open Scope list_scope.
#[local] Open Scope Z_scope.

Section Facts.
Context {FS : Type} {E : SlashEnv FS} {C : FixedCoding} {SN : StringNum}.
Context {Cmd Conn Resp : Type} {CO : CmdOps Cmd} {Net : Type}.
Abbreviation Master := (@SyncMasterPartition FS Cmd Conn Resp).
Abbreviation Rm := (@Rm FS Cmd Conn Resp Net).
Implicit Types (r : Rm) (mp : Master).

(** ** Losing a connection *)

(** A loop whose body changes the master only. *)
Lemma masters_loop_spec (f : Master → Rm → option (Status * Master * Rm)) (g : Master → Master) :
  (∀ mp r, f mp r = Some (OK, g mp, r)) → ∀ todo r, NoDup todo →
  ∃ ms, masters_loop f todo r = Some (OK, set_masters ms r) ∧
    length ms = length (sync_master_partitions_ r) ∧
    ∀ i, ms !! i = if decide (i ∈ todo) then fmap g <$> sync_master_partitions_ r !! i
                   else sync_master_partitions_ r !! i.
Proof.
  intros Hf. induction todo as [|k todo IH]; intros r Hn; cbn [masters_loop].
  { exists (sync_master_partitions_ r). split; [by destruct r|done]. }
  apply NoDup_cons in Hn as [Hk Hn]. unfold bind at 1, get. cbn beta iota.
  destruct (sync_master_partitions_ r !! k) as [[mp|]|] eqn:Em.
  - rewrite Hf. unfold bind, put. cbn beta iota. cbn [ok].
    destruct (IH (set_masters (<[k:=Some (g mp)]> (sync_master_partitions_ r)) r) Hn) as (ms & -> & Hl & Hi).
    exists ms. cbn in Hl, Hi. rewrite length_insert in Hl. split_and!; [done|done|]. intros i. rewrite Hi.
    destruct (decide (i = k)) as [->|Hne].
    + rewrite decide_False by done. rewrite (decide_True (P := k ∈ k :: todo)) by by left.
      rewrite Em, list_lookup_insert_eq; [done|by eapply lookup_lt_Some].
    + rewrite list_lookup_insert_ne by done. apply decide_ext. rewrite elem_of_cons. clear -Hne. intuition congruence.
  - destruct (IH r Hn) as (ms & -> & Hl & Hi). exists ms. split_and!; [done|done|]. intros i. rewrite Hi.
    destruct (decide (i = k)) as [->|Hne].
    + rewrite Em. by repeat destruct (decide _).
    + apply decide_ext. rewrite elem_of_cons. clear -Hne. intuition congruence.
  - destruct (IH r Hn) as (ms & -> & Hl & Hi). exists ms. split_and!; [done|done|]. intros i. rewrite Hi.
    destruct (decide (i = k)) as [->|Hne].
    + rewrite Em. by repeat destruct (decide _).
    + apply decide_ext. rewrite elem_of_cons. clear -Hne. intuition congruence.
Qed.

(** A master without the slave. *)
Definition without_slave (ip : string) (port : Z) mp : Master :=
  set_coordinator (set_sync_pros (RemoveSlaveNode ip port (sync_pros_ (coordinator_ mp))).2
    (coordinator_ mp)) mp.

Lemma mp_RemoveSlaveNode_eq ip port mp :
  mp_RemoveSlaveNode ip port mp = Some (OK, without_slave ip port mp).
Proof. done. Qed.

(** A lost connection is forgotten everywhere: [LostConnection] always returns
    [OK]; afterwards no master has the slave, and every other slave is as before;
    exactly the slave partitions that followed the node are deactivated; the write
    queues are left to the caller. *)
Theorem LostConnection_clears ip port r :
  length (sync_master_partitions_ r) = kMaxDbNum →
  ∃ r', LostConnection ip port r = Some (OK, r') ∧
    (∀ i, sync_master_partitions_ r' !! i = fmap (without_slave ip port) <$> sync_master_partitions_ r !! i) ∧
    (∀ i mp', sync_master_partitions_ r' !! i = Some (Some mp') →
       mp_GetSlaveNode ip port mp' = None) ∧
    (∀ p, sync_slave_partitions_ r' !! p =
       (λ sp, if decide (MasterIp sp = ip ∧ MasterPort sp = port) then Deactivate sp else sp)
         <$> sync_slave_partitions_ r !! p) ∧
    write_queues_ r' = write_queues_ r.
Proof.
  intros Hlen. unfold LostConnection, bind at 1.
  destruct (masters_loop_spec (λ mp r, match mp_RemoveSlaveNode ip port mp with
      | None => None | Some (_, mp) => Some (OK, mp, r) end) (without_slave ip port)
      ltac:(done) all_masters r (NoDup_seq _ _)) as (ms & -> & Hl & Hi).
  assert (∀ i, ms !! i = fmap (without_slave ip port) <$> sync_master_partitions_ r !! i) as Hms.
  { intros i. rewrite Hi. destruct (decide (i ∈ all_masters)) as [|Hn]; [done|].
    assert (sync_master_partitions_ r !! i = None) as ->; [|done].
    apply lookup_ge_None. rewrite Hlen. unfold all_masters in Hn. rewrite elem_of_seq in Hn. lia. }
  unfold bind, modify, ret. eexists. split; [done|]. cbn. split_and!; [exact Hms| | |done].
  - intros i mp' Hm. rewrite Hms in Hm. destruct (sync_master_partitions_ r !! i) as [[mp|]|]; try done.
    injection Hm as <-. unfold mp_GetSlaveNode, GetSlaveNode. cbn. apply lookup_delete_eq.
  - intros p. rewrite lookup_fmap. destruct (sync_slave_partitions_ r !! p) as [sp|]; [|done]. cbn. f_equal.
    unfold drop_master. destruct (decide (MasterIp sp = ip ∧ MasterPort sp = port)) as [[H1 H2]|Hn].
    + rewrite bool_decide_eq_true_2, (proj2 (Z.eqb_eq _ _)) by done. done.
    + case_bool_decide; [|done]. destruct (Z.eqb_spec (MasterPort sp) port); [by destruct Hn|done].
Qed.

(** ** Complete replicas *)

Definition occurrences (x : string) (l : list string) : nat := length (filter (λ y, y = x) l).

Lemma slotnum_lookup l x : ∀ m : gmap string nat,
  foldl (λ m name, <[name := S (default 0%nat (m !! name))]> m) m l !! x =
    if decide (x ∈ l) then Some (default 0%nat (m !! x) + occurrences x l)%nat else m !! x.
Proof.
  induction l as [|y l IH]; intros m; cbn [foldl]; [done|]. rewrite IH. unfold occurrences.
  destruct (decide (y = x)) as [->|Hne].
  - rewrite lookup_insert_eq, filter_cons_True, (decide_True (P := x ∈ x :: l)) by (done || by left).
    cbn. destruct (decide (x ∈ l)) as [|Hn]; [f_equal; lia|].
    assert (filter (λ y, y = x) l = []) as ->; [|f_equal; cbn; lia].
    destruct (filter (λ y, y = x) l) as [|z k] eqn:Ez; [done|].
    assert (z ∈ filter (λ y, y = x) l) as Hz by (rewrite Ez; by left).
    apply list_elem_of_filter in Hz as [-> Hz]. done.
  - rewrite lookup_insert_ne, filter_cons_False by done. apply decide_ext.
    rewrite elem_of_cons. clear -Hne. intuition congruence.
Qed.

Definition names_of (o : option Master) : list string :=
  match o with Some mp => GetValidSlaveNames mp | None => [] end.

Lemma occurrences_NoDup x l : NoDup l → occurrences x l = if decide (x ∈ l) then 1%nat else 0%nat.
Proof.
  intros Hn. unfold occurrences. induction Hn as [|y l Hy Hn IH]; [done|].
  destruct (decide (y = x)) as [->|Hne].
  - rewrite filter_cons_True by done. cbn. rewrite IH, decide_False by done.
    by rewrite decide_True by by left.
  - rewrite filter_cons_False, IH by done. apply decide_ext. rewrite elem_of_cons. clear -Hne. intuition congruence.
Qed.

Lemma occurrences_concat x (ms : list (option Master)) : Forall (λ o, NoDup (names_of o)) ms →
  (occurrences x (concat (names_of <$> ms)) ≤ length ms)%nat ∧
  (occurrences x (concat (names_of <$> ms)) = length ms ↔ Forall (λ o, x ∈ names_of o) ms).
Proof.
  induction 1 as [|o ms Hn _ [IH1 IH2]]; cbn [fmap list_fmap concat length].
  { split; [cbn; lia|]. split; [constructor|done]. }
  unfold occurrences in *. rewrite filter_app, length_app. fold (occurrences x (names_of o)).
  rewrite occurrences_NoDup, Forall_cons by done.
  destruct (decide (x ∈ names_of o)); [|split; [lia|]; split; [lia|tauto]].
  split; [lia|]. rewrite <- IH2. split; [intros; split; [done|lia]|intros [_ ?]; lia].
Qed.

(** A replica counts as complete only if it is synced in all [kMaxDbNum]
    databases, whether they exist or not: [FindCompleteReplica] compares with the
    size of the array.  So with fewer databases it finds none. *)
Theorem FindCompleteReplica_spec r x :
  length (sync_master_partitions_ r) = kMaxDbNum →
  Forall (λ o, NoDup (match o with Some mp => GetValidSlaveNames mp | None => [] end))
    (sync_master_partitions_ r) →
  (x ∈ FindCompleteReplica r ↔
     Forall (λ o, match o with Some mp => x ∈ GetValidSlaveNames mp | None => False end)
       (sync_master_partitions_ r)) ∧
  (None ∈ sync_master_partitions_ r → FindCompleteReplica r = []).
Proof.
  intros Hlen Hnd. assert (∀ x, x ∈ FindCompleteReplica r ↔
     Forall (λ o, match o with Some mp => x ∈ GetValidSlaveNames mp | None => False end)
       (sync_master_partitions_ r)) as Hiff.
  { clear x. intros x. unfold FindCompleteReplica, replica_slotnum, replica_names.
    fold names_of. change (λ mp : option Master, match mp with
      | Some mp0 => GetValidSlaveNames mp0 | None => [] end) with names_of.
    destruct (occurrences_concat x _ Hnd) as [Hle Hall]. rewrite list_elem_of_fmap.
    transitivity (Forall (λ o, x ∈ names_of o) (sync_master_partitions_ r)).
    - rewrite <- Hall. split.
      + intros ([y n] & -> & Hin). apply list_elem_of_filter in Hin as [Hn Hin]. cbn in Hn |- *.
        apply elem_of_map_to_list in Hin. rewrite slotnum_lookup in Hin.
        rewrite lookup_empty in Hin. cbn [default] in Hin.
        destruct (decide _) in Hin; [|done]. injection Hin as Hin. cbn in Hin. lia.
      + intros Hn. exists (x, length (sync_master_partitions_ r)). split; [done|].
        apply list_elem_of_filter. split; [done|]. apply elem_of_map_to_list.
        rewrite slotnum_lookup, lookup_empty, decide_True; [cbn; by rewrite Hn|].
        destruct (decide (x ∈ concat (names_of <$> sync_master_partitions_ r))) as [|Hx]; [done|].
        exfalso. unfold occurrences in Hn.
        destruct (filter (λ y, y = x) _) as [|z k] eqn:Ez; [cbn in Hn; by rewrite Hlen in Hn|].
        assert (z ∈ filter (λ y, y = x) (concat (names_of <$> sync_master_partitions_ r))) as Hz
          by (rewrite Ez; by left). apply list_elem_of_filter in Hz as [-> Hz]. done.
    - split; intros Hx; eapply Forall_impl; try exact Hx; intros [mp|]; cbn; try done.
      by intros ?%elem_of_nil. }
  split; [apply Hiff|]. intros Hnone. destruct (FindCompleteReplica r) as [|y l]; [done|].
  assert (y ∈ y :: l) as Hy by by left. apply Hiff in Hy.
  by eapply Forall_forall in Hy; [|exact Hnone].
Qed.

(** ** The common master *)

Definition follows (ip : string) (port : Z) (sp : SyncSlavePartition) : Prop :=
  State sp = kConnected ∧ MasterIp sp = ip ∧ MasterPort sp = port.

#[export] Instance follows_dec ip port sp : Decision (follows ip port sp).
Proof. unfold follows. apply _. Defined.

(** Once a master is chosen, the loop checks the others against it. *)
Lemma common_loop_chosen ip port l : ip ≠ "" →
  common_loop l ip port = if decide (Forall (follows ip port) l) then Some (ip, port) else None.
Proof.
  intros Hip. induction l as [|sp l IH]; cbn [common_loop]; [done|].
  rewrite (bool_decide_eq_false_2 (ip = "")) by done. cbn [andb]. rewrite IH.
  destruct (decide (follows ip port sp)) as [(H1 & H2 & H3)|Hn].
  - rewrite !bool_decide_eq_true_2, (proj2 (Z.eqb_eq _ _)) by done. cbn [negb orb].
    apply decide_ext. rewrite Forall_cons. split; [intros; split; [by split_and!|done]|tauto].
  - rewrite (decide_False (P := Forall _ (sp :: l))) by (rewrite Forall_cons; tauto).
    case_bool_decide; [|done]. case_bool_decide; [|done].
    destruct (Z.eqb_spec (MasterPort sp) port); [|done]. destruct Hn. by split_and!.
Qed.

(** The common master: [FindCommonMaster] names a node exactly when there is
    a slave partition and all of them are connected to that node; otherwise it
    leaves its result alone. *)
Theorem FindCommonMaster_spec master r :
  (∀ sp, sp ∈ (map_to_list (sync_slave_partitions_ r)).*2 → MasterIp sp ≠ "" ∧ MasterPort sp ≠ 0) →
  (∀ ip port, sync_slave_partitions_ r ≠ ∅ →
     map_Forall (λ _ sp, follows ip port sp) (sync_slave_partitions_ r) →
     FindCommonMaster master r = ip +:+ ":" +:+ pretty port) ∧
  ((∀ ip port, ¬ map_Forall (λ _ sp, follows ip port sp) (sync_slave_partitions_ r)) ∨
     sync_slave_partitions_ r = ∅ → FindCommonMaster master r = master).
Proof.
  intros Hne. unfold FindCommonMaster.
  assert (∀ ip port, map_Forall (λ _ sp, follows ip port sp) (sync_slave_partitions_ r) ↔
    Forall (follows ip port) (map_to_list (sync_slave_partitions_ r)).*2) as Hall.
  { intros ip port. rewrite map_Forall_to_list, Forall_fmap. apply Forall_iff. by intros [k sp]. }
  assert (sync_slave_partitions_ r = ∅ ↔ (map_to_list (sync_slave_partitions_ r)).*2 = []) as He.
  { split; [intros ->; by rewrite map_to_list_empty|]. intros Hn. apply map_to_list_empty_iff.
    by apply fmap_nil_inv in Hn. }
  setoid_rewrite Hall. clear Hall.
  destruct ((map_to_list (sync_slave_partitions_ r)).*2) as [|sp l].
  { split; [intros ip port Hx; destruct Hx; by apply He|done]. }
  destruct (Hne sp) as [Hip Hport]; [by left|]. cbn [common_loop].
  destruct (decide (State sp = kConnected)) as [Hst|Hst].
  2:{ rewrite bool_decide_eq_false_2 by done. split; [|done].
      intros ip port _ Hf. by apply Forall_cons in Hf as [[? _] _]. }
  rewrite bool_decide_eq_true_2 by done. cbn [negb].
  rewrite (bool_decide_eq_true_2 ("" = "")) by done. cbn [andb Z.eqb].
  rewrite (bool_decide_eq_true_2 (MasterIp sp = MasterIp sp)), Z.eqb_refl by done. cbn [negb orb].
  rewrite common_loop_chosen by done. split.
  - intros ip port _ Hf. apply Forall_cons in Hf as [(_ & <- & <-) Hf]. rewrite decide_True by done.
    rewrite bool_decide_eq_false_2 by done. cbn [negb andb].
    by rewrite (proj2 (Z.eqb_neq _ _)) by done.
  - intros [Hn|Hx]; [|by apply He in Hx]. rewrite decide_False; [done|]. intros Hf.
    apply (Hn (MasterIp sp) (MasterPort sp)). by constructor.
Qed.
End Facts.

(** ** Examples *)

Abbreviation NoRm := (@Rm unit unit unit unit unit).

Definition follower0 : SyncSlavePartition :=
  mkSlave (mkPartitionInfo "db0" 0) (RmNode_new "10.0.0.9" 9221 "db0" 0 1) kConnected "10.0.0.1".
Definition rm0 : NoRm :=
  mkRm (replicate kMaxDbNum None) {[ mkPartitionInfo "db0" 0 := follower0 ]} ∅ false tt.

Lemma LostConnection_clears_witness : ∃ r',
  LostConnection "10.0.0.9" 9221 rm0 = Some (OK, r') ∧
  sync_slave_partitions_ r' !! mkPartitionInfo "db0" 0 = Some (Deactivate follower0).
Proof.
  destruct (LostConnection_clears "10.0.0.9" 9221 rm0) as (r' & H & _ & _ & Hs & _); [reflexivity|].
  exists r'. split; [exact H|]. rewrite Hs. vm_compute. reflexivity.
Defined.

Lemma FindCompleteReplica_spec_witness : FindCompleteReplica rm0 = [].
Proof.
  apply (FindCompleteReplica_spec rm0 "10.0.0.1:9221").
  - reflexivity.
  - repeat (apply Forall_cons; split; [apply NoDup_nil; exact I|]). constructor.
  - apply elem_of_cons. left. reflexivity.
Defined.

Lemma FindCommonMaster_spec_witness : FindCommonMaster "" rm0 = "10.0.0.9:9221".
Proof.
  apply (FindCommonMaster_spec "" rm0) with (ip := "10.0.0.9") (port := 9221).
  - intros sp Hsp. vm_compute in Hsp. apply elem_of_cons in Hsp as [->|Hsp];
      [split; discriminate|by apply elem_of_nil in Hsp].
  - apply map_non_empty_singleton.
  - apply map_Forall_singleton. split_and!; reflexivity.
Defined.
