(* ===== verification/Geohash.v ===== *)
(** * Geohash cells (src/pika_geohash.cc/.h, src/pika_geohash_helper.cc, src/pika_geo.cc)

    The integer part of the geo commands: a position is a cell of a grid of
    [2^step] rows (latitude) and columns (longitude), its hash the two numbers
    with their bits interleaved.  The geometry in [double] (which cell a position
    falls in, distances) is in [GeoCoord]; where the search uses it, it is a
    parameter here. *)

From S2P Require Import Prelude.
From stdpp Require Import base list.
From Stdlib Require Import ZArith Lia.
#[local] Open Scope list_scope.
#[local] Open Scope Z_scope.

(** ** The code *)

Record GeoHashBits := mkHash { bits : Z; step : Z }.
#[export] Instance GeoHashBits_eq_dec : EqDecision GeoHashBits.
Proof. solve_decision. Defined.

Definition HASHISZERO (h : GeoHashBits) : bool := (bits h =? 0) && (step h =? 0).

(** One stage of the spreading, on [uint64_t]: [(x | (x << s)) & b]. *)
Definition spread_stage (x s b : Z) : Z := Z.land (Z.lor x (u64 (Z.shiftl x s))) b.
(** One stage of the gathering: [(x | (x >> s)) & b]. *)
Definition gather_stage (x s b : Z) : Z := Z.land (Z.lor x (Z.shiftr x s)) b.

(** What [interleave64] does to each of [x] and [y]. *)
Definition spread64 (x : Z) : Z :=
  let x := spread_stage x 16 0x0000FFFF0000FFFF in
  let x := spread_stage x 8 0x00FF00FF00FF00FF in
  let x := spread_stage x 4 0x0F0F0F0F0F0F0F0F in
  let x := spread_stage x 2 0x3333333333333333 in
  spread_stage x 1 0x5555555555555555.

Definition interleave64 (xlo ylo : Z) : Z :=
  Z.lor (spread64 xlo) (u64 (Z.shiftl (spread64 ylo) 1)).

(** What [deinterleave64] does to each of [x] and [y]. *)
Definition gather64 (x : Z) : Z :=
  let x := gather_stage x 0 0x5555555555555555 in
  let x := gather_stage x 1 0x3333333333333333 in
  let x := gather_stage x 2 0x0F0F0F0F0F0F0F0F in
  let x := gather_stage x 4 0x00FF00FF00FF00FF in
  let x := gather_stage x 8 0x0000FFFF0000FFFF in
  gather_stage x 16 0x00000000FFFFFFFF.

Definition deinterleave64 (interleaved : Z) : Z :=
  let x := gather64 interleaved in
  let y := gather64 (Z.shiftr interleaved 1) in
  Z.lor x (u64 (Z.shiftl y 32)).

(** The two indices [geohashDecode] takes from a hash: [ilato] and [ilono]. *)
Definition decode_indices (h : GeoHashBits) : Z * Z :=
  let hash_sep := deinterleave64 (bits h) in
  (u32 hash_sep, u32 (Z.shiftr hash_sep 32)).

Definition evens : Z := 0x5555555555555555.
Definition odds : Z := 0xaaaaaaaaaaaaaaaa.

(** Shifting by 64 ([step] 0, which no encoded hash has) is undefined in the
    source. *)
Definition geohash_move_x (d : Z) (h : GeoHashBits) : GeoHashBits :=
  if d =? 0 then h else
  let x := Z.land (bits h) odds in
  let y := Z.land (bits h) evens in
  let zz := Z.shiftr evens (64 - step h * 2) in
  let x := if d >? 0 then u64 (x + (zz + 1)) else u64 (Z.lor x zz - (zz + 1)) in
  let x := Z.land x (Z.shiftr odds (64 - step h * 2)) in
  mkHash (Z.lor x y) (step h).

Definition geohash_move_y (d : Z) (h : GeoHashBits) : GeoHashBits :=
  if d =? 0 then h else
  let x := Z.land (bits h) odds in
  let y := Z.land (bits h) evens in
  let zz := Z.shiftr odds (64 - step h * 2) in
  let y := if d >? 0 then u64 (y + (zz + 1)) else u64 (Z.lor y zz - (zz + 1)) in
  let y := Z.land y (Z.shiftr evens (64 - step h * 2)) in
  mkHash (Z.lor x y) (step h).

Record GeoHashNeighbors := mkNeighbors {
  north : GeoHashBits; east : GeoHashBits; west : GeoHashBits; south : GeoHashBits;
  north_east : GeoHashBits; south_east : GeoHashBits;
  north_west : GeoHashBits; south_west : GeoHashBits }.

Definition geohashNeighbors (h : GeoHashBits) : GeoHashNeighbors := {|
  east := geohash_move_y 0 (geohash_move_x 1 h);
  west := geohash_move_y 0 (geohash_move_x (-1) h);
  south := geohash_move_y (-1) (geohash_move_x 0 h);
  north := geohash_move_y 1 (geohash_move_x 0 h);
  north_west := geohash_move_y 1 (geohash_move_x (-1) h);
  north_east := geohash_move_y 1 (geohash_move_x 1 h);
  south_east := geohash_move_y (-1) (geohash_move_x 1 h);
  south_west := geohash_move_y (-1) (geohash_move_x (-1) h) |}.

(** The score of the first position of a cell. *)
Definition geohashAlign52Bits (h : GeoHashBits) : Z :=
  u64 (Z.shiftl (bits h) (52 - step h * 2)).

(** [neighbors[i].bits++]. *)
Definition next_cell (h : GeoHashBits) : GeoHashBits := mkHash (u64 (bits h + 1)) (step h).

(** The score ranges of the radius search (the loop of [GetAllNeighbors]), with
    the sorted set of the key and the distance check as parameters:
    [ZRangebyscore min max], bounds included, gives members and scores, or the error
    the command ends with; [IfInRadius score] the distance of
    a score that is within the radius. *)
Section Search.
Context {Member Distance E : Type}.
Context (ZRangebyscore : Z → Z → E + list (Member * Z)) (IfInRadius : Z → option Distance).

Definition in_radius (p : Member * Z) : option (Member * Z * Distance) :=
  (λ d, (p.1, p.2, d)) <$> IfInRadius p.2.

(** The loop over the cells: [i] the index, [last] the last processed index and
    its cell (already incremented). *)
Fixpoint search_loop (i : nat) (last : nat * GeoHashBits) (cells : list GeoHashBits) :
    E + list (Member * Z * Distance) :=
  match cells with
  | [] => inr []
  | h :: cells =>
      if HASHISZERO h then search_loop (S i) last cells
      else
        let min := geohashAlign52Bits h in
        let h' := next_cell h in
        let max := geohashAlign52Bits h' in
        if negb (last.1 =? 0)%nat && bool_decide (h' = last.2)
        then search_loop (S i) last cells
        else
          match ZRangebyscore min max with
          | inl e => inl e
          | inr score_members =>
              match search_loop (S i) (i, h') cells with
              | inl e => inl e
              | inr result => inr (omap in_radius score_members ++ result)
              end
          end
  end.

(** The cells in the order of the array, the centre first. *)
Definition search_cells (h : GeoHashBits) (n : GeoHashNeighbors) : list GeoHashBits :=
  [h; north n; south n; east n; west n; north_east n; north_west n; south_east n; south_west n].

Definition search (h : GeoHashBits) (n : GeoHashNeighbors) : E + list (Member * Z * Distance) :=
  search_loop 0 (0%nat, h) (search_cells h n).
End Search.

(** ** Functions that are determined by their values on single bits *)

Class OrLinear (f : Z → Z) : Prop := {
  or_linear_0 : f 0 = 0;
  or_linear_lor a b : f (Z.lor a b) = Z.lor (f a) (f b) }.

Lemma u64_land z : u64 z = Z.land z (Z.ones 64).
Proof. by rewrite Z.land_ones. Qed.

#[export] Instance or_linear_id : OrLinear (λ x, x).
Proof. done. Qed.
#[export] Instance or_linear_comp_land f m : OrLinear f → OrLinear (λ x, Z.land (f x) m).
Proof. intros [H0 H]. split; [by rewrite H0|]. intros. by rewrite H, Z.land_lor_distr_l. Qed.
#[export] Instance or_linear_comp_u64 f : OrLinear f → OrLinear (λ x, u64 (f x)).
Proof.
  intros [H0 H]. split; [by rewrite H0|]. intros. by rewrite H, !u64_land, Z.land_lor_distr_l.
Qed.
#[export] Instance or_linear_comp_shiftl f n : OrLinear f → OrLinear (λ x, Z.shiftl (f x) n).
Proof.
  intros [H0 H]. split; [by rewrite H0, Z.shiftl_0_l|]. intros. by rewrite H, Z.shiftl_lor.
Qed.
#[export] Instance or_linear_comp_shiftr f n : OrLinear f → OrLinear (λ x, Z.shiftr (f x) n).
Proof.
  intros [H0 H]. split; [by rewrite H0, Z.shiftr_0_l|]. intros. by rewrite H, Z.shiftr_lor.
Qed.
#[export] Instance or_linear_comp_lor f g :
  OrLinear f → OrLinear g → OrLinear (λ x, Z.lor (f x) (g x)).
Proof.
  intros [H0 H] [K0 K]. split; [by rewrite H0, K0|]. intros a b. rewrite H, K.
  apply Z.bits_inj'. intros i _. rewrite !Z.lor_spec. by repeat destruct (Z.testbit _ i).
Qed.

(** [x] below [2 ^ (n + 1)] is its low bits and perhaps [2 ^ n]. *)
Lemma top_bit (n : nat) x :
  0 ≤ x < 2 ^ Z.of_nat (S n) →
  x = Z.lor (x mod 2 ^ Z.of_nat n) (if Z.testbit x (Z.of_nat n) then 2 ^ Z.of_nat n else 0).
Proof.
  intros Hx. apply Z.bits_inj'. intros i Hi. rewrite Z.lor_spec, Z.testbit_mod_pow2 by lia.
  assert (Z.testbit (if Z.testbit x (Z.of_nat n) then 2 ^ Z.of_nat n else 0) i
          = Z.testbit x (Z.of_nat n) && (Z.of_nat n =? i)) as ->.
  { destruct (Z.testbit x (Z.of_nat n)); [apply Z.pow2_bits_eqb; lia|apply Z.testbit_0_l]. }
  destruct (Z.ltb_spec i (Z.of_nat n)); [|destruct (Z.eqb_spec (Z.of_nat n) i) as [<-|]].
  - rewrite (proj2 (Z.eqb_neq _ _)) by lia. by rewrite andb_false_r, orb_false_r.
  - by rewrite andb_true_r.
  - rewrite andb_false_r. cbn. destruct (decide (x = 0)) as [->|]; [apply Z.testbit_0_l|].
    apply Z.bits_above_log2; [lia|]. apply Z.log2_lt_pow2; [lia|].
    apply (Z.lt_le_trans _ (2 ^ Z.of_nat (S n))); [lia|]. apply Z.pow_le_mono_r; lia.
Qed.

Lemma or_linear_ext (n : nat) f g `{!OrLinear f, !OrLinear g} :
  forallb (λ i : nat, f (2 ^ Z.of_nat i) =? g (2 ^ Z.of_nat i)) (seq 0 n) = true →
  ∀ x, 0 ≤ x < 2 ^ Z.of_nat n → f x = g x.
Proof.
  rewrite forallb_forall. setoid_rewrite Z.eqb_eq. intros Hb.
  assert (∀ k, (k ≤ n)%nat → ∀ x, 0 ≤ x < 2 ^ Z.of_nat k → f x = g x) as H; [|by apply H].
  induction k as [|k IH]; intros Hk x Hx.
  - assert (x = 0) as -> by (change (2 ^ Z.of_nat 0) with 1 in Hx; lia). by rewrite !or_linear_0.
  - rewrite (top_bit k x Hx), !or_linear_lor. f_equal.
    + apply IH; [lia|]. apply Z.mod_pos_bound. lia.
    + destruct (Z.testbit x (Z.of_nat k)); [|by rewrite !or_linear_0].
      apply Hb, in_seq. lia.
Qed.

#[export] Instance spread64_or_linear f : OrLinear f → OrLinear (λ x, spread64 (f x)).
Proof. intros. unfold spread64, spread_stage. apply _. Qed.
#[export] Instance gather64_or_linear f : OrLinear f → OrLinear (λ x, gather64 (f x)).
Proof. intros. unfold gather64, gather_stage. apply _. Qed.
#[export] Instance interleave64_or_linear f g :
  OrLinear f → OrLinear g → OrLinear (λ x, interleave64 (f x) (g x)).
Proof. intros. unfold interleave64. apply _. Qed.
#[export] Instance deinterleave64_or_linear f : OrLinear f → OrLinear (λ x, deinterleave64 (f x)).
Proof. intros. unfold deinterleave64. apply _. Qed.

(** ** Numbers in base 4 *)

Lemma testbit_base4 d r i :
  0 ≤ d < 4 → 0 ≤ i →
  Z.testbit (d + 4 * r) i = if i <? 2 then Z.testbit d i else Z.testbit r (i - 2).
Proof.
  intros Hd Hi. destruct (Z.ltb_spec i 2).
  - rewrite <-(Z.mod_pow2_bits_low (d + 4 * r) 2 i) by lia. f_equal.
    change 4 with (2 ^ 2). rewrite Z.mul_comm, Z.mod_add by lia. by apply Z.mod_small.
  - replace i with ((i - 2) + 2) at 1 by lia. rewrite <-Z.div_pow2_bits by lia. f_equal.
    change 4 with (2 ^ 2). rewrite Z.mul_comm, Z.div_add by lia. rewrite Z.div_small by lia. done.
Qed.

Lemma land_base4 d e r s :
  0 ≤ d < 4 → 0 ≤ e < 4 →
  Z.land (d + 4 * r) (e + 4 * s) = Z.land d e + 4 * Z.land r s.
Proof.
  intros Hd He. assert (0 ≤ Z.land d e < 4) as Hde.
  { assert (d = 0 ∨ d = 1 ∨ d = 2 ∨ d = 3) as [-> | [-> | [-> | ->]]] by lia;
    assert (e = 0 ∨ e = 1 ∨ e = 2 ∨ e = 3) as [-> | [-> | [-> | ->]]] by lia; vm_compute; split; congruence. }
  apply Z.bits_inj'. intros i Hi. rewrite Z.land_spec, !testbit_base4, !Z.land_spec by done.
  by destruct (i <? 2).
Qed.

Lemma lor_base4 d e r s :
  0 ≤ d < 4 → 0 ≤ e < 4 →
  Z.lor (d + 4 * r) (e + 4 * s) = Z.lor d e + 4 * Z.lor r s.
Proof.
  intros Hd He. assert (0 ≤ Z.lor d e < 4) as Hde.
  { assert (d = 0 ∨ d = 1 ∨ d = 2 ∨ d = 3) as [-> | [-> | [-> | ->]]] by lia;
    assert (e = 0 ∨ e = 1 ∨ e = 2 ∨ e = 3) as [-> | [-> | [-> | ->]]] by lia; vm_compute; split; congruence. }
  apply Z.bits_inj'. intros i Hi. rewrite Z.lor_spec, !testbit_base4, !Z.lor_spec by done.
  by destruct (i <? 2).
Qed.

(** ** The reference: interleaving bit by bit *)

(** The [n] low bits of [x] at the even positions. *)
Fixpoint spread_ref (n : nat) (x : Z) : Z :=
  match n with
  | O => 0
  | S n => Z.b2z (Z.odd x) + 4 * spread_ref n (x / 2)
  end.

(** The [n] low bits of [x] and of [y] in turns, [x] first. *)
Fixpoint interleave_ref (n : nat) (x y : Z) : Z :=
  match n with
  | O => 0
  | S n => Z.b2z (Z.odd x) + 2 * Z.b2z (Z.odd y) + 4 * interleave_ref n (x / 2) (y / 2)
  end.

Lemma interleave_ref_spread n : ∀ x y,
  interleave_ref n x y = spread_ref n x + 2 * spread_ref n y.
Proof. induction n as [|n IH]; intros x y; cbn [interleave_ref spread_ref]; [done|]. rewrite IH. lia. Qed.

Lemma b2z_01 b : 0 ≤ Z.b2z b < 2.
Proof. by destruct b. Qed.
#[local] Hint Resolve b2z_01 : core.

Lemma spread_ref_range n : ∀ x, 0 ≤ spread_ref n x ∧ 3 * spread_ref n x < 4 ^ Z.of_nat n.
Proof.
  induction n as [|n IH]; intros x; cbn [spread_ref]; [done|].
  specialize (IH (x / 2)). pose proof (b2z_01 (Z.odd x)).
  rewrite Nat2Z.inj_succ, Z.pow_succ_r by lia. lia.
Qed.

#[export] Instance spread_ref_or_linear n : OrLinear (spread_ref n).
Proof.
  induction n as [|n [IH0 IH]]; split; cbn [spread_ref]; try done.
  - change (Z.b2z (Z.odd 0) + 4 * spread_ref n 0 = 0). by rewrite IH0.
  - intros a b. rewrite <-!Z.div2_div, Z.div2_spec, Z.shiftr_lor, IH, <-!Z.div2_spec.
    rewrite lor_base4 by (split; [apply b2z_01|apply (Z.lt_trans _ 2); [apply b2z_01|done]]).
    f_equal. rewrite <-!Z.bit0_odd, Z.lor_spec. by repeat destruct (Z.testbit _ 0).
Qed.

Lemma spread64_ref x : 0 ≤ x < 2 ^ 32 → spread64 x = spread_ref 32 x.
Proof. apply (or_linear_ext 32 (λ x, spread64 x) (spread_ref 32)). by vm_compute. Qed.

Lemma spread_evens_odds n : ∀ x y, Z.land (spread_ref n x) (2 * spread_ref n y) = 0.
Proof.
  induction n as [|n IH]; intros x y; cbn [spread_ref]; [done|].
  replace (2 * (Z.b2z (Z.odd y) + 4 * spread_ref n (y / 2)))
    with (2 * Z.b2z (Z.odd y) + 4 * (2 * spread_ref n (y / 2))) by lia.
  pose proof (b2z_01 (Z.odd x)). pose proof (b2z_01 (Z.odd y)).
  rewrite land_base4, IH by lia. by destruct (Z.odd x), (Z.odd y).
Qed.

Lemma lor_spread n x y :
  Z.lor (spread_ref n x) (2 * spread_ref n y) = spread_ref n x + 2 * spread_ref n y.
Proof. rewrite Z.add_nocarry_lxor, Z.lxor_lor by apply spread_evens_odds. done. Qed.

Lemma interleave64_ref x y :
  0 ≤ x < 2 ^ 32 → 0 ≤ y < 2 ^ 32 → interleave64 x y = interleave_ref 32 x y.
Proof.
  intros Hx Hy. unfold interleave64. rewrite !spread64_ref by done.
  rewrite Z.shiftl_mul_pow2, Z.mul_comm by done. change (2 ^ 1) with 2.
  pose proof (spread_ref_range 32 y) as Hr. change (4 ^ Z.of_nat 32) with (2 ^ 64) in Hr.
  rewrite u64_small, lor_spread by lia. by rewrite interleave_ref_spread.
Qed.

(** ** Gathering undoes spreading *)

Lemma u32_land z : u32 z = Z.land z (Z.ones 32).
Proof. by rewrite Z.land_ones. Qed.

#[export] Instance or_linear_comp_u32 f : OrLinear f → OrLinear (λ x, u32 (f x)).
Proof.
  intros [H0 H]. split; [by rewrite H0|]. intros. by rewrite H, !u32_land, Z.land_lor_distr_l.
Qed.
#[export] Instance or_linear_zero : OrLinear (λ _, 0).
Proof. done. Qed.

(** The part of the hash of each index. *)
Lemma deinterleave64_low x : 0 ≤ x < 2 ^ 32 → deinterleave64 (spread64 x) = x.
Proof. apply (or_linear_ext 32 (λ x, deinterleave64 (spread64 x)) (λ x, x)). by vm_compute. Qed.
Lemma deinterleave64_high y :
  0 ≤ y < 2 ^ 32 → deinterleave64 (u64 (Z.shiftl (spread64 y) 1)) = Z.shiftl y 32.
Proof.
  apply (or_linear_ext 32 (λ y, deinterleave64 (u64 (Z.shiftl (spread64 y) 1)))
           (λ y, Z.shiftl y 32)). by vm_compute.
Qed.

Lemma deinterleave_interleave x y :
  0 ≤ x < 2 ^ 32 → 0 ≤ y < 2 ^ 32 →
  deinterleave64 (interleave64 x y) = Z.lor x (Z.shiftl y 32).
Proof.
  intros Hx Hy. unfold interleave64. rewrite (or_linear_lor (f := λ x, deinterleave64 x)).
  by rewrite deinterleave64_low, deinterleave64_high.
Qed.

Lemma decode_interleave s x y :
  0 ≤ x < 2 ^ 32 → 0 ≤ y < 2 ^ 32 → decode_indices (mkHash (interleave64 x y) s) = (x, y).
Proof.
  intros Hx Hy. unfold decode_indices. cbn [bits]. rewrite deinterleave_interleave by done. f_equal.
  - rewrite u32_land, Z.land_lor_distr_l, <-!u32_land, u32_small by done.
    unfold u32. rewrite Z.shiftl_mul_pow2, Z.mod_mul by done. apply Z.lor_0_r.
  - rewrite Z.shiftr_lor, Z.shiftr_shiftl_l by done. change (32 - 32) with 0.
    rewrite Z.shiftl_0_r, Z.shiftr_div_pow2, (Z.div_small x) by done. by apply u32_small.
Qed.

Lemma interleave_decode z s :
  0 ≤ z < 2 ^ 64 →
  interleave64 (decode_indices (mkHash z s)).1 (decode_indices (mkHash z s)).2 = z.
Proof.
  unfold decode_indices. cbn [bits fst snd].
  apply (or_linear_ext 64 (λ z, interleave64 (u32 (deinterleave64 z))
           (u32 (Z.shiftr (deinterleave64 z) 32))) (λ z, z)). by vm_compute.
Qed.

(** ** Moving to the neighbours *)

(** [n] ones at the even positions. *)
Abbreviation ones_ref n := (spread_ref n (-1)).

Lemma ones_ref_S n : ones_ref (S n) = 1 + 4 * ones_ref n.
Proof. done. Qed.

Lemma spread_ref_double n o b : 0 ≤ o < 2 → spread_ref (S n) (2 * b + o) = o + 4 * spread_ref n b.
Proof.
  intros Ho. cbn [spread_ref]. rewrite (Z.mul_comm 2 b), Z.div_add_l, (Z.div_small o) by lia.
  rewrite Z.add_0_r. f_equal.
  assert (o = 0 ∨ o = 1) as [-> | ->] by lia; [rewrite Z.add_0_r|rewrite Z.odd_add]; by rewrite Z.odd_mul, andb_false_r.
Qed.

(** Induction on the bits of a number below [2 ^ n]. *)
Lemma split_bit n b :
  0 ≤ b < 2 ^ Z.of_nat (S n) → ∃ o b', b = 2 * b' + o ∧ (o = 0 ∨ o = 1) ∧ 0 ≤ b' < 2 ^ Z.of_nat n.
Proof.
  rewrite Nat2Z.inj_succ, Z.pow_succ_r by lia. intros Hb. exists (b mod 2), (b / 2).
  pose proof (Z.div_mod b 2 ltac:(done)). pose proof (Z.mod_pos_bound b 2 ltac:(done)). lia.
Qed.

Lemma double_mod n b : (2 * b) mod 2 ^ Z.of_nat (S n) = 2 * (b mod 2 ^ Z.of_nat n) + 0.
Proof. rewrite Nat2Z.inj_succ, Z.pow_succ_r, Z.mul_mod_distr_l by lia. lia. Qed.
Lemma double_succ_mod n b :
  (2 * b + 1) mod 2 ^ Z.of_nat (S n) = 2 * (b mod 2 ^ Z.of_nat n) + 1.
Proof.
  rewrite Nat2Z.inj_succ, Z.pow_succ_r by lia. pose proof (Z.pow_pos_nonneg 2 (Z.of_nat n)).
  symmetry. apply (Z.mod_unique_pos _ _ (b / 2 ^ Z.of_nat n)).
  - pose proof (Z.mod_pos_bound b (2 ^ Z.of_nat n)). lia.
  - pose proof (Z.div_mod b (2 ^ Z.of_nat n)). nia.
Qed.

Lemma spread_ref_0 n : spread_ref n 0 = 0.
Proof. apply or_linear_0. Qed.

(** Both cases of a bit, with the successor or predecessor of the number. *)
#[local] Ltac by_bits n IH :=
  induction n as [|n IH]; intros b Hb;
  [change (2 ^ Z.of_nat 0) with 1 in *; rewrite Z.mod_1_r; by rewrite Z.land_0_r|];
  destruct (split_bit n b Hb) as (o & b' & -> & Ho & Hb'); specialize (IH b' Hb');
  rewrite spread_ref_double by lia; rewrite !ones_ref_S;
  destruct Ho as [-> | ->].

(** Masking [4 * r + d] with [4 * s + e], and what is left to show of the rest. *)
#[local] Ltac base4 d r e s :=
  match goal with |- Z.land ?x ?y = _ =>
    replace x with (d + 4 * (r)) by lia; replace y with (e + 4 * (s)) by lia;
    rewrite (land_base4 d e (r) (s)) by lia
  end.

(** The remaining conjunction is of two digits. *)
#[local] Ltac eval_land :=
  match goal with |- context [Z.land ?a ?b] =>
    let v := eval vm_compute in (Z.land a b) in change (Z.land a b) with v end;
  rewrite ?spread_ref_0; cbn [Z.b2z]; lia.

Lemma land_evens n : ∀ x y, Z.land (spread_ref n x + 2 * spread_ref n y) (ones_ref n) = spread_ref n x.
Proof.
  induction n as [|n IH]; intros x y; [done|]. rewrite ones_ref_S. cbn [spread_ref].
  pose proof (b2z_01 (Z.odd x)). pose proof (b2z_01 (Z.odd y)).
  base4 (Z.b2z (Z.odd x) + 2 * Z.b2z (Z.odd y)) (spread_ref n (x / 2) + 2 * spread_ref n (y / 2)) 1 (ones_ref n).
  rewrite IH. by destruct (Z.odd x), (Z.odd y).
Qed.
Lemma land_odds n : ∀ x y,
  Z.land (spread_ref n x + 2 * spread_ref n y) (2 * ones_ref n) = 2 * spread_ref n y.
Proof.
  induction n as [|n IH]; intros x y; [done|]. rewrite ones_ref_S. cbn [spread_ref].
  pose proof (b2z_01 (Z.odd x)). pose proof (b2z_01 (Z.odd y)).
  base4 (Z.b2z (Z.odd x) + 2 * Z.b2z (Z.odd y)) (spread_ref n (x / 2) + 2 * spread_ref n (y / 2)) 2 (2 * ones_ref n).
  rewrite IH. destruct (Z.odd x), (Z.odd y); eval_land.
Qed.

Lemma inc_odds n : ∀ b, 0 ≤ b < 2 ^ Z.of_nat n →
  Z.land (2 * spread_ref n b + ones_ref n + 1) (2 * ones_ref n)
  = 2 * spread_ref n ((b + 1) mod 2 ^ Z.of_nat n).
Proof.
  by_bits n IH.
  - replace (2 * b' + 0 + 1) with (2 * b' + 1) by lia. rewrite double_succ_mod, Z.mod_small, spread_ref_double by lia.
    base4 2 (ones_ref n + 2 * spread_ref n b') 2 (2 * ones_ref n). rewrite land_odds. eval_land.
  - replace (2 * b' + 1 + 1) with (2 * (b' + 1)) by lia. rewrite double_mod, spread_ref_double by lia.
    base4 0 (2 * spread_ref n b' + ones_ref n + 1) 2 (2 * ones_ref n). rewrite IH. eval_land.
Qed.

Lemma dec_odds n : ∀ b, 0 ≤ b < 2 ^ Z.of_nat n →
  Z.land (2 * spread_ref n b - 1) (2 * ones_ref n)
  = 2 * spread_ref n ((b - 1) mod 2 ^ Z.of_nat n).
Proof.
  by_bits n IH.
  - replace (2 * b' + 0 - 1) with (2 * (b' - 1) + 1) by lia. rewrite double_succ_mod, spread_ref_double by lia.
    base4 3 (2 * spread_ref n b' - 1) 2 (2 * ones_ref n). rewrite IH. eval_land.
  - replace (2 * b' + 1 - 1) with (2 * b') by lia. rewrite double_mod, Z.mod_small, spread_ref_double by lia.
    pose proof (spread_ref_0 n).
    base4 1 (spread_ref n 0 + 2 * spread_ref n b') 2 (2 * ones_ref n). rewrite land_odds. eval_land.
Qed.

Lemma inc_evens n : ∀ a, 0 ≤ a < 2 ^ Z.of_nat n →
  Z.land (spread_ref n a + 2 * ones_ref n + 1) (ones_ref n)
  = spread_ref n ((a + 1) mod 2 ^ Z.of_nat n).
Proof.
  by_bits n IH.
  - replace (2 * b' + 0 + 1) with (2 * b' + 1) by lia. rewrite double_succ_mod, Z.mod_small, spread_ref_double by lia.
    base4 3 (spread_ref n b' + 2 * ones_ref n) 1 (ones_ref n). rewrite land_evens. eval_land.
  - replace (2 * b' + 1 + 1) with (2 * (b' + 1)) by lia. rewrite double_mod, spread_ref_double by lia.
    base4 0 (spread_ref n b' + 2 * ones_ref n + 1) 1 (ones_ref n). rewrite IH. eval_land.
Qed.

Lemma dec_evens n : ∀ a, 0 ≤ a < 2 ^ Z.of_nat n →
  Z.land (spread_ref n a - 1) (ones_ref n) = spread_ref n ((a - 1) mod 2 ^ Z.of_nat n).
Proof.
  by_bits n IH.
  - replace (2 * b' + 0 - 1) with (2 * (b' - 1) + 1) by lia. rewrite double_succ_mod, spread_ref_double by lia.
    base4 3 (spread_ref n b' - 1) 1 (ones_ref n). rewrite IH. eval_land.
  - replace (2 * b' + 1 - 1) with (2 * b') by lia. rewrite double_mod, Z.mod_small, spread_ref_double by lia.
    pose proof (spread_ref_0 n).
    base4 0 (spread_ref n b' + 2 * spread_ref n 0) 1 (ones_ref n). rewrite land_evens. eval_land.
Qed.

(** More bits than the number has make no difference. *)
Lemma spread_ref_enough n m : ∀ x, 0 ≤ x < 2 ^ Z.of_nat n → (n ≤ m)%nat → spread_ref m x = spread_ref n x.
Proof.
  revert m. induction n as [|n IH]; intros m x Hx Hm.
  - change (2 ^ Z.of_nat 0) with 1 in Hx. replace x with 0 by lia. by rewrite !spread_ref_0.
  - destruct m as [|m]; [lia|]. destruct (split_bit n x Hx) as (o & b & -> & Ho & Hb).
    rewrite !spread_ref_double, (IH m) by lia. done.
Qed.

Lemma land_u64 v m : 0 ≤ m < 2 ^ 64 → Z.land (u64 v) m = Z.land v m.
Proof.
  intros Hm. rewrite u64_land, <-Z.land_assoc. f_equal.
  by rewrite Z.land_comm, <-u64_land, u64_small.
Qed.

(** The masks of a step. *)
Lemma step_masks n : (1 ≤ n ≤ 32)%nat →
  Z.shiftr evens (64 - Z.of_nat n * 2) = ones_ref n ∧
  Z.shiftr odds (64 - Z.of_nat n * 2) = 2 * ones_ref n.
Proof.
  intros Hn.
  assert (forallb (λ n, (Z.shiftr evens (64 - Z.of_nat n * 2) =? ones_ref n)
            && (Z.shiftr odds (64 - Z.of_nat n * 2) =? 2 * ones_ref n)) (seq 1 32) = true) as H
    by by vm_compute.
  rewrite forallb_forall in H. specialize (H n ltac:(apply in_seq; lia)).
  by apply andb_true_iff in H as [->%Z.eqb_eq ->%Z.eqb_eq].
Qed.

(** The cell in row [a] and column [b] of the grid of [2 ^ s] rows and columns. *)
Definition cell (s a b : Z) : GeoHashBits :=
  mkHash (interleave64 (a mod 2 ^ s) (b mod 2 ^ s)) s.

Lemma interleave64_spread n a b :
  (n ≤ 32)%nat → 0 ≤ a < 2 ^ Z.of_nat n → 0 ≤ b < 2 ^ Z.of_nat n →
  interleave64 a b = spread_ref n a + 2 * spread_ref n b.
Proof.
  intros Hn Ha Hb. assert (2 ^ Z.of_nat n ≤ 2 ^ 32) by (apply Z.pow_le_mono_r; lia).
  rewrite interleave64_ref, interleave_ref_spread by lia.
  by rewrite !(spread_ref_enough n 32) by done.
Qed.

(** The columns and the rows of a hash, as the moves take them apart. *)
Lemma interleave64_parts n a b :
  (n ≤ 32)%nat → 0 ≤ a < 2 ^ Z.of_nat n → 0 ≤ b < 2 ^ Z.of_nat n →
  Z.land (interleave64 a b) evens = spread_ref n a ∧
  Z.land (interleave64 a b) odds = 2 * spread_ref n b.
Proof.
  intros Hn Ha Hb. assert (2 ^ Z.of_nat n ≤ 2 ^ 32) by (apply Z.pow_le_mono_r; lia).
  rewrite interleave64_ref, interleave_ref_spread by lia.
  change evens with (ones_ref 32). change odds with (2 * ones_ref 32).
  by rewrite land_evens, land_odds, !(spread_ref_enough n 32) by done.
Qed.

(** No carry between rows and columns. *)
Lemma lor_ones_evens n x : Z.lor (spread_ref n x) (2 * ones_ref n) = spread_ref n x + 2 * ones_ref n.
Proof. apply lor_spread. Qed.
Lemma lor_ones_odds n x : Z.lor (2 * spread_ref n x) (ones_ref n) = 2 * spread_ref n x + ones_ref n.
Proof. rewrite Z.lor_comm, lor_spread. lia. Qed.

Section Moves.
Context (n : nat) (Hn : (1 ≤ n ≤ 32)%nat).
Local Abbreviation N := (2 ^ Z.of_nat n).

Lemma N_pos : 0 < N ≤ 2 ^ 32.
Proof. split; [apply Z.pow_pos_nonneg; lia|apply Z.pow_le_mono_r; lia]. Qed.

Lemma mask_range : 0 ≤ ones_ref n ∧ 2 * ones_ref n < 2 ^ 64.
Proof.
  pose proof (spread_ref_range n (-1)). assert (4 ^ Z.of_nat n ≤ 4 ^ 32) by (apply Z.pow_le_mono_r; lia).
  change (4 ^ 32) with (2 ^ 64) in *. lia.
Qed.

Lemma cell_parts a b :
  Z.land (bits (cell (Z.of_nat n) a b)) evens = spread_ref n (a mod N) ∧
  Z.land (bits (cell (Z.of_nat n) a b)) odds = 2 * spread_ref n (b mod N).
Proof. pose proof N_pos. apply interleave64_parts; [lia|apply Z.mod_pos_bound; lia..]. Qed.

(** A cell from its rows and columns. *)
Lemma cell_eq a b :
  mkHash (Z.lor (2 * spread_ref n (b mod N)) (spread_ref n (a mod N))) (Z.of_nat n)
  = cell (Z.of_nat n) a b.
Proof.
  pose proof N_pos. unfold cell. f_equal. rewrite Z.lor_comm, lor_spread.
  symmetry. apply interleave64_spread; [lia|apply Z.mod_pos_bound; lia..].
Qed.

Lemma move_x_cell d a b :
  d = -1 ∨ d = 0 ∨ d = 1 →
  geohash_move_x d (cell (Z.of_nat n) a b) = cell (Z.of_nat n) a (b + d).
Proof.
  intros Hd. pose proof N_pos. pose proof mask_range.
  destruct (cell_parts a b) as [He Ho]. destruct (step_masks n Hn) as [Ms Mo].
  unfold geohash_move_x. destruct (Z.eqb_spec d 0) as [->|Hd0]; [by rewrite Z.add_0_r|].
  rewrite He, Ho. change (step (cell _ _ _)) with (Z.of_nat n). rewrite Ms, Mo.
  rewrite <-cell_eq. f_equal. f_equal.
  assert (0 ≤ b mod N < N) by (apply Z.mod_pos_bound; lia).
  destruct Hd as [-> | [-> | ->]]; [|done|].
  - change (-1 >? 0) with false. cbv iota. rewrite land_u64, lor_ones_odds by lia.
    replace (2 * spread_ref n (b mod N) + ones_ref n - (ones_ref n + 1))
      with (2 * spread_ref n (b mod N) - 1) by lia.
    rewrite dec_odds by done. by rewrite Zminus_mod_idemp_l.
  - change (1 >? 0) with true. cbv iota. rewrite land_u64, Z.add_assoc by lia.
    rewrite inc_odds by done. by rewrite Zplus_mod_idemp_l.
Qed.

Lemma move_y_cell d a b :
  d = -1 ∨ d = 0 ∨ d = 1 →
  geohash_move_y d (cell (Z.of_nat n) a b) = cell (Z.of_nat n) (a + d) b.
Proof.
  intros Hd. pose proof N_pos. pose proof mask_range.
  destruct (cell_parts a b) as [He Ho]. destruct (step_masks n Hn) as [Ms Mo].
  unfold geohash_move_y. destruct (Z.eqb_spec d 0) as [->|Hd0]; [by rewrite Z.add_0_r|].
  rewrite He, Ho. change (step (cell _ _ _)) with (Z.of_nat n). rewrite Ms, Mo.
  rewrite <-cell_eq. f_equal. f_equal.
  assert (0 ≤ a mod N < N) by (apply Z.mod_pos_bound; lia).
  destruct Hd as [-> | [-> | ->]]; [|done|].
  - change (-1 >? 0) with false. cbv iota. rewrite land_u64, lor_ones_evens by lia.
    replace (spread_ref n (a mod N) + 2 * ones_ref n - (2 * ones_ref n + 1))
      with (spread_ref n (a mod N) - 1) by lia.
    rewrite dec_evens by done. by rewrite Zminus_mod_idemp_l.
  - change (1 >? 0) with true. cbv iota. rewrite land_u64, Z.add_assoc by lia.
    rewrite inc_evens by done. by rewrite Zplus_mod_idemp_l.
Qed.
End Moves.

(** ** The properties *)

(** [interleave64], which spreads its arguments in five steps of shifts and
    masks, is the interleaving bit by bit, and [deinterleave64] gives both
    arguments back; every 64-bit hash is the interleaving of its two indices. *)
Theorem interleave64_equiv :
  (∀ x y, 0 ≤ x < 2 ^ 32 → 0 ≤ y < 2 ^ 32 →
     interleave64 x y = interleave_ref 32 x y ∧
     ∀ s, decode_indices (mkHash (interleave64 x y) s) = (x, y)) ∧
  (∀ h, 0 ≤ bits h < 2 ^ 64 →
     interleave64 (decode_indices h).1 (decode_indices h).2 = bits h).
Proof.
  split; [intros x y Hx Hy; split|].
  - by apply interleave64_ref.
  - intros s. by apply decode_interleave.
  - intros [z s] Hz. by apply interleave_decode.
Qed.

(** The neighbours of a cell: one row up or down and one column left or right,
    with both wrapping around at the edges of the grid (also from pole to pole). *)
Theorem geohashNeighbors_cells s a b :
  1 ≤ s ≤ 32 →
  geohashNeighbors (cell s a b) = {|
    north := cell s (a + 1) b; south := cell s (a + -1) b;
    east := cell s a (b + 1); west := cell s a (b + -1);
    north_east := cell s (a + 1) (b + 1); north_west := cell s (a + 1) (b + -1);
    south_east := cell s (a + -1) (b + 1); south_west := cell s (a + -1) (b + -1) |}.
Proof.
  intros Hs. rewrite <-(Z2Nat.id s) by lia. unfold geohashNeighbors.
  rewrite !move_x_cell, !move_y_cell by lia. by rewrite !Z.add_0_r.
Qed.

(** ** The radius search *)

(** A hash of at most 26 steps, as the search uses them. *)
Definition valid_cell (c : GeoHashBits) : Prop := 1 ≤ step c ≤ 26 ∧ 0 ≤ bits c < 4 ^ step c.

(** The score [v] of a position (a hash of 26 steps) lies in the cell. *)
Definition in_cell (c : GeoHashBits) (v : Z) : Prop := Z.shiftr v (52 - step c * 2) = bits c.

Lemma align_eq c : 1 ≤ step c ≤ 26 → 0 ≤ bits c ≤ 4 ^ step c →
  geohashAlign52Bits c = bits c * 2 ^ (52 - step c * 2).
Proof.
  intros Hs Hb. unfold geohashAlign52Bits. rewrite Z.shiftl_mul_pow2 by lia. apply u64_small.
  assert (bits c * 2 ^ (52 - step c * 2) ≤ 4 ^ step c * 2 ^ (52 - step c * 2))
    by (apply Z.mul_le_mono_nonneg_r; [apply Z.pow_nonneg; lia|lia]).
  assert (4 ^ step c * 2 ^ (52 - step c * 2) = 2 ^ 52) as E.
  { change 4 with (2 ^ 2). rewrite <-Z.pow_mul_r, <-Z.pow_add_r by lia. f_equal. lia. }
  pose proof (Z.pow_nonneg 2 (52 - step c * 2)). nia.
Qed.

Lemma next_cell_bits c : valid_cell c → bits (next_cell c) = bits c + 1.
Proof.
  intros [Hs Hb]. apply u64_small. assert (4 ^ step c ≤ 4 ^ 26) by (apply Z.pow_le_mono_r; lia).
  change (4 ^ 26) with (2 ^ 52) in *. lia.
Qed.

Lemma score_range c v : valid_cell c →
  geohashAlign52Bits c ≤ v ≤ geohashAlign52Bits (next_cell c) ↔
  in_cell c v ∨ v = geohashAlign52Bits (next_cell c).
Proof.
  intros Hc. pose proof (next_cell_bits c Hc) as En. destruct Hc as [Hs Hb].
  assert (geohashAlign52Bits (next_cell c) = (bits c + 1) * 2 ^ (52 - step c * 2)) as ->.
  { rewrite align_eq; [by rewrite En|exact Hs|]. rewrite En. cbn [step next_cell]. lia. }
  rewrite align_eq by lia. unfold in_cell. rewrite Z.shiftr_div_pow2 by lia.
  assert (0 < 2 ^ (52 - step c * 2)) by (apply Z.pow_pos_nonneg; lia).
  set (k := 2 ^ (52 - step c * 2)) in *. pose proof (Z.div_mod v k). pose proof (Z.mod_pos_bound v k).
  split; [intros Hv|intros [<- | ->]; nia].
  destruct (Z.eq_dec v ((bits c + 1) * k)) as [->|]; [by right|left].
  symmetry. apply (Z.div_unique_pos v k (bits c) (v - bits c * k)); lia.
Qed.

Section SearchFacts.
Context {Member Distance E : Type}.
Context (ZRangebyscore : Z → Z → E + list (Member * Z)) (IfInRadius : Z → option Distance).
Context (zset : list (Member * Z)).
(** The documented behaviour of the sorted set. *)
Hypothesis ZRangebyscore_spec : ∀ lo hi l, ZRangebyscore lo hi = inr l →
  ∀ m v, (m, v) ∈ l ↔ (m, v) ∈ zset ∧ lo ≤ v ≤ hi.
Local Abbreviation loop := (search_loop ZRangebyscore IfInRadius).
Local Abbreviation valid := (Forall (λ c, HASHISZERO c = false → valid_cell c)).

Lemma in_radius_elem lo hi l m v d : ZRangebyscore lo hi = inr l →
  (m, v, d) ∈ omap (in_radius IfInRadius) l ↔
  (m, v) ∈ zset ∧ lo ≤ v ≤ hi ∧ IfInRadius v = Some d.
Proof.
  intros Hl. rewrite list_elem_of_omap. split.
  - intros ([m' v'] & He & Hr). unfold in_radius in Hr. cbn in Hr.
    destruct (IfInRadius v') eqn:Er; [|done]. cbn in Hr. simplify_eq.
    by apply (ZRangebyscore_spec _ _ _ Hl) in He as [??].
  - intros (Hm & Hv & Hd). exists (m, v). split; [by apply (ZRangebyscore_spec _ _ _ Hl)|].
    unfold in_radius. cbn. by rewrite Hd.
Qed.

(** A turn of the loop: skip the cell, or add its members. *)
Lemma search_loop_cons c cells i last l :
  loop i last (c :: cells) = inr l →
  (loop (S i) last cells = inr l ∧
     (HASHISZERO c = true ∨ last.1 ≠ 0%nat ∧ last.2 = next_cell c)) ∨
  (HASHISZERO c = false ∧ ∃ ms l',
     ZRangebyscore (geohashAlign52Bits c) (geohashAlign52Bits (next_cell c)) = inr ms ∧
     loop (S i) (i, next_cell c) cells = inr l' ∧ l = omap (in_radius IfInRadius) ms ++ l').
Proof.
  cbn [search_loop]. intros H. destruct (HASHISZERO c); [left; by auto|].
  destruct (negb (last.1 =? 0)%nat && bool_decide (next_cell c = last.2)) eqn:Eq.
  - left. split; [done|right]. apply andb_true_iff in Eq as [Hn%negb_true_iff%Nat.eqb_neq He%bool_decide_eq_true].
    done.
  - right. split; [done|]. destruct (ZRangebyscore _ _) as [|ms] eqn:Er; [done|].
    destruct (loop (S i) (i, next_cell c) cells) as [|l'] eqn:Hl; [done|]. injection H as <-. by exists ms, l'.
Qed.

Lemma search_loop_sound cells : ∀ i last l m v d, valid cells → loop i last cells = inr l →
  (m, v, d) ∈ l →
  (m, v) ∈ zset ∧ IfInRadius v = Some d ∧
  ∃ c, c ∈ cells ∧ HASHISZERO c = false ∧ (in_cell c v ∨ v = geohashAlign52Bits (next_cell c)).
Proof.
  induction cells as [|c cells IH]; intros i last l m v d Hv Hl Hin.
  { injection Hl as <-. by apply not_elem_of_nil in Hin. }
  apply Forall_cons in Hv as [Hc Hv].
  assert (∀ i last l, loop i last cells = inr l → (m, v, d) ∈ l →
    (m, v) ∈ zset ∧ IfInRadius v = Some d ∧ ∃ c', c' ∈ c :: cells ∧ HASHISZERO c' = false ∧
      (in_cell c' v ∨ v = geohashAlign52Bits (next_cell c'))) as Hrest.
  { intros j la l' Hl' Hin'. destruct (IH _ _ _ _ _ _ Hv Hl' Hin') as (?&?&c'&?&?). split_and!; [done..|].
    exists c'. split; [by right|done]. }
  apply search_loop_cons in Hl as [[Hl _]|(Hz & ms & l' & Hms & Hl & ->)]; [by eapply Hrest|].
  rewrite elem_of_app, (in_radius_elem _ _ _ _ _ _ Hms) in Hin.
  destruct Hin as [(Hm & Hr & Hd)|Hin]; [|by eapply Hrest]. split_and!; [done..|]. exists c.
  split_and!; [by left|done|]. by apply score_range; [apply Hc|].
Qed.

Lemma search_loop_complete cells : ∀ i last l m v d c, valid cells → loop i last cells = inr l →
  (m, v) ∈ zset → IfInRadius v = Some d → c ∈ cells → HASHISZERO c = false → in_cell c v →
  (m, v, d) ∈ l ∨ (last.1 ≠ 0%nat ∧ last.2 = next_cell c).
Proof.
  induction cells as [|c0 cells IH]; intros i last l m v d c Hv Hl Hm Hd Hc Hz Hin.
  { by apply not_elem_of_nil in Hc. }
  apply Forall_cons in Hv as [Hc0 Hv].
  apply search_loop_cons in Hl as [[Hl Hskip]|(Hz0 & ms & l' & Hms & Hl & ->)];
    apply elem_of_cons in Hc as [->|Hc].
  - destruct Hskip as [?|?]; [congruence|by right].
  - by eapply IH.
  - left. rewrite elem_of_app, (in_radius_elem _ _ _ _ _ _ Hms). left.
    split; [done|split; [|done]]. apply score_range; [by apply Hc0|by left].
  - left. rewrite elem_of_app, (in_radius_elem _ _ _ _ _ _ Hms).
    destruct (IH (S i) (i, next_cell c0) l' m v d c) as [?|[_ El]]; try done; [by right|].
    left. cbn in El. split; [done|split; [|done]]. apply score_range; [by apply Hc0|left].
    rewrite Forall_forall in Hv. pose proof (next_cell_bits c (Hv c Hc Hz)) as Eb.
    rewrite <-El, next_cell_bits in Eb by by apply Hc0. apply (f_equal step) in El. cbn in El.
    unfold in_cell in *. rewrite El, Hin. lia.
Qed.

(** The search fails only when a read fails. *)
Lemma search_loop_total cells : ∀ i last,
  (∀ c e, c ∈ cells → ZRangebyscore (geohashAlign52Bits c) (geohashAlign52Bits (next_cell c)) ≠ inl e) →
  ∃ l, loop i last cells = inr l.
Proof.
  induction cells as [|c cells IH]; intros i last Hr; cbn [search_loop]; [by eexists|].
  assert (∀ i last, ∃ l, loop i last cells = inr l) as Hrest.
  { intros j la. apply IH. intros c' e Hc'. apply Hr. by right. }
  destruct (HASHISZERO c); [apply Hrest|]. case_match; [apply Hrest|].
  destruct (ZRangebyscore _ _) eqn:E'; [by destruct (Hr c e (list_elem_of_here _ _))|].
  destruct (Hrest (S i) (i, next_cell c)) as [l' ->]. by eexists.
Qed.

(** The radius search reads the score ranges of the nine cells and checks the
    distance of what it finds.  It finds every member that lies in one of the cells
    and within the radius, although it skips a cell that repeats the last one; what
    it finds is a member within the radius whose score lies in one of the cells, or
    is the first score of the next cell, since the range includes its upper end. *)
Theorem search_exact h n :
  valid (search_cells h n) →
  (∀ c e, c ∈ search_cells h n →
     ZRangebyscore (geohashAlign52Bits c) (geohashAlign52Bits (next_cell c)) ≠ inl e) →
  ∃ l, search ZRangebyscore IfInRadius h n = inr l ∧
  (∀ m v d c, (m, v) ∈ zset → IfInRadius v = Some d →
     c ∈ search_cells h n → HASHISZERO c = false → in_cell c v → (m, v, d) ∈ l) ∧
  (∀ m v d, (m, v, d) ∈ l →
     (m, v) ∈ zset ∧ IfInRadius v = Some d ∧
     ∃ c, c ∈ search_cells h n ∧ HASHISZERO c = false ∧
       (in_cell c v ∨ v = geohashAlign52Bits (next_cell c))).
Proof.
  intros Hv Hr. destruct (search_loop_total (search_cells h n) 0 (0%nat, h) Hr) as [l El].
  exists l. split; [exact El|split].
  - intros m v d c Hm Hd Hc Hz Hin.
    by destruct (search_loop_complete _ 0 (0%nat, h) l m v d c Hv El Hm Hd Hc Hz Hin) as [?|[]].
  - intros m v d. by eapply search_loop_sound.
Qed.
End SearchFacts.

(** ** Instances *)

Lemma interleave64_equiv_witness :
  interleave64 5 3 = 27 ∧ interleave_ref 32 5 3 = 27 ∧
  (interleave64 5 3 = interleave_ref 32 5 3 ∧
   ∀ s, decode_indices (mkHash (interleave64 5 3) s) = (5, 3)).
Proof.
  split; [by vm_compute|]. split; [by vm_compute|].
  apply (proj1 interleave64_equiv 5 3); lia.
Defined.

(** The corner cell of a grid of 4 rows and columns. *)
Lemma geohashNeighbors_cells_witness :
  bits (cell 2 3 3) = 15 ∧ north (geohashNeighbors (cell 2 3 3)) = mkHash 10 2 ∧
  geohashNeighbors (cell 2 3 3) = {|
    north := cell 2 (3 + 1) 3; south := cell 2 (3 + -1) 3;
    east := cell 2 3 (3 + 1); west := cell 2 3 (3 + -1);
    north_east := cell 2 (3 + 1) (3 + 1); north_west := cell 2 (3 + 1) (3 + -1);
    south_east := cell 2 (3 + -1) (3 + 1); south_west := cell 2 (3 + -1) (3 + -1) |}.
Proof. split; [by vm_compute|]. split; [by vm_compute|]. apply geohashNeighbors_cells. lia. Defined.

(** A set of two members; the second has the first score after the cell. *)
Definition zset0 : list (Z * Z) := [(1, 5 * 2 ^ 32); (2, 6 * 2 ^ 32)].
Definition range0 (lo hi : Z) : unit + list (Z * Z) := inr (filter (λ p, lo ≤ p.2 ≤ hi) zset0).
Definition centre0 : GeoHashBits := mkHash 5 10.
Definition zero0 : GeoHashBits := mkHash 0 0.
Definition none0 : GeoHashNeighbors := mkNeighbors zero0 (mkHash 6 10) zero0 zero0 zero0 zero0 zero0 zero0.

(** The second member is found twice. *)
Example search_twice :
  search range0 (λ _, Some tt) centre0 none0
  = inr [(1, 5 * 2 ^ 32, tt); (2, 6 * 2 ^ 32, tt); (2, 6 * 2 ^ 32, tt)].
Proof. by vm_compute. Qed.

Lemma search_exact_witness :
  ∃ l, search range0 (λ _, Some tt) centre0 none0 = inr l ∧ (1, 5 * 2 ^ 32, tt) ∈ l.
Proof.
  destruct (search_exact range0 (λ _, Some tt) zset0) with (h := centre0) (n := none0)
    as (l & El & Hcomplete & _).
  - intros lo hi l [= <-] m v. rewrite list_elem_of_filter. cbn [snd]. clear. tauto.
  - assert (∀ b, 0 ≤ b < 4 ^ 10 → valid_cell (mkHash b 10)) as Hv by (intros b Hb; split; cbn; lia).
    repeat apply Forall_cons_2; try (intros Hz; discriminate Hz); try apply Forall_nil_2; intros _; apply Hv; lia.
  - done.
  - exists l. split; [done|]. apply (Hcomplete 1 (5 * 2 ^ 32) tt centre0); [by left|by vm_compute|by left|by vm_compute..].
Defined.
