(* ===== verification/Float64.v ===== *)
(** * The type [double]

    IEEE 754 binary64, rounding to nearest even, with the Standard Library's executable
    specification of floating-point numbers; every operation rounds (no contraction).
    The trigonometric functions of the C library are given. *)

From S2P Require Import Prelude.
From stdpp Require Import base list.
From Stdlib Require Import ZArith Lia Floats.SpecFloat.
#[local] Open Scope list_scope.
#[local] Open Scope Z_scope.

Definition double : Type := spec_float.
#[export] Instance double_eq_dec : EqDecision double.
Proof. solve_decision. Defined.

Definition dadd (x y : double) : double := SFadd 53 1024 x y.
Definition dsub (x y : double) : double := SFsub 53 1024 x y.
Definition dmul (x y : double) : double := SFmul 53 1024 x y.
Definition ddiv (x y : double) : double := SFdiv 53 1024 x y.
Definition dsqrt (x : double) : double := SFsqrt 53 1024 x.
Definition dltb (x y : double) : bool := SFltb x y.
Definition dgtb (x y : double) : bool := SFltb y x.
Definition deqb (x y : double) : bool := SFeqb x y.
Definition d_of_Z (z : Z) : double := binary_normalize 53 1024 z 0 false.
(** The literal [m / 10^k], correctly rounded for [m < 2^53] and [k ≤ 22]. *)
Definition dec (m k : Z) : double := ddiv (d_of_Z m) (d_of_Z (10 ^ k)).
(** [M_PI], the double nearest to pi. *)
Definition M_PI : double := S754_finite false 7074237752028440 (-51).

(** Towards zero; [None] for what is no number. *)
Definition d_trunc (x : double) : option Z :=
  match x with
  | S754_zero _ => Some 0
  | S754_finite s m e =>
      let a := if 0 <=? e then Z.pos m * 2 ^ e else Z.pos m / 2 ^ (- e) in
      Some (if s then - a else a)
  | _ => None
  end.
(** Conversions to integers; what does not fit is undefined. *)
Definition d_to_int (lo hi : Z) (x : double) : option Z :=
  z ← d_trunc x; if (lo <=? z) && (z <? hi) then Some z else None.
Definition d_to_u32 (x : double) : option Z := d_to_int 0 (2 ^ 32) x.
Definition d_to_u64 (x : double) : option Z := d_to_int 0 (2 ^ 64) x.
Definition d_to_s64 (x : double) : option Z := d_to_int (- 2 ^ 63) (2 ^ 63) x.

(** The functions of the C library, and [sprintf] with the format ["%.4f"]. *)
Class MathLib := { m_sin : double → double; m_cos : double → double; m_asin : double → double;
                   fixed4 : double → list Byte.byte }.

(** ** Doubling *)

Definition dtwo : double := d_of_Z 2.

Lemma dtwo_eq : dtwo = S754_finite false 4503599627370496 (-51).
Proof. by vm_compute. Qed.

Lemma iter_pos_nat {A} (f : A → A) n : ∀ x, iter_pos f n x = Nat.iter (Pos.to_nat n) f x.
Proof.
  induction n as [n IH|n IH|]; intros x; cbn [iter_pos].
  - rewrite !IH, <- Nat.iter_add, <- Nat.iter_succ_r. f_equal. lia.
  - rewrite !IH, <- Nat.iter_add. f_equal. lia.
  - done.
Qed.

(** Shifting out zeros loses nothing. *)
Lemma shr_zeros k : ∀ m, Nat.iter k shr_1 {| shr_m := Zpos (Nat.iter k xO m); shr_r := false; shr_s := false |}
  = {| shr_m := Zpos m; shr_r := false; shr_s := false |}.
Proof.
  induction k as [|k IH]; intros m; [done|]. rewrite Nat.iter_succ_r. cbn [Nat.iter nat_rect]. apply IH.
Qed.

Lemma digits_xO k m : Zpos (digits2_pos (Nat.iter k xO m)) = Zpos (digits2_pos m) + Z.of_nat k.
Proof.
  induction k as [|k IH]; [cbn [Nat.iter nat_rect]; lia|].
  change (Nat.iter (S k) xO m) with (xO (Nat.iter k xO m)). cbn [digits2_pos]. rewrite Pos2Z.inj_succ, IH. lia.
Qed.
Lemma iter_xO_add a b (m : positive) : Nat.iter (a + b) xO m = Nat.iter a xO (Nat.iter b xO m).
Proof. apply Nat.iter_add. Qed.

Lemma mul_pow52 m : (m * 4503599627370496)%positive = Nat.iter 52 xO m.
Proof. by rewrite Pos.mul_comm. Qed.

(** The number of a mantissa at an exponent, exactly. *)
Lemma shr_fexp_zeros k m e : fexp 53 1024 (Zpos (digits2_pos m) + Z.of_nat k + e) = e + Z.of_nat k →
  shr_fexp 53 1024 (Zpos (Nat.iter k xO m)) e loc_Exact = ({| shr_m := Zpos m; shr_r := false; shr_s := false |}, e + Z.of_nat k).
Proof.
  intros H. unfold shr_fexp. cbn [Zdigits2 shr_record_of_loc]. rewrite digits_xO, H.
  replace (e + Z.of_nat k - e) with (Z.of_nat k) by lia. unfold shr.
  destruct (Z.of_nat k) as [|p|p] eqn:Hk; [|rewrite iter_pos_nat; replace (Pos.to_nat p) with k by lia; by rewrite shr_zeros|lia].
  replace k with 0%nat by lia. by rewrite Z.add_0_r.
Qed.

Lemma round_zeros s k m e : fexp 53 1024 (Zpos (digits2_pos m) + Z.of_nat k + e) = e + Z.of_nat k →
  binary_round_aux 53 1024 s (Zpos (Nat.iter k xO m)) e loc_Exact =
    if e + Z.of_nat k <=? 971 then S754_finite s m (e + Z.of_nat k) else S754_infinity s.
Proof.
  intros H. unfold binary_round_aux. rewrite shr_fexp_zeros by done. cbn [shr_m loc_of_shr_record round_nearest_even].
  pose proof (shr_fexp_zeros 0 m (e + Z.of_nat k)) as H0. change (Nat.iter 0 xO m) with m in H0. rewrite H0.
  - cbn [shr_m]. by rewrite Z.add_0_r.
  - change (Z.of_nat 0) with 0. rewrite !Z.add_0_r, <- H at 1. rewrite <- H. f_equal. lia.
Qed.

(** Twice a normal number is the number with the next exponent; twice a subnormal one has
    twice the mantissa. *)
Lemma dmul_two s m e : canonical_mantissa 53 1024 m e = true →
  dmul (S754_finite s m e) dtwo =
    if Z.pos (digits2_pos m) =? 53 then (if e <? 971 then S754_finite s m (e + 1) else S754_infinity s)
    else S754_finite s (xO m) e.
Proof.
  intros Hc%Z.eqb_eq. rewrite dtwo_eq. unfold dmul. cbn [SFmul]. rewrite mul_pow52, xorb_false_r.
  unfold fexp, emin in Hc. destruct (Z.eqb_spec (Z.pos (digits2_pos m)) 53) as [Hd|Hd].
  - rewrite round_zeros; [|unfold fexp, emin; lia].
    replace (e + -51 + Z.of_nat 52) with (e + 1) by lia.
    replace (e + 1 <=? 971) with (e <? 971) by lia. done.
  - change 52%nat with (51 + 1)%nat. rewrite iter_xO_add. rewrite round_zeros.
    + replace (e + -51 + Z.of_nat 51) with e by lia. by replace (e <=? 971) with true by lia.
    + unfold fexp, emin. cbn [Nat.iter nat_rect digits2_pos]. rewrite Pos2Z.inj_succ. lia.
Qed.
