(* ===== verification/GeoCoord.v ===== *)
(** * Coordinates and cells (src/pika_geohash.cc/.h, src/pika_geohash_helper.cc)

    The part of geohash that computes with [double]s: which cell a position is in, where a
    cell lies, distances, and the cells around a circle.  [None] is an output that the code
    leaves unset, a conversion that is undefined, or a loop that does not end. *)

From S2P Require Import Prelude Geohash Float64.
From stdpp Require Import base list.
From Stdlib Require Import ZArith Lia Floats.SpecFloat.
#[local] Open Scope list_scope.
#[local] Open Scope Z_scope.

Definition GEO_STEP_MAX : Z := 26.
Definition GEO_LAT_MIN : double := dec (- 8505112878) 8.
Definition GEO_LAT_MAX : double := dec 8505112878 8.
Definition GEO_LONG_MIN : double := d_of_Z (- 180).
Definition GEO_LONG_MAX : double := d_of_Z 180.

Record GeoHashRange := mkRange { r_min : double; r_max : double }.
Record GeoHashArea := mkArea { a_longitude : GeoHashRange; a_latitude : GeoHashRange }.

Definition RANGEISZERO (r : GeoHashRange) : bool := deqb (r_max r) (d_of_Z 0) && deqb (r_min r) (d_of_Z 0).
Definition pow2 (step : Z) : double := d_of_Z (2 ^ step).

(** ** Encoding and decoding *)

(** The ranges of longitude and latitude. *)
Definition geohashGetCoordRange : GeoHashRange * GeoHashRange :=
  (mkRange GEO_LONG_MIN GEO_LONG_MAX, mkRange GEO_LAT_MIN GEO_LAT_MAX).

Definition outside (r : GeoHashRange) (x : double) : bool := dltb x (r_min r) || dgtb x (r_max r).

Definition geohashEncode (long_range lat_range : GeoHashRange) (longitude latitude : double) (step : Z) : option GeoHashBits :=
  if (step >? 32) || (step =? 0) || RANGEISZERO lat_range || RANGEISZERO long_range then None
  else if dgtb longitude (d_of_Z 180) || dltb longitude (d_of_Z (- 180))
          || dgtb latitude (dec 8505112878 8) || dltb latitude (dec (- 8505112878) 8) then None
  else if outside lat_range latitude || outside long_range longitude then Some (mkHash 0 step)
  else
    let lat_offset := ddiv (dsub latitude (r_min lat_range)) (dsub (r_max lat_range) (r_min lat_range)) in
    let long_offset := ddiv (dsub longitude (r_min long_range)) (dsub (r_max long_range) (r_min long_range)) in
    x ← d_to_u32 (dmul lat_offset (pow2 step));
    y ← d_to_u32 (dmul long_offset (pow2 step));
    Some (mkHash (interleave64 x y) step).
Definition geohashEncodeType (longitude latitude : double) (step : Z) : option GeoHashBits :=
  geohashEncode geohashGetCoordRange.1 geohashGetCoordRange.2 longitude latitude step.
Definition geohashEncodeWGS84 (longitude latitude : double) (step : Z) : option GeoHashBits :=
  geohashEncodeType longitude latitude step.

(** The side of a cell: [min + (i * 1.0 / 2^step) * scale]. *)
Definition cell_side (r : GeoHashRange) (i step : Z) : double :=
  dadd (r_min r) (dmul (ddiv (dmul (d_of_Z i) (d_of_Z 1)) (pow2 step)) (dsub (r_max r) (r_min r))).
Definition geohashDecode (long_range lat_range : GeoHashRange) (h : GeoHashBits) : option GeoHashArea :=
  if HASHISZERO h || RANGEISZERO lat_range || RANGEISZERO long_range then None else
  let '(ilato, ilono) := decode_indices h in
  Some (mkArea
    (mkRange (cell_side long_range ilono (step h)) (cell_side long_range (u32 (ilono + 1)) (step h)))
    (mkRange (cell_side lat_range ilato (step h)) (cell_side lat_range (u32 (ilato + 1)) (step h)))).
Definition geohashDecodeType (h : GeoHashBits) : option GeoHashArea :=
  geohashDecode geohashGetCoordRange.1 geohashGetCoordRange.2 h.
(** The middle of an area: longitude and latitude. *)
Definition geohashDecodeAreaToLongLat (a : GeoHashArea) : double * double :=
  (ddiv (dadd (r_min (a_longitude a)) (r_max (a_longitude a))) (d_of_Z 2),
   ddiv (dadd (r_min (a_latitude a)) (r_max (a_latitude a))) (d_of_Z 2)).
Definition geohashDecodeToLongLatType (h : GeoHashBits) : option (double * double) :=
  geohashDecodeAreaToLongLat <$> geohashDecodeType h.
Definition geohashDecodeToLongLatWGS84 (h : GeoHashBits) : option (double * double) := geohashDecodeToLongLatType h.

(** ** Distances *)

Section Distances.
Context {ML : MathLib}.

Definition D_R : double := ddiv M_PI (d_of_Z 180).
Definition EARTH_RADIUS_IN_METERS : double := dec 6372797560856 6.
Definition MERCATOR_MAX : double := dec 2003772637 2.
Definition deg_rad (ang : double) : double := dmul ang D_R.
Definition rad_deg (ang : double) : double := ddiv ang D_R.

Definition geohashGetDistance (lon1d lat1d lon2d lat2d : double) : double :=
  let lat1r := deg_rad lat1d in
  let lon1r := deg_rad lon1d in
  let lat2r := deg_rad lat2d in
  let lon2r := deg_rad lon2d in
  let u := m_sin (ddiv (dsub lat2r lat1r) (d_of_Z 2)) in
  let v := m_sin (ddiv (dsub lon2r lon1r) (d_of_Z 2)) in
  dmul (dmul (d_of_Z 2) EARTH_RADIUS_IN_METERS)
    (m_asin (dsqrt (dadd (dmul u u) (dmul (dmul (dmul (m_cos lat1r) (m_cos lat2r)) v) v)))).

(** The distance, if it is no greater than the radius. *)
Definition geohashGetDistanceIfInRadius (x1 y1 x2 y2 radius : double) : option double :=
  let distance := geohashGetDistance x1 y1 x2 y2 in if dgtb distance radius then None else Some distance.
Definition geohashGetDistanceIfInRadiusWGS84 (x1 y1 x2 y2 radius : double) : option double :=
  geohashGetDistanceIfInRadius x1 y1 x2 y2 radius.

(** ** The cells around a circle *)

(** The loop of [geohashEstimateStepsByRadius]. *)
Fixpoint estimate_loop (fuel : nat) (range_meters : double) (step : Z) : option Z :=
  match fuel with
  | O => None
  | S fuel =>
      if dltb range_meters MERCATOR_MAX then estimate_loop fuel (dmul range_meters (d_of_Z 2)) (step + 1) else Some step
  end.
Definition steps_fuel : nat := 1200.
Definition geohashEstimateStepsByRadius (range_meters lat : double) : option Z :=
  if deqb range_meters (d_of_Z 0) then Some 26 else
  step ← estimate_loop steps_fuel range_meters 1;
  let step := step - 2 in
  let step :=
    if dgtb lat (d_of_Z 66) || dltb lat (d_of_Z (- 66))
    then (if dgtb lat (d_of_Z 80) || dltb lat (d_of_Z (- 80)) then step - 1 - 1 else step - 1)
    else step in
  let step := if step <? 1 then 1 else step in
  Some (if step >? 26 then 26 else step).

Definition geohashBoundingBox (longitude latitude radius_meters : double) : GeoHashArea :=
  let dlon := rad_deg (ddiv (ddiv radius_meters EARTH_RADIUS_IN_METERS) (m_cos (deg_rad latitude))) in
  let dlat := rad_deg (ddiv radius_meters EARTH_RADIUS_IN_METERS) in
  mkArea (mkRange (dsub longitude dlon) (dadd longitude dlon)) (mkRange (dsub latitude dlat) (dadd latitude dlat)).

(** [GZERO] of the cells on a side. *)
Definition gzero : GeoHashBits := mkHash 0 0.
Definition zero_south (n : GeoHashNeighbors) : GeoHashNeighbors :=
  mkNeighbors (north n) (east n) (west n) gzero (north_east n) gzero (north_west n) gzero.
Definition zero_north (n : GeoHashNeighbors) : GeoHashNeighbors :=
  mkNeighbors gzero (east n) (west n) (south n) gzero (south_east n) gzero (south_west n).
Definition zero_west (n : GeoHashNeighbors) : GeoHashNeighbors :=
  mkNeighbors (north n) (east n) gzero (south n) (north_east n) (south_east n) gzero gzero.
Definition zero_east (n : GeoHashNeighbors) : GeoHashNeighbors :=
  mkNeighbors (north n) gzero (west n) (south n) gzero gzero (north_west n) (south_west n).
Definition exclude (b : bool) (f : GeoHashNeighbors → GeoHashNeighbors) (n : GeoHashNeighbors) : GeoHashNeighbors :=
  if b then f n else n.

(** The centre cell and its neighbours. *)
Definition geohashGetAreasByRadius (longitude latitude radius_meters : double) : option (GeoHashBits * GeoHashNeighbors) :=
  let box := geohashBoundingBox longitude latitude radius_meters in
  steps ← geohashEstimateStepsByRadius radius_meters latitude;
  let '(long_range, lat_range) := geohashGetCoordRange in
  hash ← geohashEncode long_range lat_range longitude latitude steps;
  let neighbors := geohashNeighbors hash in
  area ← geohashDecode long_range lat_range hash;
  north_ ← geohashDecode long_range lat_range (north neighbors);
  south_ ← geohashDecode long_range lat_range (south neighbors);
  east_ ← geohashDecode long_range lat_range (east neighbors);
  west_ ← geohashDecode long_range lat_range (west neighbors);
  let decrease_step :=
    dltb (geohashGetDistance longitude latitude longitude (r_max (a_latitude north_))) radius_meters
    || dltb (geohashGetDistance longitude latitude longitude (r_min (a_latitude south_))) radius_meters
    || dltb (geohashGetDistance longitude latitude (r_max (a_longitude east_)) latitude) radius_meters
    || dltb (geohashGetDistance longitude latitude (r_min (a_longitude west_)) latitude) radius_meters in
  '(steps, hash, neighbors, area) ←
    (if (steps >? 1) && decrease_step then
       hash ← geohashEncode long_range lat_range longitude latitude (steps - 1);
       area ← geohashDecode long_range lat_range hash;
       Some (steps - 1, hash, geohashNeighbors hash, area)
     else Some (steps, hash, neighbors, area));
  Some (hash,
    if steps >=? 2 then
      let n := exclude (dltb (r_min (a_latitude area)) (r_min (a_latitude box))) zero_south neighbors in
      let n := exclude (dgtb (r_max (a_latitude area)) (r_max (a_latitude box))) zero_north n in
      let n := exclude (dltb (r_min (a_longitude area)) (r_min (a_longitude box))) zero_west n in
      exclude (dgtb (r_max (a_longitude area)) (r_max (a_longitude box))) zero_east n
    else neighbors).
Definition geohashGetAreasByRadiusWGS84 (longitude latitude radius_meters : double) :
    option (GeoHashBits * GeoHashNeighbors) :=
  geohashGetAreasByRadius longitude latitude radius_meters.
End Distances.

(** ** The estimate of the steps *)

(** What [binary64] values are: [S754_finite] with a canonical mantissa. *)
Definition d_valid (x : double) : bool := valid_binary 53 1024 x.
Definition negative (x : double) : bool :=
  match x with S754_finite s _ _ | S754_infinity s => s | _ => false end.

Lemma MERCATOR_MAX_eq : ∃ m, MERCATOR_MAX = S754_finite false m (-28).
Proof. eexists. by vm_compute. Qed.
Lemma valid_finite s m e : d_valid (S754_finite s m e) = true → canonical_mantissa 53 1024 m e = true ∧ e ≤ 971.
Proof. unfold d_valid. cbn [valid_binary]. unfold bounded. intros [H1 H2]%andb_prop. split; [done|lia]. Qed.
Lemma canonical_digits m e : canonical_mantissa 53 1024 m e = true →
  (Z.pos (digits2_pos m) = 53 ∧ - 1074 ≤ e) ∨ (Z.pos (digits2_pos m) < 53 ∧ e = - 1074).
Proof. intros H%Z.eqb_eq. unfold fexp, emin in H. lia. Qed.
Lemma canonical_normal m e : Z.pos (digits2_pos m) = 53 → - 1074 ≤ e → canonical_mantissa 53 1024 m e = true.
Proof. intros H1 H2. apply Z.eqb_eq. unfold fexp, emin. lia. Qed.
Lemma canonical_subnormal m : Z.pos (digits2_pos m) ≤ 53 → canonical_mantissa 53 1024 m (- 1074) = true.
Proof. intros H1. apply Z.eqb_eq. unfold fexp, emin. lia. Qed.

(** Twice a number is valid again, closer to the largest ones by one step. *)
Lemma dmul_two_valid s m e : d_valid (S754_finite s m e) = true →
  dmul (S754_finite s m e) dtwo = S754_infinity s ∨
  ∃ m' e', dmul (S754_finite s m e) dtwo = S754_finite s m' e' ∧ d_valid (S754_finite s m' e') = true ∧
    Z.pos (digits2_pos m') + e' = Z.pos (digits2_pos m) + e + 1.
Proof.
  intros [Hc He]%valid_finite. rewrite dmul_two by done. unfold d_valid. cbn [valid_binary]. unfold bounded.
  destruct (Z.eqb_spec (Z.pos (digits2_pos m)) 53) as [Hd|Hd].
  - destruct (Z.ltb_spec e 971) as [Hl|]; [right|by left]. exists m, (e + 1).
    destruct (canonical_digits m e Hc) as [[_ H]|[H _]]; [|lia].
    rewrite canonical_normal by lia. split; [done|]. split; [|lia]. apply andb_true_intro. split; [done|lia].
  - right. exists (xO m), e. destruct (canonical_digits m e Hc) as [[H _]|[H ->]]; [lia|].
    cbn [digits2_pos]. rewrite Pos2Z.inj_succ. split; [done|]. split; [|lia].
    rewrite canonical_subnormal; [done|]. cbn [digits2_pos]. rewrite Pos2Z.inj_succ. lia.
Qed.

Lemma estimate_loop_S n r step : estimate_loop (S n) r step =
  if dltb r MERCATOR_MAX then estimate_loop n (dmul r dtwo) (step + 1) else Some step.
Proof. done. Qed.
Lemma estimate_ends_finite n : ∀ m e step, d_valid (S754_finite false m e) = true →
  26 - (Z.pos (digits2_pos m) + e) < Z.of_nat n → estimate_loop (S n) (S754_finite false m e) step ≠ None.
Proof.
  destruct MERCATOR_MAX_eq as [M HM].
  induction n as [|n IH]; intros m e step Hv Hn; rewrite estimate_loop_S, HM.
  - pose proof (valid_finite _ _ _ Hv) as [Hc _]. apply canonical_digits in Hc. unfold dltb, SFltb. cbn [SFcompare].
    replace (e ?= -28) with Gt; [done|]. symmetry. apply Z.compare_gt_iff. lia.
  - destruct (dltb _ _); [|done].
    destruct (dmul_two_valid false m e Hv) as [->|(m' & e' & -> & Hv' & Hs)].
    + by rewrite estimate_loop_S, HM.
    + apply IH; [done|]. lia.
Qed.

(** The estimate of the number of steps for a radius ends, within the fuel of the model, for
    every radius that is not negative. *)
Lemma estimate_steps range_meters lat : d_valid range_meters = true → negative range_meters = false →
  ∃ s, geohashEstimateStepsByRadius range_meters lat = Some s ∧ 1 ≤ s ≤ 26.
Proof.
  intros Hv Hs. unfold geohashEstimateStepsByRadius.
  destruct (deqb range_meters (d_of_Z 0)) eqn:H0; [by exists 26|].
  assert (∃ n, steps_fuel = S n ∧ 1150 ≤ Z.of_nat n) as (n & -> & Hn) by (exists 1199%nat; split; [done|lia]).
  destruct MERCATOR_MAX_eq as [M HM].
  assert (estimate_loop (S n) range_meters 1 ≠ None) as H.
  { destruct range_meters as [s|s| |s m e]; cbn [negative] in Hs; subst;
      [exfalso; clear -H0; by destruct s|rewrite estimate_loop_S, HM; clear; by intros ?|rewrite estimate_loop_S, HM; clear; by intros ?|].
    apply estimate_ends_finite; [done|]. apply valid_finite in Hv as [Hc _]. apply canonical_digits in Hc. lia. }
  destruct (estimate_loop (S n) range_meters 1) as [s|]; [|done]. cbn [mbind option_bind]. eexists. split; [done|].
  repeat case_match; lia.
Qed.

(** For a negative one it does not. *)
Lemma estimate_diverges fuel : ∀ range_meters step, d_valid range_meters = true → negative range_meters = true →
  estimate_loop fuel range_meters step = None.
Proof.
  induction fuel as [|fuel IH]; intros r step Hv Hn; [done|]. rewrite estimate_loop_S.
  destruct MERCATOR_MAX_eq as [M ->].
  destruct r as [s|s| |s m e]; try done; cbn [negative] in Hn; subst s.
  - by apply IH.
  - destruct (dmul_two_valid true m e Hv) as [->|(m' & e' & -> & Hv' & _)]; by apply IH.
Qed.

(** ** The cells around a circle *)

Lemma encode_step a b x y s h : geohashEncode a b x y s = Some h → step h = s.
Proof.
  unfold geohashEncode. intros H. repeat (case_match; [by simplify_eq/=|]).
  apply bind_Some in H as (i & _ & H). apply bind_Some in H as (j & _ & [= <-]). done.
Qed.
Lemma decode_some h : 1 ≤ step h → is_Some (geohashDecode geohashGetCoordRange.1 geohashGetCoordRange.2 h).
Proof.
  intros Hs. unfold geohashDecode.
  replace (RANGEISZERO geohashGetCoordRange.2) with false by (by vm_compute).
  replace (RANGEISZERO geohashGetCoordRange.1) with false by (by vm_compute).
  replace (HASHISZERO h) with false by (unfold HASHISZERO; lia). cbn [orb].
  destruct (decode_indices h). by eexists.
Qed.
Lemma position_some b : is_Some (geohashDecodeToLongLatWGS84 (mkHash b GEO_STEP_MAX)).
Proof. unfold geohashDecodeToLongLatWGS84, geohashDecodeToLongLatType, geohashDecodeType. by apply fmap_is_Some, decode_some. Qed.

(** The cells of a circle with a radius that is not negative, around a position that has a
    cell at each number of steps. *)
Lemma areas_some {ML : MathLib} longitude latitude radius_meters :
  d_valid radius_meters = true → negative radius_meters = false →
  (∀ s, 1 ≤ s ≤ 26 → is_Some (geohashEncodeWGS84 longitude latitude s)) →
  is_Some (geohashGetAreasByRadiusWGS84 longitude latitude radius_meters).
Proof.
  intros Hv Hn He. unfold geohashGetAreasByRadiusWGS84, geohashGetAreasByRadius.
  destruct (estimate_steps radius_meters latitude Hv Hn) as (s & -> & Hs). cbn [mbind option_bind].
  pose proof (surjective_pairing geohashGetCoordRange) as E. rewrite E. unfold geohashEncodeWGS84, geohashEncodeType in He.
  destruct (He s Hs) as [h Hh]. rewrite Hh. cbn [mbind option_bind]. apply encode_step in Hh.
  destruct (decode_some h) as [? ->]; [lia|]. cbn [mbind option_bind].
  do 4 (match goal with |- is_Some (geohashDecode _ _ ?x ≫= _) =>
    destruct (decode_some x) as [? ->]; [cbn; lia|]; cbn [mbind option_bind] end).
  match goal with |- context [(s >? 1) && ?b] => destruct (Z.gtb_spec s 1); [destruct b|] end; cbn [andb];
    [|cbn [mbind option_bind]; by eexists..].
  destruct (He (s - 1)) as [h' Hh']; [lia|]. rewrite Hh'. cbn [mbind option_bind]. apply encode_step in Hh'.
  destruct (decode_some h') as [? ->]; [lia|]. cbn [mbind option_bind]. by eexists.
Qed.
