(* ===== verification/InnerMessage.v ===== *)
(** * Messages between master and slave (src/pika_inner_message.proto)

    The records of the messages; an optional field is an [option], a repeated one
    a list.  The offset message carries the four numbers of a log offset, so
    [LogOffset] stands for it (its optional fields are 0 when absent, as the
    generated accessors return).  Reading an absent sub-message gives its default
    instance.  Serialisation belongs to the protocol buffer library. *)

From S2P Require Import Prelude Define.
From stdpp Require Import base list strings.
From Stdlib Require Import ZArith Init.Byte.
#[local] Open Scope string_scope.
#[local] Open Scope list_scope.
#[local] Open Scope Z_scope.

Inductive MsgType := kMetaSync | kTrySync | kDBSync | kBinlogSync | kHeatBeat | kRemoveSlaveNode.
Inductive StatusCode := msg_kOk | msg_kError | msg_kOther.
Inductive ReplyCode := kReplyOk | kSyncPointBePurged | kSyncPointLarger | kReplyError.

#[export] Instance MsgType_eq_dec : EqDecision MsgType.
Proof. solve_decision. Defined.
#[export] Instance StatusCode_eq_dec : EqDecision StatusCode.
Proof. solve_decision. Defined.
#[export] Instance ReplyCode_eq_dec : EqDecision ReplyCode.
Proof. solve_decision. Defined.

Record Node := mkNode { node_ip : string; node_port : Z }.
Record MsgPartition := mkMsgPartition { m_table_name : string; m_partition_id : Z }.
Record ConsensusMeta := mkMeta {
  meta_term : Z; meta_log_offset : LogOffset; meta_commit : LogOffset;
  meta_reject : bool; meta_hint : list LogOffset }.

(** ** Requests, from the slave *)

Record MetaSyncReq := mkMetaSyncReq { ms_node : Node; ms_auth : option string }.
Record TrySyncReq := mkTrySyncReq {
  ts_node : Node; ts_partition : MsgPartition; ts_offset : LogOffset }.
Record DBSyncReq := mkDBSyncReq {
  ds_node : Node; ds_partition : MsgPartition; ds_offset : LogOffset }.
Record BinlogSyncReq := mkBinlogSyncReq {
  bs_node : Node; bs_table_name : string; bs_partition_id : Z;
  bs_ack_range_start : LogOffset; bs_ack_range_end : LogOffset;
  bs_session_id : Z; bs_first_send : bool }.
Record RemoveSlaveNodeMsg := mkRemoveSlaveNode { rs_node : Node; rs_partition : MsgPartition }.

Record InnerRequest := mkRequest {
  req_type : MsgType; req_meta_sync : option MetaSyncReq; req_try_sync : option TrySyncReq;
  req_db_sync : option DBSyncReq; req_binlog_sync : option BinlogSyncReq;
  req_remove_slave_node : list RemoveSlaveNodeMsg; req_consensus_meta : option ConsensusMeta }.

(** ** Responses, from the master *)

Record MetaSyncResp := mkMetaSyncResp {
  msr_classic_mode : bool; msr_tables_info : list (string * Z) }.
Record TrySyncResp := mkTrySyncResp {
  tsr_reply_code : ReplyCode; tsr_partition : MsgPartition;
  tsr_binlog_offset : option LogOffset; tsr_session_id : option Z }.
(** [session_id] is required, but a handler may leave it unset. *)
Record DBSyncResp := mkDBSyncResp { dsr_partition : MsgPartition; dsr_session_id : option Z }.
Record BinlogSyncResp := mkBinlogSyncResp {
  bsr_partition : MsgPartition; bsr_offset : LogOffset; bsr_binlog : bytes; bsr_session_id : Z }.

Record InnerResponse := mkResponse {
  res_type : MsgType; res_code : StatusCode; res_reply : string;
  res_meta_sync : option MetaSyncResp; res_db_sync : option DBSyncResp;
  res_try_sync : option TrySyncResp; res_binlog_sync : list BinlogSyncResp;
  res_remove_slave_node : list RemoveSlaveNodeMsg; res_consensus_meta : option ConsensusMeta }.

(** Default instances. *)
Definition Node0 : Node := mkNode "" 0.
Definition MsgPartition0 : MsgPartition := mkMsgPartition "" 0.
Definition MetaSyncReq0 : MetaSyncReq := mkMetaSyncReq Node0 None.
Definition TrySyncReq0 : TrySyncReq := mkTrySyncReq Node0 MsgPartition0 LogOffset0.
Definition DBSyncReq0 : DBSyncReq := mkDBSyncReq Node0 MsgPartition0 LogOffset0.
Definition MetaSyncResp0 : MetaSyncResp := mkMetaSyncResp false [].
Definition TrySyncResp0 : TrySyncResp := mkTrySyncResp kReplyOk MsgPartition0 None None.
Definition DBSyncResp0 : DBSyncResp := mkDBSyncResp MsgPartition0 None.

Definition request (t : MsgType) : InnerRequest := mkRequest t None None None None [] None.
Definition response (t : MsgType) (code : StatusCode) : InnerResponse :=
  mkResponse t code "" None None None [] [] None.

Definition set_res_code (code : StatusCode) (reply : string) (r : InnerResponse) : InnerResponse :=
  mkResponse (res_type r) code reply (res_meta_sync r) (res_db_sync r) (res_try_sync r)
    (res_binlog_sync r) (res_remove_slave_node r) (res_consensus_meta r).
Definition set_res_meta_sync (m : MetaSyncResp) (r : InnerResponse) : InnerResponse :=
  mkResponse (res_type r) (res_code r) (res_reply r) (Some m) (res_db_sync r) (res_try_sync r)
    (res_binlog_sync r) (res_remove_slave_node r) (res_consensus_meta r).
Definition set_res_db_sync (m : DBSyncResp) (r : InnerResponse) : InnerResponse :=
  mkResponse (res_type r) (res_code r) (res_reply r) (res_meta_sync r) (Some m) (res_try_sync r)
    (res_binlog_sync r) (res_remove_slave_node r) (res_consensus_meta r).
Definition set_res_try_sync (m : TrySyncResp) (r : InnerResponse) : InnerResponse :=
  mkResponse (res_type r) (res_code r) (res_reply r) (res_meta_sync r) (res_db_sync r) (Some m)
    (res_binlog_sync r) (res_remove_slave_node r) (res_consensus_meta r).
Definition set_res_binlog_sync (m : list BinlogSyncResp) (r : InnerResponse) : InnerResponse :=
  mkResponse (res_type r) (res_code r) (res_reply r) (res_meta_sync r) (res_db_sync r)
    (res_try_sync r) m (res_remove_slave_node r) (res_consensus_meta r).
Definition set_res_remove (m : list RemoveSlaveNodeMsg) (r : InnerResponse) : InnerResponse :=
  mkResponse (res_type r) (res_code r) (res_reply r) (res_meta_sync r) (res_db_sync r)
    (res_try_sync r) (res_binlog_sync r) m (res_consensus_meta r).
Definition set_res_consensus (m : ConsensusMeta) (r : InnerResponse) : InnerResponse :=
  mkResponse (res_type r) (res_code r) (res_reply r) (res_meta_sync r) (res_db_sync r)
    (res_try_sync r) (res_binlog_sync r) (res_remove_slave_node r) (Some m).

Definition set_reply_code (c : ReplyCode) (t : TrySyncResp) : TrySyncResp :=
  mkTrySyncResp c (tsr_partition t) (tsr_binlog_offset t) (tsr_session_id t).
Definition set_tsr_offset (o : LogOffset) (t : TrySyncResp) : TrySyncResp :=
  mkTrySyncResp (tsr_reply_code t) (tsr_partition t) (Some o) (tsr_session_id t).
Definition set_tsr_session (n : Z) (t : TrySyncResp) : TrySyncResp :=
  mkTrySyncResp (tsr_reply_code t) (tsr_partition t) (tsr_binlog_offset t) (Some n).
Definition set_dsr_session (n : Z) (t : DBSyncResp) : DBSyncResp :=
  mkDBSyncResp (dsr_partition t) (Some n).

Definition set_req_meta_sync (m : MetaSyncReq) (r : InnerRequest) : InnerRequest :=
  mkRequest (req_type r) (Some m) (req_try_sync r) (req_db_sync r) (req_binlog_sync r)
    (req_remove_slave_node r) (req_consensus_meta r).
Definition set_req_try_sync (m : TrySyncReq) (r : InnerRequest) : InnerRequest :=
  mkRequest (req_type r) (req_meta_sync r) (Some m) (req_db_sync r) (req_binlog_sync r)
    (req_remove_slave_node r) (req_consensus_meta r).
Definition set_req_db_sync (m : DBSyncReq) (r : InnerRequest) : InnerRequest :=
  mkRequest (req_type r) (req_meta_sync r) (req_try_sync r) (Some m) (req_binlog_sync r)
    (req_remove_slave_node r) (req_consensus_meta r).
Definition set_req_binlog_sync (m : BinlogSyncReq) (r : InnerRequest) : InnerRequest :=
  mkRequest (req_type r) (req_meta_sync r) (req_try_sync r) (req_db_sync r) (Some m)
    (req_remove_slave_node r) (req_consensus_meta r).
Definition set_req_remove (m : list RemoveSlaveNodeMsg) (r : InnerRequest) : InnerRequest :=
  mkRequest (req_type r) (req_meta_sync r) (req_try_sync r) (req_db_sync r) (req_binlog_sync r)
    m (req_consensus_meta r).
Definition set_req_consensus (m : ConsensusMeta) (r : InnerRequest) : InnerRequest :=
  mkRequest (req_type r) (req_meta_sync r) (req_try_sync r) (req_db_sync r) (req_binlog_sync r)
    (req_remove_slave_node r) (Some m).
