(* ===== verification/Server.v ===== *)
(** * The server's replication state (src/pika_server.cc: PikaServer)

    The role of the server, the state of the connection to its master, and the
    list of its slaves; with the replica manager it forms the [World], the state
    of the process that the replication handlers work on.  Operations run in the
    monad [M World].  The flag [loop_partition_state_machine_] is a field of the
    manager's record ([Rm]).  Clocks are arguments. *)

From S2P Require Import Prelude Define Env Binlog BinlogReader Transverter Command SlaveNode.
From S2P Require Import Consensus StableLog Coordinator WriteQueue MasterPartition SlavePartition.
From S2P Require Import ReplicaManager.
From stdpp Require Import base list strings pretty gmap sorting.
From Stdlib Require Import ZArith Lia Init.Byte.
#[local] Open Scope string_scope.
#[local] Open Scope list_scope.
#[local] Open Scope Z_scope.

Definition PIKA_REPL_NO_CONNECT : Z := 0.
Definition PIKA_REPL_SHOULD_META_SYNC : Z := 1.
Definition PIKA_REPL_META_SYNC_DONE : Z := 2.
Definition PIKA_REPL_ERROR : Z := 3.
Definition kDBSyncMaxGap : Z := 50.

(** [TableStruct]; the ids are in the order of the set. *)
Record TableStruct := mkTableStruct {
  tbl_name : string; partition_num : Z; partition_ids : list Z }.
#[export] Instance TableStruct_eq_dec : EqDecision TableStruct.
Proof. solve_decision. Defined.

(** [SlaveItem], without its creation time and its stage, which are only
    reported. *)
Record SlaveItem := mkSlaveItem {
  sl_ip_port : string; sl_ip : string; sl_port : Z; sl_conn_fd : Z;
  sl_table_structs : list TableStruct }.

Record PikaServer := mkServer {
  host_ : string; srv_port_ : Z; master_ip_ : string; master_port_ : Z; repl_state_of : Z;
  role_ : Z; last_meta_sync_timestamp_ : Z; first_meta_sync_ : bool; force_full_sync_ : bool;
  slaves_list : list SlaveItem;
  (** The partitions of [tables_], in order. *)
  partitions_of : list PartitionInfo }.

Definition PikaServer_new (host : string) (port : Z) (partitions : list PartitionInfo) :
    PikaServer :=
  mkServer host port "" 0 PIKA_REPL_NO_CONNECT PIKA_ROLE_SINGLE 0 false false [] partitions.

Definition set_master_addr (ip : string) (port : Z) (s : PikaServer) : PikaServer :=
  mkServer (host_ s) (srv_port_ s) ip port (repl_state_of s) (role_ s)
    (last_meta_sync_timestamp_ s) (first_meta_sync_ s) (force_full_sync_ s) (slaves_list s)
    (partitions_of s).
Definition set_repl (x : Z) (s : PikaServer) : PikaServer :=
  mkServer (host_ s) (srv_port_ s) (master_ip_ s) (master_port_ s) x (role_ s)
    (last_meta_sync_timestamp_ s) (first_meta_sync_ s) (force_full_sync_ s) (slaves_list s)
    (partitions_of s).
Definition set_role (x : Z) (s : PikaServer) : PikaServer :=
  mkServer (host_ s) (srv_port_ s) (master_ip_ s) (master_port_ s) (repl_state_of s) x
    (last_meta_sync_timestamp_ s) (first_meta_sync_ s) (force_full_sync_ s) (slaves_list s)
    (partitions_of s).
Definition set_timestamp (x : Z) (s : PikaServer) : PikaServer :=
  mkServer (host_ s) (srv_port_ s) (master_ip_ s) (master_port_ s) (repl_state_of s) (role_ s)
    x (first_meta_sync_ s) (force_full_sync_ s) (slaves_list s) (partitions_of s).
Definition set_first (x : bool) (s : PikaServer) : PikaServer :=
  mkServer (host_ s) (srv_port_ s) (master_ip_ s) (master_port_ s) (repl_state_of s) (role_ s)
    (last_meta_sync_timestamp_ s) x (force_full_sync_ s) (slaves_list s) (partitions_of s).
Definition set_force (x : bool) (s : PikaServer) : PikaServer :=
  mkServer (host_ s) (srv_port_ s) (master_ip_ s) (master_port_ s) (repl_state_of s) (role_ s)
    (last_meta_sync_timestamp_ s) (first_meta_sync_ s) x (slaves_list s) (partitions_of s).
Definition set_slave_list (x : list SlaveItem) (s : PikaServer) : PikaServer :=
  mkServer (host_ s) (srv_port_ s) (master_ip_ s) (master_port_ s) (repl_state_of s) (role_ s)
    (last_meta_sync_timestamp_ s) (first_meta_sync_ s) (force_full_sync_ s) x (partitions_of s).

(** ** Operations on the server alone *)

Definition has_role (bit : Z) (s : PikaServer) : bool := negb (Z.land (role_ s) bit =? 0).

Definition BecomeMaster (s : PikaServer) : PikaServer :=
  set_role (Z.lor (role_ s) PIKA_ROLE_MASTER) s.

(** [slash::IpPortString]. *)
Definition IpPortString (ip : string) (port : Z) : string := ip +:+ ":" +:+ pretty port.

Definition TryAddSlave (ip : string) (port fd : Z) (table_structs : list TableStruct)
    (s : PikaServer) : bool * PikaServer :=
  let ip_port := IpPortString ip port in
  if existsb (λ x, bool_decide (sl_ip_port x = ip_port)) (slaves_list s) then (false, s)
  else (true, set_slave_list
                (slaves_list s ++ [mkSlaveItem ip_port ip (s32 port) fd table_structs]) s).

(** The search of [DeleteSlave]: the slave of the connection, and the rest. *)
Fixpoint take_slave (fd : Z) (l : list SlaveItem) : option SlaveItem * list SlaveItem :=
  match l with
  | [] => (None, [])
  | x :: l =>
      if sl_conn_fd x =? fd then (Some x, l)
      else let '(found, l) := take_slave fd l in (found, x :: l)
  end.

Definition SyncError (s : PikaServer) : PikaServer := set_repl PIKA_REPL_ERROR s.

Definition SetMaster (master_ip : string) (master_port : Z) (s : PikaServer) :
    bool * PikaServer :=
  let master_ip := if bool_decide (master_ip = "127.0.0.1") then host_ s else master_ip in
  if negb (Z.lxor (role_ s) PIKA_ROLE_SLAVE =? 0) && (repl_state_of s =? PIKA_REPL_NO_CONNECT)
  then (true, set_repl PIKA_REPL_SHOULD_META_SYNC
                (set_role (Z.lor (role_ s) PIKA_ROLE_SLAVE)
                   (set_master_addr master_ip master_port s)))
  else (false, s).

Definition ShouldMetaSync (s : PikaServer) : bool :=
  repl_state_of s =? PIKA_REPL_SHOULD_META_SYNC.
Definition MetaSyncDone (s : PikaServer) : bool := repl_state_of s =? PIKA_REPL_META_SYNC_DONE.

(** [time(NULL)] as an [int]. *)
Definition UpdateMetaSyncTimestamp (now : Z) (s : PikaServer) : PikaServer :=
  set_timestamp (s32 now) s.

Section Server.
Context {FS : Type} {E : SlashEnv FS} {C : FixedCoding} {SN : StringNum}.
Context {Cmd Conn Resp : Type} {CO : CmdOps Cmd}.
Context (conf : PikaConf) (fuel gfuel cfuel : nat).
Context {Net : Type}.
Context (SelectLocalIp : string → Z → Net → Status * string).
(** [CloseReplClientConn]. *)
Context (CloseReplClientConn : string → Z → Net → Net).
Abbreviation Rm := (@Rm FS Cmd Conn Resp Net).

Record World := mkWorld { w_rm : Rm; w_srv : PikaServer }.
Definition set_w_rm (r : Rm) (w : World) : World := mkWorld r (w_srv w).
Definition set_srv (s : PikaServer) (w : World) : World := mkWorld (w_rm w) s.
Abbreviation W := (M World).

Definition on_rm {A} (m : M Rm A) : W A := zoom w_rm set_w_rm m.
Definition srv_modify (f : PikaServer → PikaServer) : W unit :=
  modify (λ w, set_srv (f (w_srv w)) w).
Definition get_srv : W PikaServer := gets w_srv.

(** *** Losing a slave *)

Definition DeleteSlave (fd : Z) : W unit :=
  let* s := get_srv in
  let '(found, rest) := take_slave fd (slaves_list s) in
  srv_modify (set_slave_list rest) ;;;
  match found with
  | None => ret tt
  | Some x =>
      on_rm (LostConnection (sl_ip x) (sl_port x)) ;;;
      on_rm (modify (λ r, set_queues (DropItemInWriteQueue (sl_ip x) (sl_port x) (write_queues_ r)) r))
  end ;;;
  match rest with
  | [] => srv_modify (λ s, set_role (Z.land (role_ s) (Z.lnot PIKA_ROLE_MASTER)) s)
  | _ => ret tt
  end.

(** *** The master of this server *)

(** [DoSameThingEveryPartition(kResetReplState)]; a missing partition aborts. *)
Fixpoint reset_repl_states (ps : list PartitionInfo) : W unit :=
  match ps with
  | [] => ret tt
  | p :: ps =>
      let* w := get in
      match GetSyncSlavePartitionByName p (w_rm w) with
      | None => abort
      | Some sp => on_rm (put_slave_partition p (SetReplState kNoConnect sp))
      end ;;;
      reset_repl_states ps
  end.

Definition DoSameThingEveryPartition : W unit :=
  let* s := get_srv in reset_repl_states (partitions_of s).

Definition RemoveMaster (now : Z) : W unit :=
  srv_modify (set_repl PIKA_REPL_NO_CONNECT) ;;;
  srv_modify (λ s, set_role (Z.land (role_ s) (Z.lnot PIKA_ROLE_SLAVE)) s) ;;;
  let* s := get_srv in
  (if negb (bool_decide (master_ip_ s = "")) && negb (master_port_ s =? -1) then
     on_rm (modify (λ r, set_net (CloseReplClientConn (master_ip_ s)
                                    (master_port_ s + kPortShiftReplServer) (net_ r)) r)) ;;;
     on_rm (LostConnection (master_ip_ s) (master_port_ s)) ;;;
     on_rm (modify (set_loop false)) ;;;
     srv_modify (UpdateMetaSyncTimestamp now)
   else ret tt) ;;;
  srv_modify (set_master_addr "" (-1)) ;;;
  DoSameThingEveryPartition.

Definition FinishMetaSync : W unit :=
  let* s := get_srv in
  massert (repl_state_of s =? PIKA_REPL_SHOULD_META_SYNC) ;;;
  srv_modify (set_repl PIKA_REPL_META_SYNC_DONE).

Definition ResetMetaSyncStatus : W unit :=
  let* s := get_srv in
  if has_role PIKA_ROLE_SLAVE s then
    srv_modify (set_repl PIKA_REPL_SHOULD_META_SYNC) ;;;
    on_rm (modify (set_loop false)) ;;;
    DoSameThingEveryPartition
  else ret tt.

Definition SetLoopPartitionStateMachine (need_loop : bool) : W unit :=
  let* s := get_srv in
  massert (repl_state_of s =? PIKA_REPL_META_SYNC_DONE) ;;;
  on_rm (modify (set_loop need_loop)).

(** The loop of [PreparePartitionTrySync]; failures are only logged. *)
Fixpoint prepare_loop (now : Z) (state : ReplState) (ps : list PartitionInfo) : W unit :=
  match ps with
  | [] => ret tt
  | p :: ps =>
      let* s := get_srv in
      on_rm (ActivateSyncSlavePartition SelectLocalIp now
        (RmNode_new (master_ip_ s) (master_port_ s) (table_name_ p) (partition_id_ p) 0) state) ;;;
      prepare_loop now state ps
  end.

Definition PreparePartitionTrySync (now : Z) : W unit :=
  let* s := get_srv in
  let state := if force_full_sync_ s then kTryDBSync else kTryConnect in
  prepare_loop now state (partitions_of s) ;;;
  srv_modify (set_force false) ;;;
  on_rm (modify (set_loop true)).

(** [AllPartitionConnectSuccess]: the loop runs over the partitions by table; a
    missing one ends it, one that is not connected ends its table. *)
Definition partition_connected (r : Rm) (p : PartitionInfo) : option bool :=
  (λ sp, bool_decide (State sp = kConnected)) <$> GetSyncSlavePartitionByName p r.
Fixpoint all_connected (r : Rm) (ps : list PartitionInfo) : bool :=
  match ps with
  | [] => true
  | p :: ps =>
      match partition_connected r p with
      | None => false
      | Some b => b && all_connected r ps
      end
  end.
Definition AllPartitionConnectSuccess (w : World) : bool :=
  all_connected (w_rm w) (partitions_of (w_srv w)).
End Server.
