(* ===== verification/PikaMeta.v ===== *)
(** * The meta file (src/pika_meta.cc)

    The tables are kept in a file of their own: the version and the size of a message, and
    the message.  It is written to a temporary file that takes the place of the old one. *)

From S2P Require Import Prelude Define Env Binlog SlaveNode Consensus Server.
From stdpp Require Import base list strings pretty gmap sorting.
From Stdlib Require Import ZArith Lia Init.Byte.
#[local] Open Scope string_scope.
#[local] Open Scope list_scope.
#[local] Open Scope Z_scope.

(** [slash::CreatePath] and [slash::RenameFile]. *)
Class SlashPaths (FS : Type) := {
  env_create_path : FS → string → FS;
  env_rename : FS → string → string → Z * FS }.
Class SlashPathsLaws (FS : Type) {E : SlashEnv FS} {P : SlashPaths FS} := {
  law_create_path fs p m : env_rwdata (env_create_path fs p) m = env_rwdata fs m;
  (** A file that is renamed takes the place of another. *)
  law_rename fs a b fs' d : env_rename fs a b = (0, fs') → env_rwdata fs a = Some d → env_rwdata fs' b = Some d }.
(** The generated code of the message: a [TableInfo] for each table. *)
Class MetaCodec := {
  SerializeToString : list TableStruct → option bytes;
  ParseFromArray : bytes → option (list TableStruct) }.
Class MetaCodecLaws {C : MetaCodec} := {
  law_meta ts s : SerializeToString ts = Some s → ParseFromArray s = Some ts }.

Definition kPikaMeta : string := "meta".
Definition VERSION : Z := 1.

(** A [std::set] of ids, in order. *)
Fixpoint id_insert (id : Z) (l : list Z) : list Z :=
  match l with
  | [] => [id]
  | x :: l => if id <? x then id :: x :: l else if id =? x then x :: l else x :: id_insert id l
  end.
Definition id_set (ids : list Z) : list Z := foldl (λ l id, id_insert id l) [] ids.
Definition parsed_table (t : TableStruct) : TableStruct := mkTableStruct (tbl_name t) (partition_num t) (id_set (partition_ids t)).

Section PikaMeta.
Context {FS : Type} {E : SlashEnv FS} {P : SlashPaths FS} {C : MetaCodec}.
Implicit Types (path : string) (fs : FS).

Definition meta_file path : string := path +:+ kPikaMeta.
Definition tmp_file path : string := meta_file path +:+ "_tmp".

(** [None]: the mapping is not there, or the message is copied past its end. *)
Definition PikaMeta_StableSave path (table_structs : list TableStruct) fs : option (Status * FS) :=
  if bool_decide (path = "") then Some (Corruption "local meta file path empty", fs) else
  let fs := env_create_path fs path in
  let '(s, fs) := env_new_rwfile fs (tmp_file path) in
  if negb (ok s) then Some (Corruption "open local meta file failed", fs) else
  match SerializeToString table_structs with
  | None => Some (Corruption "serialize meta string failed", fs)
  | Some meta_str =>
      data ← env_rwdata fs (tmp_file path);
      if zlen data <? 8 + zlen meta_str then None else
      let fs := env_rwstore fs (tmp_file path) 0 (le_bytes 4 VERSION) in
      let fs := env_rwstore fs (tmp_file path) 4 (le_bytes 4 (zlen meta_str)) in
      let fs := env_rwstore fs (tmp_file path) 8 meta_str in
      let fs := (env_delete fs (meta_file path)).2 in
      let '(ret, fs) := env_rename fs (tmp_file path) (meta_file path) in
      if negb (ret =? 0) then Some (Corruption "faild to rename file", fs) else Some (OK, fs)
  end.

(** The tables, or the error; [None]: the message is read past the end of the mapping. *)
Definition PikaMeta_ParseMeta path fs : option ((Status + list TableStruct) * FS) :=
  if negb (env_exists fs (meta_file path)) then Some (inl (Corruption "meta file not found"), fs) else
  let '(s, fs) := env_new_rwfile fs (meta_file path) in
  if negb (ok s) then Some (inl (Corruption "open local meta file failed"), fs) else
  match env_rwdata fs (meta_file path) with
  | None => Some (inl (Corruption "meta file init error"), fs)
  | Some data =>
      if zlen data <? 8 then None else
      let meta_size := le_val (slice 4 4 data) in
      if zlen data <? 8 + meta_size then None else
      match ParseFromArray (slice 8 meta_size data) with
      | None => Some (inl (Corruption "parse meta string failed"), fs)
      | Some tables => Some (inr (parsed_table <$> tables), fs)
      end
  end.
End PikaMeta.

(** ** What is saved is read *)

Section Facts.
Context {FS : Type} {E : SlashEnv FS} {L : SlashEnvLaws FS} {P : SlashPaths FS} {PL : SlashPathsLaws FS}.
Context {C : MetaCodec} {CL : MetaCodecLaws}.
Implicit Types (path : string) (fs : FS).

Definition ids_sorted (t : TableStruct) : Prop := StronglySorted Z.lt (partition_ids t).

Lemma id_insert_last id l : Forall (λ x, x < id) l → id_insert id l = l ++ [id].
Proof.
  induction 1 as [|x l Hx H IH]; [done|]. cbn [id_insert app].
  destruct (Z.ltb_spec id x); [lia|]. destruct (Z.eqb_spec id x); [lia|]. by rewrite IH.
Qed.
Lemma id_set_after l ids : StronglySorted Z.lt (l ++ ids) → foldl (λ l id, id_insert id l) l ids = l ++ ids.
Proof.
  revert l. induction ids as [|id ids IH]; intros l Hs; cbn [foldl]; [by rewrite app_nil_r|].
  rewrite (id_insert_last id l).
  - rewrite IH by (by rewrite <- app_assoc). by rewrite <- app_assoc.
  - apply Forall_forall. intros x Hx. apply (StronglySorted_app_1_elem_of _ l (id :: ids)); [done|done|left].
Qed.
Lemma parsed_sorted ts : Forall ids_sorted ts → parsed_table <$> ts = ts.
Proof.
  induction 1 as [|[n k ids] ts Ht H IH]; [done|]. rewrite fmap_cons, IH. unfold parsed_table, id_set. cbn.
  by rewrite id_set_after.
Qed.

(** A mapping with the version, the size and the message at its front. *)
Definition meta_image (s : bytes) : bytes := le_bytes 4 VERSION ++ le_bytes 4 (zlen s) ++ s.
Lemma meta_stored fs m s d : env_rwdata fs m = Some d → 8 + zlen s ≤ zlen d → ∃ rest,
  env_rwdata (env_rwstore (env_rwstore (env_rwstore fs m 0 (le_bytes 4 VERSION)) m 4 (le_bytes 4 (zlen s))) m 8 s) m =
    Some (meta_image s ++ rest).
Proof.
  intros Hd Hl. pose proof (zlen_le_bytes 4 VERSION) as Z1. pose proof (zlen_le_bytes 4 (zlen s)) as Z2.
  pose proof (zlen_nonneg s) as Z3.
  pose proof (rwstore_app fs m 0 [] (le_bytes 4 VERSION) d eq_refl Hd ltac:(lia)) as H1.
  eapply (rwstore_app _ m 4 _ (le_bytes 4 (zlen s))) in H1; [|cbn [app]; lia|rewrite zlen_zdrop; lia].
  eapply (rwstore_app _ m 8 _ s) in H1; [|rewrite zlen_app; cbn [app]; lia|rewrite zdrop_zdrop, zlen_zdrop; lia].
  eexists. rewrite H1. unfold meta_image. by rewrite <- !app_assoc.
Qed.

Lemma tmp_file_other path : tmp_file path ≠ meta_file path.
Proof. unfold tmp_file. intros H. apply (f_equal String.length) in H. rewrite length_append in H. cbn in H. lia. Qed.
Lemma PikaMeta_StableSave_saved path ts fs fs' : PikaMeta_StableSave path ts fs = Some (OK, fs') → ∃ s rest,
  SerializeToString ts = Some s ∧ env_rwdata fs' (meta_file path) = Some (meta_image s ++ rest).
Proof.
  unfold PikaMeta_StableSave. case_bool_decide as Hp; [done|]. destruct (env_new_rwfile _ _) as [s0 fs1]. destruct (ok s0); [|done]. cbn [negb].
  destruct (SerializeToString ts) as [s|]; [|done]. intros (d & Hd & H)%bind_Some.
  destruct (Z.ltb_spec (zlen d) (8 + zlen s)); [done|].
  destruct (meta_stored fs1 (tmp_file path) s d Hd ltac:(lia)) as [rest Hr]. cbv zeta in H.
  destruct (env_rename _ _ _) as [ret fs2] eqn:Er. destruct (Z.eqb_spec ret 0) as [->|]; [|done]. injection H as <-.
  exists s, rest. split; [done|]. eapply law_rename; [exact Er|]. rewrite law_rw_delete by apply tmp_file_other. exact Hr.
Qed.

(** The tables that were saved are the tables that are read when the server starts again:
    their names, their sizes and their partitions, whatever was in the file before. *)
Lemma meta_saved path ts fs fs' fs'' :
  Forall ids_sorted ts → (∀ s, SerializeToString ts = Some s → zlen s < 2 ^ 32) →
  PikaMeta_StableSave path ts fs = Some (OK, fs') → env_new_rwfile fs' (meta_file path) = (OK, fs'') →
  PikaMeta_ParseMeta path fs' = Some (inr ts, fs'').
Proof.
  intros Hs Hz (s & rest & Hc & Hd)%PikaMeta_StableSave_saved Ho. specialize (Hz s Hc). pose proof (zlen_nonneg s). pose proof (zlen_nonneg rest).
  unfold PikaMeta_ParseMeta. assert (env_exists fs' (meta_file path) = true) as -> by (apply law_exists; right; by rewrite Hd).
  rewrite Ho. cbn [negb ok]. destruct (law_new_rwfile _ _ _ Ho) as [_ Hn]. rewrite Hd in Hn. rewrite Hn.
  unfold meta_image. rewrite !zlen_app, !zlen_le_bytes.
  assert (slice 4 4 ((le_bytes 4 VERSION ++ le_bytes 4 (zlen s) ++ s) ++ rest) = le_bytes 4 (zlen s)) as ->.
  { rewrite <- !app_assoc. by apply slice_app_eq; rewrite zlen_le_bytes. }
  rewrite le_val_le_bytes_small by (cbn; lia).
  assert (slice 8 (zlen s) ((le_bytes 4 VERSION ++ le_bytes 4 (zlen s) ++ s) ++ rest) = s) as ->.
  { rewrite (app_assoc (le_bytes 4 VERSION)), <- (app_assoc _ s). apply slice_app_eq; [|done]. by rewrite zlen_app, !zlen_le_bytes. }
  destruct (Z.ltb_spec (Z.of_nat 4 + (Z.of_nat 4 + zlen s) + zlen rest) 8); [lia|].
  destruct (Z.ltb_spec (Z.of_nat 4 + (Z.of_nat 4 + zlen s) + zlen rest) (8 + zlen s)); [lia|]. rewrite (law_meta ts s Hc). by rewrite parsed_sorted.
Qed.

End Facts.
