(* ===== verification/ServerFacts.v ===== *)
(** * Facts about the server's replication state

    The server as a state machine: what the connection threads, the handlers and
    the commands do to its role, and the invariant of all of that. *)

From S2P Require Import Prelude Define Env Binlog BinlogReader Transverter Command SlaveNode.
From S2P Require Import Consensus StableLog Coordinator WriteQueue MasterPartition SlavePartition.
From S2P Require Import ReplicaManager Server.
From stdpp Require Import base list strings pretty gmap sorting relations.
From Stdlib Require Import ZArith Lia Init.Byte.
#[local] Open Scope string_scope.
#[local] Open Scope list_scope.
#[local] Open Scope Z_scope.

Section ServerFacts.
Context {FS : Type} {E : SlashEnv FS} {C : FixedCoding} {SN : StringNum}.
Context {Cmd Conn Resp : Type} {CO : CmdOps Cmd} {Net : Type}.
Context (SelectLocalIp : string → Z → Net → Status * string).
Context (CloseReplClientConn : string → Z → Net → Net).
Abbreviation World := (@World FS Cmd Conn Resp Net).
Implicit Types (w : World) (s : PikaServer).

(** One operation on the server, by the code that calls it. *)
Inductive ServerStep : World → World → Prop :=
  (** [HandleMetaSyncRequest] with a new slave. *)
  | server_accept w ip port fd ts s' :
      TryAddSlave ip port fd ts (w_srv w) = (true, s') →
      ServerStep w (set_srv (BecomeMaster s') w)
  (** [PikaReplServerThread]: a connection is closed. *)
  | server_delete w fd w' : DeleteSlave fd w = Some (tt, w') → ServerStep w w'
  (** [SlaveofCmd] and the start of the server. *)
  | server_set_master w ip port :
      ServerStep w (set_srv (SetMaster ip port (w_srv w)).2 w)
  | server_remove_master w now w' :
      RemoveMaster CloseReplClientConn now w = Some (tt, w') → ServerStep w w'
  (** [HandleMetaSyncResponse]. *)
  | server_finish w now w1 w' :
      PreparePartitionTrySync SelectLocalIp now w = Some (tt, w1) →
      FinishMetaSync w1 = Some (tt, w') → ServerStep w w'
  (** The connection to the master is closed or times out. *)
  | server_reset w now w' : ResetMetaSyncStatus w = Some (tt, w') →
      ServerStep w (set_srv (UpdateMetaSyncTimestamp now (w_srv w')) w')
  | server_error w : ServerStep w (set_srv (SyncError (w_srv w)) w).

(** The invariant. *)
Record srv_wf s : Prop := {
  srv_role : 0 ≤ role_ s < 4;
  srv_master_role : has_role PIKA_ROLE_MASTER s = true ↔ slaves_list s ≠ [];
  srv_no_dup : NoDup (sl_ip_port <$> slaves_list s);
  srv_slave_role : if has_role PIKA_ROLE_SLAVE s
                   then repl_state_of s ≠ PIKA_REPL_NO_CONNECT
                   else repl_state_of s = PIKA_REPL_NO_CONNECT ∨ repl_state_of s = PIKA_REPL_ERROR;
}.

(** *** Role bits *)

Lemma role_cases r : 0 ≤ r < 4 → r = 0 ∨ r = 1 ∨ r = 2 ∨ r = 3.
Proof. lia. Qed.

Lemma BecomeMaster_wf s l : srv_wf s → l ≠ [] → NoDup (sl_ip_port <$> l) →
  srv_wf (BecomeMaster (set_slave_list l s)).
Proof.
  intros [Hr _ _ Hs] Hl Hn. destruct s as [h p mi mp rs r ts fm ff sl ps]. cbn in *.
  destruct (role_cases r Hr) as [-> | [-> | [-> | ->]]]; split; cbn; done || lia.
Qed.

Lemma clear_master_wf s : srv_wf s →
  srv_wf (set_role (Z.land (role_ s) (Z.lnot PIKA_ROLE_MASTER)) (set_slave_list [] s)).
Proof.
  intros [Hr _ _ Hs]. destruct s as [h p mi mp rs r ts fm ff sl ps]. cbn in *.
  destruct (role_cases r Hr) as [-> | [-> | [-> | ->]]]; split; cbn;
    try done; try lia; try (by split); apply NoDup_nil_2.
Qed.

Lemma slaves_wf s l : srv_wf s → l ≠ [] → slaves_list s ≠ [] → NoDup (sl_ip_port <$> l) →
  srv_wf (set_slave_list l s).
Proof. intros [Hr Hm _ Hs] Hl Hl' Hn. split; cbn; try done. change (has_role PIKA_ROLE_MASTER s = true ↔ l ≠ []). by rewrite Hm. Qed.

(** *** Slaves *)

Lemma TryAddSlave_wf ip port fd ts s s' :
  srv_wf s → TryAddSlave ip port fd ts s = (true, s') → srv_wf (BecomeMaster s').
Proof.
  intros W. unfold TryAddSlave. destruct (existsb _ _) eqn:Ex; [done|]. intros [= <-].
  apply BecomeMaster_wf; [done|by destruct (slaves_list s)|].
  rewrite fmap_app. apply NoDup_app. split_and!; [apply W| |apply NoDup_singleton].
  intros x (y & -> & Hy)%list_elem_of_fmap Hx%list_elem_of_singleton. cbn in Hx.
  apply not_true_iff_false in Ex. destruct Ex. apply existsb_exists. exists y.
  split; [by apply list_elem_of_In|by apply bool_decide_eq_true].
Qed.

Lemma take_slave_sublist fd l : sublist (take_slave fd l).2 l.
Proof.
  induction l as [|x l IH]; [done|]. cbn. destruct (_ =? _); [by apply sublist_cons|].
  destruct (take_slave fd l). by apply sublist_skip.
Qed.
Lemma take_slave_None fd l : (take_slave fd l).1 = None → (take_slave fd l).2 = l.
Proof.
  induction l as [|x l IH]; [done|]. cbn. destruct (_ =? _); [done|].
  destruct (take_slave fd l) as [o r]. cbn in *. intros ->. by rewrite IH.
Qed.

(** Operations on the replica manager leave the server alone. *)
#[export] Instance Keeps_on_rm {A} (m : M _ A) : Keeps (@w_srv FS Cmd Conn Resp Net) (on_rm m).
Proof. intros w a w'. unfold on_rm, zoom. destruct (m (w_rm w)) as [[]|]; [|done]. by intros [= _ <-]. Qed.

#[export] Instance Keeps_reset ps : Keeps (@w_srv FS Cmd Conn Resp Net) (reset_repl_states ps).
Proof.
  induction ps as [|p ps IH]; cbn [reset_repl_states]; [apply _|].
  apply Keeps_bind; [apply _|]. intros w. apply Keeps_bind; [|done]. destruct (GetSyncSlavePartitionByName p (w_rm w)); apply _.
Qed.
#[export] Instance Keeps_prepare now st ps :
  Keeps (@w_srv FS Cmd Conn Resp Net) (prepare_loop SelectLocalIp now st ps).
Proof. induction ps as [|p ps IH]; cbn [prepare_loop]; apply _. Qed.

Lemma srv_modify_eq f w r : srv_modify f w = Some r → r = (tt, set_srv (f (w_srv w)) w).
Proof. by intros [= <-]. Qed.

Lemma DeleteSlave_wf fd w w' :
  srv_wf (w_srv w) → DeleteSlave fd w = Some (tt, w') → srv_wf (w_srv w').
Proof.
  intros W. unfold DeleteSlave. rewrite run_bind. intros (s & w0 & Hg & H).
  injection Hg as <- <-. pose proof (take_slave_sublist fd (slaves_list (w_srv w))) as Hsub.
  pose proof (take_slave_None fd (slaves_list (w_srv w))) as Hnone.
  destruct (take_slave fd (slaves_list (w_srv w))) as [found rest]. cbn in Hsub, Hnone.
  apply run_bind in H as ([] & w1 & Hs & H). injection Hs as <-.
  apply run_bind in H as ([] & w2 & Hl & H).
  assert (w_srv w2 = set_slave_list rest (w_srv w)) as E2.
  { destruct found; apply (keeps (g := w_srv)) in Hl; by rewrite Hl. }
  assert (NoDup (sl_ip_port <$> rest)) as Hn.
  { eapply sublist_NoDup; [apply (srv_no_dup _ W)|]. by apply fmap_sublist. }
  destruct rest as [|x rest].
  - apply srv_modify_eq in H as [= ->]. cbn. rewrite E2. exact (clear_master_wf _ W).
  - injection H as <-. rewrite E2. apply slaves_wf; try done.
    intros E0. rewrite E0 in Hsub. by apply sublist_nil_r in Hsub.
Qed.

(** *** The master *)

Lemma SetMaster_wf ip port s : srv_wf s → srv_wf (SetMaster ip port s).2.
Proof.
  intros W. unfold SetMaster. destruct (_ && _) eqn:Eg; [|done].
  destruct W as [Hr Hm Hn Hs]. destruct s as [h p mi mp rs r ts fm ff sl ps]. cbn in *.
  destruct (role_cases r Hr) as [-> | [-> | [-> | ->]]]; split; cbn in *; try done; lia.
Qed.

(** What [RemoveMaster] does to the server. *)
Lemma RemoveMaster_srv now w w' : RemoveMaster CloseReplClientConn now w = Some (tt, w') →
  ∃ t, w_srv w' = set_master_addr "" (-1) (set_timestamp t
    (set_role (Z.land (role_ (w_srv w)) (Z.lnot PIKA_ROLE_SLAVE)) (set_repl PIKA_REPL_NO_CONNECT (w_srv w)))).
Proof.
  unfold RemoveMaster. rewrite run_bind. intros ([] & w1 & [= <-] & H).
  apply run_bind in H as ([] & w2 & [= <-] & H). apply run_bind in H as (s & w3 & [= <- <-] & H).
  apply run_bind in H as ([] & w4 & H4 & H). apply run_bind in H as ([] & w5 & [= <-] & H).
  assert (∃ t, w_srv w4 = set_timestamp t (set_role (Z.land (role_ (w_srv w)) (Z.lnot PIKA_ROLE_SLAVE))
    (set_repl PIKA_REPL_NO_CONNECT (w_srv w)))) as [t E4].
  { cbn in H4. destruct (negb _ && negb _).
    - apply run_bind in H4 as ([] & a1 & Ha%(keeps (g := w_srv)) & H4).
      apply run_bind in H4 as (? & a2 & Hb%(keeps (g := w_srv)) & H4).
      apply run_bind in H4 as ([] & a3 & Hc%(keeps (g := w_srv)) & H4).
      injection H4 as <-. cbn. rewrite Hc, Hb, Ha. eexists. reflexivity.
    - injection H4 as <-. exists (last_meta_sync_timestamp_ (w_srv w)). done. }
  unfold DoSameThingEveryPartition in H. apply run_bind in H as (s & w6 & [= <- <-] & H).
  apply (keeps (g := w_srv)) in H. rewrite H. cbn. rewrite E4. by exists t.
Qed.
Lemma RemoveMaster_wf now w w' :
  srv_wf (w_srv w) → RemoveMaster CloseReplClientConn now w = Some (tt, w') →
  srv_wf (w_srv w') ∧ has_role PIKA_ROLE_SLAVE (w_srv w') = false ∧
  repl_state_of (w_srv w') = PIKA_REPL_NO_CONNECT ∧ master_ip_ (w_srv w') = "".
Proof.
  intros W [t ->]%RemoveMaster_srv.
  destruct W as [Hr Hm Hn Hs]. destruct (w_srv w) as [h p mi mp rs r ts fm ff sl ps]. cbn in *.
  destruct (role_cases r Hr) as [-> | [-> | [-> | ->]]];
    (split; [split; cbn in *; try done; try lia; by left|done]).
Qed.

Lemma repl_wf x s : srv_wf s → has_role PIKA_ROLE_SLAVE s = true → x ≠ PIKA_REPL_NO_CONNECT →
  srv_wf (set_repl x s).
Proof.
  intros [Hr Hm Hn Hs] Hl Hx. split; try done.
  change (has_role PIKA_ROLE_SLAVE (set_repl x s)) with (has_role PIKA_ROLE_SLAVE s). by rewrite Hl.
Qed.

End ServerFacts.

(** ** An instance *)

Abbreviation NoWorld := (@World MemFS PlainCmd unit unit unit).
Definition server0 : PikaServer := PikaServer_new "10.0.0.1" 9221 [].
Definition world0 : NoWorld := mkWorld (Rm_new tt) server0.
(** A slave registers, and the server is made a slave of another one. *)
Definition world1 : NoWorld := set_srv (BecomeMaster (TryAddSlave "10.0.0.2" 9221 7 [] server0).2) world0.
Definition world2 : NoWorld := set_srv (SetMaster "10.0.0.3" 9221 (w_srv world1)).2 world1.

