(* ===== verification/ReplServer.v ===== *)
(** * The replication server (src/pika_repl_server.cc, src/pika_repl_server_conn.cc)

    The master's end of the connections to its slaves: the map from slaves to
    connections, the responses that carry binlog chips, and the handlers of the
    requests, as programs in [M World].  A handler is a task of the server's
    thread pool; it runs as one step.  Of the network library the model uses the
    interface [PinkNet]; serialisation is an argument. *)

From S2P Require Import Prelude Define Env Binlog BinlogReader Transverter Command SlaveNode.
From S2P Require Import Consensus StableLog Coordinator WriteQueue MasterPartition SlavePartition.
From S2P Require Import ReplicaManager InnerMessage Server.
From stdpp Require Import base list strings pretty gmap sorting.
From Stdlib Require Import ZArith Lia Init.Byte.
#[local] Open Scope string_scope.
#[local] Open Scope list_scope.
#[local] Open Scope Z_scope.

(** What the replication code uses of the network library: whether a descriptor
    has a connection, [WriteResp] (true: failed), the two notifications, and the
    client thread's [Write] and [Close]. *)
Class PinkNet (P : Type) := {
  get_conn : P → Z → bool;
  WriteResp : Z → bytes → P → bool * P;
  NotifyClose : Z → P → P;
  NotifyWrite : Z → P → P;
  ClientWrite : string → Z → bytes → P → Status * P;
  ClientClose : string → Z → P → P;
}.

(** The state of the network: [client_conn_map_] and the library's. *)
Record ReplNet (P : Type) := mkNet { client_conn_map_ : gmap string Z; pink_ : P }.
Arguments mkNet {P} _ _.
Arguments client_conn_map_ {P} _.
Arguments pink_ {P} _.

Section Net.
Context {P : Type} {PN : PinkNet P}.
Implicit Types (net : ReplNet P).

Definition set_pink (p : P) net : ReplNet P := mkNet (client_conn_map_ net) p.

Definition UpdateClientConnMap (ip_port : string) (fd : Z) net : ReplNet P :=
  mkNet (<[ip_port := fd]> (client_conn_map_ net)) (pink_ net).

(** [std::map] runs through its keys in order; the first entry of the descriptor
    goes. *)
Definition map_before (a b : string * Z) : Prop := strcmp a.1 b.1 ≤ 0.
#[export] Instance map_before_dec a b : Decision (map_before a b).
Proof. unfold map_before. apply _. Defined.
Definition RemoveClientConn (fd : Z) net : ReplNet P :=
  let entries := merge_sort map_before (map_to_list (client_conn_map_ net)) in
  match list_find (λ e, e.2 = fd) entries with
  | Some (_, (ip_port, _)) => mkNet (delete ip_port (client_conn_map_ net)) (pink_ net)
  | None => net
  end.

Definition Write (ip : string) (port : Z) (msg : bytes) net : Status * ReplNet P :=
  let ip_port := IpPortString ip port in
  match client_conn_map_ net !! ip_port with
  | None => (NotFound ("The " +:+ ip_port +:+ " fd cannot be found"), net)
  | Some fd =>
      if negb (get_conn (pink_ net) fd)
      then (NotFound ("The" +:+ ip_port +:+ " conn cannot be found"), net)
      else
        let '(failed, p) := WriteResp fd msg (pink_ net) in
        if failed : bool then
          (Corruption ("The" +:+ ip_port +:+ " conn, Write Resp Failed"),
           set_pink (NotifyClose fd p) net)
        else (OK, set_pink (NotifyWrite fd p) net)
  end.

(** ** Responses with binlog chips *)

(** One entry of [binlog_sync]. *)
Definition chip_msg (t : WriteTask) : BinlogSyncResp :=
  let p := partition_info_ (rm_node_ t) in
  mkBinlogSyncResp (mkMsgPartition (table_name_ p) (partition_id_ p))
    (chip_offset_ (binlog_chip_ t)) (binlog_ (binlog_chip_ t)) (session_id_ (rm_node_ t)).

(** The previous offset of the first task that is not a ping. *)
Fixpoint first_prev_offset (tasks : list WriteTask) : LogOffset :=
  match tasks with
  | [] => LogOffset0
  | t :: tasks =>
      match binlog_ (binlog_chip_ t) with
      | [] => first_prev_offset tasks
      | _ => prev_offset_ t
      end
  end.

(** [committed]: the committed index and the term of a partition, if it is
    there. *)
Definition BuildBinlogSyncResp (conf : PikaConf) (committed : PartitionInfo → option (LogOffset * Z))
    (tasks : list WriteTask) : InnerResponse :=
  let r := set_res_binlog_sync (chip_msg <$> tasks) (response kBinlogSync msg_kOk) in
  if consensus_level conf >? 0 then
    match tasks with
    | [] => r
    | t :: _ =>
        let prev_offset := first_prev_offset tasks in
        match committed (partition_info_ (rm_node_ t)) with
        | None => set_res_consensus (mkMeta 0 prev_offset LogOffset0 false []) r
        | Some (committed_index, term) =>
            set_res_consensus (mkMeta term prev_offset committed_index false []) r
        end
    end
  else r.

Section Send.
Context (conf : PikaConf) (max_conn_rbuf_size : Z).
Context (committed : PartitionInfo → option (LogOffset * Z)).
Context (SerializeToString : InnerResponse → option bytes).

(** The loop over the tasks of a response that is too large. *)
Fixpoint send_one_by_one (ip : string) (port : Z) (tasks : list WriteTask) net :
    Status * ReplNet P :=
  match tasks with
  | [] => (OK, net)
  | t :: tasks =>
      match SerializeToString (BuildBinlogSyncResp conf committed [t]) with
      | None => (Corruption "Serialized Failed", net)
      | Some pb =>
          let '(s, net) := Write ip port pb net in
          if negb (ok s) then (s, net) else send_one_by_one ip port tasks net
      end
  end.

Definition SendSlaveBinlogChips (ip : string) (port : Z) (tasks : list WriteTask) net :
    Status * ReplNet P :=
  match SerializeToString (BuildBinlogSyncResp conf committed tasks) with
  | None => (Corruption "Serialized Failed", net)
  | Some pb =>
      if zlen pb >? max_conn_rbuf_size then send_one_by_one ip port tasks net
      else Write ip port pb net
  end.
End Send.
End Net.

(** ** The handlers *)

Section Handlers.
Context {FS : Type} {E : SlashEnv FS} {C : FixedCoding} {SN : StringNum}.
Context {Cmd Conn Resp : Type} {CO : CmdOps Cmd}.
Context {P : Type} {PN : PinkNet P}.
Context (conf : PikaConf) (fuel gfuel cfuel : nat).
Context (SerializeToString : InnerResponse → option bytes).
(** [requirepass], [replication_num] and the tables of the configuration. *)
Context (requirepass : string) (replication_num : Z) (table_structs : list TableStruct).
(** The dummy command of a table, and whether the binlog is written: what
    [CommitPreviousLogs] comes down to. *)
Context (dummy_cmd : string → Cmd) (write_binlog : bool).
(** [TryDBSync], which copies files in the background. *)
Context (TryDBSync : string → Z → string → Z → Z → ReplNet P → ReplNet P).
Abbreviation World := (@World FS Cmd Conn Resp (ReplNet P)).
Abbreviation W := (M World).
Abbreviation Master := (@SyncMasterPartition FS Cmd Conn Resp).

Definition net_modify (f : ReplNet P → ReplNet P) : W unit :=
  on_rm (modify (λ r, set_net (f (net_ r)) r)).
Definition pink_modify (f : P → P) : W unit := net_modify (λ n, set_pink (f (pink_ n)) n).

(** The end of a handler: the response is written to the connection [fd]. *)
Definition reply (fd : Z) (r : InnerResponse) : W unit :=
  match SerializeToString r with
  | None => pink_modify (NotifyClose fd)
  | Some reply_str =>
      let* w := get in
      let '(failed, p) := WriteResp fd reply_str (pink_ (net_ (w_rm w))) in
      pink_modify (λ _, p) ;;;
      pink_modify (if failed : bool then NotifyClose fd else NotifyWrite fd)
  end.

(** *** MetaSync *)

Definition HandleMetaSyncRequest (fd : Z) (req : InnerRequest) : W unit :=
  let m := default MetaSyncReq0 (req_meta_sync req) in
  let node := ms_node m in
  let masterauth := default "" (ms_auth m) in
  let r := response kMetaSync msg_kOk in
  if negb (bool_decide (requirepass = "")) && negb (bool_decide (requirepass = masterauth)) then
    reply fd (set_res_code msg_kError "Auth with master error, Invalid masterauth" r)
  else
    let* s := get_srv in
    let '(success, s) := TryAddSlave (node_ip node) (node_port node) fd table_structs s in
    srv_modify (λ _, s) ;;;
    net_modify (UpdateClientConnMap (IpPortString (node_ip node) (node_port node)) fd) ;;;
    if negb success then reply fd (set_res_code msg_kOther "Slave AlreadyExist" r)
    else
      srv_modify BecomeMaster ;;;
      reply fd (set_res_meta_sync
                  (mkMetaSyncResp (classic_mode conf)
                     ((λ t, (tbl_name t, s32 (partition_num t))) <$> table_structs)) r).

(** *** TrySync *)

(** [SyncMasterPartition::ConsensusUpdateTerm]: the new term, and, on a master,
    a dummy entry that commits what came before. *)
Definition ConsensusUpdateTerm (p : PartitionInfo) (term : Z) : W unit :=
  on_rm (on_master p (on_coord (UpdateTerm term))) ;;;
  let* s := get_srv in
  if has_role PIKA_ROLE_MASTER s && write_binlog then
    on_rm (on_master p (ConsensusProposeLog conf (dummy_cmd (table_name_ p)) None None)) ;;;
    ret tt
  else ret tt.

Definition BuildConsensusMeta (reject : bool) (hints : list LogOffset) (term : Z)
    (r : InnerResponse) : InnerResponse :=
  set_res_consensus
    (mkMeta term LogOffset0 LogOffset0 reject (if reject then hints else [])) r.

(** The check of a request without a consensus part: whether to go on, and the
    response. *)
Definition TrySyncOffsetCheck (mp : Master) (slave_boffset : BinlogOffset) (t : TrySyncResp) :
    option (bool * TrySyncResp) :=
  let '(s, (num, off, _, _)) := Binlog.GetProducerStatus (mp_logger mp) in
  if negb (ok s) then Some (false, set_reply_code kReplyError t) else
  let t := set_tsr_offset (mkLogOffset (mkBinlogOffset num off) LogicOffset0) t in
  if (num <? filenum slave_boffset)
     || ((num =? filenum slave_boffset) && (off <? offset slave_boffset))
  then Some (false, set_reply_code kSyncPointLarger t) else
  if negb (env_exists (mp_fs mp)
             (NewFileName (filename_ (mp_logger mp)) (filenum slave_boffset)))
  then Some (false, set_reply_code kSyncPointBePurged t) else
  match Seek (mp_fs mp) (mp_logger mp) cfuel (filenum slave_boffset) (offset slave_boffset)
          Reader_new with
  | None => None
  | Some (_, reader) =>
      let '(seeked_num, seeked_off) := GetReaderStatus reader in
      if negb (seeked_num =? filenum slave_boffset) || negb (seeked_off =? offset slave_boffset)
      then Some (false, set_reply_code kReplyError t)
      else Some (true, t)
  end.

(** The check of a request with a consensus part: whether to go on, and both
    parts of the response. *)
Definition TrySyncConsensusOffsetCheck (mp : Master) (meta : ConsensusMeta) (r : InnerResponse)
    (t : TrySyncResp) : option (bool * InnerResponse * TrySyncResp) :=
  match ConsensusLeaderNegotiate fuel gfuel cfuel (meta_log_offset meta) [] mp with
  | None => None
  | Some (s, reject, hints) =>
      if negb (ok s) then
        Some (false, r, set_reply_code (if IsNotFound s then kSyncPointBePurged else kReplyError) t)
      else
        Some (negb reject, BuildConsensusMeta reject hints (ConsensusTerm mp) r,
              set_reply_code kReplyOk t)
  end.

(** The slave is registered, or its session is looked up. *)
Definition TrySyncUpdateSlaveNode (now1 now2 : Z) (p : PartitionInfo) (node : Node) (fd : Z)
    (t : TrySyncResp) : W (bool * TrySyncResp) :=
  let ip := node_ip node in let port := node_port node in
  let* mp := on_rm (GetSyncMasterPartitionByName p) in
  match mp with
  | None => abort
  | Some mp =>
      if negb (CheckSlaveNodeExist ip port mp) then
        let* session_id := on_rm (on_master p (λ mp, Some (GenSessionId mp))) in
        if session_id =? -1 then ret (false, set_reply_code kReplyError t) else
        let t := set_tsr_session session_id t in
        let* s := on_rm (on_master p (mp_AddSlaveNode now1 now2 ip port session_id)) in
        if negb (ok s) then ret (false, set_reply_code kReplyError t) else
        net_modify (UpdateClientConnMap (IpPortString ip port) fd) ;;;
        ret (true, set_reply_code kReplyOk t)
      else
        let '(s, session_id) := GetSlaveNodeSession ip port 0 mp in
        if negb (ok s) then ret (false, set_reply_code kReplyError t)
        else ret (true, set_tsr_session session_id (set_reply_code kReplyOk t))
  end.

(** The middle of the handler, once the partition is found: the checks. *)
Definition try_sync_checks (p : PartitionInfo) (req : InnerRequest) (mp : Master)
    (r : InnerResponse) (t : TrySyncResp) : W (bool * InnerResponse * TrySyncResp) :=
  let m := default TrySyncReq0 (req_try_sync req) in
  match req_consensus_meta req with
  | Some meta =>
      if (GetNumberOfSlaveNode mp >=? replication_num)
         && negb (CheckSlaveNodeExist (node_ip (ts_node m)) (node_port (ts_node m)) mp)
      then ret (false, r, t)
      else
        (if meta_term meta >? ConsensusTerm mp then ConsensusUpdateTerm p (meta_term meta)
         else ret tt) ;;;
        let* mp := on_rm (GetSyncMasterPartitionByName p) in
        match mp with
        | None => abort
        | Some mp =>
            match TrySyncConsensusOffsetCheck mp meta r t with
            | None => abort
            | Some x => ret x
            end
        end
  | None =>
      match TrySyncOffsetCheck mp (b_offset (ts_offset m)) t with
      | None => abort
      | Some (good, t) => ret (good, r, t)
      end
  end.

Definition HandleTrySyncRequest (now1 now2 fd : Z) (req : InnerRequest) : W unit :=
  let m := default TrySyncReq0 (req_try_sync req) in
  let p := mkPartitionInfo (m_table_name (ts_partition m)) (m_partition_id (ts_partition m)) in
  let t := mkTrySyncResp kReplyError (ts_partition m) None None in
  let* mp := on_rm (GetSyncMasterPartitionByName p) in
  match mp with
  | None =>
      reply fd (set_res_try_sync t
                  (set_res_code msg_kError "Partition not found" (response kTrySync msg_kError)))
  | Some mp =>
      let* x := try_sync_checks p req mp (response kTrySync msg_kOk) t in
      let '(good, r, t) := x in
      if good : bool then
        let* y := TrySyncUpdateSlaveNode now1 now2 p (ts_node m) fd t in
        reply fd (set_res_try_sync y.2 r)
      else reply fd (set_res_try_sync t r)
  end.

(** *** DBSync *)

(** The slave is registered, or its session is looked up: the code and the
    response. *)
Definition db_sync_session (now1 now2 : Z) (p : PartitionInfo) (node : Node) (fd : Z)
    (mp : Master) (d : DBSyncResp) : W (StatusCode * DBSyncResp) :=
  let ip := node_ip node in let port := node_port node in
  if negb (CheckSlaveNodeExist ip port mp) then
    let* session_id := on_rm (on_master p (λ mp, Some (GenSessionId mp))) in
    if session_id =? -1 then ret (msg_kError, set_dsr_session (-1) d) else
    let d := set_dsr_session session_id d in
    let* s := on_rm (on_master p (mp_AddSlaveNode now1 now2 ip port session_id)) in
    if ok s then
      net_modify (UpdateClientConnMap (IpPortString ip port) fd) ;;; ret (msg_kOk, d)
    else ret (msg_kError, d)
  else
    let '(s, session_id) := GetSlaveNodeSession ip port 0 mp in
    if negb (ok s) then ret (msg_kError, set_dsr_session (-1) d)
    else ret (msg_kOk, set_dsr_session session_id d).

Definition HandleDBSyncRequest (now1 now2 fd : Z) (req : InnerRequest) : W unit :=
  let m := default DBSyncReq0 (req_db_sync req) in
  let node := ds_node m in
  let p := mkPartitionInfo (m_table_name (ds_partition m)) (m_partition_id (ds_partition m)) in
  let d := mkDBSyncResp (ds_partition m) None in
  let* mp := on_rm (GetSyncMasterPartitionByName p) in
  let* x := match mp with
            | None => ret (msg_kOk, d)
            | Some mp => db_sync_session now1 now2 p node fd mp d
            end in
  net_modify (TryDBSync (node_ip node) (node_port node + kPortShiftRSync) (table_name_ p)
                (partition_id_ p) (s32 (filenum (b_offset (ds_offset m))))) ;;;
  reply fd (set_res_db_sync x.2 (response kDBSync x.1)).

(** *** BinlogSync *)

(** [ActivateSlaveBinlogSync] on the partition and the write queues. *)
Definition first_send (clock : nat → Z) (p : PartitionInfo) (ip : string) (port : Z)
    (range_start : LogOffset) : W Status :=
  let* mp := on_rm (GetSyncMasterPartitionByName p) in
  let* w := get in
  match mp with
  | None => abort
  | Some mp =>
      match ActivateSlaveBinlogSync conf gfuel cfuel clock ip port range_start mp
              (write_queues_ (w_rm w)) with
      | None => abort
      | Some (s, q, mp) =>
          on_rm (modify (set_queues q)) ;;; on_rm (put_master p (Some mp)) ;;; ret s
      end
  end.

(** A slave's acknowledgement: what [NotifyClose] and the signal to the auxiliary
    thread leave is the state; [clock] are the times read. *)
Definition HandleBinlogSyncRequest (now : Z) (clock : nat → Z) (fd : Z) (req : InnerRequest) : W unit :=
  match req_binlog_sync req with
  | None => ret tt
  | Some b =>
      let ip := node_ip (bs_node b) in let port := node_port (bs_node b) in
      let p := mkPartitionInfo (bs_table_name b) (bs_partition_id b) in
      let range_start := bs_ack_range_start b in
      let range_end := bs_ack_range_end b in
      let* mp := on_rm (GetSyncMasterPartitionByName p) in
      match mp with
      | None => ret tt
      | Some mp =>
          let* outdated :=
            match req_consensus_meta req with
            | None => ret false
            | Some meta =>
                if meta_term meta >? ConsensusTerm mp
                then ConsensusUpdateTerm p (meta_term meta) ;;; ret false
                else ret (meta_term meta <? ConsensusTerm mp)
            end in
          if outdated then ret tt else
          let* mp := on_rm (GetSyncMasterPartitionByName p) in
          match mp with
          | None => abort
          | Some mp =>
              if negb (CheckSessionId ip port (bs_session_id b) mp) then ret tt else
              let* s := on_rm (on_master p (λ mp, Some (SetLastRecvTime ip port now mp))) in
              if negb (ok s) then pink_modify (NotifyClose fd)
              else if bs_first_send b then
                if negb (bo_eqb (b_offset range_start) (b_offset range_end))
                then pink_modify (NotifyClose fd)
                else
                  let* s := first_send clock p ip port range_start in
                  (if ok s then ret tt else pink_modify (NotifyClose fd))
              else if bo_eqb (b_offset range_start) BinlogOffset0
                      && bo_eqb (b_offset range_end) BinlogOffset0 then ret tt
              else
                let* s := on_rm (UpdateSyncBinlogStatus conf gfuel cfuel clock
                  (RmNode_new ip port (bs_table_name b) (bs_partition_id b) 0)
                  range_start range_end) in
                (if ok s then ret tt else pink_modify (NotifyClose fd))
          end
      end
  end.

(** *** RemoveSlaveNode *)

(** A partition that is not found is used all the same. *)
Definition HandleRemoveSlaveNodeRequest (fd : Z) (req : InnerRequest) : W unit :=
  match req_remove_slave_node req with
  | [] => pink_modify (NotifyClose fd)
  | m :: _ =>
      let p := mkPartitionInfo (m_table_name (rs_partition m)) (m_partition_id (rs_partition m)) in
      on_rm (on_master p (mp_RemoveSlaveNode (node_ip (rs_node m)) (node_port (rs_node m)))) ;;;
      let* s := get_srv in
      reply fd (set_res_remove [mkRemoveSlaveNode (mkNode (host_ s) (srv_port_ s)) (rs_partition m)]
                  (response kRemoveSlaveNode msg_kOk))
  end.

(** [DealMessage]: the handler of a request, which the thread pool runs; the
    slave's clock readings are arguments of all of them. *)
Definition DealRequest (now1 now2 : Z) (clock : nat → Z) (fd : Z) (req : InnerRequest) : W unit :=
  match req_type req with
  | kMetaSync => HandleMetaSyncRequest fd req
  | kTrySync => HandleTrySyncRequest now1 now2 fd req
  | kDBSync => HandleDBSyncRequest now1 now2 fd req
  | kBinlogSync => HandleBinlogSyncRequest now1 clock fd req
  | kRemoveSlaveNode => HandleRemoveSlaveNodeRequest fd req
  | kHeatBeat => ret tt
  end.

(** [ReplServerHandle::FdClosedHandle]. *)
Definition FdClosedHandle (fd : Z) : W unit :=
  DeleteSlave fd ;;; net_modify (RemoveClientConn fd).
End Handlers.
