(* ===== verification/ReplClient.v ===== *)
(** * The replication client (src/pika_repl_client.cc, src/pika_repl_client_conn.cc,
      src/pika_repl_client_thread.cc)

    The slave's end of the connection to its master: the requests it sends, the
    handlers of the responses, and the dispatch of binlog chips to the workers.
    Scheduled work is returned, in order, as values. *)

From S2P Require Import Prelude Define Env Binlog BinlogReader Transverter Command SlaveNode.
From S2P Require Import Consensus StableLog Coordinator WriteQueue MasterPartition SlavePartition.
From S2P Require Import ReplicaManager InnerMessage Server ReplServer.
From stdpp Require Import base list strings pretty gmap sorting.
From Stdlib Require Import ZArith Lia Init.Byte.
#[local] Open Scope string_scope.
#[local] Open Scope list_scope.
#[local] Open Scope Z_scope.

(** ** Requests *)

Section Requests.
Context {P : Type} {PN : PinkNet P}.
Context (SerializeRequest : InnerRequest → option bytes).
(** The port of this server. *)
Context (srv_port : Z).
Implicit Types (net : ReplNet P).

(** [client_thread_->Write] of a serialised request. *)
Definition send_request (ip : string) (port : Z) (req : InnerRequest) net : Status * ReplNet P :=
  match SerializeRequest req with
  | None => (Corruption "Serialize Failed", net)
  | Some to_send =>
      let '(s, p) := ClientWrite ip (port + kPortShiftReplServer) to_send (pink_ net) in
      (s, set_pink p net)
  end.

Definition boffset_msg (o : BinlogOffset) : LogOffset := mkLogOffset o LogicOffset0.

Definition MetaSync_request (local_ip masterauth : string) : InnerRequest :=
  set_req_meta_sync
    (mkMetaSyncReq (mkNode local_ip srv_port)
       (if bool_decide (masterauth = "") then None else Some masterauth)) (request kMetaSync).

Definition SendPartitionDBSync (ip : string) (port : Z) (table_name : string) (partition_id : Z)
    (boffset : BinlogOffset) (local_ip : string) net : Status * ReplNet P :=
  send_request ip port
    (set_req_db_sync (mkDBSyncReq (mkNode local_ip srv_port)
       (mkMsgPartition table_name partition_id) (boffset_msg boffset)) (request kDBSync)) net.

(** [meta]: the consensus part, when a consensus level is set. *)
Definition TrySync_request (meta : option ConsensusMeta) (table_name : string) (partition_id : Z)
    (boffset : BinlogOffset) (local_ip : string) : InnerRequest :=
  let req := set_req_try_sync (mkTrySyncReq (mkNode local_ip srv_port)
               (mkMsgPartition table_name partition_id) (boffset_msg boffset)) (request kTrySync) in
  match meta with None => req | Some m => set_req_consensus m req end.

Definition BinlogSync_request (table_name : string) (partition_id : Z) (ack_start ack_end : LogOffset)
    (local_ip : string) (session_id : Z) (is_first_send : bool) : InnerRequest :=
  set_req_binlog_sync (mkBinlogSyncReq (mkNode local_ip srv_port) table_name partition_id
    ack_start ack_end session_id is_first_send) (request kBinlogSync).

Definition SendRemoveSlaveNode (ip : string) (port : Z) (table_name : string) (partition_id : Z)
    (local_ip : string) net : Status * ReplNet P :=
  send_request ip port
    (set_req_remove [mkRemoveSlaveNode (mkNode local_ip srv_port)
                       (mkMsgPartition table_name partition_id)] (request kRemoveSlaveNode)) net.
End Requests.

(** ** Workers *)

(** [bg_workers_.size()] is twice the configured thread number. *)
Definition GetHashIndex (str_hash : string → Z) (workers : Z) (key : string) (upper_half : bool) : Z :=
  let hash_base := workers / 2 in
  str_hash key mod hash_base + (if upper_half then 0 else hash_base).

(** The worker of [ScheduleWriteBinlogTask] and of [ScheduleWriteDBTask]. *)
Definition binlog_worker (str_hash : string → Z) (workers : Z) (table_partition : string) : Z :=
  GetHashIndex str_hash workers table_partition true.
Definition db_worker (str_hash : string → Z) (workers : Z) (argv : list string) : option Z :=
  match argv with
  | _ :: key :: _ => Some (GetHashIndex str_hash workers key false)
  | [name] => Some (GetHashIndex str_hash workers name false)
  | [] => None
  end.

(** ** Dispatching the chips of a response *)

(** [par_binlog]: the indices of the chips of each partition. *)
Definition par_binlog_add (i : nat) (b : BinlogSyncResp) (m : gmap PartitionInfo (list nat)) :
    gmap PartitionInfo (list nat) :=
  let p := mkPartitionInfo (m_table_name (bsr_partition b)) (m_partition_id (bsr_partition b)) in
  <[p := default [] (m !! p) ++ [i]]> m.
Fixpoint par_binlog (i : nat) (bs : list BinlogSyncResp) (m : gmap PartitionInfo (list nat)) :
    gmap PartitionInfo (list nat) :=
  match bs with
  | [] => m
  | b :: bs => par_binlog (S i) bs (par_binlog_add i b m)
  end.

(** The task of a worker: its key, and the indices of its chips. *)
Record BinlogTask := mkBinlogTask { task_key : string; task_index : list nat }.

(** ** The handlers *)

Section Handlers.
Context {FS : Type} {E : SlashEnv FS} {C : FixedCoding} {SN : StringNum}.
Context {Cmd Conn Resp : Type} {CO : CmdOps Cmd}.
Context {P : Type} {PN : PinkNet P}.
Context (conf : PikaConf) (fuel gfuel cfuel : nat).
Context (SerializeRequest : InnerRequest → option bytes).
Context (SelectLocalIp : string → Z → ReplNet P → Status * string).
Context (self_table_structs : list TableStruct).
Context (dummy_cmd : string → Cmd) (write_binlog : bool).
Context (ParseIpPortString : string → option (string * Z)).
Abbreviation World := (@World FS Cmd Conn Resp (ReplNet P)).
Abbreviation Rm := (@Rm FS Cmd Conn Resp (ReplNet P)).
Abbreviation W := (M World).

(** [SendMetaSync]; [connect]: the local address of a connection to the master, if
    one can be made. *)
Definition SendMetaSync (connect : string → Z → option string) (masterauth : string) : W Status :=
  let* w := get in
  let s := w_srv w in
  match connect (master_ip_ s) (master_port_ s) with
  | None => ResetMetaSyncStatus ;;; ret (Corruption "Connect master error")
  | Some local_ip =>
      let '(st, net) := send_request SerializeRequest (master_ip_ s) (master_port_ s)
        (MetaSync_request (srv_port_ s) local_ip masterauth) (net_ (w_rm w)) in
      net_modify (λ _, net) ;;; ret st
  end.

(** [SendPartitionTrySync]: with a consensus level the request carries the last log
    offset and a new term, which is this server's from then on. *)
Definition SendPartitionTrySync (ip : string) (port : Z) (table_name : string) (partition_id : Z)
    (boffset : BinlogOffset) (local_ip : string) : W Status :=
  let p := mkPartitionInfo table_name partition_id in
  let send meta : W Status :=
    let* w := get in
    let '(st, net) := send_request SerializeRequest ip port
      (TrySync_request (srv_port_ (w_srv w)) meta table_name partition_id boffset local_ip)
      (net_ (w_rm w)) in
    net_modify (λ _, net) ;;; ret st in
  if consensus_level conf =? 0 then send None else
  let* mp := on_rm (GetSyncMasterPartitionByName p) in
  match mp with
  | None => ret (Corruption "partition not found")
  | Some mp =>
      let term := u32 (ConsensusTerm mp + 1) in
      ConsensusUpdateTerm conf dummy_cmd write_binlog p term ;;;
      send (Some (mkMeta term (ConsensusLastIndex mp) LogOffset0 false []))
  end.

(** [SendPartitionBinlogSyncAckRequest] and [SendPartitionBinlogSync]. *)
Definition SendPartitionBinlogSyncAckRequest (table : string) (partition_id : Z)
    (ack_start ack_end : LogOffset) (is_first_send : bool) : W Status :=
  let* w := get in
  match GetSyncSlavePartitionByName (mkPartitionInfo table partition_id) (w_rm w) with
  | None => ret (Corruption "Slave Partition not found")
  | Some sp =>
      let '(s, net) := send_request SerializeRequest (MasterIp sp) (MasterPort sp)
        (BinlogSync_request (srv_port_ (w_srv w)) table partition_id ack_start ack_end
           (LocalIp sp) (MasterSessionId sp) is_first_send) (net_ (w_rm w)) in
      net_modify (λ _, net) ;;; ret s
  end.

(** The loop of [DispatchBinlogRes]: a partition that is missing ends it. *)
Fixpoint dispatch_loop (now : Z) (par : list (PartitionInfo * list nat)) : W (list BinlogTask) :=
  match par with
  | [] => ret []
  | (p, idx) :: par =>
      let* w := get in
      match GetSyncSlavePartitionByName p (w_rm w) with
      | None => ret []
      | Some sp =>
          on_rm (put_slave_partition p (sp_SetLastRecvTime now sp)) ;;;
          let* tasks := dispatch_loop now par in
          ret (mkBinlogTask (table_name_ p +:+ pretty (partition_id_ p)) idx :: tasks)
      end
  end.
Definition DispatchBinlogRes (now : Z) (res : InnerResponse) : W (list BinlogTask) :=
  dispatch_loop now (map_to_list (par_binlog 0 (res_binlog_sync res) ∅)).

(** [IsTableStructConsistent]: as many tables, and each of ours among theirs. *)
Definition IsTableStructConsistent (current_tables expect_tables : list TableStruct) : bool :=
  (length current_tables =? length expect_tables)%nat
  && forallb (λ t, bool_decide (t ∈ expect_tables)) current_tables.

(** [SetWriteBinlog("yes")] is a change of the configuration, not of this
    state. *)
Definition HandleMetaSyncResponse (now fd : Z) (r : InnerResponse) : W unit :=
  let fail := srv_modify SyncError ;;; pink_modify (NotifyClose fd) in
  if bool_decide (res_code r = msg_kOther) then ret tt
  else if negb (bool_decide (res_code r = msg_kOk)) then fail
  else
    let m := default MetaSyncResp0 (res_meta_sync r) in
    if negb (Bool.eqb (classic_mode conf) (msr_classic_mode m)) then fail
    else
      let master_table_structs :=
        (λ t, mkTableStruct t.1 (u32 t.2) [0]) <$> msr_tables_info m in
      if negb (IsTableStructConsistent self_table_structs master_table_structs) then fail
      else
        PreparePartitionTrySync SelectLocalIp now ;;;
        FinishMetaSync.

Definition HandleDBSyncResponse (r : InnerResponse) : W unit :=
  let d := default DBSyncResp0 (res_db_sync r) in
  let p := mkPartitionInfo (m_table_name (dsr_partition d)) (m_partition_id (dsr_partition d)) in
  let* w := get in
  match GetSyncSlavePartitionByName p (w_rm w) with
  | None => ret tt
  | Some sp =>
      if negb (bool_decide (res_code r = msg_kOk)) then
        on_rm (put_slave_partition p (SetReplState kError sp))
      else
        on_rm (put_slave_partition p
          (SetReplState kWaitDBSync (SetMasterSessionId (default 0 (dsr_session_id d)) sp)))
  end.

(** The status of the negotiation; [slave_partition] tries again when the log was
    cut back. *)
Definition TrySyncConsensusCheck (meta : ConsensusMeta) (p : PartitionInfo) : W Status :=
  let* r := on_rm (on_master p
              (ConsensusFollowerNegotiate fuel gfuel cfuel (meta_hint meta) LogOffset0)) in
  let '(s, _) := r in
  if negb (ok s) then ret s else
  let* w := get in
  match GetSyncSlavePartitionByName p (w_rm w) with
  | None => ret s
  | Some sp => on_rm (put_slave_partition p (SetReplState kTryConnect sp)) ;;; ret s
  end.

(** The part of the handler for a consensus response: [None] when it ends
    there, else the last logic offset. *)
Definition try_sync_consensus (p : PartitionInfo) (sp : SyncSlavePartition)
    (meta : option ConsensusMeta) : W (option LogicOffset) :=
  match meta with
  | None => ret (Some LogicOffset0)
  | Some meta =>
      let* mp := on_rm (GetSyncMasterPartitionByName p) in
      match mp with
      | None => abort
      | Some mp =>
          if meta_term meta <? ConsensusTerm mp then ret None else
          (if meta_term meta >? ConsensusTerm mp
           then ConsensusUpdateTerm conf dummy_cmd write_binlog p (meta_term meta) else ret tt) ;;;
          if meta_reject meta then
            let* s := TrySyncConsensusCheck meta p in
            (if ok s then ret tt else on_rm (put_slave_partition p (SetReplState kError sp))) ;;;
            ret None
          else
            let* mp := on_rm (GetSyncMasterPartitionByName p) in
            match mp with
            | None => abort
            | Some mp => ret (Some (l_offset (ConsensusLastIndex mp)))
            end
      end
  end.

(** The slave partition [p] as it is now, changed by [f]. *)
Definition sp_modify (p : PartitionInfo) (f : SyncSlavePartition → SyncSlavePartition) : W unit :=
  on_rm (modify (λ r, set_slaves (alter f p (sync_slave_partitions_ r)) r)).

Definition HandleTrySyncResponse (now : Z) (r : InnerResponse) : W unit :=
  if negb (bool_decide (res_code r = msg_kOk)) then ret tt else
  let t := default TrySyncResp0 (res_try_sync r) in
  let p := mkPartitionInfo (m_table_name (tsr_partition t)) (m_partition_id (tsr_partition t)) in
  let* mp := on_rm (GetSyncMasterPartitionByName p) in
  let* w := get in
  match mp, GetSyncSlavePartitionByName p (w_rm w) with
  | Some _, Some sp =>
      let* last := try_sync_consensus p sp (res_consensus_meta r) in
      match last with
      | None => ret tt
      | Some logic_last_offset =>
          match tsr_reply_code t with
          | kReplyOk =>
              let* mp := on_rm (GetSyncMasterPartitionByName p) in
              match mp with
              | None => abort
              | Some mp =>
                  let '(s, (num, off, _, _)) := Binlog.GetProducerStatus (mp_logger mp) in
                  let boffset := if ok s then mkBinlogOffset num off else BinlogOffset0 in
                  sp_modify p (SetMasterSessionId (default 0 (tsr_session_id t))) ;;;
                  let offset := mkLogOffset boffset logic_last_offset in
                  SendPartitionBinlogSyncAckRequest (table_name_ p) (partition_id_ p) offset offset true ;;;
                  sp_modify p (SetReplState kConnected) ;;;
                  sp_modify p (sp_SetLastRecvTime now)
              end
          | kSyncPointBePurged => sp_modify p (SetReplState kTryDBSync)
          | kSyncPointLarger | kReplyError => sp_modify p (SetReplState kError)
          end
      end
  | _, _ => ret tt
  end.

(** [ReplClientHandle]: the connection is closed ([timeout] false) or has timed
    out. *)
Definition ClientFdHandle (timeout : bool) (now : Z) (ip_port : string) : W unit :=
  match ParseIpPortString ip_port with
  | None => ret tt
  | Some (ip, port) =>
      let* w := get in
      let s := w_srv w in
      (if bool_decide (ip = master_ip_ s) && (port =? master_port_ s + kPortShiftReplServer)
          && negb (repl_state_of s =? PIKA_REPL_ERROR)
          && (negb timeout || CheckSlavePartitionState ip port (w_rm w))
       then ResetMetaSyncStatus else ret tt) ;;;
      srv_modify (UpdateMetaSyncTimestamp now)
  end.
End Handlers.
