(* ===== verification/ReplWorker.v ===== *)
(** * The binlog worker of a slave (src/pika_repl_bgworker.cc)

    A worker takes the chips of one partition from a response and appends them to
    the slave's own log: [HandleBGWorkerWriteBinlog], with the parser's callback
    [HandleWriteBinlog].  The request text of an item is parsed and initialised
    by [parse_cmd] ([None]: the parser or the command table refuses it). *)

From S2P Require Import Prelude Define Env Binlog BinlogReader Transverter Command SlaveNode.
From S2P Require Import Consensus StableLog Coordinator WriteQueue MasterPartition SlavePartition.
From S2P Require Import ReplicaManager InnerMessage Server ReplServer ReplClient.
From stdpp Require Import base list strings pretty gmap sorting.
From Stdlib Require Import ZArith Lia Init.Byte.
#[local] Open Scope string_scope.
#[local] Open Scope list_scope.
#[local] Open Scope Z_scope.

Definition BINLOG_ENCODE_LEN : Z := 34.

(** [PikaReplBgWorker]. *)
Record BgWorker := mkWorker {
  wk_binlog_item : BinlogItem; wk_ip_port : string; wk_table_name : string;
  wk_partition_id : Z }.
Definition set_wk_item (x : BinlogItem) (k : BgWorker) : BgWorker :=
  mkWorker x (wk_ip_port k) (wk_table_name k) (wk_partition_id k).

(** The chips of the task: [res->binlog_sync(index[i])]. *)
Definition task_chips (res : InnerResponse) (index : list nat) : list BinlogSyncResp :=
  omap (λ i, res_binlog_sync res !! i) index.

(** The first offset of a chip that is not a ping, and the last. *)
Fixpoint first_data (chips : list BinlogSyncResp) : LogOffset :=
  match chips with
  | [] => LogOffset0
  | b :: chips => match bsr_binlog b with [] => first_data chips | _ => bsr_offset b end
  end.
Definition last_data (chips : list BinlogSyncResp) : LogOffset := first_data (rev chips).

Section Worker.
Context {FS : Type} {E : SlashEnv FS} {C : FixedCoding} {SN : StringNum}.
Context {Cmd Conn Resp : Type} {CO : CmdOps Cmd}.
Context {P : Type} {PN : PinkNet P}.
Context (conf : PikaConf).
Context (SerializeRequest : InnerRequest → option bytes).
Context (dummy_cmd : string → Cmd) (write_binlog : bool).
Abbreviation World := (@World FS Cmd Conn Resp (ReplNet P)).
Abbreviation W := (M World).

(** [HandleWriteBinlog]: the command of an item goes to the consensus; the status
    is not looked at. *)
Definition HandleWriteBinlog (k : BgWorker) (c : Cmd) : W unit :=
  on_rm (on_master (mkPartitionInfo (wk_table_name k) (wk_partition_id k))
           (ConsensusProcessLeaderLog conf c (wk_binlog_item k))) ;;; ret tt.

(** One chip: whether to go on, and the worker. *)
Definition write_chip (p : PartitionInfo) (k : BgWorker) (b : BinlogSyncResp) : W (bool * BgWorker) :=
  let* w := get in
  match GetSyncSlavePartitionByName p (w_rm w) with
  | None => abort
  | Some sp =>
      if (classic_mode conf && negb (has_role PIKA_ROLE_SLAVE (w_srv w)))
         || (negb (bool_decide (State sp = kConnected))
             && negb (bool_decide (State sp = kWaitDBSync)))
      then ret (false, k)
      else if negb (MasterSessionId sp =? bsr_session_id b) then
        sp_modify p (SetReplState kTryConnect) ;;; ret (false, k)
      else
        match bsr_binlog b with
        | [] => ret (true, k)
        | binlog =>
            let '(good, item) :=
              BinlogItemWithoutContentDecode TypeFirst binlog (wk_binlog_item k) in
            let k := set_wk_item item k in
            if negb good then
              sp_modify p (SetReplState kTryConnect) ;;; ret (false, k)
            else
              match parse_cmd (wk_table_name k) (zdrop BINLOG_ENCODE_LEN binlog) with
              | None => sp_modify p (SetReplState kTryConnect) ;;; ret (false, k)
              | Some c => HandleWriteBinlog k c ;;; ret (true, k)
              end
        end
  end.

(** The loop over the chips. *)
Fixpoint write_chips (p : PartitionInfo) (k : BgWorker) (chips : list BinlogSyncResp) :
    W (bool * BgWorker) :=
  match chips with
  | [] => ret (true, k)
  | b :: chips =>
      let* x := write_chip p k b in
      let '(go_on, k) := x in
      if go_on : bool then write_chips p k chips else ret (false, k)
  end.

(** The checks on a response with a consensus part: whether to go on. *)
Definition check_consensus_meta (p : PartitionInfo) (only_keepalive : bool)
    (meta : option ConsensusMeta) : W bool :=
  match meta with
  | None => ret true
  | Some meta =>
      let* mp := on_rm (GetSyncMasterPartitionByName p) in
      match mp with
      | None => abort
      | Some mp =>
          if meta_term meta <? ConsensusTerm mp then ret false else
          (if meta_term meta >? ConsensusTerm mp
           then ConsensusUpdateTerm conf dummy_cmd write_binlog p (meta_term meta) else ret tt) ;;;
          if only_keepalive then ret true else
          let* mp := on_rm (GetSyncMasterPartitionByName p) in
          match mp with
          | None => abort
          | Some mp =>
              let last_offset := ConsensusLastIndex mp in
              let prev_offset := meta_log_offset meta in
              if negb (index (l_offset last_offset) =? 0)
                 && (negb (bool_decide (l_offset last_offset = l_offset prev_offset))
                     || negb (bo_eqb (b_offset last_offset) (b_offset prev_offset)))
              then sp_modify p (SetReplState kTryConnect) ;;; ret false
              else ret true
          end
      end
  end.

(** The end: the slave's own position is acknowledged. *)
Definition ack_chips (p : PartitionInfo) (ack_start : LogOffset) (only_keepalive : bool)
    (pb_end : LogOffset) : W unit :=
  let* mp := on_rm (GetSyncMasterPartitionByName p) in
  match mp with
  | None => abort
  | Some mp =>
      let ack_end :=
        if only_keepalive then LogOffset0
        else
          let '(s, (num, off, trm, logic_id)) := Binlog.GetProducerStatus (mp_logger mp) in
          let o := if ok s then mkLogOffset (mkBinlogOffset num off) (mkLogicOffset trm logic_id)
                   else LogOffset0 in
          mkLogOffset (b_offset o) (mkLogicOffset (term (l_offset pb_end)) (index (l_offset o))) in
      SendPartitionBinlogSyncAckRequest SerializeRequest (table_name_ p) (partition_id_ p)
        ack_start ack_end false ;;; ret tt
  end.

Definition HandleBGWorkerWriteBinlog (ip_port : string) (res : InnerResponse) (index : list nat)
    (k : BgWorker) : W BgWorker :=
  let chips := task_chips res index in
  let p := match chips with
           | [] => mkPartitionInfo "" 0
           | b :: _ => mkPartitionInfo (m_table_name (bsr_partition b))
                         (m_partition_id (bsr_partition b))
           end in
  let pb_begin := first_data chips in
  let pb_end := last_data chips in
  let only_keepalive := lo_eqb pb_begin LogOffset0 in
  let ack_start := if only_keepalive then LogOffset0 else pb_begin in
  let k := mkWorker (wk_binlog_item k) ip_port (table_name_ p) (partition_id_ p) in
  let* mp := on_rm (GetSyncMasterPartitionByName p) in
  let* w := get in
  match mp, GetSyncSlavePartitionByName p (w_rm w) with
  | Some _, Some _ =>
      let* go_on := check_consensus_meta p only_keepalive (res_consensus_meta res) in
      if negb go_on then ret k else
      let* x := write_chips p k chips in
      let '(done, k) := x in
      if negb done then ret k else
      (match res_consensus_meta res with
       | None => ret tt
       | Some meta =>
           on_rm (on_master p (ConsensusProcessLocalUpdate conf (meta_commit meta))) ;;; ret tt
       end) ;;;
      ack_chips p ack_start only_keepalive pb_end ;;;
      ret k
  | _, _ => ret k
  end.
End Worker.
