(* ===== verification/Replication.v ===== *)
(** * Replication: a slave's log is a prefix of its master's

    The composition of the two sides.  The specification is a log of items of
    which the slave has some first ones; the implementation is a master's binlog
    and a slave process whose worker handles the responses with the next chips.
    Both place every item at the same position, so that a position identifies an
    item in both logs. *)

From S2P Require Import Prelude Define Env Binlog BinlogReader BinlogRoundTrip BinlogOpen.
From S2P Require Import Transverter Command SlaveNode Consensus StableLog Coordinator WriteQueue.
From S2P Require Import MasterPartition MasterFacts SlavePartition ReplicaManager InnerMessage.
From S2P Require Import Server ReplServer ReplClient ReplWorker CoordinatorFacts.
From stdpp Require Import base list strings pretty gmap sorting relations.
From Stdlib Require Import ZArith Lia Init.Byte.
#[local] Open Scope string_scope.
#[local] Open Scope list_scope.
#[local] Open Scope Z_scope.

(** ** Where an item goes *)

(** From block offsets that agree modulo the block size an item takes the same
    room. *)
Lemma emits_same_size begin bo x out bo1 :
  emits begin bo x out bo1 → 0 ≤ bo ≤ kBlockSize →
  ∀ bo' out' bo1', emits begin bo' x out' bo1' → 0 ≤ bo' ≤ kBlockSize →
  (kBlockSize | bo - bo') → zlen out = zlen out'.
Proof.
  assert (∀ bo bo', 0 ≤ bo ≤ kBlockSize → 0 ≤ bo' ≤ kBlockSize → (kBlockSize | bo - bo') →
    bo = bo' ∨ (bo = 0 ∧ bo' = kBlockSize) ∨ (bo = kBlockSize ∧ bo' = 0)) as Hcl.
  { intros b b' ? ? [k Hk]. const. assert (k = 0 ∨ k = 1 ∨ k = -1) by nia. lia. }
  induction 1 as [begin bo item out bo1 Hb Hp He IH|begin bo item now Hb Hl
                 |begin bo item now avail out bo1 Hb -> Hr He IH];
    intros Hbo bo' out' bo1' He' Hbo' Hd.
  - assert (0 ≤ 0 ≤ kBlockSize) as H0 by (const; lia).
    inversion He'; subst.
    + rewrite !zlen_app, !zlen_zrep by lia.
      destruct (Hcl _ _ Hbo Hbo' Hd) as [<- | [[-> ->] | [-> ->]]]; [|const; lia..].
      f_equal. eapply IH; try done. by exists 0.
    + destruct (Hcl _ _ Hbo Hbo' Hd) as [-> | [[-> ->] | [-> ->]]]; [|const; pose proof (zlen_nonneg item); lia|].
      { pose proof (zlen_nonneg item); const; lia. }
      rewrite Z.sub_diag. change (zrep 0 x00) with (@nil byte). cbn [app]. eapply IH; try done. by exists 0.
    + destruct (Hcl _ _ Hbo Hbo' Hd) as [-> | [[-> ->] | [-> ->]]]; [const; lia..|].
      rewrite Z.sub_diag. change (zrep 0 x00) with (@nil byte). cbn [app]. eapply IH; try done. by exists 0.
  - pose proof (zlen_nonneg item). inversion He'; subst.
    + destruct (Hcl _ _ Hbo Hbo' Hd) as [-> | [[-> ->] | [-> ->]]]; [const; lia| |const; lia].
      rewrite Z.sub_diag. change (zrep 0 x00) with (@nil byte). cbn [app].
      match goal with He0 : emits _ 0 _ _ _ |- _ => inversion He0; subst end; [const; lia| |const; lia].
      by rewrite !zlen_app, !zlen_header.
    + by rewrite !zlen_app, !zlen_header.
    + destruct (Hcl _ _ Hbo Hbo' Hd) as [-> | [[-> ->] | [-> ->]]]; const; lia.
  - pose proof (zlen_nonneg item). inversion He'; subst.
    + destruct (Hcl _ _ Hbo Hbo' Hd) as [-> | [[-> ->] | [-> ->]]]; [const; lia| |const; lia].
      rewrite Z.sub_diag. change (zrep 0 x00) with (@nil byte). cbn [app].
      match goal with He0 : emits _ 0 _ _ _ |- _ => inversion He0; subst end; [const; lia|const; lia|].
      rewrite !zlen_app, !zlen_header. do 2 f_equal. eapply IH; try done; [const; lia..|by exists 0].
    + destruct (Hcl _ _ Hbo Hbo' Hd) as [-> | [[-> ->] | [-> ->]]]; const; lia.
    + destruct (Hcl _ _ Hbo Hbo' Hd) as [-> | [[-> ->] | [-> ->]]]; [|const; lia..].
      rewrite !zlen_app, !zlen_header. do 2 f_equal. eapply IH; try done; [const; lia..|by exists 0].
Qed.

(** With files of [fsize] bytes the item [x] goes from position [p] to [p']: to a
    new file if the current one is full. *)
Definition advances (fsize : Z) (p : Z * Z) (x : bytes) (p' : Z * Z) : Prop :=
  ∃ bo out bo', let q := if p.2 >? fsize then (p.1 + 1, 0) else p in
    0 ≤ bo ≤ kBlockSize ∧ (kBlockSize | bo - q.2) ∧ emits true bo x out bo' ∧
    p' = (q.1, q.2 + zlen out).

Lemma advances_fun fsize p x p1 p2 : advances fsize p x p1 → advances fsize p x p2 → p1 = p2.
Proof.
  intros (bo & out & bo' & Hb & Hd & He & ->) (bo2 & out2 & bo2' & Hb2 & Hd2 & He2 & ->).
  f_equal. f_equal. eapply emits_same_size; try done.
  replace (bo - bo2) with ((bo - (if p.2 >? fsize then (p.1 + 1, 0) else p).2)
    - (bo2 - (if p.2 >? fsize then (p.1 + 1, 0) else p).2)) by lia.
  by apply Z.divide_sub_r.
Qed.

(** The positions after each of the items. *)
Fixpoint advanced (fsize : Z) (p : Z * Z) (xs : list bytes) (ps : list (Z * Z)) : Prop :=
  match xs, ps with
  | [], [] => True
  | x :: xs, p' :: ps => advances fsize p x p' ∧ advanced fsize p' xs ps
  | _, _ => False
  end.

Lemma advanced_app fsize xs ys : ∀ p ps qs, length xs = length ps →
  advanced fsize p (xs ++ ys) (ps ++ qs) ↔
  advanced fsize p xs ps ∧ advanced fsize (default p (last ps)) ys qs.
Proof.
  induction xs as [|x xs IH]; intros p [|p' ps] qs Hl; try done; [cbn; tauto|].
  cbn [app advanced]. rewrite IH by (cbn in Hl; lia).
  assert (last (p' :: ps) = Some (default p' (last ps))) as -> by (rewrite last_cons; by destruct (last ps)).
  cbn. tauto.
Qed.

Section Places.
Context {FS : Type} {E : SlashEnv FS} {L : SlashEnvLaws FS}.
Implicit Types (fs : FS) (b : Binlog).

Lemma Put_advances fs b x fs' b' :
  binlog_wf fs b → Put x (fs, b) = Some (OK, (fs', b')) →
  item_fits b x → 0 ≤ file_size_ b → pro_num_ b + 1 < 2 ^ 32 →
  advances (file_size_ b) (pos b) x (pos b').
Proof.
  intros W H Hfit Hfs Hn.
  destruct (Put_spec _ _ _ _ _ W H) as
    (fs1 & b1 & d & out & bo' & Hr & W1 & Hd & Hl & Hsk & Hsk' & He & Hd' & A & -> & Wf).
  destruct (Put_roll_spec _ _ _ _ W Hr) as [_ Hroll].
  pose proof (emits_size _ _ _ _ _ He (wf_block _ _ W1)) as Hsz.
  destruct (emits_bounds _ _ _ _ _ He (wf_block _ _ W1)) as (Ho&_).
  pose proof (zlen_nonneg d). unfold item_fits in Hfit. destruct (wf_version _ _ W) as (Hv&_).
  rewrite (wf_num _ _ W) in Hv.
  exists (block_offset_ b1), out, bo'. cbn zeta. unfold pos. cbn [fst snd]. rewrite (wf_num _ _ W).
  destruct (v_pro_offset (version_ b) >? file_size_ b) eqn:Eg.
  - destruct Hroll as (-> & Hnil & A1). rewrite Hd in Hnil. injection Hnil as ->. rewrite zlen_nil in *.
    cbn. split_and!; [const; lia|const; lia|by exists 0|done|].
    rewrite zlen_nil, u32_small, s32_small, u64_small; [done|const; lia..].
  - destruct Hroll as [-> ->]. rewrite Z.gtb_ltb in Eg. apply Z.ltb_ge in Eg.
    split_and!; [apply W1..|rewrite <- Hl; by apply seekable_aligned|done|]. cbn.
    rewrite s32_small, u64_small; [f_equal; lia|const; lia..].
Qed.

(** ** A log and its items *)

Lemma next_item_grown fs b fs' p x q :
  next_item fs (filename_ b) p x q → 0 ≤ p.1 → q.1 ≤ pro_num_ b → log_ext fs b fs' →
  next_item fs' (filename_ b) p x q.
Proof.
  intros Hi Hp Hq [A B].
  assert (∀ k, 0 ≤ k ≤ pro_num_ b → ∀ d, file_data fs (NewFileName (filename_ b) k) = Some d →
    ∃ post, file_data fs' (NewFileName (filename_ b) k) = Some (d ++ post)) as Hg.
  { intros k Hk d Hd. destruct (decide (k = pro_num_ b)) as [->|Hne]; [by apply B|].
    exists []. rewrite A, app_nil_r by lia. done. }
  destruct Hi as [Hi|(d & bo & Hd & Hl & Hs & Hi)];
    pose proof Hi as (?&?&?&?&?&_&_&_&_&_&->); cbn in Hq.
  - left. eapply item_at_ext; [done|]. apply Hg. lia.
  - right. exists d, bo. rewrite A by lia. split_and!; try done; try apply Hs.
    eapply item_at_ext; [done|]. cbn. apply Hg. lia.
Qed.

Lemma stored_app fs nm xs ys : ∀ p ps qs, length xs = length ps →
  stored fs nm p (xs ++ ys) (ps ++ qs) ↔
  stored fs nm p xs ps ∧ stored fs nm (default p (last ps)) ys qs.
Proof.
  induction xs as [|x xs IH]; intros p [|p' ps] qs Hl; try done; [cbn; tauto|].
  cbn [app stored]. rewrite IH by (cbn in Hl; lia).
  assert (last (p' :: ps) = Some (default p' (last ps))) as -> by (rewrite last_cons; by destruct (last ps)).
  cbn. tauto.
Qed.

Lemma stored_grown fs b fs' xs : ∀ p ps, stored fs (filename_ b) p xs ps → 0 ≤ p.1 →
  default p (last ps) = pos b → v_pro_num (version_ b) = pro_num_ b → log_ext fs b fs' →
  stored fs' (filename_ b) p xs ps.
Proof.
  induction xs as [|x xs IH]; intros p [|p' ps] Hst Hp Hl Hn Hg; cbn [stored] in *; try done.
  destruct Hst as [Hi Hst]. rewrite last_cons in Hl.
  assert (default p' (last ps) = pos b) as Hl' by by destruct (last ps).
  assert (last (p' :: ps) = Some (pos b)) as Hl'' by (rewrite last_cons, <- Hl'; by destruct (last ps)).
  pose proof (next_item_num _ _ _ _ _ Hi). pose proof (stored_last _ _ _ _ _ _ Hst Hl'') as Hle.
  assert (p'.1 ≤ pro_num_ b).
  { rewrite <- Hn. change (v_pro_num (version_ b)) with (pos b).1. destruct Hle as [<-|[?|[-> _]]]; lia. }
  split; [by apply (next_item_grown fs b)|]. apply IH; try done. lia.
Qed.

(** The log [b] holds the items [xs] since position [p0], at the positions [ps]. *)
Record holds (fs : FS) (b : Binlog) (p0 : Z * Z) (xs : list bytes) (ps : list (Z * Z)) : Prop := {
  ho_wf : binlog_wf fs b;
  ho_size : 0 ≤ file_size_ b;
  ho_start : 0 ≤ p0.1;
  ho_stored : stored fs (filename_ b) p0 xs ps;
  ho_places : advanced (file_size_ b) p0 xs ps;
  ho_end : default p0 (last ps) = pos b;
}.

Lemma holds_agree fs fs' b p0 xs ps : agree fs fs' → holds fs b p0 xs ps → holds fs' b p0 xs ps.
Proof.
  intros A [W Hs Hp Hst Ha He]. split; try done; [by eapply binlog_wf_agree|].
  apply (stored_grown fs b); try done; [apply W|]. split; [intros; apply A|].
  intros d Hd. exists []. rewrite app_nil_r. by rewrite (proj1 (A _)).
Qed.

Lemma holds_put fs b p0 xs ps x fs' b' :
  holds fs b p0 xs ps → Put x (fs, b) = Some (OK, (fs', b')) →
  item_fits b x → pro_num_ b + 1 < 2 ^ 32 →
  holds fs' b' p0 (xs ++ [x]) (ps ++ [pos b']) ∧ advances (file_size_ b) (pos b) x (pos b') ∧
  filename_ b' = filename_ b ∧ file_size_ b' = file_size_ b ∧ pro_num_ b' ≤ pro_num_ b + 1.
Proof.
  intros [W Hs Hp Hst Ha He] H Hfit Hn.
  pose proof (Put_advances _ _ _ _ _ W H Hfit Hs Hn) as Hadv.
  destruct (Put_next _ _ _ _ _ W H Hfit Hs Hn) as (W' & Hi & Hg & Hfn & Hfz & Hnum).
  pose proof (stored_length _ _ _ _ _ Hst) as Hl.
  split; [|split_and!; [done..|lia]]. split; [done|lia|done| | |].
  - rewrite Hfn. apply stored_app; [done|]. rewrite He. split; [|done].
    apply (stored_grown fs b); try done. apply W.
  - rewrite Hfz. apply advanced_app; [done|]. rewrite He. done.
  - by rewrite last_snoc.
Qed.
End Places.

(** ** A worker appends the items it is sent *)

(** ** The chips of a partition *)

(** The partition of a chip. *)
Definition chip_partition (b : BinlogSyncResp) : PartitionInfo :=
  mkPartitionInfo (m_table_name (bsr_partition b)) (m_partition_id (bsr_partition b)).

Lemma par_binlog_chips q bs : ∀ pre m,
  omap (λ i, (pre ++ bs) !! i) (default [] (par_binlog (length pre) bs m !! q)) =
  omap (λ i, (pre ++ bs) !! i) (default [] (m !! q)) ++ filter (λ b, chip_partition b = q) bs.
Proof.
  induction bs as [|b bs IH]; intros pre m; cbn [par_binlog]; [symmetry; apply app_nil_r|].
  specialize (IH (pre ++ [b]) (par_binlog_add (length pre) b m)). rewrite length_app, <- app_assoc in IH.
  replace (length pre + length [b])%nat with (S (length pre)) in IH by (cbn; lia).
  cbn [app] in IH. rewrite IH. unfold par_binlog_add. fold (chip_partition b). rewrite filter_cons.
  destruct (decide (chip_partition b = q)) as [->|Hne].
  - rewrite lookup_insert_eq. cbn [default from_option]. unfold id. rewrite omap_app. cbn. rewrite list_lookup_middle by done.
    by rewrite <- app_assoc.
  - by rewrite lookup_insert_ne.
Qed.

Section Worker.
Context {FS : Type} {E : SlashEnv FS} {L : SlashEnvLaws FS} {RE : ReliableEnv FS}.
Context {C : FixedCoding} {SN : StringNum}.
Context {Cmd Conn Resp : Type} {CO : CmdOps Cmd}.
Context {P : Type} {PN : PinkNet P}.
Context (conf : PikaConf).
Context (SerializeRequest : InnerRequest → option bytes).
Context (dummy_cmd : string → Cmd) (write_binlog : bool).
Abbreviation World := (@World FS Cmd Conn Resp (ReplNet P)).
Abbreviation Master := (@SyncMasterPartition FS Cmd Conn Resp).
Abbreviation Coord := (@Coord FS Cmd Conn Resp).
Implicit Types (w : World) (mp : Master) (st : Coord).

#[local] Arguments Put : simpl never.
#[local] Arguments BinlogItemWithoutContentDecode : simpl never.

(** The item carries a log entry of the table, and its request text reads back as a
    command that makes the same entry. *)
Definition replayable (table : string) (x : bytes) : Prop :=
  x ≠ [] ∧ ∀ old, ∃ i c, BinlogItemWithoutContentDecode TypeFirst x old = (true, i) ∧
    0 ≤ logic_id_ i ∧ parse_cmd table (zdrop BINLOG_ENCODE_LEN x) = Some c ∧
    ToBinlog c (exec_time_ i) (term_id_ i) (logic_id_ i) (filenum_ i) (offset_ i) = x.

(** The command of an item. *)
Definition replays (table : string) (x : bytes) : list Cmd :=
  option_list (parse_cmd table (zdrop BINLOG_ENCODE_LEN x)).

(** The coordinator, and the partition, with another log and with commands handed to
    the appliers. *)
Definition coord_appended (fs : FS) (b : Binlog) (cs : list Cmd) st : Coord :=
  mkCoord fs (committed_index_ st) (context_ st) (term_ st) (c_table_name_ st)
    (c_partition_id_ st) (sync_pros_ st) (set_stable_logger b (stable_ st)) (mem_logger_ st)
    (events_ st ++ ((λ c, EvApplyFollower (mkLogItem LogOffset0 c None None)) <$> cs)).
Definition appended (fs : FS) (b : Binlog) (cs : list Cmd) mp : Master :=
  set_coordinator (coord_appended fs b cs (coordinator_ mp)) mp.

Lemma appended_app fs1 b1 cs1 fs2 b2 cs2 mp :
  appended fs2 b2 cs2 (appended fs1 b1 cs1 mp) = appended fs2 b2 (cs1 ++ cs2) mp.
Proof. unfold appended, coord_appended. cbn. by rewrite fmap_app, app_assoc. Qed.

(** The master partition of [p], and the world with another one. *)
Definition master_at (p : PartitionInfo) (idx : nat) mp w : Prop :=
  partition_id_ p = 0 ∧ DbIdxFromStr (table_name_ p) = Some idx ∧
  sync_master_partitions_ (w_rm w) !! idx = Some (Some mp).
Definition with_master (idx : nat) mp w : World :=
  set_w_rm (set_masters (<[idx := Some mp]> (sync_master_partitions_ (w_rm w))) (w_rm w)) w.

Lemma with_master_at p idx mp mp' w :
  master_at p idx mp w → master_at p idx mp' (with_master idx mp' w).
Proof.
  intros (H1 & H2 & H3). split_and!; [done|done|]. cbn.
  apply list_lookup_insert_eq. by eapply lookup_lt_Some.
Qed.

Lemma with_master_twice idx mp mp' w :
  with_master idx mp' (with_master idx mp w) = with_master idx mp' w.
Proof. unfold with_master, set_w_rm, set_masters. cbn. by rewrite list_insert_insert_eq. Qed.

Lemma with_master_same p idx mp w : master_at p idx mp w → with_master idx mp w = w.
Proof.
  intros (_ & _ & H). unfold with_master. rewrite list_insert_id by done. by destruct w as [[] ?].
Qed.

Lemma get_master_run p idx mp w : master_at p idx mp w →
  on_rm (GetSyncMasterPartitionByName p) w = Some (Some mp, w).
Proof.
  intros (H1 & H2 & H3). unfold on_rm, zoom, GetSyncMasterPartitionByName, master_index.
  unfold bind, massert. rewrite H1, H2. cbn. unfold gets. rewrite H3. by destruct w.
Qed.

Lemma on_master_run {A} p idx mp w (m : M Master A) a mp' : master_at p idx mp w →
  m mp = Some (a, mp') → on_rm (on_master p m) w = Some (a, with_master idx mp' w).
Proof.
  intros H Hm. pose proof (get_master_run _ _ _ _ H) as Hg. destruct H as (H1 & H2 & H3).
  unfold on_rm, zoom in *. unfold on_master. unfold bind at 1.
  destruct (GetSyncMasterPartitionByName p (w_rm w)) as [[? r]|]; [|done].
  injection Hg as -> Hr. rewrite Hm. unfold put_master, master_index, bind, massert.
  rewrite H1, H2. cbn. unfold with_master. rewrite <- Hr. by destruct w.
Qed.

Lemma pi_eta p : mkPartitionInfo (table_name_ p) (partition_id_ p) = p.
Proof. by destruct p. Qed.

(** *** One item *)

Lemma ProcessLeaderLog_run c i st fs' b' :
  consensus_level conf = 0 → index (l_offset (last_offset_ (mem_logger_ st))) = 0 → 0 ≤ logic_id_ i →
  Put (ToBinlog c (exec_time_ i) (term_id_ i) (logic_id_ i) (filenum_ i) (offset_ i))
    (c_fs st, logger_of st) = Some (OK, (fs', b')) →
  ProcessLeaderLog conf c i st = Some (OK, coord_appended fs' b' [c] st).
Proof.
  intros Hc Hl Hi Hput. unfold ProcessLeaderLog, bind at 1, get. cbn beta iota. rewrite Hl.
  rewrite (proj2 (Z.ltb_ge _ _)) by done. unfold InternalAppendLog, InternalAppendBinlog.
  unfold bind, on_binlog, on_stable, on_logger, zoom. cbn. unfold logger_of in Hput. rewrite Hput.
  cbn. unfold get, ret, modify. destruct (GetProducerStatus _) as [? [[[? ?] ?] ?]].
  rewrite Hc. cbn. unfold coord_appended, set_stable, set_stable_logger. by destruct st as [? ? ? ? ? ? ? [] ? ?].
Qed.

(** The partition [p] receives from its master in the session [session]. *)
Record following (p : PartitionInfo) (session : Z) w : Prop := {
  fo_role : classic_mode conf = true → has_role PIKA_ROLE_SLAVE (w_srv w) = true;
  fo_slave : ∃ sp, sync_slave_partitions_ (w_rm w) !! p = Some sp ∧
               State sp = kConnected ∧ MasterSessionId sp = session;
}.

Lemma following_master p session idx mp w :
  following p session w → following p session (with_master idx mp w).
Proof. by intros [H1 H2]. Qed.

Lemma write_chip_run p idx mp session w k b fs' b' :
  consensus_level conf = 0 → master_at p idx mp w → following p session w →
  index (l_offset (ConsensusLastIndex mp)) = 0 →
  wk_table_name k = table_name_ p → wk_partition_id k = partition_id_ p →
  bsr_session_id b = session → replayable (table_name_ p) (bsr_binlog b) →
  Put (bsr_binlog b) (mp_fs mp, mp_logger mp) = Some (OK, (fs', b')) →
  ∃ k', write_chip conf p k b w =
      Some ((true, k'), with_master idx (appended fs' b' (replays (table_name_ p) (bsr_binlog b)) mp) w) ∧
    wk_table_name k' = table_name_ p ∧ wk_partition_id k' = partition_id_ p.
Proof.
  intros Hc Hm [Hrole (sp & Hsp & Hst & Hses)] Hl Hk1 Hk2 Hb [Hx Hrep] Hput.
  destruct (Hrep (wk_binlog_item k)) as (i & c & Hdec & Hi & Hparse & Htb).
  unfold write_chip, bind at 1, get. cbn beta iota. unfold GetSyncSlavePartitionByName. rewrite Hsp.
  assert (classic_mode conf && negb (has_role PIKA_ROLE_SLAVE (w_srv w))
    || negb (bool_decide (State sp = kConnected)) && negb (bool_decide (State sp = kWaitDBSync)) = false) as ->.
  { rewrite (bool_decide_eq_true_2 (State sp = kConnected)) by done. cbn. rewrite orb_false_r.
    destruct (classic_mode conf); [|done]. by rewrite Hrole. }
  rewrite Hses, Hb, Z.eqb_refl. cbn [negb]. destruct (bsr_binlog b) as [|x0 x'] eqn:Ex; [done|].
  rewrite <- Ex in *. rewrite Hdec. cbn [negb]. cbn [set_wk_item wk_table_name]. rewrite Hk1, Hparse.
  exists (set_wk_item i k). split; [|done]. unfold HandleWriteBinlog. cbn [set_wk_item wk_table_name wk_partition_id wk_binlog_item].
  unfold bind at 1 2. rewrite Hk1, Hk2, pi_eta. erewrite (on_master_run p idx mp w); [|done|].
  - unfold replays, ret. by rewrite Hparse.
  - unfold ConsensusProcessLeaderLog, on_coord, zoom.
    rewrite (ProcessLeaderLog_run c i _ fs' b'); [done|done|done|done|by rewrite Htb].
Qed.

(** *** The items of a response *)

Definition replays_all (table : string) (xs : list bytes) : list Cmd := xs ≫= replays table.

Lemma write_chips_run p idx session chips : consensus_level conf = 0 → ∀ mp w k ps fs' b',
  master_at p idx mp w → following p session w →
  index (l_offset (ConsensusLastIndex mp)) = 0 →
  wk_table_name k = table_name_ p → wk_partition_id k = partition_id_ p →
  Forall (λ b, bsr_session_id b = session ∧ replayable (table_name_ p) (bsr_binlog b)) chips →
  Put_all (bsr_binlog <$> chips) (mp_fs mp, mp_logger mp) = Some (ps, (fs', b')) →
  ∃ k', write_chips conf p k chips w = Some ((true, k'), with_master idx
      (appended fs' b' (replays_all (table_name_ p) (bsr_binlog <$> chips)) mp) w) ∧
    wk_table_name k' = table_name_ p.
Proof.
  intros Hc. induction chips as [|b chips IH]; intros mp w k ps fs' b' Hm Hf Hl Hk1 Hk2 Hb Hput.
  - cbn in Hput. injection Hput as _ <- <-. exists k. split; [|done]. cbn [write_chips]. unfold ret.
    rewrite (with_master_same p); [done|]. destruct Hm as (H1&H2&H3). split_and!; [done..|].
    rewrite H3. unfold appended, coord_appended, mp_fs, mp_logger, logger_of. cbn. rewrite app_nil_r.
    by destruct mp as [? ? [? ? ? ? ? ? ? [] ? ?]].
  - apply Forall_cons in Hb as [[Hb1 Hb2] Hb]. cbn [fmap list_fmap Put_all] in Hput.
    apply run_bind in Hput as (s & [fs1 b1] & Hp1 & Hput).
    unfold bind, massert, getb in Hput. destruct (ok s) eqn:Eo; [|done]. apply ok_true in Eo as ->.
    cbn in Hput. destruct (Put_all _ _) as [[ps1 [fs2 b2]]|] eqn:Hp2; [|done].
    injection Hput as _ <- <-.
    destruct (write_chip_run p idx mp session w k b fs1 b1) as (k1 & Hw & Hk1' & Hk2'); try done.
    destruct (IH (appended fs1 b1 (replays (table_name_ p) (bsr_binlog b)) mp)
      (with_master idx (appended fs1 b1 (replays (table_name_ p) (bsr_binlog b)) mp) w)
      k1 ps1 fs2 b2) as (k' & Hws & Hk'); try done.
    { by eapply with_master_at. }
    { by apply following_master. }
    exists k'. split; [|done]. cbn [write_chips]. unfold bind. rewrite Hw. cbn beta iota. rewrite Hws.
    by rewrite with_master_twice, appended_app.
Qed.

Lemma Put_all_ok items : ∀ fs b, binlog_wf fs b → 0 ≤ file_size_ b → Forall (item_fits b) items →
  pro_num_ b + zlen items < 2 ^ 32 → ∃ ps fs' b', Put_all items (fs, b) = Some (ps, (fs', b')).
Proof.
  induction items as [|x items IH]; intros fs b W Hs Hf Hn; [by do 3 eexists|].
  apply Forall_cons in Hf as [Hx Hf]. rewrite zlen_cons in Hn. pose proof (zlen_nonneg items).
  destruct (Put_ok fs b x W) as (fs1 & b1 & Hp); [unfold item_fits in Hx; pose proof (zlen_nonneg x); lia|].
  destruct (Put_next _ _ _ _ _ W Hp Hx Hs ltac:(lia)) as (W1 & _ & _ & _ & Hfz & Hnum).
  destruct (IH fs1 b1 W1) as (ps & fs2 & b2 & Hps); [lia| |lia|].
  { eapply Forall_impl; [done|]. unfold item_fits. by rewrite Hfz. }
  exists (pos b1 :: ps), fs2, b2. cbn [Put_all]. unfold bind at 1. rewrite Hp. cbn.
  unfold bind, massert, getb. cbn. by rewrite Hps.
Qed.

(** The items go where they went in the log they come from. *)
Lemma holds_put_all ys : ∀ fs b p0 xs ps qs, holds fs b p0 xs ps → Forall (item_fits b) ys →
  advanced (file_size_ b) (pos b) ys qs → Forall (λ q, q.1 + 1 < 2 ^ 32) (pos b :: qs) →
  ∃ fs' b', Put_all ys (fs, b) = Some (qs, (fs', b')) ∧ holds fs' b' p0 (xs ++ ys) (ps ++ qs) ∧
    file_size_ b' = file_size_ b.
Proof.
  induction ys as [|x ys IH]; intros fs b p0 xs ps [|q qs] Hh Hf Ha Hn; try done.
  { exists fs, b. rewrite !app_nil_r. by split_and!. }
  destruct Ha as [Ha1 Ha]. apply Forall_cons in Hf as [Hx Hf]. apply Forall_cons in Hn as [Hn0 Hn].
  pose proof (ho_wf _ _ _ _ _ Hh) as W. pose proof (ho_size _ _ _ _ _ Hh) as Hs.
  assert (pro_num_ b + 1 < 2 ^ 32) as Hn1 by (rewrite <- (wf_num _ _ W); exact Hn0).
  destruct (Put_ok fs b x W) as (fs1 & b1 & Hp).
  { unfold item_fits in Hx. pose proof (zlen_nonneg x). lia. }
  destruct (holds_put _ _ _ _ _ _ _ _ Hh Hp Hx Hn1) as (Hh1 & Hadv & _ & Hfz & _).
  pose proof (advances_fun _ _ _ _ _ Hadv Ha1) as <-.
  destruct (IH fs1 b1 p0 (xs ++ [x]) (ps ++ [pos b1]) qs) as (fs' & b' & Hps & Hh' & Hfz'); try done.
  - eapply Forall_impl; [exact Hf|]. unfold item_fits. by rewrite Hfz.
  - by rewrite Hfz.
  - rewrite <- !app_assoc in Hh'. exists fs', b'. split_and!; [|done|by rewrite Hfz'].
    cbn [Put_all]. unfold bind at 1. rewrite Hp. unfold bind, massert, getb. cbn. by rewrite Hps.
Qed.

(** *** A response *)

(** A task of the session for the partition. *)
Definition task_for (p : PartitionInfo) (session : Z) (t : WriteTask) : Prop :=
  partition_info_ (rm_node_ t) = p ∧ session_id_ (rm_node_ t) = session ∧
  replayable (table_name_ p) (binlog_ (binlog_chip_ t)) ∧
  lo_eqb (chip_offset_ (binlog_chip_ t)) LogOffset0 = false.

Definition task_items (tasks : list WriteTask) : list bytes :=
  (λ t, binlog_ (binlog_chip_ t)) <$> tasks.
Lemma zlen_task_items tasks : zlen (task_items tasks) = zlen tasks.
Proof. unfold zlen, task_items. by rewrite length_fmap. Qed.

Definition first_offset (tasks : list WriteTask) : LogOffset :=
  default LogOffset0 ((λ t, chip_offset_ (binlog_chip_ t)) <$> head tasks).
Definition last_offset (tasks : list WriteTask) : LogOffset :=
  default LogOffset0 ((λ t, chip_offset_ (binlog_chip_ t)) <$> last tasks).

(** The acknowledgement of [tasks] by a slave whose log is [b]. *)
Definition ack_request (p : PartitionInfo) (sp : SyncSlavePartition) (srv_port : Z)
    (tasks : list WriteTask) (b : Binlog) : InnerRequest :=
  BinlogSync_request srv_port (table_name_ p) (partition_id_ p) (first_offset tasks)
    (mkLogOffset (mkBinlogOffset (pos b).1 (pos b).2)
       (mkLogicOffset (term (l_offset (last_offset tasks))) (v_logic_id (version_ b))))
    (LocalIp sp) (MasterSessionId sp) false.

Lemma chip_msg_parts t p : partition_info_ (rm_node_ t) = p → chip_partition (chip_msg t) = p.
Proof. intros <-. unfold chip_partition, chip_msg. cbn. by destruct (partition_info_ _). Qed.

Lemma task_chips_all committed p session tasks index : consensus_level conf = 0 →
  Forall (task_for p session) tasks →
  par_binlog 0 (res_binlog_sync (BuildBinlogSyncResp conf committed tasks)) ∅ !! p = Some index →
  task_chips (BuildBinlogSyncResp conf committed tasks) index = chip_msg <$> tasks.
Proof.
  intros Hc Ht Hi. unfold BuildBinlogSyncResp in *. rewrite Hc in *. cbn in *.
  pose proof (par_binlog_chips p (chip_msg <$> tasks) [] ∅) as H. cbn [app length] in H.
  rewrite Hi, lookup_empty in H. unfold task_chips. cbn. cbn in H. unfold id in H. rewrite H.
  clear -Ht. induction Ht as [|t tasks (Hp & _) _ IH]; [done|]. cbn [fmap list_fmap]. rewrite filter_cons.
  rewrite decide_True by by apply chip_msg_parts. by rewrite IH.
Qed.

Lemma first_data_tasks p session t tasks : task_for p session t →
  first_data (chip_msg <$> (t :: tasks)) = chip_offset_ (binlog_chip_ t).
Proof. intros (_ & _ & [Hx _] & _). cbn. by destruct (binlog_ (binlog_chip_ t)). Qed.

Lemma last_data_tasks p session tasks : Forall (task_for p session) tasks →
  last_data (chip_msg <$> tasks) = last_offset tasks.
Proof.
  unfold last_data, last_offset. destruct tasks as [|t tasks _] using rev_ind; intros H; [done|].
  apply Forall_app in H as [_ H]. apply Forall_cons in H as [H _].
  rewrite fmap_app, rev_app_distr, last_snoc. cbn [rev app fmap list_fmap].
  destruct H as (_ & _ & [Hx _] & _). cbn. by destruct (binlog_ (binlog_chip_ t)).
Qed.

Lemma ack_chips_run p idx mp w sp start e tasks :
  master_at p idx mp w → sync_slave_partitions_ (w_rm w) !! p = Some sp →
  opened_ (mp_logger mp) = true → start = first_offset tasks → e = last_offset tasks →
  ack_chips SerializeRequest p start false e w = Some (tt, set_w_rm (set_net
    (send_request SerializeRequest (MasterIp sp) (MasterPort sp)
       (ack_request p sp (srv_port_ (w_srv w)) tasks (mp_logger mp)) (net_ (w_rm w))).2 (w_rm w)) w).
Proof.
  intros Hm Hsp Hop -> ->. unfold ack_chips, bind at 1. rewrite (get_master_run _ _ _ _ Hm).
  unfold GetProducerStatus. rewrite Hop. cbn [negb ok b_offset l_offset index].
  unfold SendPartitionBinlogSyncAckRequest, bind at 1 2, get. cbn beta iota.
  unfold GetSyncSlavePartitionByName. rewrite pi_eta, Hsp. fold (pos (mp_logger mp)).
  unfold ack_request, pos. cbn [fst snd].
  destruct (send_request _ _ _ _ _) as [s net]. done.
Qed.

Lemma worker_run committed p idx session ip_port tasks chips mp w k sp ps fs' b' :
  consensus_level conf = 0 → master_at p idx mp w → following p session w →
  sync_slave_partitions_ (w_rm w) !! p = Some sp →
  index (l_offset (ConsensusLastIndex mp)) = 0 →
  Put_all (task_items tasks) (mp_fs mp, mp_logger mp) = Some (ps, (fs', b')) → opened_ b' = true →
  tasks ≠ [] → Forall (task_for p session) tasks →
  let res := BuildBinlogSyncResp conf committed tasks in
  par_binlog 0 (res_binlog_sync res) ∅ !! p = Some chips →
  ∃ k', let w1 := with_master idx (appended fs' b' (replays_all (table_name_ p) (task_items tasks)) mp) w in
    HandleBGWorkerWriteBinlog conf SerializeRequest dummy_cmd write_binlog ip_port res chips k w =
      Some (k', set_w_rm (set_net (send_request SerializeRequest (MasterIp sp) (MasterPort sp)
        (ack_request p sp (srv_port_ (w_srv w)) tasks b') (net_ (w_rm w))).2 (w_rm w1)) w1).
Proof.
  intros Hc Hm Hf Hsp Hl Hput Hop Hne Ht res Hi.
  assert (bsr_binlog <$> (chip_msg <$> tasks) = task_items tasks) as Hitems.
  { unfold task_items. by rewrite <- list_fmap_compose. }
  destruct (write_chips_run p idx session (chip_msg <$> tasks) Hc mp w
    (mkWorker (wk_binlog_item k) ip_port (table_name_ p) (partition_id_ p)) ps fs' b')
    as (k' & Hw & _); try done.
  { apply Forall_fmap. eapply Forall_impl; [exact Ht|]. intros t (_ & Hs & Hr & _). by split. }
  { by rewrite Hitems. }
  rewrite Hitems in Hw. exists k'. cbn zeta.
  unfold HandleBGWorkerWriteBinlog. unfold res in *. rewrite (task_chips_all _ p session) by done.
  destruct tasks as [|t tasks]; [done|]. apply Forall_cons in Ht as [Ht1 Ht].
  rewrite (first_data_tasks p session) by done. destruct Ht1 as (Hp & Hs & Hr & H0).
  rewrite H0. cbn [fmap list_fmap]. fold (chip_partition (chip_msg t)). rewrite (chip_msg_parts t p Hp).
  unfold bind at 1. rewrite (get_master_run _ _ _ _ Hm). unfold bind at 1, get. cbn beta iota.
  unfold GetSyncSlavePartitionByName. rewrite Hsp.
  assert (res_consensus_meta (BuildBinlogSyncResp conf committed (t :: tasks)) = None) as ->.
  { unfold BuildBinlogSyncResp. by rewrite Hc. }
  cbn [check_consensus_meta]. unfold bind at 1, ret at 1. cbn [negb].
  change (chip_msg t :: (chip_msg <$> tasks)) with (chip_msg <$> (t :: tasks)).
  unfold bind at 1. rewrite Hw. cbn beta iota. cbn [negb]. unfold bind at 1, ret at 1. unfold bind at 1.
  rewrite (ack_chips_run p idx (appended fs' b' (replays_all (table_name_ p) (task_items (t :: tasks))) mp)
    _ sp _ _ (t :: tasks)); [done|by eapply with_master_at|done|done|done|].
  apply (last_data_tasks p session). constructor; [by split_and!|done].
Qed.

(** A worker of a slave in step with its master appends exactly the items it was
    sent: on a reliable file system, without a consensus level, for a partition that is
    connected in the session of the tasks, the items of a response go to the slave's log
    in order, byte for byte; each command is handed to the appliers once, in the same
    order; nothing else of the partition, of the other partitions or of the server
    changes; and the slave acknowledges from the first offset of the response to the
    end of its own log. *)
Theorem worker_appends committed p idx session ip_port tasks chips mp w k sp :
  consensus_level conf = 0 → master_at p idx mp w → following p session w →
  sync_slave_partitions_ (w_rm w) !! p = Some sp →
  index (l_offset (ConsensusLastIndex mp)) = 0 → binlog_wf (mp_fs mp) (mp_logger mp) →
  0 ≤ file_size_ (mp_logger mp) → Forall (item_fits (mp_logger mp)) (task_items tasks) →
  pro_num_ (mp_logger mp) + zlen tasks < 2 ^ 32 →
  tasks ≠ [] → Forall (task_for p session) tasks →
  let res := BuildBinlogSyncResp conf committed tasks in
  par_binlog 0 (res_binlog_sync res) ∅ !! p = Some chips →
  ∃ ps fs' b' k',
    Put_all (task_items tasks) (mp_fs mp, mp_logger mp) = Some (ps, (fs', b')) ∧
    let w1 := with_master idx (appended fs' b' (replays_all (table_name_ p) (task_items tasks)) mp) w in
    HandleBGWorkerWriteBinlog conf SerializeRequest dummy_cmd write_binlog ip_port res chips k w =
      Some (k', set_w_rm (set_net (send_request SerializeRequest (MasterIp sp) (MasterPort sp)
        (ack_request p sp (srv_port_ (w_srv w)) tasks b') (net_ (w_rm w))).2 (w_rm w1)) w1).
Proof.
  intros Hc Hm Hf Hsp Hl W Hfs Hfit Hnum Hne Ht res Hi.
  assert (pro_num_ (mp_logger mp) + zlen (task_items tasks) < 2 ^ 32) as Hn by by rewrite zlen_task_items.
  destruct (Put_all_ok (task_items tasks) (mp_fs mp) (mp_logger mp)) as (ps & fs' & b' & Hput); [done..|].
  destruct (Put_all_stored _ _ _ _ _ _ W Hfs Hfit Hn Hput) as (W' & _).
  destruct (worker_run committed p idx session ip_port tasks chips mp w k sp ps fs' b')
    as (k' & H); try done; [apply W'|]. by exists ps, fs', b', k'.
Qed.
End Worker.

(** ** The whole path of an entry *)

(** The specification: entries pass in order from the master's log to the wire and
    from there to the replica; [unsent] is what the master still has to send.  The
    master's log is all three. *)
Record Repl := mkRepl { replica : list bytes; flight : list bytes; unsent : list bytes }.

Inductive repl_step : Repl → Repl → Prop :=
  | repl_append a x : repl_step a (mkRepl (replica a) (flight a) (unsent a ++ [x]))
  | repl_send r f x u : repl_step (mkRepl r f (x ++ u)) (mkRepl r (f ++ x) u)
  | repl_deliver r x f u : repl_step (mkRepl r (x ++ f) u) (mkRepl (r ++ x) f u).

Section System.
Context {FS : Type} {E : SlashEnv FS} {L : SlashEnvLaws FS} {RE : ReliableEnv FS}.
Context {C : FixedCoding} {SN : StringNum}.
Context {Cmd Conn Resp : Type} {CO : CmdOps Cmd}.
Context {P : Type} {PN : PinkNet P}.
Context (conf : PikaConf) (gfuel cfuel : nat).
Context (SerializeRequest : InnerRequest → option bytes).
Context (dummy_cmd : string → Cmd) (write_binlog : bool).
Context (committed : PartitionInfo → option (LogOffset * Z)).
Context (p : PartitionInfo) (ip_port : string).
Abbreviation Coord := (@Coord FS Cmd Conn Resp).
Abbreviation World := (@World FS Cmd Conn Resp (ReplNet P)).
Abbreviation Master := (@SyncMasterPartition FS Cmd Conn Resp).

#[local] Arguments Put : simpl never.
#[local] Arguments BinlogItemWithoutContentDecode : simpl never.

(** The master's partition, its node for the slave, the tasks on their way, the slave
    process and its worker. *)
Record Sys := mkSys {
  y_master : Master; y_node : SlaveNode; y_wire : list WriteTask; y_slave : World;
  y_worker : BgWorker }.

(** The item a command becomes in the log of a partition. *)
Definition proposal (m : Master) (c : Cmd) : bytes :=
  proposed_binlog (coordinator_ m) (env_time (mp_fs m)).1 c.

(** A client's command is logged; the node's reader is read; some of the tasks arrive
    in one response.  The conditions on a command say that its item has room in the
    log, is small enough for the reader, and reads back. *)
Inductive SysStep : Sys → Sys → Prop :=
  | sys_propose y c conn resp m' :
      ConsensusProposeLog conf c conn resp (y_master y) = Some (OK, m') →
      item_fits (mp_logger (y_master y)) (proposal (y_master y) c) →
      pro_num_ (mp_logger (y_master y)) + 2 < 2 ^ 32 →
      (length (proposal (y_master y) c) ≤ cfuel)%nat →
      replayable (table_name_ p) (proposal (y_master y) c) →
      SysStep y (mkSys m' (y_node y) (y_wire y) (y_slave y) (y_worker y))
  | sys_read y clock cnt tasks n' :
      read_loop gfuel cfuel (mp_fs (y_master y)) (mp_logger (y_master y)) clock cnt []
        (y_node y) = Some (None, tasks, n') →
      SysStep y (mkSys (y_master y) n' (y_wire y ++ tasks) (y_slave y) (y_worker y))
  | sys_deliver y batch rest chips k' w' :
      y_wire y = batch ++ rest → batch ≠ [] →
      let res := BuildBinlogSyncResp conf committed batch in
      par_binlog 0 (res_binlog_sync res) ∅ !! p = Some chips →
      HandleBGWorkerWriteBinlog conf SerializeRequest dummy_cmd write_binlog ip_port res chips
        (y_worker y) (y_slave y) = Some (k', w') →
      SysStep y (mkSys (y_master y) (y_node y) rest w' k').

(** What is asked of an item of the log with files of [fsize] bytes. *)
Definition item_good (fsize : Z) (x : bytes) : Prop :=
  (length x ≤ cfuel)%nat ∧ replayable (table_name_ p) x ∧ fsize + 2 * zlen x + 23 < 2 ^ 31.

(** *** Reading *)

Lemma next_item_offset fs nm q x q' : next_item fs nm q x q' → 0 < q'.2.
Proof.
  assert (∀ q, item_at fs nm q x q' → 0 < q'.2) as H.
  { intros r (pre&out&?&bo&?&_&Hl&He&Hb&_&->). cbn. rewrite <- Hl. pose proof (zlen_nonneg pre).
    apply emits_bounds in He as [? _]; [|done]. const. lia. }
  intros [Hi|(?&?&_&_&_&Hi)]; eauto.
Qed.

Lemma Get_held fs b p0 xs x ys ps q qs o r :
  2 ≤ Z.of_nat gfuel → holds fs b p0 (xs ++ x :: ys) (ps ++ q :: qs) → length xs = length ps →
  Forall (λ q, q.1 + 1 < 2 ^ 32) (p0 :: ps) → x ≠ [] → (length x ≤ cfuel)%nat →
  let at_ := default p0 (last ps) in
  reader_at (NewFileName (filename_ b) at_.1) at_.1 at_.2 r →
  ∃ r', Get fs b gfuel cfuel [] o r = Some ((OK, x, q), r') ∧
    reader_at (NewFileName (filename_ b) q.1) q.1 q.2 r' ∧ 0 < q.2.
Proof.
  intros Hg [W Hs Hp Hst Ha He] Hlen Hnum Hx Hc at_ R.
  apply stored_app in Hst as [Hst1 Hst]; [|done]. fold at_ in Hst. cbn [stored] in Hst.
  destruct Hst as [Hi Hst]. rewrite last_app in He. rewrite last_cons in He.
  assert (last (q :: qs) = Some (pos b)) as Hlast.
  { rewrite last_cons. by destruct (last qs); cbn in He; subst. }
  pose proof (next_item_lt _ _ _ _ _ Hi) as Hlt. pose proof (next_item_offset _ _ _ _ _ Hi) as Hoff.
  pose proof (stored_last _ _ _ _ _ _ Hst Hlast) as Hle.
  assert (0 ≤ at_.1 ∧ at_.1 + 1 < 2 ^ 32) as [Hat0 Hat1].
  { unfold at_. apply Forall_cons in Hnum as [Hn0 Hnum]. destruct (last ps) as [z|] eqn:Ez; [|done]. cbn.
    split; [|apply last_Some in Ez as [l' ->]; apply Forall_app in Hnum as [_ Hz]; by apply Forall_cons in Hz as [? _]].
    destruct (stored_last _ _ _ _ _ z Hst1) as [<-|[?|[<- _]]]; [by rewrite last_cons, Ez|lia..]. }
  destruct gfuel as [|[|g]] eqn:Eg; [lia|lia|]. change (S (S g)) with (2 + g)%nat.
  destruct (Get_next fs b at_ x q g cfuel r o) as (r' & Hget & R'); try done.
  - apply W.
  - intros Heq. rewrite Heq in Hlt. unfold plt in *. destruct Hle as [->|]; lia.
  - intros Hq Heq. rewrite <- Heq in Hle. unfold plt in Hle. cbn in Hle.
    destruct Hle as [->|]; cbn in *; lia.
  - by exists r'.
Qed.

(** The node's reader stands at [q]. *)
Definition node_at (nm : string) (q : Z * Z) (session : Z) (n : SlaveNode) : Prop :=
  partition_info_ (rm n) = p ∧ session_id_ (rm n) = session ∧
  ∃ rd, binlog_reader n = Some rd ∧ reader_at (NewFileName nm q.1) q.1 q.2 rd.

Lemma read_loop_held fs b p0 clock session cnt : 2 ≤ Z.of_nat gfuel →
  ∀ xs ps ys qs tasks n, holds fs b p0 (xs ++ ys) (ps ++ qs) → length xs = length ps →
  Forall (λ q, q.1 + 1 < 2 ^ 32) (p0 :: ps ++ qs) → Forall (item_good (file_size_ b)) ys →
  node_at (filename_ b) (default p0 (last ps)) session n →
  ∃ y1 y2 q1 q2 new n', ys = y1 ++ y2 ∧ qs = q1 ++ q2 ∧ length y1 = length q1 ∧
    read_loop gfuel cfuel fs b clock cnt tasks n = Some (None, tasks ++ new, n') ∧
    carry new y1 q1 ∧ Forall (task_for p session) new ∧
    node_at (filename_ b) (default p0 (last (ps ++ q1))) session n'.
Proof.
  intros Hg. induction cnt as [|cnt IH]; intros xs ps ys qs tasks n Hh Hlen Hnum Hgood Hn.
  { exists [], ys, [], qs, [], n. rewrite !app_nil_r. split_and!; done. }
  pose proof Hn as (Hp & Hses & rd & Hrd & R). cbn [read_loop]. rewrite Hrd.
  assert (∃ y1 y2 q1 q2 new n', ys = y1 ++ y2 ∧ qs = q1 ++ q2 ∧ length y1 = length q1 ∧
    Some (@None Status, tasks, n) = Some (None, tasks ++ new, n') ∧
    carry new y1 q1 ∧ Forall (task_for p session) new ∧
    node_at (filename_ b) (default p0 (last (ps ++ q1))) session n') as Hstop.
  { exists [], ys, [], qs, [], n. rewrite !app_nil_r. split_and!; done. }
  destruct (_ >? _); [exact Hstop|].
  pose proof (stored_length _ _ _ _ _ (ho_stored _ _ _ _ _ Hh)) as Hall. rewrite !length_app in Hall.
  destruct ys as [|x ys].
  { destruct qs as [|]; [|cbn in Hall; lia]. rewrite !app_nil_r in Hh.
    pose proof (ho_end _ _ _ _ _ Hh) as He. rewrite He in R.
    destruct gfuel as [|g] eqn:Eg; [lia|].
    assert (opened_ b = true) as Ho by apply (ho_wf _ _ _ _ _ Hh).
    erewrite Get_end by done.
    exists [], [], [], [], [], (set_binlog_reader (Some rd) n). rewrite !app_nil_r.
    split_and!; try done. split_and!; [done|done|]. exists rd. by rewrite He. }
  destruct qs as [|q qs]; [cbn in Hall; lia|].
  apply Forall_cons in Hgood as [(Hx1 & Hx2 & Hx3) Hgood].
  destruct (Get_held fs b p0 xs x ys ps q qs (0, 0) rd) as (rd1 & Hget & R1 & Hoff); try done.
  { eapply Forall_impl; [|intros ? H; exact H]. rewrite app_comm_cons in Hnum. by apply Forall_app in Hnum as [? _]. }
  { apply Hx2. }
  rewrite Hget. destruct q as [num off]. cbn [IsEndFile IsCorruption IsIOError orb].
  destruct Hx2 as [Hx0 Hrep]. destruct (Hrep BinlogItem_new) as (i & c & Hdec & _). rewrite Hdec. cbn [negb].
  set (o := mkLogOffset _ _). set (m := set_binlog_reader (Some rd1) n).
  destruct (IH (xs ++ [x]) (ps ++ [(num, off)]) ys qs (tasks ++ [slave_task m o x])
    (sent_node (clock (length tasks)) m o x)) as (y1 & y2 & q1 & q2 & new & n' & -> & -> & Hl & Hr & [Hc1 Hc2] & Hf & Hn').
  - by rewrite <- !app_assoc.
  - rewrite !length_app. cbn. lia.
  - by rewrite <- app_assoc.
  - done.
  - rewrite last_snoc. cbn. split_and!; [done|done|]. by exists rd1.
  - exists (x :: y1), y2, ((num, off) :: q1), q2, (slave_task m o x :: new), n'.
    rewrite Hr, <- !app_assoc. cbn [app]. split_and!; try done.
    + cbn. lia.
    + split; cbn; [by rewrite Hc1|by rewrite Hc2].
    + constructor; [|done]. split_and!; cbn; [by rewrite <- Hp; destruct (partition_info_ _)|done|by split|].
      unfold lo_eqb, bo_eqb. cbn. cbn in Hoff. lia.
    + by rewrite <- app_assoc in Hn'.
Qed.

(** *** The simulation *)

(** The state [y] stands for the specification's [a]: both logs hold their entries
    since [p0], the slave's at the positions the master's has them; the wire carries the
    entries in flight; the node reads on behind them; the slave's appliers were handed
    the commands of the replica, in order. *)
Definition tracks (p0 : Z * Z) (idx : nat) (session : Z) (y : Sys) (a : Repl) : Prop :=
  ∃ p1 p2 p3 mp, let log := mp_logger (y_master y) in
    (holds (mp_fs (y_master y)) log p0 (replica a ++ flight a ++ unsent a) (p1 ++ p2 ++ p3) ∧
     Forall (λ q, q.1 + 1 < 2 ^ 32) (p0 :: p1 ++ p2 ++ p3) ∧
     Forall (item_good (file_size_ log)) (replica a ++ flight a ++ unsent a)) ∧
    (length (replica a) = length p1 ∧ length (flight a) = length p2) ∧
    node_at (filename_ log) (default p0 (last (p1 ++ p2))) session (y_node y) ∧
    (carry (y_wire y) (flight a) p2 ∧ Forall (task_for p session) (y_wire y)) ∧
    (master_at p idx mp (y_slave y) ∧ following conf p session (y_slave y) ∧
     index (l_offset (ConsensusLastIndex mp)) = 0) ∧
    (holds (mp_fs mp) (mp_logger mp) p0 (replica a) p1 ∧ file_size_ (mp_logger mp) = file_size_ log) ∧
    events_ (coordinator_ mp) =
      (λ c, EvApplyFollower (mkLogItem LogOffset0 c None None)) <$> replays_all (table_name_ p) (replica a).

Lemma ProposeLog_async (st : Coord) c conn resp st' :
  consensus_level conf = 0 → ProposeLog conf c conn resp st = Some (OK, st') →
  ∃ fs', Put (proposed_binlog st (env_time (c_fs st)).1 c) ((env_time (c_fs st)).2, logger_of st) =
    Some (OK, (fs', logger_of st')) ∧ c_fs st' = fs'.
Proof.
  intros Hc H. unfold ProposeLog, bind at 1, get in H. cbn beta iota in H.
  unfold GetProducerStatus at 1 in H. destruct (opened_ (logger_of st)) eqn:Ho; [|done].
  cbn [negb ok] in H. unfold bind, on_binlog, on_stable, on_logger, zoom, io in H. cbn in H.
  destruct (env_time (c_fs st)) as [now fs1] eqn:Et. cbn in H.
  unfold InternalAppendLog, InternalAppendBinlog, bind, on_binlog, on_stable, on_logger, zoom in H.
  cbn in H. unfold proposed_binlog, proposed. cbn.
  change (stable_logger_ (set_stable_logger (logger_of st) (stable_ st))) with (logger_of st) in H.
  change (stable_logger_ (set_stable_logger (stable_logger_ (stable_ st)) (stable_ st))) with (logger_of st) in H.
  fold (logger_of st) in H.
  destruct (Put _ _) as [[s [fs' b']]|] eqn:Hp; [|done]. cbn in H.
  destruct (ok s) eqn:Eo; [|by destruct s].
  apply ok_true in Eo as ->. unfold get, ret, modify in H. cbn in H.
  destruct (GetProducerStatus _) as [? [[[? ?] ?] ?]]. rewrite Hc in H. cbn in H. injection H as <-.
  by exists fs'.
Qed.

Lemma sim_propose p0 idx session y a c conn resp m' :
  consensus_level conf = 0 → tracks p0 idx session y a →
  ConsensusProposeLog conf c conn resp (y_master y) = Some (OK, m') →
  item_fits (mp_logger (y_master y)) (proposal (y_master y) c) →
  pro_num_ (mp_logger (y_master y)) + 2 < 2 ^ 32 →
  item_good (file_size_ (mp_logger (y_master y))) (proposal (y_master y) c) →
  tracks p0 idx session (mkSys m' (y_node y) (y_wire y) (y_slave y) (y_worker y))
    (mkRepl (replica a) (flight a) (unsent a ++ [proposal (y_master y) c])).
Proof.
  intros Hc (p1 & p2 & p3 & mp & (Hm & Hnum & Hgood) & (Hl1 & Hl2) & Hn & Hw & Hs & (Hsl & Hfz) & Hev)
    H Hfit Hroom Hx.
  unfold ConsensusProposeLog, on_coord, zoom in H.
  destruct (ProposeLog _ _ _ _ _) as [[s st']|] eqn:Hpl; [|done]. injection H as -> <-.
  apply ProposeLog_async in Hpl as (fs' & Hput & Hfs); [|done].
  assert (holds (env_time (mp_fs (y_master y))).2 (mp_logger (y_master y)) p0
    (replica a ++ flight a ++ unsent a) (p1 ++ p2 ++ p3)) as Hm1.
  { eapply holds_agree; [apply agree_time|done]. }
  destruct (holds_put _ _ _ _ _ _ _ _ Hm1 Hput Hfit ltac:(lia)) as (Hm2 & _ & Hfn & Hfz2 & Hnum2).
  exists p1, p2, (p3 ++ [pos (logger_of st')]), mp. cbn [y_master y_node y_wire y_slave replica flight unsent].
  change (mp_logger (set_coordinator st' (y_master y))) with (logger_of st').
  change (mp_fs (set_coordinator st' (y_master y))) with (c_fs st').
  rewrite Hfn, Hfz2, Hfs. unfold proposal. split_and!; try done; try apply Hw; try apply Hs; try apply Hn.
  - rewrite <- !app_assoc in Hm2. exact Hm2.
  - rewrite Forall_cons, !Forall_app in Hnum. rewrite Forall_cons, !Forall_app. destruct Hnum as (?&?&?&?). split_and!; try done.
    constructor; [|constructor]. pose proof (wf_num _ _ (ho_wf _ _ _ _ _ Hm2)) as Hwn.
    unfold pos. cbn. rewrite Hwn. lia.
  - rewrite !Forall_app in Hgood. rewrite !Forall_app. destruct Hgood as (?&?&?). split_and!; try done.
    by constructor.
Qed.

Lemma carry_app t1 t2 y1 y2 q1 q2 :
  carry t1 y1 q1 → carry t2 y2 q2 → carry (t1 ++ t2) (y1 ++ y2) (q1 ++ q2).
Proof. intros [H1 H2] [H3 H4]. split; by rewrite !fmap_app, ?H1, ?H2, ?H3, ?H4. Qed.

Lemma carry_app_inv t1 t2 ys qs : carry (t1 ++ t2) ys qs →
  ∃ y2 q1 q2, ys = task_items t1 ++ y2 ∧ qs = q1 ++ q2 ∧ length q1 = length t1 ∧
    carry t1 (task_items t1) q1 ∧ carry t2 y2 q2.
Proof.
  intros [H1 H2]. rewrite fmap_app in H1. rewrite fmap_app in H2. subst ys.
  symmetry in H2. apply fmap_app_inv in H2 as (q1 & q2 & Hq1 & Hq2 & ->).
  exists (task_items t2), q1, q2. split_and!; try done.
  apply (f_equal length) in Hq1. by rewrite !length_fmap in Hq1.
Qed.

Lemma sim_read p0 idx session y a clock cnt tasks n' :
  2 ≤ Z.of_nat gfuel → tracks p0 idx session y a →
  read_loop gfuel cfuel (mp_fs (y_master y)) (mp_logger (y_master y)) clock cnt []
    (y_node y) = Some (None, tasks, n') →
  ∃ x u, unsent a = x ++ u ∧
    tracks p0 idx session (mkSys (y_master y) n' (y_wire y ++ tasks) (y_slave y) (y_worker y))
      (mkRepl (replica a) (flight a ++ x) u).
Proof.
  intros Hg (p1 & p2 & p3 & mp & (Hm & Hnum & Hgood) & (Hl1 & Hl2) & Hn & (Hw & Hwf) & Hs & Hsl & Hev) H.
  rewrite !app_assoc in Hm. pose proof Hgood as Hg3. rewrite !Forall_app in Hg3. destruct Hg3 as (_ & _ & Hg3).
  destruct (read_loop_held _ _ _ clock session cnt Hg (replica a ++ flight a) (p1 ++ p2) (unsent a) p3
    [] (y_node y) Hm) as (y1 & y2 & q1 & q2 & new & m & Hy & Hq & Hl & Hr & Hc & Hf & Hn'); try done.
  { rewrite !length_app. lia. }
  { by rewrite <- app_assoc. }
  rewrite Hr in H. injection H as <- <-. exists y1, y2. split; [done|]. rewrite <- !app_assoc in Hm.
  exists p1, (p2 ++ q1), q2, mp. cbn [y_master y_node y_wire y_slave replica flight unsent].
  rewrite <- !app_assoc, <- Hy, <- Hq.
  split_and!; try done; try apply Hs; try apply Hsl; try (rewrite app_assoc; apply Hn').
  - rewrite !length_app. lia.
  - by apply carry_app.
  - by apply Forall_app.
Qed.

Lemma deliver_run p0 idx session y a batch rest chips :
  consensus_level conf = 0 → tracks p0 idx session y a → y_wire y = batch ++ rest → batch ≠ [] →
  let res := BuildBinlogSyncResp conf committed batch in
  par_binlog 0 (res_binlog_sync res) ∅ !! p = Some chips →
  ∃ f k' w', flight a = task_items batch ++ f ∧
    HandleBGWorkerWriteBinlog conf SerializeRequest dummy_cmd write_binlog ip_port res chips
      (y_worker y) (y_slave y) = Some (k', w') ∧
    tracks p0 idx session (mkSys (y_master y) (y_node y) rest w' k')
      (mkRepl (replica a ++ task_items batch) f (unsent a)).
Proof.
  intros Hc (p1 & p2 & p3 & mp & (Hm & Hnum & Hgood) & (Hl1 & Hl2) & Hn & (Hw & Hwf) & (Hat & Hfo & Hlast)
    & (Hsl & Hfz) & Hev) Hwire Hne res Hi.
  rewrite Hwire in Hw, Hwf. apply Forall_app in Hwf as [Hb Hrest].
  apply carry_app_inv in Hw as (f & q1 & q2 & Hfl & -> & Hlq & Hc1 & Hc2).
  rewrite Hfl in *. exists f.
  destruct (holds_put_all (task_items batch) (mp_fs mp) (mp_logger mp) p0 (replica a) p1 q1)
    as (fs' & b' & Hput & Hsl' & Hfz'); [done| | | |].
  { rewrite <- app_assoc, !Forall_app in Hgood. destruct Hgood as (_ & Hgood & _).
    eapply Forall_impl; [exact Hgood|]. intros x (_ & _ & Hx). unfold item_fits. by rewrite Hfz. }
  { pose proof (ho_places _ _ _ _ _ Hm) as Ha. rewrite <- !app_assoc in Ha.
    apply advanced_app in Ha as [_ Ha]; [|done]. apply advanced_app in Ha as [Ha _];
      [|by rewrite Hlq; unfold task_items; rewrite length_fmap].
    rewrite (ho_end _ _ _ _ _ Hsl) in Ha. by rewrite Hfz. }
  { rewrite <- (ho_end _ _ _ _ _ Hsl). rewrite Forall_cons, <- app_assoc, !Forall_app in Hnum.
    destruct Hnum as (Hp0 & Hp1 & Hq1 & _). constructor; [|done].
    destruct (last p1) as [z|] eqn:Ez; [|done]. cbn. apply last_Some in Ez as [l' ->].
    apply Forall_app in Hp1 as [_ Hz]. by apply Forall_cons in Hz as [? _]. }
  pose proof Hfo as [_ (sp & Hsp & _)].
  destruct (worker_run conf SerializeRequest dummy_cmd write_binlog committed p idx session ip_port
    batch chips mp (y_slave y) (y_worker y) sp q1 fs' b') as (k1 & Hrun); try done.
  { apply Hsl'. }
  do 2 eexists. split_and!; [done|exact Hrun|].
  exists (p1 ++ q1), q2, p3, (appended fs' b' (replays_all (table_name_ p) (task_items batch)) mp).
  cbn [y_master y_node y_wire y_slave replica flight unsent]. rewrite <- !app_assoc in *.
  split_and!; try done; try apply Hn.
  - rewrite !length_app. unfold task_items. rewrite length_fmap. lia.
  - rewrite !length_app in Hl2. unfold task_items in Hl2. rewrite length_fmap in Hl2. lia.
  - by eapply with_master_at.
  - by destruct Hfo.
  - cbn. by rewrite Hfz'.
  - cbn. rewrite Hev, <- fmap_app. unfold replays_all. by rewrite bind_app.
Qed.

Lemma sim_step p0 idx session y a y' :
  consensus_level conf = 0 → 2 ≤ Z.of_nat gfuel → tracks p0 idx session y a → SysStep y y' →
  ∃ a', repl_step a a' ∧ tracks p0 idx session y' a'.
Proof.
  intros Hc Hg Ht Hs. destruct Hs as [y c conn resp m' H Hfit Hroom Hlen Hrep|y clock cnt tasks n' H
    |y batch rest chips k' w' Hwire Hne res Hi H].
  - eexists. split; [|eapply sim_propose; try done; by split_and!]. constructor.
  - destruct (sim_read _ _ _ _ _ _ _ _ _ Hg Ht H) as (x & u & Hu & Ht'). eexists. split; [|exact Ht'].
    destruct a as [r f u0]. cbn in *. subst u0. constructor.
  - destruct (deliver_run _ _ _ _ _ _ _ _ Hc Ht Hwire Hne Hi) as (f & k1 & w1 & Hf & Hr & Ht').
    unfold res in H. rewrite Hr in H. injection H as -> ->. eexists. split; [|exact Ht']. destruct a as [r f0 u]. cbn in *. subst f0. constructor.
Qed.

(** C1. Replication without a consensus level refines a reliable first-in first-out
    channel: as long as the slave stays connected in its session and the file systems
    do not fail, every step of the whole path (a client's command into the master's
    log, the node's reader onto the wire, a response through the slave's worker into
    the slave's log) is a step of the specification.  So the slave's log is at any time
    a prefix of the master's, item by item at the same file and offset, and the
    commands handed to its appliers are those of that prefix, each once and in
    order. *)
Theorem replication_refines_channel p0 idx session y a y' :
  consensus_level conf = 0 → 2 ≤ Z.of_nat gfuel → tracks p0 idx session y a →
  rtc SysStep y y' → ∃ a', rtc repl_step a a' ∧ tracks p0 idx session y' a'.
Proof.
  intros Hc Hg Ht Hr. revert a Ht. induction Hr as [y|y y1 y' Hs _ IH]; intros a Ht; [by exists a|].
  destruct (sim_step _ _ _ _ _ _ Hc Hg Ht Hs) as (a1 & Ha1 & Ht1).
  destruct (IH a1 Ht1) as (a' & Ha' & Ht'). exists a'. split; [|done]. by eapply rtc_l.
Qed.

(** C2. What is on the wire arrives: from any state of the system, the tasks on the wire
    can be sent in one response, the slave's worker takes it to its end, and the replica
    has then all that was in flight. *)
Theorem wire_arrives p0 idx session y a :
  consensus_level conf = 0 → tracks p0 idx session y a → y_wire y ≠ [] →
  ∃ y', SysStep y y' ∧ y_wire y' = [] ∧
    tracks p0 idx session y' (mkRepl (replica a ++ flight a) [] (unsent a)).
Proof.
  intros Hc Ht Hne. assert (y_wire y = y_wire y ++ []) as Hw by by rewrite app_nil_r.
  pose proof Ht as (p1 & p2 & p3 & mp & _ & _ & _ & ([Hfl _] & Hf) & _).
  destruct (par_binlog 0 (res_binlog_sync (BuildBinlogSyncResp conf committed (y_wire y))) ∅ !! p)
    as [chips|] eqn:Ei.
  - destruct (deliver_run _ _ _ _ _ _ _ _ Hc Ht Hw Hne Ei) as (f & k' & w' & Hf' & Hr & Ht').
    change (task_items (y_wire y)) with ((λ t, binlog_ (binlog_chip_ t)) <$> y_wire y) in *.
    rewrite Hfl in *. rewrite <- (app_nil_r (flight a)) in Hf' at 1. apply app_inv_head in Hf' as <-.
    exists (mkSys (y_master y) (y_node y) [] w' k'). split_and!; [|done|done].
    by eapply sys_deliver.
  - exfalso. unfold BuildBinlogSyncResp in Ei. rewrite Hc in Ei. cbn in Ei.
    pose proof (par_binlog_chips p (chip_msg <$> y_wire y) [] ∅) as H. cbn [app length] in H.
    rewrite Ei, lookup_empty in H. cbn in H. destruct (y_wire y) as [|t l]; [done|].
    apply Forall_cons in Hf as [(Hp & _) _]. cbn [fmap list_fmap] in H. rewrite filter_cons, decide_True in H; [done|].
    by apply chip_msg_parts.
Qed.
End System.
