(* ===== verification/FullSync.v ===== *)
(** * Full synchronisation (src/pika_partition.cc, src/pika_server.cc, src/pika_rm.cc)

    A slave whose sync point was purged receives a snapshot: the master saves one
    ([BgSavePartition], [DoBgSave]) and sends its files and an info file
    ([TryDBSync], [DBSync], [DbSyncSendFile]); the slave, when the info file is
    there, installs the database and moves its log to the snapshot's offset
    ([TryUpdateMasterOffset], [ChangeDb]).  The slave's state machine
    ([RunSyncSlavePartitionStateMachine]) drives both kinds of sync.

    A database is a value of a type [D]; a directory holds one or none, and where
    there is none [Open] makes the empty one, [empty_db].  What
    the file system and the network answer are arguments. *)

From S2P Require Import Prelude Define Env Binlog BinlogReader Transverter Command SlaveNode.
From S2P Require Import Consensus StableLog Coordinator WriteQueue MasterPartition SlavePartition.
From S2P Require Import ReplicaManager InnerMessage Server ReplServer ReplClient.
From stdpp Require Import base list strings pretty gmap sorting.
From Stdlib Require Import ZArith Lia Init.Byte Ascii.
#[local] Open Scope string_scope.
#[local] Open Scope list_scope.
#[local] Open Scope Z_scope.

(** ** The info file *)

Definition newline : Ascii.ascii := Ascii.ascii_of_nat 10.
Definition line (s : string) : string := s +:+ String newline EmptyString.

(** [std::getline] until the end of the file. *)
Fixpoint getlines (s : string) : list string :=
  match s with
  | EmptyString => []
  | String c s =>
      if bool_decide (c = newline) then EmptyString :: getlines s
      else match getlines s with
           | [] => [String c EmptyString]
           | l :: ls => String c l :: ls
           end
  end.

(** What [DoBgSave] writes: the duration, the address of the master and the offset
    of the snapshot, with its logic offset if a consensus level is set. *)
Definition info_text (conf : PikaConf) (duration : string) (host : string) (port : Z)
    (o : LogOffset) : string :=
  line (duration +:+ "s") +:+ line host +:+ line (pretty port)
  +:+ line (pretty (filenum (b_offset o))) +:+ line (pretty (offset (b_offset o)))
  +:+ (if negb (consensus_level conf =? 0)
       then line (pretty (term (l_offset o))) +:+ line (pretty (index (l_offset o)))
       else "").

(** The variables of the loop that reads it. *)
Record SyncInfo := mkSyncInfo {
  si_master_ip : string; si_master_port : Z; si_filenum : Z; si_offset : Z; si_term : Z;
  si_index : Z }.
Definition SyncInfo0 : SyncInfo := mkSyncInfo "" 0 0 0 0 0.

(** The number of line [lineno]. *)
Definition set_info_field (lineno tmp : Z) (i : SyncInfo) : SyncInfo :=
  if lineno =? 3 then mkSyncInfo (si_master_ip i) tmp (si_filenum i) (si_offset i) (si_term i) (si_index i)
  else if lineno =? 4 then mkSyncInfo (si_master_ip i) (si_master_port i) tmp (si_offset i) (si_term i) (si_index i)
  else if lineno =? 5 then mkSyncInfo (si_master_ip i) (si_master_port i) (si_filenum i) tmp (si_term i) (si_index i)
  else if lineno =? 6 then mkSyncInfo (si_master_ip i) (si_master_port i) (si_filenum i) (si_offset i) tmp (si_index i)
  else if lineno =? 7 then mkSyncInfo (si_master_ip i) (si_master_port i) (si_filenum i) (si_offset i) (si_term i) tmp
  else i.

(** [None]: the format is wrong. *)
Fixpoint parse_info `{StringNum} (lineno : Z) (lines : list string) (i : SyncInfo) : option SyncInfo :=
  match lines with
  | [] => Some i
  | l :: lines =>
      let lineno := lineno + 1 in
      if lineno =? 2 then
        parse_info lineno lines
          (mkSyncInfo l (si_master_port i) (si_filenum i) (si_offset i) (si_term i) (si_index i))
      else if (lineno >? 2) && (lineno <? 8) then
        match string2l l with
        | None => None
        | Some tmp =>
            if tmp <? 0 then None else parse_info lineno lines (set_info_field lineno tmp i)
        end
      else if lineno >? 8 then None
      else parse_info lineno lines i
  end.

(** ** Partitions *)

Record BgSaveInfo := mkBgSave { bgsaving : bool; bg_path : string; bg_offset : LogOffset }.
Definition BgSaveInfo0 : BgSaveInfo := mkBgSave false "" LogOffset0.

(** The open database, the database directory, its backup, and the directory of the
    full sync with what was received and the info file. *)
Record Partition (D : Type) := mkPartition {
  bgsave_info_ : BgSaveInfo; db_ : option D; db_dir : option D; bak_dir : option D;
  sync_dir : option D; sync_info : option string }.
Arguments mkPartition {D} _ _ _ _ _ _.
Arguments bgsave_info_ {D} _.
Arguments db_ {D} _.
Arguments db_dir {D} _.
Arguments bak_dir {D} _.
Arguments sync_dir {D} _.
Arguments sync_info {D} _.

Section Partition.
Context {D : Type} (empty_db : D).
Implicit Types (pt : Partition D).

Definition set_bgsave (x : BgSaveInfo) pt : Partition D :=
  mkPartition x (db_ pt) (db_dir pt) (bak_dir pt) (sync_dir pt) (sync_info pt).
Definition set_dbs (open dir bak sync : option D) pt : Partition D :=
  mkPartition (bgsave_info_ pt) open dir bak sync (sync_info pt).
Definition set_sync_info (x : option string) pt : Partition D :=
  mkPartition (bgsave_info_ pt) (db_ pt) (db_dir pt) (bak_dir pt) (sync_dir pt) x.

(** Whether a save was scheduled. *)
Definition BgSavePartition pt : bool * Partition D :=
  let i := bgsave_info_ pt in
  if bgsaving i then (false, pt)
  else (true, set_bgsave (mkBgSave true (bg_path i) (bg_offset i)) pt).
Definition ClearBgsave pt : Partition D := set_bgsave BgSaveInfo0 pt.
Definition FinishBgsave pt : Partition D :=
  set_bgsave (mkBgSave false (bg_path (bgsave_info_ pt)) (bg_offset (bgsave_info_ pt))) pt.

(** [PrepareRsync]: the directory is made anew. *)
Definition PrepareRsync pt : Partition D :=
  set_sync_info None (set_dbs (db_ pt) (db_dir pt) (bak_dir pt) None pt).

(** What the file system answers while a snapshot is installed: whether the info
    file can be opened, the two [rename]s, and whether the database opens. *)
Record InstallIo := mkInstallIo {
  io_info_opens : bool; io_rename_old : bool; io_rename_new : bool; io_db_opens : bool }.

Definition ChangeDb (io : InstallIo) : M (Partition D) bool :=
  modify (λ pt, set_dbs None (db_dir pt) None (sync_dir pt) pt) ;;;
  if negb (io_rename_old io) then ret false else
  modify (λ pt, set_dbs (db_ pt) None (db_dir pt) (sync_dir pt) pt) ;;;
  if negb (io_rename_new io) then ret false else
  modify (λ pt, set_dbs (db_ pt) (sync_dir pt) (bak_dir pt) None pt) ;;;
  massert (io_db_opens io) ;;;
  modify (λ pt, let d := default empty_db (db_dir pt) in
                set_dbs (Some d) (Some d) None (sync_dir pt) pt) ;;;
  ret true.
End Partition.

(** ** The tasks of the master *)

Definition kBgsaveInfoFile : string := "info".

(** [DbSyncTaskIndex], in a buffer of 256 characters. *)
Definition DbSyncTaskIndex (ip : string) (port : Z) (table_name : string) (partition_id : Z) : string :=
  str_take 255 (ip +:+ ":" +:+ pretty port +:+ "_" +:+ table_name +:+ ":" +:+ pretty (s32 partition_id)).

Record DBSyncArg := mkDBSyncArg {
  da_ip : string; da_port : Z; da_table_name : string; da_partition_id : Z }.
Definition task_index_of (a : DBSyncArg) : string :=
  DbSyncTaskIndex (da_ip a) (da_port a) (da_table_name a) (da_partition_id a).

(** The set of running full syncs, and the queue of the save thread. *)
Record DbSyncs := mkDbSyncs { db_sync_slaves_ : gset string; dbsync_queue : list DBSyncArg }.

Definition DBSync (a : DBSyncArg) (s : DbSyncs) : DbSyncs :=
  if bool_decide (task_index_of a ∈ db_sync_slaves_ s) then s
  else mkDbSyncs ({[ task_index_of a ]} ∪ db_sync_slaves_ s) (dbsync_queue s ++ [a]).

(** Whether a save is needed before the sync: no snapshot, its log file is gone, or
    the slave is too far from it. *)
Definition need_bgsave (is_dir file_exists : bool) (top : Z) (i : BgSaveInfo) : bool :=
  negb is_dir || negb file_exists || (u32 (top - filenum (b_offset (bg_offset i))) >? kDBSyncMaxGap).

(** What [rsync] is asked to send: a file, the emptiness of a directory, or the info
    file with its text. *)
Inductive Sent :=
  | SentFile (local target : string)
  | SentClear (local target : string)
  | SentInfo (local target : string) (text : string).

Definition ends_with_slash (s : string) : bool :=
  bool_decide (String.get (String.length s - 1) s = Some "/"%char).

Section DbSync.
Context (conf : PikaConf) (host : string) (port_ : Z).
(** What the file system and [rsync] answer: whether a path is a directory, and
    whether a file is sent. *)
Context (is_dir : string → bool) (rsync : string → string → bool).

(** A path with a slash if it is a directory's. *)
Definition as_dir (local path : string) : string :=
  if is_dir local && negb (ends_with_slash local) then path +:+ "/" else path.

(** The files but the info file, until one is not sent: what was tried, and whether
    all were sent. *)
Fixpoint send_files (bg_path remote_path : string) (descendant : list string) : list Sent * bool :=
  match descendant with
  | [] => ([], true)
  | name :: descendant =>
      if bool_decide (name = kBgsaveInfoFile) then send_files bg_path remote_path descendant else
      let l := bg_path +:+ "/" +:+ name in
      let local := as_dir l l in
      let target := as_dir l (remote_path +:+ "/" +:+ name) in
      if rsync local target then
        let '(sent, good) := send_files bg_path remote_path descendant in
        (SentFile local target :: sent, good)
      else ([SentFile local target], false)
  end.

Definition kDataDirs : list string := ["strings"; "hashes"; "lists"; "sets"; "zsets"].
Definition clear_targets (bg_path remote_path : string) : list Sent :=
  (λ d, SentClear (bg_path +:+ "/" +:+ d) (remote_path +:+ "/" +:+ d)) <$> kDataDirs.

(** The info file: a new one, when the address the slave reaches this master by,
    [lip], is not the host in the saved one. *)
Definition send_info (lip stamp : string) (remote_path saved : string) (i : BgSaveInfo) : Sent :=
  let target := remote_path +:+ "/" +:+ kBgsaveInfoFile in
  if bool_decide (lip = host)
  then SentInfo (bg_path i +:+ "/" +:+ kBgsaveInfoFile) target saved
  else SentInfo (bg_path i +:+ "/" +:+ kBgsaveInfoFile +:+ "." +:+ stamp) target
                (info_text conf "0" lip port_ (bg_offset i)).

Definition erase_task (key : string) (s : DbSyncs) : DbSyncs :=
  mkDbSyncs (db_sync_slaves_ s ∖ {[ key ]}) (dbsync_queue s).

(** [DbSyncSendFile]: [part] is the partition's snapshot, [children] its files if the
    directory can be read, [lip] the address found for this master, [saved] the text of
    the saved info file. *)
Definition DbSyncSendFile (part : option BgSaveInfo) (children : option (list string))
    (lip stamp saved : string) (a : DBSyncArg) (s : DbSyncs) : list Sent * DbSyncs :=
  match part with
  | None => ([], s)
  | Some i =>
      match children with
      | None => ([], erase_task (IpPortString (da_ip a) (da_port a)) s)
      | Some descendant =>
          let remote_path :=
            if classic_mode conf then da_table_name a
            else da_table_name a +:+ "/" +:+ pretty (da_partition_id a) in
          let '(files, good) := send_files (bg_path i) remote_path descendant in
          (files ++ clear_targets (bg_path i) remote_path
             ++ (if good then [send_info lip stamp remote_path saved i] else []),
           erase_task (task_index_of a) s)
      end
  end.

(** The save thread takes a task from its queue and runs it. *)
Definition DoDBSync (part : option BgSaveInfo) (children : option (list string))
    (lip stamp saved : string) (s : DbSyncs) : list Sent * DbSyncs :=
  match dbsync_queue s with
  | [] => ([], s)
  | a :: q => DbSyncSendFile part children lip stamp saved a (mkDbSyncs (db_sync_slaves_ s) q)
  end.
End DbSync.

(** ** The slave *)

Section Slave.
Context {FS : Type} {E : SlashEnv FS} {C : FixedCoding} {SN : StringNum}.
Context {Cmd Conn Resp : Type} {CO : CmdOps Cmd}.
Context {P : Type} {PN : PinkNet P}.
Context {D : Type} (empty_db : D).
Context (conf : PikaConf).
Context (SerializeRequest : InnerRequest → option bytes).
Context (dummy_cmd : string → Cmd) (write_binlog : bool).
Abbreviation World := (@World FS Cmd Conn Resp (ReplNet P)).
Abbreviation Master := (@SyncMasterPartition FS Cmd Conn Resp).

(** The server with the partitions of its tables. *)
Record Site := mkSite { st_world : World; st_partitions : gmap PartitionInfo (Partition D) }.
Definition set_world (w : World) (s : Site) : Site := mkSite w (st_partitions s).
Definition set_partitions (m : gmap PartitionInfo (Partition D)) (s : Site) : Site :=
  mkSite (st_world s) m.
Abbreviation ST := (M Site).

Definition on_world {A} (m : M World A) : ST A := zoom st_world set_world m.

(** An operation on the partition [p]; a null one aborts. *)
Definition on_partition {A} (p : PartitionInfo) (m : M (Partition D) A) : ST A :=
  let* s := get in
  match st_partitions s !! p with
  | None => abort
  | Some pt =>
      match m pt with
      | None => abort
      | Some (a, pt) => modify (set_partitions (<[p := pt]> (st_partitions s))) ;;; ret a
      end
  end.

(** The offset of a snapshot of the partition, taken under its lock. *)
Definition bgsave_offset (mp : Master) : LogOffset :=
  if negb (consensus_level conf =? 0) then ConsensusAppliedIndex mp
  else
    let '(s, (num, off, _, _)) := Binlog.GetProducerStatus (mp_logger mp) in
    mkLogOffset (if ok s then mkBinlogOffset num off else BinlogOffset0) LogicOffset0.

(** *** Saving *)

(** [BgsaveSubPath], whose buffer has 512 bytes, and the directory of a save. *)
Definition BgsaveSubPath (table_name : string) (partition_id : Z) : string :=
  String.substring 0 511 (table_name +:+ "/" +:+ pretty partition_id).
Definition bgsave_dir (bgsave_path bgsave_prefix s_time sub_path : string) : string :=
  bgsave_path +:+ (bgsave_prefix +:+ String.substring 0 8 s_time) +:+ "/" +:+ sub_path.

(** What the file system and the engine answer during a save. *)
Record SaveIo := mkSaveIo {
  io_old_removed : bool; io_failed_removed : bool; io_engine_opens : bool; io_content_set : bool;
  io_backup_made : bool; io_info_written : bool }.

Definition InitBgsaveEnv (path : string) (io : SaveIo) : M (Partition D) bool :=
  modify (λ pt, set_bgsave (mkBgSave (bgsaving (bgsave_info_ pt)) path (bg_offset (bgsave_info_ pt))) pt) ;;;
  ret (io_old_removed io && io_failed_removed io).
(** The content that the engine will save, taken together with the offset. *)
Definition InitBgsaveEngine (mp : option Master) (io : SaveIo) : M (Partition D) (option D) :=
  let* d := gets db_ in
  match d with
  | None => abort
  | Some d =>
      if negb (io_engine_opens io) then ret None else
      match mp with
      | None => ret None
      | Some mp =>
          modify (λ pt, set_bgsave (mkBgSave (bgsaving (bgsave_info_ pt)) (bg_path (bgsave_info_ pt)) (bgsave_offset mp)) pt) ;;;
          ret (if io_content_set io then Some d else None)
      end
  end.
(** What was saved, if all went well. *)
Definition RunBgsaveEngine (path : string) (mp : option Master) (io : SaveIo) : M (Partition D) (option D) :=
  let* prepared := InitBgsaveEnv path io in
  if negb prepared then modify ClearBgsave ;;; ret None else
  let* content := InitBgsaveEngine mp io in
  match content with
  | None => modify ClearBgsave ;;; ret None
  | Some d => ret (if io_backup_made io then Some d else None)
  end.

(** What a save leaves: the saved database, the info file with its path, and the rename
    of a save that failed. *)
Record Save := mkSave {
  sv_content : option D; sv_info : option (string * string); sv_renamed : option (string * string) }.
Definition DoBgSave (path duration host : string) (port : Z) (mp : option Master) (io : SaveIo) : M (Partition D) Save :=
  let* content := RunBgsaveEngine path mp io in
  let* i := gets bgsave_info_ in
  modify FinishBgsave ;;;
  ret (mkSave content
    (if io_info_written io
     then Some (bg_path i +:+ "/" +:+ kBgsaveInfoFile, info_text conf duration host port (bg_offset i)) else None)
    (match content with None => Some (bg_path i, bg_path i +:+ "_FAILED") | Some _ => None end)).

(** The log of [p] is moved to the snapshot. *)
Definition move_log (p : PartitionInfo) (i : SyncInfo) : ST unit :=
  if negb (consensus_level conf =? 0) then
    on_world (on_rm (on_master p (ConsensusReset
      (mkLogOffset (mkBinlogOffset (u32 (si_filenum i)) (si_offset i))
                   (mkLogicOffset (u32 (si_term i)) (si_index i)))))) ;;; ret tt
  else
    on_world (on_rm (on_master p
      (on_coord (on_binlog (SetProducerStatus (u32 (si_filenum i)) (si_offset i) 0 0))))) ;;; ret tt.

(** [TryUpdateMasterOffset] of the partition [p]. *)
Definition TryUpdateMasterOffset (p : PartitionInfo) (io : InstallIo) : ST bool :=
  let* s := get in
  match st_partitions s !! p with
  | None => abort
  | Some pt =>
      let fail : ST bool := on_world (sp_modify p (SetReplState kError)) ;;; ret false in
      match sync_info pt, GetSyncSlavePartitionByName p (w_rm (st_world s)) with
      | None, _ | _, None => ret false
      | Some text, Some sp =>
          if negb (io_info_opens io) then fail else
          match parse_info 0 (getlines text) SyncInfo0 with
          | None => fail
          | Some i =>
              if negb (bool_decide (si_master_ip i = MasterIp sp))
                 || negb (si_master_port i =? MasterPort sp)
              then fail
              else
                on_partition p (modify (set_sync_info None)) ;;;
                let* changed := on_partition p (ChangeDb empty_db io) in
                if negb changed then fail else
                let* mp := on_world (on_rm (GetSyncMasterPartitionByName p)) in
                match mp with
                | None => ret false
                | Some _ =>
                    move_log p i ;;;
                    on_world (sp_modify p (SetReplState kTryConnect)) ;;;
                    ret true
                end
          end
      end
  end.

(** *** Requests *)

Definition SendPartitionTrySyncRequest (p : PartitionInfo) : ST Status :=
  let* boffset := on_world (on_rm (GetTablePartitionBinlogOffset (table_name_ p) (partition_id_ p))) in
  match boffset with
  | None => ret (Corruption "Partition get binlog offset error")
  | Some boffset =>
      let* s := get in
      match GetSyncSlavePartitionByName p (w_rm (st_world s)) with
      | None => ret (Corruption "Slave Partition not found")
      | Some sp =>
          let* status := on_world (SendPartitionTrySync conf SerializeRequest dummy_cmd write_binlog
            (MasterIp sp) (MasterPort sp) (table_name_ p) (partition_id_ p) boffset (LocalIp sp)) in
          on_world (sp_modify p (SetReplState (if ok status then kWaitReply else kError))) ;;;
          ret status
      end
  end.

Definition SendPartitionDBSyncRequest (p : PartitionInfo) : ST Status :=
  let* boffset := on_world (on_rm (GetTablePartitionBinlogOffset (table_name_ p) (partition_id_ p))) in
  match boffset with
  | None => ret (Corruption "Partition get binlog offset error")
  | Some boffset =>
      let* s := get in
      match st_partitions s !! p with
      | None => ret (Corruption "Partition not found")
      | Some _ =>
          on_partition p (modify PrepareRsync) ;;;
          match GetSyncSlavePartitionByName p (w_rm (st_world s)) with
          | None => ret (Corruption "Slave Partition not found")
          | Some sp =>
              let '(status, net) := SendPartitionDBSync SerializeRequest (srv_port_ (w_srv (st_world s)))
                (MasterIp sp) (MasterPort sp) (table_name_ p) (partition_id_ p) boffset (LocalIp sp)
                (net_ (w_rm (st_world s))) in
              on_world (net_modify (λ _, net)) ;;;
              on_world (sp_modify p (SetReplState (if ok status then kWaitReply else kError))) ;;;
              ret status
          end
      end
  end.

(** *** The state machine *)

Definition run_partition (io : PartitionInfo → InstallIo) (p : PartitionInfo) : ST unit :=
  let* s := get in
  match GetSyncSlavePartitionByName p (w_rm (st_world s)) with
  | None => ret tt
  | Some sp =>
      match State sp with
      | kTryConnect => SendPartitionTrySyncRequest p ;;; ret tt
      | kTryDBSync => SendPartitionDBSyncRequest p ;;; ret tt
      | kWaitDBSync =>
          match st_partitions s !! p with
          | Some _ => TryUpdateMasterOffset p (io p) ;;; ret tt
          | None => ret tt
          end
      | _ => ret tt
      end
  end.

Fixpoint run_partitions (io : PartitionInfo → InstallIo) (ps : list PartitionInfo) : ST unit :=
  match ps with
  | [] => ret tt
  | p :: ps => run_partition io p ;;; run_partitions io ps
  end.

Definition RunSyncSlavePartitionStateMachine (io : PartitionInfo → InstallIo) : ST unit :=
  let* s := get in
  run_partitions io (map_to_list (sync_slave_partitions_ (w_rm (st_world s)))).*1.

(** [SendMetaSyncRequest], with the clock at both reads. *)
Definition SendMetaSyncRequest (connect : string → Z → option string) (masterauth : string)
    (now1 now2 : Z) : ST Status :=
  let* s := get in
  let v := w_srv (st_world s) in
  if (now1 - last_meta_sync_timestamp_ v >=? PIKA_META_SYNC_MAX_WAIT_TIME) || first_meta_sync_ v then
    let* st := on_world (SendMetaSync SerializeRequest connect masterauth) in
    (if ok st then
       on_world (srv_modify (UpdateMetaSyncTimestamp now2)) ;;;
       on_world (srv_modify (set_first false))
     else ret tt) ;;;
    ret st
  else ret OK.

(** The first part of a turn of the auxiliary thread. *)
Definition auxiliary_sync (io : PartitionInfo → InstallIo) (connect : string → Z → option string)
    (masterauth : string) (now1 now2 : Z) : ST unit :=
  let* s := get in
  let v := w_srv (st_world s) in
  if classic_mode conf then
    if ShouldMetaSync v then SendMetaSyncRequest connect masterauth now1 now2 ;;; ret tt
    else if MetaSyncDone v then RunSyncSlavePartitionStateMachine io
    else ret tt
  else RunSyncSlavePartitionStateMachine io.
End Slave.
