(* ===== verification/FullSyncFacts.v ===== *)
(** * Full synchronisation: what it guarantees

    The info file is written and read back unchanged and is sent last; the queue of
    full syncs holds a task at most once; a snapshot that arrives is installed and the
    log moved to its offset; and the slave's state machine changes states only along
    its edges. *)

From S2P Require Import Prelude Define Env Binlog BinlogReader BinlogOpen Transverter Command SlaveNode.
From S2P Require Import Consensus StableLog Coordinator WriteQueue MasterPartition SlavePartition.
From S2P Require Import ReplicaManager InnerMessage Server ReplServer ReplClient Replication FullSync.
From stdpp Require Import base list strings pretty gmap sorting.
From Stdlib Require Import ZArith Lia Init.Byte Ascii.
#[local] Open Scope string_scope.
#[local] Open Scope list_scope.
#[local] Open Scope Z_scope.

(** ** The info file *)

Lemma getlines_line s t : lacks newline s = true → getlines (line s +:+ t) = s :: getlines t.
Proof.
  induction s as [|c s IH]; intros H.
  - change (getlines (String newline t) = "" :: getlines t). cbn [getlines].
    by rewrite bool_decide_eq_true_2.
  - cbn [lacks] in H. apply andb_true_iff in H as [Hc Hs]. apply negb_true_iff in Hc.
    change (getlines (String c (line s +:+ t)) = String c s :: getlines t). cbn [getlines].
    by rewrite Hc, IH.
Qed.

(** A text the info file carries on one line. *)
Definition one_line (s : string) : Prop := lacks newline s = true.

Lemma append_empty_r s : s +:+ "" = s.
Proof. induction s as [|c s IH]; [done|]. change (String c (s +:+ "") = String c s). by rewrite IH. Qed.

Section Info.
Context {SN : StringNum} {SL : StringNumLaws}.
Context (conf : PikaConf).

Lemma pretty_one_line (z : Z) : lacks newline (pretty z) = true.
Proof. by apply lacks_pretty. Qed.

Lemma getlines_info d host port o : one_line (d +:+ "s") → one_line host →
  getlines (info_text conf d host port o) =
    [d +:+ "s"; host; pretty port; pretty (filenum (b_offset o)); pretty (offset (b_offset o))]
    ++ (if negb (consensus_level conf =? 0)
        then [pretty (term (l_offset o)); pretty (index (l_offset o))] else []).
Proof.
  intros Hd Hh. unfold info_text. rewrite !getlines_line by (done || apply pretty_one_line).
  destruct (negb _); [|done]. rewrite getlines_line by apply pretty_one_line.
  rewrite <- (append_empty_r (line (pretty (index _)))), getlines_line by apply pretty_one_line. done.
Qed.

Definition info_of (host : string) (port : Z) (o : LogOffset) : SyncInfo :=
  mkSyncInfo host port (filenum (b_offset o)) (offset (b_offset o))
    (if negb (consensus_level conf =? 0) then term (l_offset o) else 0)
    (if negb (consensus_level conf =? 0) then index (l_offset o) else 0).

Definition offset_fits (o : LogOffset) : Prop :=
  0 ≤ filenum (b_offset o) < 2 ^ 63 ∧ 0 ≤ offset (b_offset o) < 2 ^ 63 ∧
  0 ≤ term (l_offset o) < 2 ^ 63 ∧ 0 ≤ index (l_offset o) < 2 ^ 63.

Lemma parse_num n lineno lines i : 2 < lineno + 1 < 8 → 0 ≤ n < 2 ^ 63 →
  parse_info lineno (pretty n :: lines) i =
    parse_info (lineno + 1) lines (set_info_field (lineno + 1) n i).
Proof.
  intros Hl Hn. cbn [parse_info]. rewrite law_string2l by lia.
  replace (lineno + 1 =? 2) with false by lia. replace (lineno + 1 >? 2) with true by lia.
  replace (lineno + 1 <? 8) with true by lia. replace (n <? 0) with false by lia. done.
Qed.

Lemma info_reads_back d host port o :
  one_line (d +:+ "s") → one_line host → 0 ≤ port < 2 ^ 63 → offset_fits o →
  parse_info 0 (getlines (info_text conf d host port o)) SyncInfo0 = Some (info_of host port o).
Proof.
  intros Hd Hh Hp (H1 & H2 & H3 & H4). rewrite getlines_info by done. unfold info_of.
  cbn [app]. change (parse_info 0 (?a :: ?b :: ?l) SyncInfo0)
    with (parse_info 2 l (mkSyncInfo b 0 0 0 0 0)).
  rewrite !parse_num by lia. destruct (negb _); [|done]. by rewrite !parse_num by lia.
Qed.

(** The info file says where the snapshot was taken: what the master writes into it is
    exactly what the slave reads out of it, the logic offset only with a consensus
    level. *)
Theorem info_roundtrip d host port o :
  one_line (d +:+ "s") → one_line host → 0 ≤ port < 2 ^ 63 → offset_fits o →
  parse_info 0 (getlines (info_text conf d host port o)) SyncInfo0 = Some (info_of host port o).
Proof. apply info_reads_back. Qed.
End Info.

(** ** Sending *)

Section Sending.
Context (conf : PikaConf) (host : string) (port_ : Z).
Context (is_dir : string → bool) (rsync : string → string → bool).

Definition is_info (x : Sent) : bool := match x with SentInfo _ _ _ => true | _ => false end.
Definition went (x : Sent) : bool :=
  match x with SentFile l t => rsync l t | _ => true end.

Lemma send_files_spec bg remote l :
  let '(sent, good) := send_files is_dir rsync bg remote l in
  Forall (λ x, is_info x = false) sent ∧
  (good = true → Forall (λ x, went x = true) sent ∧
     ∀ name, name ∈ l → name ≠ kBgsaveInfoFile →
       ∃ local target, SentFile local target ∈ sent ∧
         local = as_dir is_dir (bg +:+ "/" +:+ name) (bg +:+ "/" +:+ name)).
Proof.
  induction l as [|name l IH]; cbn [send_files].
  - split; [constructor|]. intros _. split; [constructor|]. intros name H. by apply elem_of_nil in H.
  - destruct (bool_decide (name = kBgsaveInfoFile)) eqn:En.
    + destruct (send_files is_dir rsync bg remote l) as [sent good]. destruct IH as [Hn Hg].
      split; [done|]. intros H. destruct (Hg H) as [Hw Ha]. split; [done|].
      intros x Hx Hne. apply elem_of_cons in Hx as [->|Hx]; [|by apply Ha].
      by apply bool_decide_eq_true in En.
    + destruct (rsync _ _) eqn:Er; [|by split; [constructor|]].
      destruct (send_files is_dir rsync bg remote l) as [sent good]. destruct IH as [Hn Hg].
      split; [by constructor|]. intros H. destruct (Hg H) as [Hw Ha]. split; [by constructor|].
      intros x Hx Hne. apply elem_of_cons in Hx as [->|Hx].
      * eexists _, _. split; [by left|done].
      * destruct (Ha x Hx Hne) as (lo & t & Hin & ->). exists (as_dir is_dir (bg +:+ "/" +:+ x) (bg +:+ "/" +:+ x)), t.
        split; [by right|done].
Qed.

(** The info file is the last thing that is sent, and only if every other file of the
    snapshot was sent: a slave that sees it has the whole snapshot. *)
Theorem info_sent_last i children lip stamp saved a s sent s' pre l t text post :
  DbSyncSendFile conf host port_ is_dir rsync (Some i) (Some children) lip stamp saved a s = (sent, s') →
  sent = pre ++ SentInfo l t text :: post →
  post = [] ∧ Forall (λ x, went x = true) pre ∧
  ∀ name, name ∈ children → name ≠ kBgsaveInfoFile → ∃ target,
    let local := as_dir is_dir (bg_path i +:+ "/" +:+ name) (bg_path i +:+ "/" +:+ name) in
    SentFile local target ∈ pre ∧ rsync local target = true.
Proof.
  unfold DbSyncSendFile. set (remote := if classic_mode conf then _ else _).
  pose proof (send_files_spec (bg_path i) remote children) as Hf.
  destruct (send_files is_dir rsync (bg_path i) remote children) as [files good].
  destruct Hf as [Hn Hg]. intros [<- <-]%pair_equal_spec Hs.
  assert (Forall (λ x, is_info x = false) (files ++ clear_targets (bg_path i) remote)) as Hni.
  { apply Forall_app. split; [done|]. unfold clear_targets. repeat constructor. }
  rewrite app_assoc in Hs. destruct good.
  2:{ rewrite app_nil_r in Hs. rewrite Hs in Hni. apply Forall_app in Hni as [_ Hni].
      by apply Forall_cons in Hni as [? _]. }
  destruct (Hg eq_refl) as [Hw Ha].
  assert (post = [] ∧ files ++ clear_targets (bg_path i) remote = pre) as [-> <-].
  { destruct post as [|y post _] using rev_ind.
    - by apply app_inj_tail in Hs as [? _].
    - rewrite app_comm_cons, app_assoc in Hs. apply app_inj_tail in Hs as [Hs _].
      rewrite Hs in Hni. apply Forall_app in Hni as [_ Hni]. by apply Forall_cons in Hni as [? _]. }
  split; [done|]. split.
  { apply Forall_app. split; [done|]. unfold clear_targets. repeat constructor. }
  intros name Hin Hne. destruct (Ha name Hin Hne) as (lo & tg & Hx & ->). exists tg. cbn zeta.
  rewrite elem_of_app. split; [by left|].
  by apply (proj1 (Forall_forall _ _) Hw) in Hx.
Qed.
End Sending.

(** ** The queue of full syncs *)

Section Tasks.
Context (conf : PikaConf) (host : string) (port_ : Z).

(** An address has no underscore and leaves room for the rest of the task's index. *)
Definition plain_task (a : DBSyncArg) : Prop :=
  lacks "_" (da_ip a) = true ∧ (String.length (IpPortString (da_ip a) (da_port a)) < 255)%nat.

Lemma str_take_has c n s t : (String.length s < n)%nat → lacks c (str_take n (s +:+ String c t)) = false.
Proof.
  revert n. induction s as [|d s IH]; intros [|n] Hn; cbn in Hn; try lia.
  - change (negb (bool_decide (c = c)) && lacks c (str_take n t) = false).
    by rewrite bool_decide_eq_true_2.
  - change (negb (bool_decide (d = c)) && lacks c (str_take n (s +:+ String c t)) = false).
    rewrite IH by lia. apply andb_false_r.
Qed.

Lemma address_is_no_index a b : plain_task a → plain_task b →
  IpPortString (da_ip a) (da_port a) ≠ task_index_of b.
Proof.
  intros [Ha _] [_ Hb] E. assert (lacks "_" (IpPortString (da_ip a) (da_port a)) = true) as H.
  { unfold IpPortString. by rewrite !lacks_app, Ha, lacks_pretty. }
  rewrite E in H. unfold task_index_of, DbSyncTaskIndex in H.
  match type of H with lacks _ (str_take _ ?x) = _ =>
    replace x with (IpPortString (da_ip b) (da_port b)
      +:+ String "_" (da_table_name b +:+ ":" +:+ pretty (s32 (da_partition_id b)))) in H end.
  2:{ unfold IpPortString. by rewrite !append_assoc. }
  by rewrite str_take_has in H.
Qed.

Inductive sync_step (s : DbSyncs) : DbSyncs → Prop :=
  | step_request a : plain_task a → sync_step s (DBSync a s)
  | step_run is_dir rsync part children lip stamp saved :
      sync_step s (DoDBSync conf host port_ is_dir rsync part children lip stamp saved s).2.

Definition tasks_ok (s : DbSyncs) : Prop :=
  NoDup (task_index_of <$> dbsync_queue s) ∧
  Forall (λ a, task_index_of a ∈ db_sync_slaves_ s ∧ plain_task a) (dbsync_queue s).

(** What a run does to the set: nothing, or a key is erased that is the task's or no
    task's. *)
Lemma DbSyncSendFile_set is_dir rsync part children lip stamp saved a s :
  let s' := (DbSyncSendFile conf host port_ is_dir rsync part children lip stamp saved a s).2 in
  s' = s ∨ (part ≠ None ∧ children ≠ None ∧ s' = erase_task (task_index_of a) s) ∨
  s' = erase_task (IpPortString (da_ip a) (da_port a)) s.
Proof.
  unfold DbSyncSendFile. destruct part as [i|]; [|by left].
  destruct children as [l|]; [|by right; right]. destruct (send_files _ _ _ _ _). by right; left.
Qed.

Lemma sync_step_ok s s' : tasks_ok s → sync_step s s' → tasks_ok s'.
Proof.
  intros [Hd Hq] [a Ha|is_dir rsync part children lip stamp saved].
  - unfold DBSync. case_bool_decide as Hin; [by split|]. split; cbn.
    + rewrite fmap_app, NoDup_app. split; [done|]. split; [|apply NoDup_singleton].
      intros x (b & -> & Hb)%list_elem_of_fmap Hx. apply list_elem_of_singleton in Hx.
      rewrite <- Hx in Hin. apply (proj1 (Forall_forall _ _) Hq) in Hb. set_solver.
    + apply Forall_app. split; [|constructor; [|constructor]; split; [set_solver|done]].
      eapply Forall_impl; [exact Hq|]. cbn. set_solver.
  - unfold DoDBSync. destruct (dbsync_queue s) as [|a q] eqn:Eq; [split; cbn; rewrite Eq; constructor|].
    apply NoDup_cons in Hd as [Hn Hd]. apply Forall_cons in Hq as [[Hi Ha] Hq].
    assert (∀ b, b ∈ q → task_index_of b ≠ task_index_of a) as Hne.
    { intros b Hb E. apply Hn. rewrite <- E. by apply list_elem_of_fmap_2. }
    destruct (DbSyncSendFile_set is_dir rsync part children lip stamp saved a
      (mkDbSyncs (db_sync_slaves_ s) q)) as [->|[(_ & _ & ->)| ->]]; split; try done; cbn.
    + apply Forall_forall. intros b Hb. specialize (Hne b Hb).
      apply (proj1 (Forall_forall _ _) Hq) in Hb as [? ?]. set_solver.
    + apply Forall_forall. intros b Hb.
      apply (proj1 (Forall_forall _ _) Hq) in Hb as [? Hb].
      pose proof (address_is_no_index a b Ha Hb). set_solver.
Qed.

Lemma reach_ok s s' : tasks_ok s → rtc sync_step s s' → tasks_ok s'.
Proof. intros H R. induction R as [|x y z Hs _ IH]; [done|]. by apply IH, (sync_step_ok x). Qed.

Definition DbSyncs0 : DbSyncs := mkDbSyncs ∅ [].
Lemma DbSyncs0_ok : tasks_ok DbSyncs0.
Proof. split; [constructor|done]. Qed.

(** In every reachable state of the master no full sync is queued twice, and every
    queued one is registered, whatever the network and the file system do. *)
Theorem dbsync_queued_once s : rtc sync_step DbSyncs0 s →
  NoDup (task_index_of <$> dbsync_queue s) ∧
  ∀ a, a ∈ dbsync_queue s → task_index_of a ∈ db_sync_slaves_ s.
Proof.
  intros R. destruct (reach_ok _ _ DbSyncs0_ok R) as [Hd Hq]. split; [done|].
  intros a Ha. by apply (proj1 (Forall_forall _ _) Hq) in Ha as [? _].
Qed.

Lemma stuck_step idx s s' : tasks_ok s → idx ∈ db_sync_slaves_ s →
  (∃ b, idx = task_index_of b ∧ plain_task b) →
  idx ∉ task_index_of <$> dbsync_queue s → sync_step s s' →
  idx ∈ db_sync_slaves_ s' ∧ idx ∉ task_index_of <$> dbsync_queue s'.
Proof.
  intros Hok Hi (c & -> & Hc) Hn [a Ha|is_dir rsync part children lip stamp saved].
  - unfold DBSync. case_bool_decide as Hin; [done|]. cbn. rewrite fmap_app. split; [set_solver|].
    rewrite elem_of_app. intros [?|H]; [done|]. apply list_elem_of_singleton in H.
    by rewrite <- H in Hin.
  - unfold DoDBSync. destruct (dbsync_queue s) as [|a q] eqn:Eq; [by cbn; rewrite Eq|].
    destruct Hok as [_ Hq]. rewrite Eq in Hq. apply Forall_cons in Hq as [[_ Ha] _].
    assert (task_index_of c ≠ task_index_of a ∧ task_index_of c ∉ task_index_of <$> q) as [H1 H2].
    { cbn in Hn. apply not_elem_of_cons in Hn. done. }
    pose proof (address_is_no_index a c Ha Hc).
    destruct (DbSyncSendFile_set is_dir rsync part children lip stamp saved a
      (mkDbSyncs (db_sync_slaves_ s) q)) as [->|[(_ & _ & ->)| ->]]; cbn; split; try done; set_solver.
Qed.

(** A full sync that ends because the partition is gone or the snapshot's directory
    cannot be read stays registered for ever: every later request for it is ignored,
    whatever happens in between. *)
Theorem failed_sync_sticks is_dir rsync part children lip stamp saved a q s s2 :
  rtc sync_step DbSyncs0 s → dbsync_queue s = a :: q → part = None ∨ children = None →
  rtc sync_step (DoDBSync conf host port_ is_dir rsync part children lip stamp saved s).2 s2 →
  ∀ b, task_index_of b = task_index_of a → DBSync b s2 = s2.
Proof.
  intros R Hq Hf R2 b Hb. pose proof (reach_ok _ _ DbSyncs0_ok R) as Hok.
  set (s1 := (DoDBSync _ _ _ _ _ _ _ _ _ _ _).2) in R2.
  assert (tasks_ok s1) as Hok1 by (apply (sync_step_ok s); [done|constructor]).
  assert (plain_task a ∧ task_index_of a ∈ db_sync_slaves_ s1 ∧
    task_index_of a ∉ task_index_of <$> dbsync_queue s1) as (Ha & Hi & Hn).
  { destruct Hok as [Hd Ho]. rewrite Hq in Hd, Ho. apply NoDup_cons in Hd as [Hn _].
    apply Forall_cons in Ho as [[Hi Ha] _]. split; [done|]. unfold s1, DoDBSync. rewrite Hq.
    pose proof (address_is_no_index a a Ha Ha).
    destruct (DbSyncSendFile_set is_dir rsync part children lip stamp saved a
      (mkDbSyncs (db_sync_slaves_ s) q)) as [->|[(? & ? & _)| ->]]; cbn; [done|naive_solver|].
    split; [set_solver|done]. }
  assert (task_index_of a ∈ db_sync_slaves_ s2) as H2.
  { clearbody s1. induction R2 as [|x y z Hs _ IH]; [done|].
    destruct (stuck_step (task_index_of a) x y) as [? ?]; eauto.
    apply IH; try done. by apply (sync_step_ok x). }
  unfold DBSync. by rewrite bool_decide_eq_true_2 by (by rewrite Hb).
Qed.
End Tasks.

(** ** Saving *)

Section Saving.
Context {FS : Type} {Cmd Conn Resp : Type} {D : Type} (conf : PikaConf).
Implicit Types (pt : Partition D) (mp : @SyncMasterPartition FS Cmd Conn Resp).

(** A save that reports nothing has the database as it was, and an info file of the offset
    that the log had at the same moment. *)
Lemma save_succeeds path duration host port mp pt io s pt' d :
  DoBgSave conf path duration host port (Some mp) io pt = Some (s, pt') → sv_content s = Some d →
  db_ pt = Some d ∧ db_ pt' = Some d ∧ sv_renamed s = None ∧ bgsave_info_ pt' = mkBgSave false path (bgsave_offset conf mp) ∧
  sv_info s = if io_info_written io
              then Some (path +:+ "/info", info_text conf duration host port (bgsave_offset conf mp)) else None.
Proof.
  unfold DoBgSave, RunBgsaveEngine, InitBgsaveEnv, InitBgsaveEngine, bind, modify, ret, gets, abort. intros H Hs.
  destruct (io_old_removed io && io_failed_removed io); cbn [negb] in H; [|by simplify_eq/=].
  cbn [db_ set_bgsave] in H. destruct (db_ pt) as [d'|] eqn:Ed; [|done].
  destruct (io_engine_opens io); cbn [negb] in H; [|by simplify_eq/=].
  destruct (io_content_set io); [|by simplify_eq/=]. destruct (io_backup_made io); simplify_eq/=. by rewrite Ed.
Qed.

(** A save that cannot be prepared forgets its directory first: the info file goes to the
    root of the file system, and the name that is changed is empty. *)
Lemma failed_save_at_root path duration host port (mp : option _) pt io d : db_ pt = Some d →
  io_old_removed io && io_failed_removed io = false ∨ io_engine_opens io = false ∨ mp = None ∨ io_content_set io = false →
  io_info_written io = true →
  ∃ pt', @DoBgSave FS Cmd Conn Resp D conf path duration host port mp io pt =
    Some (mkSave None (Some ("/info", info_text conf duration host port LogOffset0)) (Some ("", "_FAILED")), pt').
Proof.
  unfold DoBgSave, RunBgsaveEngine, InitBgsaveEnv, InitBgsaveEngine, bind, modify, ret, gets, abort. intros Hd H Hw.
  destruct pt as [i db dir bak sync text]. cbn in Hd. subst db. cbn. rewrite Hw.
  destruct (io_old_removed io && io_failed_removed io); cbn [negb]; [|by eexists].
  destruct (io_engine_opens io); cbn [negb]; [|by eexists].
  destruct mp as [mp|]; [|by eexists]. destruct (io_content_set io); [|by eexists]. by destruct H as [|[|[|]]].
Qed.
End Saving.

(** ** Installing *)

Section Installing.
Context {FS : Type} {E : SlashEnv FS} {L : SlashEnvLaws FS} {R : ReliableEnv FS}.
Context {C : FixedCoding} {CL : FixedCodingLaws} {SN : StringNum} {SL : StringNumLaws}.
Context {Cmd Conn Resp : Type} {CO : CmdOps Cmd} {P : Type}.
Context {D : Type} (empty_db : D) (conf : PikaConf).
Abbreviation World := (@World FS Cmd Conn Resp (ReplNet P)).
Abbreviation Site := (@Site FS Cmd Conn Resp P D).
Implicit Types (s : Site) (pt : Partition D).

Lemma on_world_run {A} (m : M World A) s a w :
  m (st_world s) = Some (a, w) → on_world m s = Some (a, set_world w s).
Proof. intros H. unfold on_world, zoom. by rewrite H. Qed.

Lemma on_partition_run {A} p (m : M (Partition D) A) s pt a pt' :
  st_partitions s !! p = Some pt → m pt = Some (a, pt') →
  on_partition p m s = Some (a, set_partitions (<[p := pt']> (st_partitions s)) s).
Proof. intros Hp Hm. unfold on_partition, bind, get. by rewrite Hp, Hm. Qed.

Lemma alter_as_insert (f : SyncSlavePartition → SyncSlavePartition) p sp
    (m : gmap PartitionInfo SyncSlavePartition) :
  m !! p = Some sp → alter f p m = <[p := f sp]> m.
Proof.
  intros H. apply map_eq. intros q. destruct (decide (q = p)) as [->|Hne].
  - by rewrite lookup_alter_eq, lookup_insert_eq, H.
  - by rewrite lookup_alter_ne, lookup_insert_ne.
Qed.

(** The file system does what it is asked. *)
Definition good_io : InstallIo := mkInstallIo true true true true.

Lemma ChangeDb_good pt d : sync_dir pt = Some d →
  ChangeDb empty_db good_io pt =
    Some (true, mkPartition (bgsave_info_ pt) (Some d) (Some d) None None (sync_info pt)).
Proof. intros H. destruct pt. cbn in H. subst. reflexivity. Qed.

Lemma on_logger_SetProducer num off (mp : @SyncMasterPartition FS Cmd Conn Resp) :
  binlog_wf (mp_fs mp) (mp_logger mp) → 0 ≤ num < 2 ^ 32 → 0 ≤ off < 2 ^ 31 →
  off < 4 ∨ kHeaderSize ≤ off →
  ∃ mp', on_coord (on_binlog (SetProducerStatus num off 0 0)) mp = Some (OK, mp') ∧
    binlog_wf (mp_fs mp') (mp_logger mp') ∧
    version_ (mp_logger mp') = mkVersion num (placed_offset off) 0 0.
Proof.
  intros W Hn Ho Hoff.
  destruct (SetProducerStatus_places (mp_fs mp) (mp_logger mp) num off 0 0 W Hn Ho ltac:(lia) ltac:(lia) Hoff)
    as (fs' & b' & H & W' & Hv & _).
  unfold on_coord, on_binlog, on_stable, on_logger, zoom. cbn [fst snd].
  unfold mp_fs, mp_logger, logger_of in H. rewrite H. eexists. split; [reflexivity|]. done.
Qed.


(** A snapshot that cannot be moved into place leaves the partition without an open
    database and its slave in error: the old one is not opened again. *)
Theorem failed_install_closes p pt sp text i io s :
  st_partitions s !! p = Some pt → sync_slave_partitions_ (w_rm (st_world s)) !! p = Some sp →
  sync_info pt = Some text → parse_info 0 (getlines text) SyncInfo0 = Some i →
  si_master_ip i = MasterIp sp → si_master_port i = MasterPort sp →
  io_info_opens io = true → io_rename_old io && io_rename_new io = false →
  ∃ s' pt', TryUpdateMasterOffset empty_db conf p io s = Some (false, s') ∧
    st_partitions s' = <[p := pt']> (st_partitions s) ∧ db_ pt' = None ∧ sync_info pt' = None ∧
    sync_slave_partitions_ (w_rm (st_world s')) =
      <[p := SetReplState kError sp]> (sync_slave_partitions_ (w_rm (st_world s))).
Proof.
  intros Hp Hsp Hi Hparse Hip Hport Hopen Hio.
  unfold TryUpdateMasterOffset, bind at 1, get. rewrite Hp, Hi. unfold GetSyncSlavePartitionByName.
  rewrite Hsp, Hopen, Hparse, Hip, Hport, bool_decide_eq_true_2, Z.eqb_refl by done. cbn [negb orb].
  assert (∃ pt', ChangeDb empty_db io (set_sync_info None pt) = Some (false, pt') ∧ db_ pt' = None ∧ sync_info pt' = None)
    as (pt' & Hc & Hdb & Hsi).
  { unfold ChangeDb, bind, modify, ret. destruct (io_rename_old io); cbn in *; [rewrite Hio|]; eauto. }
  unfold bind at 1. erewrite on_partition_run by (done || reflexivity).
  unfold bind at 1. erewrite on_partition_run; [|apply lookup_insert_eq|exact Hc].
  eexists _, pt'. split; [reflexivity|]. cbn. rewrite insert_insert_eq. split_and!; [done|done|done|].
  by apply (alter_as_insert (SetReplState kError)).
Qed.
End Installing.

(** ** The state machine *)

(** The changes of state that a turn of the slave's state machine may make. *)
Inductive repl_edge : ReplState → ReplState → Prop :=
  | edge_connect : repl_edge kTryConnect kWaitReply
  | edge_connect_fails : repl_edge kTryConnect kError
  | edge_dbsync : repl_edge kTryDBSync kWaitReply
  | edge_dbsync_fails : repl_edge kTryDBSync kError
  | edge_installed : repl_edge kWaitDBSync kTryConnect
  | edge_install_fails : repl_edge kWaitDBSync kError.

(** The slave partition [sp] after a turn. *)
Definition turned (sp sp' : SyncSlavePartition) : Prop :=
  sp' = sp ∨ ∃ st, repl_edge (State sp) st ∧ sp' = SetReplState st sp.

Section StateMachine.
Context {FS : Type} {E : SlashEnv FS} {C : FixedCoding} {SN : StringNum}.
Context {Cmd Conn Resp : Type} {CO : CmdOps Cmd} {P : Type} {PN : PinkNet P}.
Context {D : Type} (empty_db : D) (conf : PikaConf).
Context (SerializeRequest : InnerRequest → option bytes) (dummy_cmd : string → Cmd) (write_binlog : bool).
Abbreviation World := (@World FS Cmd Conn Resp (ReplNet P)).
Abbreviation Rm := (@Rm FS Cmd Conn Resp (ReplNet P)).
Abbreviation Site := (@Site FS Cmd Conn Resp P D).
Implicit Types (s : Site) (w : World) (m : gmap PartitionInfo SyncSlavePartition).

Definition rm_slaves (r : Rm) := sync_slave_partitions_ r.
Definition w_slaves w := rm_slaves (w_rm w).
Definition st_slaves s := w_slaves (st_world s).

#[export] Instance Keeps_get_master p : Keeps rm_slaves (GetSyncMasterPartitionByName p).
Proof. unfold GetSyncMasterPartitionByName, master_index. destruct (DbIdxFromStr _); apply _. Qed.
#[export] Instance Keeps_table_offset t i : Keeps rm_slaves (GetTablePartitionBinlogOffset t i).
Proof.
  unfold GetTablePartitionBinlogOffset. apply Keeps_bind; [apply _|]. intros [mp|]; [|apply _].
  destruct (GetProducerStatus _) as [? [[[? ?] ?] ?]]. apply _.
Qed.
#[export] Instance Keeps_put_master p mp : Keeps rm_slaves (put_master p mp).
Proof.
  unfold put_master, master_index. apply Keeps_bind; [destruct (DbIdxFromStr _); apply _|].
  by intros i r a r' [= _ <-].
Qed.
#[export] Instance Keeps_on_master {A} p (k : M _ A) : Keeps rm_slaves (on_master p k).
Proof.
  unfold on_master. apply Keeps_bind; [apply _|]. intros [mp|]; [|apply _].
  destruct (k mp) as [[]|]; apply _.
Qed.
#[export] Instance Keeps_rm_world {A} (k : M Rm A) : Keeps rm_slaves k → Keeps w_slaves (on_rm k).
Proof.
  intros H w a w'. unfold on_rm, zoom. destruct (k (w_rm w)) as [[x r]|] eqn:Ek; [|done].
  intros [= _ <-]. by apply H in Ek.
Qed.
#[export] Instance Keeps_net_slaves f : Keeps w_slaves (net_modify f).
Proof. apply Keeps_rm_world. by intros r a r' [= _ <-]. Qed.
#[export] Instance Keeps_update_term p t :
  Keeps w_slaves (ConsensusUpdateTerm (P := P) (CO := CO) (E := E) conf dummy_cmd write_binlog p t).
Proof.
  unfold ConsensusUpdateTerm. apply Keeps_bind; [apply _|]. intros _.
  apply Keeps_bind; [unfold get_srv; apply _|]. intros v. destruct (_ && _); apply _.
Qed.
#[export] Instance Keeps_try_sync ip port t i o l : Keeps w_slaves
  (SendPartitionTrySync (PN := PN) (CO := CO) (E := E) conf SerializeRequest dummy_cmd write_binlog ip port t i o l).
Proof.
  unfold SendPartitionTrySync. cbv zeta.
  assert (∀ meta, Keeps w_slaves (let* w := get in
    let '(st, net) := send_request SerializeRequest ip port
      (TrySync_request (srv_port_ (w_srv w)) meta t i o l) (net_ (w_rm w)) in
    net_modify (FS := FS) (Cmd := Cmd) (Conn := Conn) (Resp := Resp) (λ _, net) ;;; ret st)) as Hs.
  { intros meta. apply Keeps_bind; [apply _|]. intros w. destruct (send_request _ _ _ _ _). apply _. }
  destruct (_ =? 0); [apply Hs|]. apply Keeps_bind; [apply _|]. intros [mp|]; [|apply _].
  apply Keeps_bind; [apply _|]. intros _. apply Hs.
Qed.
#[export] Instance Keeps_world_site {A} (k : M World A) : Keeps w_slaves k → Keeps st_slaves (on_world (D := D) k).
Proof.
  intros H s a s'. unfold on_world, zoom. destruct (k (st_world s)) as [[x w]|] eqn:Ek; [|done].
  intros [= _ <-]. by apply H in Ek.
Qed.
#[export] Instance Keeps_on_partition {A} p (k : M (Partition D) A) : Keeps st_slaves (on_partition p k).
Proof.
  unfold on_partition. apply Keeps_bind; [apply _|]. intros s. destruct (_ !! p) as [pt|]; [|apply _].
  destruct (k pt) as [[a pt']|]; [|apply _]. apply Keeps_bind; [|apply _]. by intros s1 ? s2 [= _ <-].
Qed.

(** A turn of the partition [p]. *)
Definition moved (p : PartitionInfo) m m' : Prop :=
  m' = m ∨ ∃ sp st, m !! p = Some sp ∧ repl_edge (State sp) st ∧ m' = <[p := SetReplState st sp]> m.

Lemma set_state_moved p st sp s a s' : st_slaves s !! p = Some sp → repl_edge (State sp) st →
  on_world (sp_modify p (SetReplState st)) s = Some (a, s') → moved p (st_slaves s) (st_slaves s').
Proof.
  intros Hp He [= _ <-]. right. exists sp, st. split; [done|]. split; [done|].
  by apply (alter_as_insert (SetReplState st)).
Qed.

(** The steps before the change of state leave the slave partitions alone. *)
Lemma then_set_state {A} p sp st s0 s s' (r : A) a : st_slaves s0 !! p = Some sp →
  st_slaves s = st_slaves s0 → repl_edge (State sp) st →
  (on_world (sp_modify p (SetReplState st)) ;;; ret r) s = Some (a, s') →
  moved p (st_slaves s0) (st_slaves s').
Proof.
  intros Hp Hs He. rewrite run_bind. intros (u & s1 & H & [= _ <-]). rewrite <- Hs in Hp |- *.
  by apply (set_state_moved p st sp s u).
Qed.

Lemma TryUpdateMasterOffset_moved p io sp s b s' :
  st_slaves s !! p = Some sp → State sp = kWaitDBSync →
  TryUpdateMasterOffset empty_db conf p io s = Some (b, s') → moved p (st_slaves s) (st_slaves s').
Proof.
  intros Hp Hst H. unfold TryUpdateMasterOffset in H. rewrite run_bind in H. destruct H as (? & ? & [= <- <-] & H).
  assert (repl_edge (State sp) kError ∧ repl_edge (State sp) kTryConnect) as [He Hc] by (rewrite Hst; split; constructor).
  destruct (st_partitions s !! p) as [pt|]; [|done].
  destruct (sync_info pt) as [text|]; [|injection H as _ <-; by left].
  destruct (GetSyncSlavePartitionByName p (w_rm (st_world s))) as [sp'|] eqn:Esp; [|injection H as _ <-; by left].
  destruct (io_info_opens io); cbn [negb] in H; [|by apply (then_set_state p sp kError s) in H].
  destruct (parse_info _ _ _) as [i|]; [|by apply (then_set_state p sp kError s) in H].
  destruct (negb _ || negb _); [by apply (then_set_state p sp kError s) in H|].
  rewrite run_bind in H. destruct H as (? & s1 & H1 & H). rewrite run_bind in H. destruct H as (ch & s2 & H2 & H).
  assert (st_slaves s2 = st_slaves s) as E2 by (apply keeps in H2; apply keeps in H1; congruence).
  destruct ch; cbn [negb] in H; [|by apply (then_set_state p sp kError s) in H].
  rewrite run_bind in H. destruct H as (mp & s3 & H3 & H). apply keeps in H3.
  destruct mp as [mp|]; [|injection H as _ <-; left; congruence].
  rewrite run_bind in H. destruct H as (? & s4 & H4 & H).
  assert (Keeps st_slaves (move_log (D := D) (P := P) (E := E) conf p i)) as K
    by (unfold move_log; destruct (negb _); apply _).
  apply K in H4. apply (then_set_state p sp kTryConnect s) in H; [done|done|congruence|done].
Qed.

Lemma requested p sp s u s' (st : Status) :
  st_slaves s !! p = Some sp → State sp = kTryConnect ∨ State sp = kTryDBSync →
  (on_world (sp_modify p (SetReplState (if ok st then kWaitReply else kError))) ;;; ret st) s = Some (u, s') →
  moved p (st_slaves s) (st_slaves s').
Proof.
  intros Hp Hst. apply then_set_state with sp; try done.
  destruct Hst as [-> | ->], (ok st); constructor.
Qed.

Lemma TrySync_moved p sp s st s' : st_slaves s !! p = Some sp → State sp = kTryConnect →
  SendPartitionTrySyncRequest (D := D) (P := P) conf SerializeRequest dummy_cmd write_binlog p s = Some (st, s') →
  moved p (st_slaves s) (st_slaves s').
Proof.
  intros Hp Hst H. unfold SendPartitionTrySyncRequest in H. rewrite run_bind in H. destruct H as (o & s1 & H1 & H).
  apply keeps in H1. destruct o as [o|]; [|injection H as _ <-; by left].
  rewrite run_bind in H. destruct H as (? & ? & [= <- <-] & H).
  destruct (GetSyncSlavePartitionByName _ _) as [sp'|] eqn:Esp; [|injection H as _ <-; by left].
  rewrite run_bind in H. destruct H as (r & s2 & H2 & H). apply keeps in H2.
  rewrite <- H1, <- H2. eapply (requested p sp); [congruence|by left|exact H].
Qed.

Lemma DBSync_moved p sp s st s' : st_slaves s !! p = Some sp → State sp = kTryDBSync →
  SendPartitionDBSyncRequest (D := D) (P := P) SerializeRequest p s = Some (st, s') →
  moved p (st_slaves s) (st_slaves s').
Proof.
  intros Hp Hst H. unfold SendPartitionDBSyncRequest in H. rewrite run_bind in H. destruct H as (o & s1 & H1 & H).
  apply keeps in H1. destruct o as [o|]; [|injection H as _ <-; by left].
  rewrite run_bind in H. destruct H as (? & ? & [= <- <-] & H).
  destruct (st_partitions s1 !! p) as [pt|]; [|injection H as _ <-; by left].
  rewrite run_bind in H. destruct H as (u & s2 & H2 & H). apply keeps in H2.
  destruct (GetSyncSlavePartitionByName _ _) as [sp'|] eqn:Esp; [|injection H as _ <-; left; congruence].
  destruct (SendPartitionDBSync _ _ _ _ _ _ _ _ _) as [r net].
  rewrite run_bind in H. destruct H as (u' & s3 & H3 & H). apply keeps in H3.
  rewrite <- H1, <- H2, <- H3. eapply (requested p sp); [congruence|by right|exact H].
Qed.

Lemma run_partition_moved io p s u s' :
  run_partition (D := D) (P := P) empty_db conf SerializeRequest dummy_cmd write_binlog io p s = Some (u, s') →
  moved p (st_slaves s) (st_slaves s').
Proof.
  intros H. unfold run_partition in H. rewrite run_bind in H. destruct H as (? & ? & [= <- <-] & H).
  destruct (GetSyncSlavePartitionByName p (w_rm (st_world s))) as [sp|] eqn:Hp; [|injection H as _ <-; by left].
  destruct (State sp) eqn:Hst; try (injection H as _ <-; by left).
  - rewrite run_bind in H. destruct H as (r & s1 & H & [= _ <-]). by apply TrySync_moved with sp r.
  - rewrite run_bind in H. destruct H as (r & s1 & H & [= _ <-]). by apply DBSync_moved with sp r.
  - destruct (st_partitions s !! p); [|injection H as _ <-; by left].
    rewrite run_bind in H. destruct H as (r & s1 & H & [= _ <-]). by apply TryUpdateMasterOffset_moved with (io p) sp r.
Qed.

Lemma run_partitions_turned io ps : NoDup ps → ∀ s u s',
  run_partitions (D := D) (P := P) empty_db conf SerializeRequest dummy_cmd write_binlog io ps s = Some (u, s') →
  ∀ q, if decide (q ∈ ps) then option_Forall2 turned (st_slaves s !! q) (st_slaves s' !! q)
       else st_slaves s' !! q = st_slaves s !! q.
Proof.
  induction ps as [|p ps IH]; intros Hd s u s' H q.
  { injection H as _ <-. done. }
  apply NoDup_cons in Hd as [Hn Hd]. cbn [run_partitions] in H. rewrite run_bind in H.
  destruct H as (u1 & s1 & H1 & H). apply run_partition_moved in H1. specialize (IH Hd _ _ _ H q).
  assert (∀ x : option SyncSlavePartition, option_Forall2 turned x x) as Hrefl by (intros [x|]; constructor; by left).
  destruct (decide (q = p)) as [->|Hne].
  - rewrite decide_False in IH by done. rewrite decide_True by (by left). rewrite IH.
    destruct H1 as [->|(sp & st & Hp & He & ->)]; [done|]. rewrite Hp, lookup_insert_eq. constructor. right. eauto.
  - assert (st_slaves s1 !! q = st_slaves s !! q) as E1.
    { destruct H1 as [->|(sp & st & Hp & He & ->)]; [done|]. by apply lookup_insert_ne. }
    rewrite E1 in IH. destruct (decide (q ∈ ps)).
    + by rewrite decide_True by (by right).
    + rewrite decide_False; [done|]. by rewrite elem_of_cons; intros [?|?].
Qed.

(** C34. Whatever the network, the file system and the master's answers are, a turn of the
    slave's state machine changes nothing of a slave partition but its state, and the
    state only along the edges of [repl_edge]; in particular a partition that waits
    for its master, or is in error, stays as it is. *)
Theorem state_machine_edges io s s' :
  RunSyncSlavePartitionStateMachine (D := D) (P := P) empty_db conf SerializeRequest dummy_cmd write_binlog io s
    = Some (tt, s') →
  ∀ q, option_Forall2 turned (st_slaves s !! q) (st_slaves s' !! q).
Proof.
  unfold RunSyncSlavePartitionStateMachine. rewrite run_bind. intros (? & ? & [= <- <-] & H) q.
  pose proof (run_partitions_turned io _ (NoDup_fst_map_to_list _) _ _ _ H q) as Hq.
  destruct (decide _); [done|]. rewrite Hq. destruct (st_slaves s !! q); constructor. by left.
Qed.
End StateMachine.
