(* ===== verification/ReplicationWitness.v ===== *)
(** * Replication and full synchronisation: examples

    A master and a slave with fresh logs: one command is proposed, read, sent and
    applied; and a snapshot of two files is sent and installed. *)

From S2P Require Import Prelude Define Env Binlog BinlogReader BinlogRoundTrip BinlogOpen Transverter Command.
From S2P Require Import SlaveNode Consensus StableLog BinlogWitness Coordinator CoordinatorFacts WriteQueue.
From S2P Require Import MasterPartition MasterFacts SlavePartition ReplicaManager InnerMessage Server.
From S2P Require Import ReplServer ReplClient ReplWorker Replication FullSync FullSyncFacts.
From stdpp Require Import base list strings pretty gmap sorting relations.
From Stdlib Require Import ZArith Lia Init.Byte Ascii.
#[local] Open Scope string_scope.
#[local] Open Scope list_scope.
#[local] Open Scope Z_scope.

(** Commands that keep their request text, which reads back as it is. *)
Record RawCmd := mkRawCmd { raw_text : bytes; raw_table : string }.
#[export] Instance RawCmd_ops `{FixedCoding} : CmdOps RawCmd := {
  ToBinlog c e t l f o := BinlogEncode TypeFirst e t l f o (raw_text c);
  cmd_table_name := raw_table;
  parse_cmd t s := Some (mkRawCmd s t);
}.

(** A network that records what is written. *)
#[export] Instance wire_net : PinkNet (list (string * Z)) := {
  get_conn _ _ := true;
  WriteResp _ _ n := (false, n);
  NotifyClose _ n := n;
  NotifyWrite _ n := n;
  ClientWrite ip port _ n := (OK, n ++ [(ip, port)]);
  ClientClose _ _ n := n;
}.

Definition conf_async : PikaConf := mkConf 100 0 true 100 10 7 "/log/" "db0" 9221.
Definition part0 : PartitionInfo := mkPartitionInfo "db0" 0.
Definition set_raw : RawCmd := mkRawCmd (str "SET k v") "db0".

Abbreviation RawMaster := (SyncMasterPartition (FS := MemFS) (Cmd := RawCmd) (Conn := nat) (Resp := nat)).
Abbreviation RawWorld := (@World MemFS RawCmd nat nat (ReplNet (list (string * Z)))).
Abbreviation RawSys := (@Sys MemFS RawCmd nat nat (list (string * Z))).

Definition fresh_master : RawMaster :=
  mkMaster part0 4 (mkCoord log0.1 LogOffset0 (Context_new "/log/context") 7 "db0" 0
    (mkProgress ∅ ∅) (mkStableLog false "db0" 0 "/log/" log0.2 LogOffset0) MemLog_new []).
Definition fresh_node : SlaveNode :=
  set_binlog_reader (Some reader0) (set_slave_state kSlaveBinlogSync
    (SlaveNode_new "10.0.0.1" 9221 "db0" 0 3)).
Definition connected0 : SyncSlavePartition :=
  mkSlave part0 (RmNode_new "10.0.0.9" 9221 "db0" 0 3) kConnected "10.0.0.1".
Definition slave_world : RawWorld :=
  mkWorld (mkRm (<[0%nat := Some fresh_master]> (replicate kMaxDbNum None))
             {[ part0 := connected0 ]} ∅ false (mkNet ∅ []))
    (set_role PIKA_ROLE_SLAVE (PikaServer_new "10.0.0.1" 9221 [part0])).
Definition worker0 : BgWorker := mkWorker BinlogItem_new "" "" 0.
Definition system0 : RawSys := mkSys fresh_master fresh_node [] slave_world worker0.

(** The item of the command, and the states after each step. *)
Definition item_a : bytes := proposal fresh_master set_raw.
Definition master_a : RawMaster :=
  (default (OK, fresh_master) (ConsensusProposeLog conf_async set_raw None None fresh_master)).2.
Definition system1 : RawSys := mkSys master_a fresh_node [] slave_world worker0.
Definition read_a : option Status * list WriteTask * SlaveNode :=
  default (None, [], fresh_node)
    (read_loop 9 99 (mp_fs master_a) (mp_logger master_a) (λ _, 50) 10 [] fresh_node).
Definition system2 : RawSys := mkSys master_a read_a.2 read_a.1.2 slave_world worker0.

Definition send_nothing (r : InnerRequest) : option bytes := Some [].

Lemma item_a_replays : replayable (CO := RawCmd_ops) "db0" item_a.
Proof.
  split; [vm_compute; discriminate|]. intros old. do 2 eexists. split_and!.
  - apply without_content_encode. split_and!; vm_compute; congruence.
  - vm_compute. discriminate.
  - reflexivity.
  - vm_compute. reflexivity.
Qed.

Lemma log0_holds : holds log0.1 log0.2 (0, 0) [] [].
Proof.
  split; [exact log0_wf|vm_compute; discriminate|done|exact I|exact I|vm_compute; reflexivity].
Qed.

Lemma slave_world_master : master_at part0 0 fresh_master slave_world.
Proof. split_and!; [reflexivity|vm_compute; reflexivity|reflexivity]. Qed.

Lemma slave_world_following : following conf_async part0 3 slave_world.
Proof. split; [reflexivity|]. exists connected0. split_and!; reflexivity. Qed.

Lemma node_a nm : nm = "/log/write2file0" →
  reader_at nm 0 0 reader0.
Proof. intros ->. split_and!; try done; [vm_compute; discriminate..|by exists 0]. Qed.

Lemma system0_tracks : tracks (CO := RawCmd_ops) conf_async 99 part0 (0, 0) 0 3 system0 (mkRepl [] [] []).
Proof.
  exists [], [], [], fresh_master. cbn zeta. split; [|split; [done|split; [|split; [|split; [|split]]]]].
  - split; [exact log0_holds|]. split; [by constructor|constructor].
  - split; [reflexivity|]. split; [reflexivity|]. exists reader0. split; [reflexivity|].
    apply node_a. vm_compute. reflexivity.
  - split; [by split|constructor].
  - split; [exact slave_world_master|]. split; [exact slave_world_following|reflexivity].
  - split; [exact log0_holds|reflexivity].
  - reflexivity.
Qed.

Lemma system1_step : SysStep (CO := RawCmd_ops) conf_async 9 99 send_nothing (λ _, set_raw) true (λ _, None)
  part0 "10.0.0.9:9221" system0 system1.
Proof.
  apply (sys_propose _ _ _ _ _ _ _ _ _ system0 set_raw None None master_a).
  - vm_compute. reflexivity.
  - vm_compute. reflexivity.
  - vm_compute. reflexivity.
  - vm_compute. lia.
  - exact item_a_replays.
Qed.

Lemma system2_step : SysStep (CO := RawCmd_ops) conf_async 9 99 send_nothing (λ _, set_raw) true (λ _, None)
  part0 "10.0.0.9:9221" system1 system2.
Proof.
  apply (sys_read _ _ _ _ _ _ _ _ _ system1 (λ _, 50) 10 read_a.1.2 read_a.2).
  vm_compute. reflexivity.
Qed.

(** The command has reached the wire, and arrives. *)
Lemma replication_refines_channel_witness : ∃ a,
  tracks (CO := RawCmd_ops) conf_async 99 part0 (0, 0) 0 3 system2 a ∧
  length (y_wire system2) = 1%nat.
Proof.
  destruct (replication_refines_channel (CO := RawCmd_ops) conf_async 9 99 send_nothing (λ _, set_raw) true
    (λ _, None) part0 "10.0.0.9:9221" (0, 0) 0 3 system0 (mkRepl [] [] []) system2) as (a & _ & Ha).
  - reflexivity.
  - lia.
  - exact system0_tracks.
  - apply (rtc_l _ _ system1); [exact system1_step|]. apply (rtc_l _ _ system2); [exact system2_step|].
    apply rtc_refl.
  - exists a. split; [exact Ha|]. vm_compute. reflexivity.
Defined.

Lemma system2_tracks : ∃ a, tracks (CO := RawCmd_ops) conf_async 99 part0 (0, 0) 0 3 system2 a.
Proof.
  destruct (sim_step conf_async 9 99 send_nothing (λ _, set_raw) true (λ _, None) part0 "10.0.0.9:9221"
    (0, 0) 0 3 system0 (mkRepl [] [] []) system1) as (a1 & _ & H1);
    [done|lia|exact system0_tracks|exact system1_step|].
  destruct (sim_step conf_async 9 99 send_nothing (λ _, set_raw) true (λ _, None) part0 "10.0.0.9:9221"
    (0, 0) 0 3 system1 a1 system2) as (a2 & _ & H2); [done|lia|exact H1|exact system2_step|].
  by exists a2.
Qed.

Lemma wire_arrives_witness : ∃ a (y' : RawSys), y_wire y' = [] ∧
  tracks (CO := RawCmd_ops) conf_async 99 part0 (0, 0) 0 3 y' (mkRepl (replica a ++ flight a) [] (unsent a)).
Proof.
  destruct system2_tracks as [a Ha].
  destruct (wire_arrives (CO := RawCmd_ops) conf_async 9 99 send_nothing (λ _, set_raw) true (λ _, None) part0
    "10.0.0.9:9221" (0, 0) 0 3 system2 a) as (y' & _ & Hw & Ht).
  - reflexivity.
  - exact Ha.
  - vm_compute. discriminate.
  - exists a, y'. split; [exact Hw|exact Ht].
Defined.

Definition tasks_a : list WriteTask := read_a.1.2.
Lemma tasks_a_for : Forall (task_for (CO := RawCmd_ops) part0 3) tasks_a.
Proof.
  assert (tasks_a = [slave_task fresh_node (mkLogOffset (mkBinlogOffset 0 (offset (b_offset (first_offset tasks_a))))
    (mkLogicOffset 7 1)) item_a]) as -> by (vm_compute; reflexivity).
  constructor; [|constructor]. split_and!; [reflexivity|reflexivity|exact item_a_replays|].
  vm_compute. reflexivity.
Qed.

Lemma tasks_a_fit : Forall (item_fits log0.2) (task_items tasks_a).
Proof.
  assert (task_items tasks_a = [item_a]) as -> by (vm_compute; reflexivity).
  constructor; [|constructor]. assert (zlen item_a = 41) as Hl by (vm_compute; reflexivity).
  unfold item_fits. rewrite Hl. vm_compute. reflexivity.
Qed.

Lemma worker_appends_witness : ∃ ps fs' b' k' w',
  Put_all (task_items tasks_a) (log0.1, log0.2) = Some (ps, (fs', b')) ∧
  HandleBGWorkerWriteBinlog conf_async send_nothing (λ _, set_raw) true "10.0.0.9:9221"
    (BuildBinlogSyncResp conf_async (λ _, None) tasks_a) [0%nat] worker0 slave_world = Some (k', w') ∧
  client_conn_map_ (net_ (w_rm w')) = ∅ ∧ w_srv w' = w_srv slave_world.
Proof.
  destruct (worker_appends (CO := RawCmd_ops) conf_async send_nothing (λ _, set_raw) true (λ _, None) part0 0 3
    "10.0.0.9:9221" tasks_a [0%nat] fresh_master slave_world worker0 connected0)
    as (ps & fs' & b' & k' & Hp & H).
  - reflexivity.
  - exact slave_world_master.
  - exact slave_world_following.
  - reflexivity.
  - reflexivity.
  - exact log0_wf.
  - vm_compute. discriminate.
  - exact tasks_a_fit.
  - vm_compute. reflexivity.
  - vm_compute. discriminate.
  - exact tasks_a_for.
  - vm_compute. reflexivity.
  - exists ps, fs', b', k'. eexists. split; [exact Hp|]. split; [exact H|]. split; reflexivity.
Defined.

(** * A full synchronisation

    A snapshot of two files is sent and installed, as instances of the theorems of
    [FullSyncFacts]. *)

Definition snap : LogOffset := mkLogOffset (mkBinlogOffset 9 (65536 + 3)) LogicOffset0.
Definition snap_text : string := info_text conf_async "2" "10.0.0.9" 9221 snap.

Lemma info_roundtrip_witness :
  parse_info 0 (getlines snap_text) SyncInfo0 = Some (mkSyncInfo "10.0.0.9" 9221 9 65539 0 0).
Proof. apply (info_roundtrip conf_async "2" "10.0.0.9" 9221 snap); [reflexivity|reflexivity|lia|repeat split; cbn; lia]. Defined.

(** *** Sending *)

Definition snap_info : BgSaveInfo := mkBgSave false "/dump/db0" snap.
Definition snap_files : list string := ["info"; "strings"; "MANIFEST"].
Definition snap_dir (path : string) : bool := bool_decide (path = "/dump/db0/strings").
Definition task0 : DBSyncArg := mkDBSyncArg "10.0.0.1" 9221 "db0" 0.
Definition queue0 : DbSyncs := DBSync task0 DbSyncs0.
Definition sent0 : list Sent * DbSyncs :=
  DbSyncSendFile conf_async "pika-a" 9221 snap_dir (λ _ _, true) (Some snap_info) (Some snap_files)
    "10.0.0.9" "1600000000" snap_text task0 queue0.
Definition sent_before : list Sent :=
  [SentFile "/dump/db0/strings/" "db0/strings/"; SentFile "/dump/db0/MANIFEST" "db0/MANIFEST"]
  ++ clear_targets "/dump/db0" "db0".

Lemma sent0_is : sent0.1 = sent_before ++ [SentInfo "/dump/db0/info.1600000000" "db0/info"
  (info_text conf_async "0" "10.0.0.9" 9221 snap)].
Proof. vm_compute. reflexivity. Qed.

Lemma info_sent_last_witness : ∃ target,
  SentFile "/dump/db0/strings/" target ∈ sent_before.
Proof.
  destruct (info_sent_last conf_async "pika-a" 9221 snap_dir (λ _ _, true) snap_info snap_files "10.0.0.9"
    "1600000000" snap_text task0 queue0 sent0.1 sent0.2 sent_before _ _ _ [] eq_refl sent0_is) as (_ & _ & H).
  destruct (H "strings") as (t & Ht & _); [right; left|discriminate|]. exists t. exact Ht.
Defined.

(** *** The queue *)

Lemma task0_plain : plain_task task0.
Proof. split; [reflexivity|]. apply Nat.ltb_lt. vm_compute. reflexivity. Qed.
Lemma queue0_reached : rtc (sync_step conf_async "pika-a" 9221) DbSyncs0 queue0.
Proof. apply rtc_once. constructor. exact task0_plain. Qed.
Lemma queue0_is : dbsync_queue queue0 = [task0].
Proof. reflexivity. Qed.

Lemma dbsync_queued_once_witness : NoDup (task_index_of <$> dbsync_queue queue0) ∧
  task_index_of task0 ∈ db_sync_slaves_ queue0.
Proof.
  destruct (dbsync_queued_once conf_async "pika-a" 9221 queue0 queue0_reached) as [H1 H2].
  split; [exact H1|]. apply H2. rewrite queue0_is. left.
Defined.

(** The snapshot's directory cannot be read. *)
Lemma failed_sync_sticks_witness :
  DBSync task0 (DoDBSync conf_async "pika-a" 9221 snap_dir (λ _ _, true) (Some snap_info) None "" "" "" queue0).2
  = (DoDBSync conf_async "pika-a" 9221 snap_dir (λ _ _, true) (Some snap_info) None "" "" "" queue0).2.
Proof.
  apply (failed_sync_sticks conf_async "pika-a" 9221 snap_dir (λ _ _, true) (Some snap_info) None "" "" "" task0 []
    queue0).
  - exact queue0_reached.
  - exact queue0_is.
  - right. reflexivity.
  - apply rtc_refl.
  - reflexivity.
Defined.

(** *** Installing *)

Abbreviation RawSite := (@Site MemFS RawCmd nat nat (list (string * Z)) nat).
Definition waiting0 : SyncSlavePartition := SetReplState kWaitDBSync connected0.
Definition waiting_world : RawWorld :=
  set_w_rm (set_slaves {[ part0 := waiting0 ]} (w_rm slave_world)) slave_world.
(** The old database is 1, the received one 2. *)
Definition received0 : Partition nat :=
  mkPartition BgSaveInfo0 (Some 1%nat) (Some 1%nat) None (Some 2%nat) (Some snap_text).
Definition site0 : RawSite := mkSite waiting_world {[ part0 := received0 ]}.

Lemma site0_partition : st_partitions site0 !! part0 = Some received0.
Proof. apply lookup_insert_eq. Qed.
Lemma site0_slave : sync_slave_partitions_ (w_rm (st_world site0)) !! part0 = Some waiting0.
Proof. apply lookup_insert_eq. Qed.
Lemma site0_master : master_at part0 0 fresh_master (st_world site0).
Proof. exact slave_world_master. Qed.


Lemma failed_install_closes_witness : ∃ s' pt',
  TryUpdateMasterOffset 0%nat conf_async part0 (mkInstallIo true false true true) site0 = Some (false, s') ∧
  st_partitions s' = <[part0 := pt']> (st_partitions site0) ∧ db_ pt' = None.
Proof.
  destruct (failed_install_closes 0%nat conf_async part0 received0 waiting0 snap_text
    (mkSyncInfo "10.0.0.9" 9221 9 65539 0 0) (mkInstallIo true false true true) site0)
    as (s' & pt' & H & Hp & Hd & _).
  - exact site0_partition.
  - exact site0_slave.
  - reflexivity.
  - vm_compute. reflexivity.
  - reflexivity.
  - reflexivity.
  - reflexivity.
  - reflexivity.
  - exists s', pt'. split; [exact H|]. split; [exact Hp|exact Hd].
Defined.

(** *** The state machine *)

Definition turn0 : option (unit * RawSite) :=
  RunSyncSlavePartitionStateMachine 0%nat conf_async send_nothing (λ _, set_raw) true (λ _, good_io) site0.
Lemma turn0_asks :
  match turn0 with
  | Some (_, s) => State <$> sync_slave_partitions_ (w_rm (st_world s)) !! part0
  | None => None
  end = Some kTryConnect.
Proof. vm_compute. reflexivity. Qed.
Lemma site0_turn : ∃ s' : RawSite, RunSyncSlavePartitionStateMachine 0%nat conf_async send_nothing (λ _, set_raw)
  true (λ _, good_io) site0 = Some (tt, s').
Proof. fold turn0. pose proof turn0_asks as H. destruct turn0 as [[[] s]|]; [by exists s|done]. Qed.

Lemma state_machine_edges_witness : ∃ s' : RawSite,
  option_Forall2 turned (st_slaves site0 !! part0) (st_slaves s' !! part0).
Proof.
  destruct site0_turn as [s' H]. exists s'.
  exact (state_machine_edges 0%nat conf_async send_nothing (λ _, set_raw) true (λ _, good_io) site0 s' H part0).
Defined.
