(* ===== verification/Resume.v ===== *)
(** * Starting and resuming a slave's stream

    What the master grants to a slave that asks to continue from an offset
    ([TrySyncOffsetCheck], [TrySyncUpdateSlaveNode]) and where the stream then starts
    ([ActivateSlaveBinlogSync]): at the item behind the slave's last one. *)

From S2P Require Import Prelude Define Env Binlog BinlogReader BinlogRoundTrip BinlogOpen.
From S2P Require Import BinlogWitness Transverter Command SlaveNode Consensus StableLog.
From S2P Require Import Coordinator CoordinatorFacts WriteQueue MasterPartition MasterFacts SlavePartition.
From S2P Require Import ReplicaManager InnerMessage Server ReplServer ReplClient ReplWorker.
From S2P Require Import Replication ReplicationWitness.
From stdpp Require Import base list strings pretty gmap sorting.
From Stdlib Require Import ZArith Lia Init.Byte.
#[local] Open Scope string_scope.
#[local] Open Scope list_scope.
#[local] Open Scope Z_scope.

Section Boundaries.
Context {FS : Type} {E : SlashEnv FS} {L : SlashEnvLaws FS}.
Implicit Types (fs : FS) (b : Binlog).

Lemma stored_le fs nm xs : ∀ p ps e, stored fs nm p xs ps → last (p :: ps) = Some e →
  Forall (λ q, q = e ∨ plt q e) (p :: ps).
Proof.
  induction xs as [|x xs IH]; intros p [|p' ps] e Hst Hl; cbn [stored] in Hst; try done.
  - injection Hl as ->. repeat constructor.
  - constructor; [pose proof (stored_last fs nm p (x :: xs) (p' :: ps) e Hst Hl); tauto|]. apply IH; [apply Hst|done].
Qed.

Lemma holds_last fs b p0 xs ps : holds fs b p0 xs ps → last (p0 :: ps) = Some (pos b).
Proof. intros H. rewrite last_cons, <- (ho_end _ _ _ _ _ H). by destruct (last ps). Qed.

(** A boundary is not past the end, its file is there, and it can be sought. *)
Lemma holds_boundary fs b p0 xs ps q : holds fs b p0 xs ps → q ∈ p0 :: ps →
  (q = pos b ∨ plt q (pos b)) ∧ env_exists fs (NewFileName (filename_ b) q.1) = true ∧
  seek_ok fs (filename_ b) q.
Proof.
  intros Hh Hq. pose proof (holds_last _ _ _ _ _ Hh) as Hl.
  assert (seek_ok fs (filename_ b) q) as Hs.
  { destruct xs as [|x xs].
    - pose proof (stored_length _ _ _ _ _ (ho_stored _ _ _ _ _ Hh)). destruct ps; [|done].
      apply list_elem_of_singleton in Hq as ->. injection Hl as ->.
      apply binlog_wf_seek, Hh.
    - eapply Forall_forall; [|exact Hq]. eapply stored_seek; [apply Hh|done]. }
  split_and!; [|apply law_exists; left|done].
  - pose proof (stored_le _ _ _ _ _ _ (ho_stored _ _ _ _ _ Hh) Hl) as Hf.
    rewrite Forall_forall in Hf. by apply Hf.
  - destruct Hs as (pre & post & bo & Hd & _). by rewrite Hd.
Qed.
End Boundaries.

Section Resume.
Context {FS : Type} {E : SlashEnv FS} {L : SlashEnvLaws FS}.
Context {C : FixedCoding} {SN : StringNum}.
Context {Cmd Conn Resp : Type} {CO : CmdOps Cmd}.
Context (conf : PikaConf) (gfuel cfuel : nat).
Abbreviation Master := (@SyncMasterPartition FS Cmd Conn Resp).
Implicit Types (mp : Master).

(** The offset of a position. *)
Definition offset_at (q : Z * Z) : BinlogOffset := mkBinlogOffset q.1 q.2.

(** C31. A slave may continue from any item boundary of the master's log: for a slave
    whose log ends where an item of the master's ends, or where the log begins, the
    check of a sync request grants and reports the master's end.  A slave that is ahead
    of the master is told so; one whose file is gone is told that its sync point was
    purged; nothing is granted past the end or in a missing file. *)
Theorem TrySync_grants_boundaries mp p0 xs ps o t :
  holds (mp_fs mp) (mp_logger mp) p0 xs ps →
  let b := mp_logger mp in
  let t' := set_tsr_offset (mkLogOffset (offset_at (pos b)) LogicOffset0) t in
  let ahead := (pos b).1 < filenum o ∨ ((pos b).1 = filenum o ∧ (pos b).2 < offset o) in
  let here := env_exists (mp_fs mp) (NewFileName (filename_ b) (filenum o)) in
  ((filenum o, offset o) ∈ p0 :: ps → TrySyncOffsetCheck (S cfuel) mp o t = Some (true, t')) ∧
  (ahead → TrySyncOffsetCheck (S cfuel) mp o t = Some (false, set_reply_code kSyncPointLarger t')) ∧
  (¬ ahead → here = false →
     TrySyncOffsetCheck (S cfuel) mp o t = Some (false, set_reply_code kSyncPointBePurged t')) ∧
  (∀ t1, TrySyncOffsetCheck (S cfuel) mp o t = Some (true, t1) → t1 = t' ∧ ¬ ahead ∧ here = true).
Proof.
  intros Hh b t' ahead here. unfold TrySyncOffsetCheck. fold b. unfold GetProducerStatus.
  assert (opened_ b = true) as -> by apply (ho_wf _ _ _ _ _ Hh). cbn [negb ok].
  change (mkBinlogOffset (v_pro_num (version_ b)) (v_pro_offset (version_ b))) with (offset_at (pos b)).
  fold t'. change (v_pro_num (version_ b)) with (pos b).1. change (v_pro_offset (version_ b)) with (pos b).2.
  destruct (((pos b).1 <? filenum o) || ((pos b).1 =? filenum o) && ((pos b).2 <? offset o)) eqn:Ea.
  - assert (ahead) as Ha by (unfold ahead; lia). split_and!; try done. intros Hq.
    destruct (holds_boundary _ _ _ _ _ _ Hh Hq) as (Hle & _). fold b in Hle.
    unfold ahead, plt in *. destruct Hle as [Heq|Hlt]; [rewrite <- Heq in Ha|]; cbn in *; lia.
  - assert (¬ ahead) as Ha by (unfold ahead; lia). fold here. split_and!; try done.
    + intros Hq. destruct (holds_boundary _ _ _ _ _ _ Hh Hq) as (_ & Hex & Hs). cbn in Hex. fold b here in Hex.
      rewrite Hex. cbn [negb].
      destruct (Seek_spec (mp_fs mp) b (filenum o, offset o) cfuel Reader_new Hs) as (r' & Hr & R).
      cbn in Hr. rewrite Hr. unfold GetReaderStatus. destruct R as (_ & _ & -> & -> & _).
      cbn [fst snd]. by rewrite !Z.eqb_refl.
    + by intros _ ->.
    + intros t1. destruct here eqn:Eh; cbn [negb]; [|done].
      destruct (Seek _ _ _ _ _ _) as [[? ?]|]; [|done]. destruct (GetReaderStatus _) as [n f].
      destruct (negb (n =? filenum o) || negb (f =? offset o)); [done|]. intros [= <-]. done.
Qed.

Lemma get_put_slave ip port n mp :
  mp_GetSlaveNode ip port (put_slave (slave_key ip port) n mp) = Some n.
Proof. unfold mp_GetSlaveNode, GetSlaveNode, put_slave. cbn. apply lookup_insert_eq. Qed.

Lemma put_slave_twice key n n' mp : put_slave key n' (put_slave key n mp) = put_slave key n' mp.
Proof. unfold put_slave, set_coordinator. cbn. unfold set_sync_pros. cbn. by rewrite insert_insert_eq. Qed.

(** C32. The stream starts where the slave is: for a registered slave and an offset at
    the boundary of two items of the log, [ActivateSlaveBinlogSync] returns [OK]; the
    node is in binlog sync, with the offset as its acknowledged one; the tasks it
    queues carry the next items of the log, from the one behind the boundary, each with
    its position; and the node's reader stands behind the last of them. *)
Theorem stream_starts_at_boundary p p0 xs ys ps qs clock ip port o session n q mp :
  2 ≤ Z.of_nat gfuel → (1 ≤ cfuel)%nat →
  holds (mp_fs mp) (mp_logger mp) p0 (xs ++ ys) (ps ++ qs) → length xs = length ps →
  Forall (λ q, q.1 + 1 < 2 ^ 32) (p0 :: ps ++ qs) →
  Forall (item_good cfuel p (file_size_ (mp_logger mp))) ys →
  mp_GetSlaveNode ip port mp = Some n → partition_info_ (rm n) = p → session_id_ (rm n) = session →
  ip_ (rm n) = ip → port_ (rm n) = port →
  b_offset o = offset_at (default p0 (last ps)) →
  ∃ y1 y2 q1 q2 new n', ys = y1 ++ y2 ∧ qs = q1 ++ q2 ∧
    ActivateSlaveBinlogSync conf gfuel cfuel clock ip port o mp q =
      Some (OK, match new with [] => q
                | _ => ProduceWriteQueue ip port (partition_id_ (mp_info_ mp)) new q end,
            put_slave (slave_key ip port) n' mp) ∧
    carry new y1 q1 ∧ Forall (task_for p session) new ∧
    slave_state n' = kSlaveBinlogSync ∧ acked_offset n' = o ∧
    node_at p (filename_ (mp_logger mp)) (default p0 (last (ps ++ q1))) session n'.
Proof.
  intros Hg Hcf Hh Hl Hnum Hgood Hn Hp Hses Hip Hport Ho.
  unfold ActivateSlaveBinlogSync. rewrite Hn. unfold InitBinlogFileReader. rewrite Ho.
  assert (default p0 (last ps) ∈ p0 :: ps ++ qs) as Hin.
  { apply elem_of_cons. rewrite elem_of_app. destruct (last ps) as [z|] eqn:Ez; [|by left].
    cbn. right. left. apply last_Some in Ez as [l' ->]. apply elem_of_app. right. by left. }
  destruct (holds_boundary _ _ _ _ _ _ Hh Hin) as (_ & _ & Hs).
  destruct cfuel as [|cf] eqn:Ecf; [lia|].
  destruct (Seek_spec _ _ _ cf Reader_new Hs) as (rd & Hsk & R). unfold offset_at. cbn [filenum offset].
  rewrite Hsk. cbn [Z.eqb negb ok]. rewrite <- Ecf in *.
  unfold SyncBinlogToWq. rewrite get_put_slave. set (m := set_b_state _ _).
  unfold ReadBinlogFileToWq. change (binlog_reader m) with (Some rd). cbn iota.
  change (mp_fs (put_slave (slave_key ip port) m mp)) with (mp_fs mp).
  change (mp_logger (put_slave (slave_key ip port) m mp)) with (mp_logger mp).
  assert (node_at p (filename_ (mp_logger mp)) (default p0 (last ps)) session m) as Hm.
  { split_and!; [exact Hp|exact Hses|]. by exists rd. }
  destruct (read_loop_held gfuel cfuel p (mp_fs mp) (mp_logger mp) p0 clock session
    (Z.to_nat (Remaining conf (sync_win m))) Hg xs ps ys qs [] m Hh Hl Hnum Hgood Hm)
    as (y1 & y2 & q1 & q2 & new & n' & -> & -> & _ & Hr & Hc & Hf & Hn').
  rewrite Hr. cbn [app].
  destruct (read_loop_fed _ _ _ _ _ _ [] m None new n' rd Hr eq_refl) as (new' & _ & _ & Hfed).
  pose proof (fd_same _ _ _ _ _ _ _ _ Hfed) as (Hip' & Hport' & _ & _ & Hst & Hack).
  exists y1, y2, q1, q2, new, n'. split_and!; try done.
  rewrite put_slave_twice. rewrite Hip', Hport'. change (ip_ (rm m)) with (ip_ (rm n)).
  change (port_ (rm m)) with (port_ (rm n)). rewrite Hip, Hport. by destruct new.
Qed.
End Resume.

Section Session.
Context {FS : Type} {E : SlashEnv FS} {L : SlashEnvLaws FS}.
Context {C : FixedCoding} {SN : StringNum}.
Context {Cmd Conn Resp : Type} {CO : CmdOps Cmd}.
Context {P : Type} {PN : PinkNet P}.
Abbreviation Master := (@SyncMasterPartition FS Cmd Conn Resp).
Abbreviation World := (@World FS Cmd Conn Resp (ReplNet P)).
Implicit Types (mp : Master) (w : World).

(** The session a slave is granted is the one it is registered with: for a
    partition that is there, [TrySyncUpdateSlaveNode] always returns; it refuses only a
    new slave for which the session counter stands at -1; otherwise the slave is
    registered and the response carries the session that [CheckSessionId] will ask for,
    the old one for a slave that was registered before; the log, the other slaves, the
    other partitions and the server are unchanged. *)
Theorem TrySync_session now1 now2 p idx mp w node fd t :
  master_at p idx mp w →
  let ip := node_ip node in let port := node_port node in
  let known := CheckSlaveNodeExist ip port mp in
  ∃ good t' mp' net', TrySyncUpdateSlaveNode now1 now2 p node fd t w =
      Some ((good, t'), set_w_rm (set_net net' (w_rm (with_master idx mp' w))) w) ∧
    good = known || negb (mp_session_id_ mp =? -1) ∧
    (good = true → ∃ session, tsr_session_id t' = Some session ∧ tsr_reply_code t' = kReplyOk ∧
       CheckSessionId ip port session mp' = true) ∧
    (known = true → mp' = mp) ∧
    mp_fs mp' = mp_fs mp ∧ mp_logger mp' = mp_logger mp ∧
    (∀ key, key ≠ slave_key ip port → mp_slaves mp' !! key = mp_slaves mp !! key).
Proof.
  intros Hm ip port known. pose proof Hm as (Hp & Hd & Hi). unfold TrySyncUpdateSlaveNode.
  unfold bind at 1. rewrite (get_master_run _ _ _ _ Hm). fold ip port known. destruct known eqn:Ek; cbn [negb].
  - unfold known, CheckSlaveNodeExist in Ek. unfold GetSlaveNodeSession.
    destruct (mp_GetSlaveNode ip port mp) as [n|] eqn:En; [|done]. cbn [ok negb].
    exists true, (set_tsr_session (session_id_ (rm n)) (set_reply_code kReplyOk t)), mp, (net_ (w_rm w)).
    split_and!; try done.
    + rewrite (with_master_same p) by done. unfold ret. do 3 f_equal. by destruct w as [[] ?].
    + intros _. exists (session_id_ (rm n)). split_and!; [done|done|]. unfold CheckSessionId. rewrite En. apply Z.eqb_refl.
  - unfold bind at 1. rewrite (on_master_run p idx mp w _ (mp_session_id_ mp) (GenSessionId mp).2) by done.
    destruct (mp_session_id_ mp =? -1) eqn:Es.
    + exists false, (set_reply_code kReplyError t), (GenSessionId mp).2, (net_ (w_rm w)).
      split_and!; try done.
    + set (mp1 := (GenSessionId mp).2). unfold bind at 1.
      pose proof (with_master_at p idx mp mp1 w Hm) as Hm1.
      assert (mp_GetSlaveNode ip port mp = None) as Hn.
      { unfold known, CheckSlaveNodeExist in Ek. by destruct (mp_GetSlaveNode ip port mp). }
      unfold mp_GetSlaveNode, GetSlaveNode in Hn.
      assert (∃ mp2, mp_AddSlaveNode now1 now2 ip port (mp_session_id_ mp) mp1 = Some (OK, mp2) ∧
        CheckSessionId ip port (mp_session_id_ mp) mp2 = true ∧ mp_fs mp2 = mp_fs mp ∧
        mp_logger mp2 = mp_logger mp ∧
        (∀ key, key ≠ slave_key ip port → mp_slaves mp2 !! key = mp_slaves mp !! key))
        as (mp2 & Ha & Hc & Hf & Hl & Ho).
      { unfold mp_AddSlaveNode, on_coord, zoom, bind, Coord_AddSlaveNode, get, AddSlaveNode, GetSlaveNode.
        cbn. unfold bind. cbn. rewrite Hn. cbn. eexists. split_and!; [reflexivity|..|reflexivity|reflexivity|].
        - unfold CheckSessionId, mp_GetSlaveNode, GetSlaveNode. cbn. rewrite lookup_insert_eq. cbn. apply Z.eqb_refl.
        - intros key Hk. unfold mp_slaves, GetAllSlaveNodes. cbn. by rewrite lookup_insert_ne. }
      rewrite (on_master_run p idx mp1 _ _ OK mp2 Hm1 Ha). cbn [ok negb].
      rewrite with_master_twice.
      exists true, (set_reply_code kReplyOk (set_tsr_session (mp_session_id_ mp) t)), mp2,
        (UpdateClientConnMap (IpPortString ip port) fd (net_ (w_rm w))).
      split_and!; try done. intros _. exists (mp_session_id_ mp). by split_and!.
Qed.

(** A request of an old session does nothing: a [BinlogSync] request that does not
    name the session its slave is registered with, or whose slave is not registered,
    leaves the whole state as it is, unless its consensus part carries a newer term. *)
Theorem stale_session_ignored conf gfuel cfuel dummy_cmd write_binlog now clock fd req b idx mp w :
  req_binlog_sync req = Some b →
  master_at (mkPartitionInfo (bs_table_name b) (bs_partition_id b)) idx mp w →
  (∀ meta, req_consensus_meta req = Some meta → meta_term meta ≤ ConsensusTerm mp) →
  CheckSessionId (node_ip (bs_node b)) (node_port (bs_node b)) (bs_session_id b) mp = false →
  HandleBinlogSyncRequest conf gfuel cfuel dummy_cmd write_binlog now clock fd req w = Some (tt, w).
Proof.
  intros Hb Hm Hterm Hs. unfold HandleBinlogSyncRequest. rewrite Hb.
  unfold bind at 1. rewrite (get_master_run _ _ _ _ Hm).
  destruct (req_consensus_meta req) as [meta|].
  - specialize (Hterm meta eq_refl). rewrite Z.gtb_ltb, (proj2 (Z.ltb_ge _ _)) by done.
    unfold bind at 1, ret at 1. destruct (_ <? _); [done|].
    unfold bind at 1. rewrite (get_master_run _ _ _ _ Hm). by rewrite Hs.
  - unfold bind at 1, ret at 1. unfold bind at 1. rewrite (get_master_run _ _ _ _ Hm). by rewrite Hs.
Qed.

(** *** A response that breaks off *)

(** A chip that ends the handling of its response: another session, an item that is not
    a log entry, or one whose text is no command. *)
Definition bad_chip (p : PartitionInfo) (session : Z) (b : BinlogSyncResp) : Prop :=
  bsr_session_id b ≠ session ∨
  (bsr_binlog b ≠ [] ∧
   ((∀ old, (BinlogItemWithoutContentDecode TypeFirst (bsr_binlog b) old).1 = false) ∨
    parse_cmd (table_name_ p) (zdrop BINLOG_ENCODE_LEN (bsr_binlog b)) = None)).

(** The world with the slave partition of [p] set to reconnect. *)
Definition reconnecting (p : PartitionInfo) w : World :=
  set_w_rm (set_slaves (alter (SetReplState kTryConnect) p (sync_slave_partitions_ (w_rm w)))
              (w_rm w)) w.

Lemma bad_chip_run conf p session w k b :
  following conf p session w → bad_chip p session b → wk_table_name k = table_name_ p →
  ∃ k', write_chip conf p k b w = Some ((false, k'), reconnecting p w).
Proof.
  intros [Hrole (sp & Hsp & Hst & Hses)] Hbad Hk. unfold write_chip, bind at 1, get. cbn beta iota.
  unfold GetSyncSlavePartitionByName. rewrite Hsp.
  assert (classic_mode conf && negb (has_role PIKA_ROLE_SLAVE (w_srv w))
    || negb (bool_decide (State sp = kConnected)) && negb (bool_decide (State sp = kWaitDBSync)) = false) as ->.
  { rewrite (bool_decide_eq_true_2 (State sp = kConnected)) by done. cbn. rewrite orb_false_r.
    destruct (classic_mode conf); [|done]. by rewrite Hrole. }
  rewrite Hses. destruct (session =? bsr_session_id b) eqn:Es; cbn [negb]; [|by eexists].
  apply Z.eqb_eq in Es. destruct Hbad as [?|[Hne Hbad]]; [congruence|].
  destruct (bsr_binlog b) as [|x0 x'] eqn:Ex; [done|]. rewrite <- Ex in *.
  destruct (BinlogItemWithoutContentDecode _ _ _) as [good item] eqn:Ed.
  destruct Hbad as [Hdec|Hparse].
  - specialize (Hdec (wk_binlog_item k)). rewrite Ed in Hdec. cbn in Hdec. subst good. by eexists.
  - destruct good; cbn [negb]; [|by eexists]. cbn [set_wk_item wk_table_name]. rewrite Hk, Hparse. by eexists.
Qed.

Lemma write_chips_app conf p l1 : ∀ l2 k w k1 w1,
  write_chips conf p k l1 w = Some ((true, k1), w1) →
  write_chips conf p k (l1 ++ l2) w = write_chips conf p k1 l2 w1.
Proof.
  induction l1 as [|b l1 IH]; intros l2 k w k1 w1 H; cbn [app write_chips] in *.
  - by injection H as -> ->.
  - apply run_bind in H as ([go k2] & w2 & H1 & H). unfold bind. rewrite H1.
    destruct go; [by apply IH|done].
Qed.

(** A bad chip breaks its response off: when a worker meets a chip of another
    session, or one that holds no log entry or no command, the items before it have
    been appended and handed to the appliers, in order; nothing of the chip or of what
    follows it is; the partition is set to ask for a new sync; and no acknowledgement is
    sent. *)
Theorem bad_chip_stops `{!ReliableEnv FS} conf SerializeRequest dummy_cmd write_binlog
    p idx session ip_port res chips good bad rest mp w k :
  consensus_level conf = 0 → master_at p idx mp w → following conf p session w →
  index (l_offset (ConsensusLastIndex mp)) = 0 → binlog_wf (mp_fs mp) (mp_logger mp) →
  0 ≤ file_size_ (mp_logger mp) → Forall (item_fits (mp_logger mp)) (bsr_binlog <$> good) →
  pro_num_ (mp_logger mp) + zlen good < 2 ^ 32 →
  res_consensus_meta res = None → task_chips res chips = good ++ bad :: rest →
  Forall (λ b, bsr_session_id b = session ∧ replayable (table_name_ p) (bsr_binlog b)) good →
  chip_partition (default bad (head good)) = p → bad_chip p session bad →
  ∃ ps fs' b' k',
    Put_all (bsr_binlog <$> good) (mp_fs mp, mp_logger mp) = Some (ps, (fs', b')) ∧
    HandleBGWorkerWriteBinlog conf SerializeRequest dummy_cmd write_binlog ip_port res chips k w =
      Some (k', reconnecting p (with_master idx
        (appended fs' b' (replays_all (table_name_ p) (bsr_binlog <$> good)) mp) w)).
Proof.
  intros Hc Hm Hf Hl W Hfs Hfit Hnum Hmeta Hchips Hgood Hp Hbad.
  destruct (Put_all_ok (bsr_binlog <$> good) (mp_fs mp) (mp_logger mp)) as (ps & fs' & b' & Hput); try done.
  { unfold zlen in *. by rewrite length_fmap. }
  set (k0 := mkWorker (wk_binlog_item k) ip_port (table_name_ p) (partition_id_ p)).
  destruct (write_chips_run conf p idx session good Hc mp w k0 ps fs' b') as (k1 & Hw & Hk1); try done.
  set (w1 := with_master _ _ _) in *. assert (following conf p session w1) as Hf1 by by apply following_master.
  destruct (bad_chip_run conf p session w1 k1 bad Hf1 Hbad Hk1) as (k' & Hb).
  exists ps, fs', b', k'. split; [done|]. unfold HandleBGWorkerWriteBinlog. rewrite Hchips.
  assert (match good ++ bad :: rest with [] => mkPartitionInfo "" 0
          | b :: _ => mkPartitionInfo (m_table_name (bsr_partition b)) (m_partition_id (bsr_partition b)) end = p) as ->.
  { by destruct good. }
  unfold bind at 1. rewrite (get_master_run _ _ _ _ Hm). unfold bind at 1, get. cbn beta iota.
  destruct Hf as [_ (sp & Hsp & _)]. unfold GetSyncSlavePartitionByName. rewrite Hsp, Hmeta.
  cbn [check_consensus_meta]. unfold bind at 1, ret at 1. cbn [negb]. fold k0. unfold bind at 1.
  rewrite (write_chips_app _ _ _ _ _ _ _ _ Hw). cbn [write_chips]. unfold bind at 1. rewrite Hb. done.
Qed.
End Session.

(** ** Instances *)

Lemma master_a_holds :
  holds (mp_fs master_a) (mp_logger master_a) (0, 0) [item_a] [pos (mp_logger master_a)].
Proof.
  assert (holds (env_time log0.1).2 log0.2 (0, 0) [] []) as H.
  { eapply holds_agree; [apply agree_time|exact log0_holds]. }
  assert (Put item_a ((env_time log0.1).2, log0.2) = Some (OK, (mp_fs master_a, mp_logger master_a))) as Hp.
  { vm_compute. reflexivity. }
  destruct (holds_put _ _ _ _ _ _ _ _ H Hp) as [Hh _]; [|vm_compute; reflexivity|exact Hh].
  assert (zlen item_a = 41) as Hl by (vm_compute; reflexivity).
  unfold item_fits. rewrite Hl. vm_compute. reflexivity.
Qed.

Definition end_a : Z * Z := pos (mp_logger master_a).
Definition try_resp : TrySyncResp := mkTrySyncResp kReplyError (mkMsgPartition "db0" 0) None None.

Lemma TrySync_grants_boundaries_witness : ∃ t,
  TrySyncOffsetCheck 99 master_a (mkBinlogOffset 0 0) try_resp = Some (true, t).
Proof.
  destruct (TrySync_grants_boundaries 98 master_a (0, 0) [item_a] [pos (mp_logger master_a)]
    (mkBinlogOffset 0 0) try_resp master_a_holds) as (H & _).
  eexists. apply H. left.
Defined.

Definition node_b : SlaveNode := SlaveNode_new "10.0.0.1" 9221 "db0" 0 3.
Definition master_b : RawMaster := put_slave (slave_key "10.0.0.1" 9221) node_b master_a.
Lemma item_a_good : Forall (item_good (CO := RawCmd_ops) 99 part0 (file_size_ (mp_logger master_b))) [item_a].
Proof.
  constructor; [|constructor]. split_and!; [vm_compute; lia|exact item_a_replays|].
  assert (zlen item_a = 41) as Hl by (vm_compute; reflexivity). rewrite Hl. vm_compute. reflexivity.
Qed.

Lemma end_a_eq : end_a = (0, 49).
Proof. vm_compute. reflexivity. Qed.

Lemma stream_starts_at_boundary_witness : ∃ new n' q,
  ActivateSlaveBinlogSync conf_async 9 99 (λ _, 50) "10.0.0.1" 9221 LogOffset0 master_b ∅ =
    Some (OK, q, put_slave (slave_key "10.0.0.1" 9221) n' master_b) ∧
  Forall (task_for (CO := RawCmd_ops) part0 3) new ∧ acked_offset n' = LogOffset0.
Proof.
  destruct (stream_starts_at_boundary (CO := RawCmd_ops) conf_async 9 99 part0 (0, 0) [] [item_a] []
    [pos (mp_logger master_a)] (λ _, 50) "10.0.0.1" 9221 LogOffset0 3 node_b ∅ master_b)
    as (y1 & y2 & q1 & q2 & new & n' & _ & _ & H & _ & Hf & _ & Ha & _).
  - lia.
  - lia.
  - exact master_a_holds.
  - reflexivity.
  - fold end_a. rewrite end_a_eq. repeat constructor.
  - exact item_a_good.
  - exact (get_put_slave "10.0.0.1" 9221 node_b master_a).
  - reflexivity.
  - reflexivity.
  - reflexivity.
  - reflexivity.
  - reflexivity.
  - exists new, n'. eexists. split; [exact H|]. split; [exact Hf|exact Ha].
Defined.

Lemma TrySync_session_witness : ∃ t' w' session,
  TrySyncUpdateSlaveNode 60 61 part0 (mkNode "10.0.0.5" 9221) 8 try_resp slave_world = Some ((true, t'), w') ∧
  tsr_session_id t' = Some session.
Proof.
  destruct (TrySync_session 60 61 part0 0 fresh_master slave_world (mkNode "10.0.0.5" 9221) 8 try_resp
    slave_world_master) as (good & t' & mp' & net' & H & Hg & Hs & _).
  assert (good = true) as -> by (rewrite Hg; vm_compute; reflexivity).
  destruct (Hs eq_refl) as (s & Hs1 & _). exists t'. eexists. exists s. split; [exact H|exact Hs1].
Defined.

Definition stale_ack : BinlogSyncReq :=
  mkBinlogSyncReq (mkNode "10.0.0.1" 9221) "db0" 0 LogOffset0 LogOffset0 7 false.
Definition stale_req : InnerRequest := set_req_binlog_sync stale_ack (request kBinlogSync).
Lemma stale_session_ignored_witness :
  HandleBinlogSyncRequest conf_async 9 99 (λ _, set_raw) true 60 (λ _, 61) 8 stale_req slave_world =
    Some (tt, slave_world).
Proof.
  apply (stale_session_ignored conf_async 9 99 (λ _, set_raw) true 60 (λ _, 61) 8 stale_req stale_ack 0 fresh_master).
  - reflexivity.
  - exact slave_world_master.
  - intros meta H. discriminate H.
  - vm_compute. reflexivity.
Defined.

(** A response whose second chip is of an older session. *)
Definition chip_a (session : Z) : BinlogSyncResp :=
  mkBinlogSyncResp (mkMsgPartition "db0" 0) (first_offset tasks_a) item_a session.
Definition broken_resp : InnerResponse :=
  set_res_binlog_sync [chip_a 3; chip_a 2; chip_a 3] (response kBinlogSync msg_kOk).

Lemma item_a_fit : Forall (item_fits log0.2) (bsr_binlog <$> [chip_a 3]).
Proof.
  constructor; [|constructor]. assert (zlen item_a = 41) as Hl by (vm_compute; reflexivity).
  unfold item_fits. cbn [bsr_binlog chip_a]. rewrite Hl. vm_compute. reflexivity.
Qed.

Lemma bad_chip_stops_witness : ∃ ps fs' b' k' w',
  Put_all [item_a] (log0.1, log0.2) = Some (ps, (fs', b')) ∧
  HandleBGWorkerWriteBinlog conf_async send_nothing (λ _, set_raw) true "10.0.0.9:9221" broken_resp
    [0; 1; 2]%nat worker0 slave_world = Some (k', reconnecting part0 w') ∧
  sync_slave_partitions_ (w_rm (reconnecting part0 w')) !! part0 =
    Some (SetReplState kTryConnect connected0).
Proof.
  destruct (bad_chip_stops (CO := RawCmd_ops) conf_async send_nothing (λ _, set_raw) true part0 0 3
    "10.0.0.9:9221" broken_resp [0; 1; 2]%nat [chip_a 3] (chip_a 2) [chip_a 3] fresh_master slave_world
    worker0) as (ps & fs' & b' & k' & Hp & H).
  - reflexivity.
  - exact slave_world_master.
  - exact slave_world_following.
  - reflexivity.
  - exact log0_wf.
  - vm_compute. discriminate.
  - exact item_a_fit.
  - vm_compute. reflexivity.
  - reflexivity.
  - reflexivity.
  - constructor; [|constructor]. split; [reflexivity|exact item_a_replays].
  - reflexivity.
  - left. discriminate.
  - exists ps, fs', b', k'. eexists. split; [exact Hp|]. split; [exact H|].
    cbn. rewrite lookup_alter_eq. reflexivity.
Defined.
