(* ===== verification/CmdRes.v ===== *)
(** * Replies and flags (src/include/pika_command.h)

    The result of a command: a code and a text, and the reply in the protocol of the
    clients that they stand for.  [is_reply] says what such a reply is.  The flags say
    what kind of command it is. *)

From S2P Require Import Prelude Define Env Transverter.
From stdpp Require Import base list strings pretty gmap.
From Stdlib Require Import ZArith Lia Init.Byte.
#[local] Open Scope string_scope.
#[local] Open Scope list_scope.
#[local] Open Scope Z_scope.

(** ** Flags *)

Definition kCmdFlagsMaskRW : Z := 1.
Definition kCmdFlagsMaskSuspend : Z := 64.
Definition kCmdFlagsMaskAdminRequire : Z := 256.
Definition kCmdFlagsMaskPartition : Z := 1536.
Definition kCmdFlagsRead : Z := 0.
Definition kCmdFlagsWrite : Z := 1.
Definition kCmdFlagsKv : Z := 2.
Definition kCmdFlagsSuspend : Z := 64.
Definition kCmdFlagsAdminRequire : Z := 256.
Definition kCmdFlagsSinglePartition : Z := 512.
Definition kCmdFlagsMultiPartition : Z := 1024.

Definition flag_is_write (flag : Z) : bool := Z.land flag kCmdFlagsMaskRW =? kCmdFlagsWrite.
Definition flag_is_suspend (flag : Z) : bool := Z.land flag kCmdFlagsMaskSuspend =? kCmdFlagsSuspend.
Definition flag_is_admin_require (flag : Z) : bool :=
  Z.land flag kCmdFlagsMaskAdminRequire =? kCmdFlagsAdminRequire.
Definition flag_is_single_partition (flag : Z) : bool :=
  Z.land flag kCmdFlagsMaskPartition =? kCmdFlagsSinglePartition.
Definition flag_is_multi_partition (flag : Z) : bool :=
  Z.land flag kCmdFlagsMaskPartition =? kCmdFlagsMultiPartition.

(** ** Results *)

Inductive CmdRet :=
  | CmdNone | kOk | kPong | kSyntaxErr | kInvalidInt | kInvalidBitInt | kInvalidBitOffsetInt
  | kInvalidBitPosArgument | kWrongBitOpNotNum | kInvalidFloat | kOverFlow | kNotFound | kOutOfRange
  | kInvalidPwd | kNoneBgsave | kPurgeExist | kInvalidParameter | kWrongNum | kInvalidIndex
  | kInvalidDbType | kInvalidTable | kInconsistentHashTag | kErrOther.
#[export] Instance CmdRet_eq_dec : EqDecision CmdRet.
Proof. solve_decision. Defined.

Record CmdRes := mkRes { message_ : bytes; ret_ : CmdRet }.
Definition res_new : CmdRes := mkRes [] CmdNone.

Definition res_none (r : CmdRes) : bool := bool_decide (ret_ r = CmdNone) && bool_decide (message_ r = []).
Definition res_ok (r : CmdRes) : bool := bool_decide (ret_ r = kOk) || bool_decide (ret_ r = CmdNone).

(** [SetRes]: an empty text leaves the old one. *)
Definition SetRes (ret : CmdRet) (content : bytes) (r : CmdRes) : CmdRes :=
  mkRes (if bool_decide (content = []) then message_ r else content) ret.

Section Res.
Context {N : NumString}.

(** A line of the protocol. *)
Definition rline (s : string) : bytes := str s ++ kNewLine.

Definition message (r : CmdRes) : bytes :=
  match ret_ r with
  | CmdNone => message_ r
  | kOk => rline "+OK"
  | kPong => rline "+PONG"
  | kSyntaxErr => rline "-ERR syntax error"
  | kInvalidInt => rline "-ERR value is not an integer or out of range"
  | kInvalidBitInt => rline "-ERR bit is not an integer or out of range"
  | kInvalidBitOffsetInt => rline "-ERR bit offset is not an integer or out of range"
  | kWrongBitOpNotNum => rline "-ERR BITOP NOT must be called with a single source key."
  | kInvalidBitPosArgument => rline "-ERR The bit argument must be 1 or 0."
  | kInvalidFloat => rline "-ERR value is not a valid float"
  | kOverFlow => rline "-ERR increment or decrement would overflow"
  | kNotFound => rline "-ERR no such key"
  | kOutOfRange => rline "-ERR index out of range"
  | kInvalidPwd => rline "-ERR invalid password"
  | kNoneBgsave => rline "-ERR No BGSave Works now"
  | kPurgeExist => rline "-ERR binlog already in purging..."
  | kInvalidParameter => rline "-ERR Invalid Argument"
  | kWrongNum => str "-ERR wrong number of arguments for '" ++ message_ r ++ rline "' command"
  | kInvalidIndex => str "-ERR invalid DB index for '" ++ message_ r ++ rline "'"
  | kInvalidDbType => str "-ERR invalid DB for '" ++ message_ r ++ rline "'"
  | kInconsistentHashTag => rline "-ERR parameters hashtag is inconsistent"
  | kInvalidTable => str "-ERR invalid Table for '" ++ message_ r ++ rline "'"
  | kErrOther => str "-ERR " ++ message_ r ++ kNewLine
  end.

Definition append_message (f : bytes → bytes) (r : CmdRes) : CmdRes := mkRes (f (message_ r)) (ret_ r).
Definition AppendStringLen (ori : Z) : CmdRes → CmdRes := append_message (λ m, RedisAppendLen m ori (str "$")).
Definition AppendArrayLen (ori : Z) : CmdRes → CmdRes := append_message (λ m, RedisAppendLen m ori (str "*")).
Definition AppendInteger (ori : Z) : CmdRes → CmdRes := append_message (λ m, RedisAppendLen m ori (str ":")).
Definition AppendContent (value : bytes) : CmdRes → CmdRes := append_message (λ m, (RedisAppendContent m value)).
Definition AppendString (value : bytes) (r : CmdRes) : CmdRes := AppendContent value (AppendStringLen (zlen value) r).
Definition AppendStringRaw (value : bytes) : CmdRes → CmdRes := append_message (λ m, m ++ value).

(** ** The protocol *)

(** A text without line ends. *)
Definition flat (s : bytes) : Prop := (x0d ∉ s) ∧ (x0a ∉ s).

(** The first character of a status, an error or an integer. *)
Definition line_head (c : byte) : bool := existsb (λ d, bool_decide (c = d)) (str "+-:").

(** One reply: a status, an error or an integer on a line, a string with its length or
    none, an array of replies. *)
Inductive is_reply : bytes → Prop :=
  | reply_line c s : line_head c = true → flat s → is_reply (c :: s ++ kNewLine)
  | reply_nil : is_reply (rline "$-1")
  | reply_nil_array : is_reply (rline "*-1")
  | reply_bulk s : is_reply (str "$" ++ ll2string (zlen s) ++ kNewLine ++ s ++ kNewLine)
  | reply_array l : Forall is_reply l →
      is_reply (str "*" ++ ll2string (zlen l) ++ kNewLine ++ concat l).
End Res.

(** ** Facts *)

Section Facts.
Context {N : NumString} {NL : NumStringLaws}.

Lemma flat_app s t : flat s → flat t → flat (s ++ t).
Proof. intros [H1 H2] [H3 H4]. split; rewrite elem_of_app; naive_solver. Qed.

Definition flatb (s : bytes) : bool :=
  forallb (λ c, negb (bool_decide (c = x0d)) && negb (bool_decide (c = x0a))) s.
Lemma flatb_flat s : flatb s = true → flat s.
Proof.
  intros H. unfold flatb in H. rewrite forallb_forall in H.
  split; intros Hin; apply list_elem_of_In, H in Hin; by rewrite bool_decide_eq_true_2 in Hin || done.
Qed.

Lemma rline_reply c s : line_head c = true → flatb (str s) = true → is_reply (c :: rline s).
Proof. intros Hc Hs. apply (reply_line c (str s)); [done|]. by apply flatb_flat. Qed.

(** A text the codes that quote it can carry. *)
Definition res_flat (r : CmdRes) : Prop := ret_ r = CmdNone ∨ flat (message_ r).

Lemma quoted_reply a m b : flatb (str a) = true → flat m → flatb (str b) = true →
  is_reply (str "-" ++ str a ++ m ++ rline b).
Proof.
  intros Ha Hm Hb. unfold rline. rewrite !app_assoc, <- (app_assoc (str "-")). rewrite <- !app_assoc.
  replace (str "-" ++ str a ++ m ++ str b ++ kNewLine) with (x2d :: (str a ++ m ++ str b) ++ kNewLine)
    by (rewrite <- !app_assoc; done).
  apply reply_line; [reflexivity|]. repeat apply flat_app; try done; by apply flatb_flat.
Qed.

(** Whatever the code, the message is a reply, if the text is one or is quoted. *)
Lemma message_reply r : ret_ r ≠ CmdNone → flat (message_ r) → is_reply (message r).
Proof.
  intros Hn Hf. destruct r as [m c]. cbn in *. destruct c; try done; unfold message; cbn [ret_ message_].
  all: try (apply (rline_reply x2b); [reflexivity|reflexivity]).
  all: try (apply (rline_reply x2d); [reflexivity|reflexivity]).
  - by apply (quoted_reply "ERR wrong number of arguments for '").
  - by apply (quoted_reply "ERR invalid DB index for '").
  - by apply (quoted_reply "ERR invalid DB for '").
  - by apply (quoted_reply "ERR invalid Table for '").
  - by apply (quoted_reply "ERR " m "").
Qed.

Lemma flat_digits (z : Z) : flat (str (pretty z)).
Proof.
  assert (∀ c s, lacks c s = true → Ascii.byte_of_ascii c ∉ str s) as H.
  { intros c s. induction s as [|d s IH]; [intros _; apply not_elem_of_nil|]. cbn [lacks]. rewrite andb_true_iff. intros [Hd Hs].
    change (str (String d s)) with (Ascii.byte_of_ascii d :: str s). intros [E|Hin]%elem_of_cons; [|by apply IH].
    apply negb_true_iff, bool_decide_eq_false in Hd. apply Hd.
    rewrite <- (Ascii.ascii_of_byte_of_ascii d), <- E. apply Ascii.ascii_of_byte_of_ascii. }
  split.
  - apply (H (Ascii.ascii_of_nat 13)). by apply lacks_pretty.
  - apply (H (Ascii.ascii_of_nat 10)). by apply lacks_pretty.
Qed.

Lemma flat_num z : - 2 ^ 63 ≤ z < 2 ^ 63 → flat (ll2string z).
Proof. intros Hz. rewrite law_ll2string by done. apply flat_digits. Qed.

Lemma integer_reply z : - 2 ^ 63 ≤ z < 2 ^ 63 → is_reply (message (AppendInteger z res_new)).
Proof. intros Hz. apply (reply_line x3a); [reflexivity|by apply flat_num]. Qed.

Lemma bulk_reply s : is_reply (message (AppendString s res_new)).
Proof.
  unfold AppendString, AppendContent, AppendStringLen, append_message, message, RedisAppendContent, RedisAppendLen.
  cbn [ret_ message_ res_new app]. rewrite <- !app_assoc. apply reply_bulk.
Qed.

Lemma content_reply c s : line_head c = true → flat s → is_reply (message (AppendContent (c :: s) res_new)).
Proof. intros Hc Hs. by apply (reply_line c). Qed.
End Facts.
