(* ===== verification/Blackwidow.v ===== *)
(** * The storage engine

    The operations of the storage library, a separate program, that the commands of
    this one call.  Each takes the clock's reading, since keys expire, and the database;
    what it returns is a status, the values of its out parameters and the database.  An
    out parameter that is initialised by the caller is also an argument. *)

From S2P Require Import Prelude.
From stdpp Require Import base list strings pretty gmap.
From Stdlib Require Import ZArith Lia Init.Byte.
#[local] Open Scope string_scope.
#[local] Open Scope list_scope.
#[local] Open Scope Z_scope.

(** What is asked of the library's status values. *)
Class RocksStatus (RS : Type) := {
  rs_ok : RS → bool;
  rs_IsNotFound : RS → bool;
  rs_IsCorruption : RS → bool;
  rs_IsInvalidArgument : RS → bool;
  rs_ToString : RS → bytes }.

Inductive DataType := kAll | kStrings | kHashes | kLists | kZSets | kSets.
#[export] Instance DataType_eq_dec : EqDecision DataType.
Proof. solve_decision. Defined.

Record KeyValue := mkKeyValue { kv_key : bytes; kv_value : bytes }.

Class Blackwidow (RS DB : Type) := {
  bw_Set (key value : bytes) (now : Z) : DB → RS * DB;
  bw_Setxx (key value : bytes) (res ttl : Z) (now : Z) : DB → RS * Z * DB;
  (** [None]: without the argument [ttl]. *)
  bw_Setnx (key value : bytes) (res : Z) (ttl : option Z) (now : Z) : DB → RS * Z * DB;
  bw_Setvx (key target value : bytes) (res ttl : Z) (now : Z) : DB → RS * Z * DB;
  bw_Setex (key value : bytes) (ttl : Z) (now : Z) : DB → RS * DB;
  bw_PKSetexAt (key value : bytes) (timestamp : Z) (now : Z) : DB → RS * DB;
  bw_Get (key : bytes) (now : Z) : DB → RS * bytes;
  bw_Del (keys : list bytes) (now : Z) : DB → Z * DB;
  bw_Incrby (key : bytes) (by_ : Z) (now : Z) : DB → RS * Z * DB;
  bw_Decrby (key : bytes) (by_ : Z) (now : Z) : DB → RS * Z * DB;
  bw_Incrbyfloat (key value : bytes) (now : Z) : DB → RS * bytes * DB;
  bw_GetSet (key value : bytes) (now : Z) : DB → RS * bytes * DB;
  bw_Append (key value : bytes) (now : Z) : DB → RS * Z * DB;
  bw_MGet (keys : list bytes) (now : Z) : DB → RS * list (RS * bytes);
  (** The next cursor and the keys. *)
  bw_Scan (type : DataType) (cursor : Z) (pattern : bytes) (count : Z) (now : Z) : DB → Z * list bytes;
  bw_Scanx (type : DataType) (start_key pattern : bytes) (count : Z) (now : Z) : DB → RS * list bytes * bytes;
  (** The keys, the keys with their values, and the next key. *)
  bw_PKScanRange (type : DataType) (key_start key_end pattern : bytes) (limit : Z) (now : Z) :
    DB → RS * list bytes * list KeyValue * bytes;
  bw_PKRScanRange (type : DataType) (key_start key_end pattern : bytes) (limit : Z) (now : Z) :
    DB → RS * list bytes * list KeyValue * bytes;
  bw_Delvx (key value : bytes) (res : Z) (now : Z) : DB → RS * Z * DB;
  bw_MSet (kvs : list KeyValue) (now : Z) : DB → RS * DB;
  bw_MSetnx (kvs : list KeyValue) (res : Z) (now : Z) : DB → RS * Z * DB;
  bw_Getrange (key : bytes) (start_ end_ : Z) (now : Z) : DB → RS * bytes;
  bw_Setrange (key : bytes) (offset : Z) (value : bytes) (now : Z) : DB → RS * Z * DB;
  bw_Strlen (key : bytes) (now : Z) : DB → RS * Z;
  bw_Exists (keys : list bytes) (now : Z) : DB → Z;
  bw_Expire (key : bytes) (ttl : Z) (now : Z) : DB → Z * DB;
  bw_Expireat (key : bytes) (timestamp : Z) (now : Z) : DB → Z * DB;
  bw_TTL (key : bytes) (now : Z) : DB → list (DataType * Z);
  bw_Persist (key : bytes) (now : Z) : DB → Z * DB;
  bw_Type (key : bytes) (now : Z) : DB → RS * bytes;
}.

(** ** The other types

    A field with its value, and a member with its score, are pairs. *)

Class Hashes (RS DB : Type) := {
  bw_HDel (key : bytes) (fields : list bytes) (now : Z) : DB → RS * Z * DB;
  bw_HSet (key field value : bytes) (now : Z) : DB → RS * Z * DB;
  bw_HGet (key field : bytes) (now : Z) : DB → RS * bytes;
  (** The fields and the next cursor. *)
  bw_HScan (key : bytes) (cursor : Z) (pattern : bytes) (count : Z) (now : Z) : DB → RS * list (bytes * bytes) * Z;
  bw_HExists (key field : bytes) (now : Z) : DB → RS;
  bw_HIncrby (key field : bytes) (by_ : Z) (now : Z) : DB → RS * Z * DB;
  bw_HIncrbyfloat (key field by_ : bytes) (now : Z) : DB → RS * bytes * DB;
  bw_HKeys (key : bytes) (now : Z) : DB → RS * list bytes;
  bw_HLen (key : bytes) (now : Z) : DB → RS * Z;
  bw_HMGet (key : bytes) (fields : list bytes) (now : Z) : DB → RS * list (RS * bytes);
  bw_HMSet (key : bytes) (fvs : list (bytes * bytes)) (now : Z) : DB → RS * DB;
  bw_HSetnx (key field value : bytes) (now : Z) : DB → RS * Z * DB;
  bw_HStrlen (key field : bytes) (now : Z) : DB → RS * Z;
  bw_HVals (key : bytes) (now : Z) : DB → RS * list bytes;
  bw_HScanx (key start_field pattern : bytes) (count : Z) (now : Z) : DB → RS * list (bytes * bytes) * bytes;
  bw_PKHScanRange (key field_start field_end pattern : bytes) (limit : Z) (now : Z) :
    DB → RS * list (bytes * bytes) * bytes;
  bw_PKHRScanRange (key field_start field_end pattern : bytes) (limit : Z) (now : Z) :
    DB → RS * list (bytes * bytes) * bytes;
}.

Inductive BeforeOrAfter := Before | After.

Class Lists (RS DB : Type) := {
  bw_LIndex (key : bytes) (index : Z) (now : Z) : DB → RS * bytes;
  bw_LInsert (key : bytes) (dir : BeforeOrAfter) (pivot value : bytes) (now : Z) : DB → RS * Z * DB;
  bw_LLen (key : bytes) (now : Z) : DB → RS * Z;
  bw_LPush (key : bytes) (values : list bytes) (now : Z) : DB → RS * Z * DB;
  bw_LPop (key : bytes) (now : Z) : DB → RS * bytes * DB;
  bw_LPushx (key value : bytes) (now : Z) : DB → RS * Z * DB;
  bw_LRange (key : bytes) (left right : Z) (now : Z) : DB → RS * list bytes;
  bw_LRem (key : bytes) (count : Z) (value : bytes) (now : Z) : DB → RS * Z * DB;
  bw_LSet (key : bytes) (index : Z) (value : bytes) (now : Z) : DB → RS * DB;
  bw_LTrim (key : bytes) (start stop : Z) (now : Z) : DB → RS * DB;
  bw_RPop (key : bytes) (now : Z) : DB → RS * bytes * DB;
  bw_RPoplpush (source receiver : bytes) (now : Z) : DB → RS * bytes * DB;
  bw_RPush (key : bytes) (values : list bytes) (now : Z) : DB → RS * Z * DB;
  bw_RPushx (key value : bytes) (now : Z) : DB → RS * Z * DB;
}.

(** The engine chooses at random what SPOP and SRANDMEMBER take: the choice is part of the
    database. *)
Class Sets (RS DB : Type) := {
  bw_SAdd (key : bytes) (members : list bytes) (now : Z) : DB → RS * Z * DB;
  bw_SPop (key : bytes) (now : Z) : DB → RS * bytes * DB;
  bw_SCard (key : bytes) (now : Z) : DB → RS * Z;
  bw_SMembers (key : bytes) (now : Z) : DB → RS * list bytes;
  bw_SScan (key : bytes) (cursor : Z) (pattern : bytes) (count : Z) (now : Z) : DB → RS * list bytes * Z;
  bw_SRem (key : bytes) (members : list bytes) (now : Z) : DB → RS * Z * DB;
  bw_SUnion (keys : list bytes) (now : Z) : DB → RS * list bytes;
  bw_SUnionstore (dest : bytes) (keys : list bytes) (now : Z) : DB → RS * Z * DB;
  bw_SInter (keys : list bytes) (now : Z) : DB → RS * list bytes;
  bw_SInterstore (dest : bytes) (keys : list bytes) (now : Z) : DB → RS * Z * DB;
  bw_SIsmember (key member : bytes) (now : Z) : DB → RS * Z;
  bw_SDiff (keys : list bytes) (now : Z) : DB → RS * list bytes;
  bw_SDiffstore (dest : bytes) (keys : list bytes) (now : Z) : DB → RS * Z * DB;
  bw_SMove (source dest member : bytes) (now : Z) : DB → RS * Z * DB;
  bw_SRandmember (key : bytes) (count : Z) (now : Z) : DB → RS * list bytes * DB;
}.

Inductive AGGREGATE := SUM | MIN | MAX.

(** [D]: the type [double] of scores. *)
Class ZSets (D RS DB : Type) := {
  bw_ZAdd (key : bytes) (sms : list (D * bytes)) (now : Z) : DB → RS * Z * DB;
  bw_ZCard (key : bytes) (now : Z) : DB → RS * Z;
  bw_ZScan (key : bytes) (cursor : Z) (pattern : bytes) (count : Z) (now : Z) : DB → RS * list (D * bytes) * Z;
  bw_ZIncrby (key member : bytes) (by_ : D) (now : Z) : DB → RS * D * DB;
  bw_ZRange (key : bytes) (start stop : Z) (now : Z) : DB → RS * list (D * bytes);
  bw_ZRevrange (key : bytes) (start stop : Z) (now : Z) : DB → RS * list (D * bytes);
  bw_ZRangebyscore (key : bytes) (min max : D) (left_close right_close : bool) (now : Z) : DB → RS * list (D * bytes);
  bw_ZRevrangebyscore (key : bytes) (min max : D) (left_close right_close : bool) (now : Z) : DB → RS * list (D * bytes);
  bw_ZCount (key : bytes) (min max : D) (left_close right_close : bool) (now : Z) : DB → RS * Z;
  bw_ZRem (key : bytes) (members : list bytes) (now : Z) : DB → RS * Z * DB;
  bw_ZUnionstore (dest : bytes) (keys : list bytes) (weights : list D) (agg : AGGREGATE) (now : Z) : DB → RS * Z * DB;
  bw_ZInterstore (dest : bytes) (keys : list bytes) (weights : list D) (agg : AGGREGATE) (now : Z) : DB → RS * Z * DB;
  bw_ZRank (key member : bytes) (now : Z) : DB → RS * Z;
  bw_ZRevrank (key member : bytes) (now : Z) : DB → RS * Z;
  bw_ZScore (key member : bytes) (now : Z) : DB → RS * D;
  bw_ZRangebylex (key min max : bytes) (left_close right_close : bool) (now : Z) : DB → RS * list bytes;
  bw_ZLexcount (key min max : bytes) (left_close right_close : bool) (now : Z) : DB → RS * Z;
  bw_ZRemrangebyrank (key : bytes) (start stop : Z) (now : Z) : DB → RS * Z * DB;
  bw_ZRemrangebyscore (key : bytes) (min max : D) (left_close right_close : bool) (now : Z) : DB → RS * Z * DB;
  bw_ZRemrangebylex (key min max : bytes) (left_close right_close : bool) (now : Z) : DB → RS * Z * DB;
  bw_ZPopMax (key : bytes) (count : Z) (now : Z) : DB → RS * list (D * bytes) * DB;
  bw_ZPopMin (key : bytes) (count : Z) (now : Z) : DB → RS * list (D * bytes) * DB;
}.

Inductive BitOpType := kBitOpNot | kBitOpAnd | kBitOpOr | kBitOpXor.
#[export] Instance BitOpType_eq_dec : EqDecision BitOpType.
Proof. solve_decision. Defined.

Class Bits (RS DB : Type) := {
  bw_SetBit (key : bytes) (offset value : Z) (now : Z) : DB → RS * Z * DB;
  bw_GetBit (key : bytes) (offset : Z) (now : Z) : DB → RS * Z;
  bw_BitCount (key : bytes) (start end_ : Z) (have_range : bool) (now : Z) : DB → RS * Z;
  (** Without a range, from a start, and in a range. *)
  bw_BitPos (key : bytes) (bit : Z) (range : option (Z * option Z)) (now : Z) : DB → RS * Z;
  bw_BitOp (op : BitOpType) (dest : bytes) (srcs : list bytes) (now : Z) : DB → RS * Z * DB;
}.

Class HyperLogLogs (RS DB : Type) := {
  bw_PfAdd (key : bytes) (values : list bytes) (now : Z) : DB → RS * bool * DB;
  bw_PfCount (keys : list bytes) (now : Z) : DB → RS * Z;
  bw_PfMerge (keys : list bytes) (now : Z) : DB → RS * DB;
}.
