(* ===== verification/CmdArgs.v ===== *)
(** * Arguments and the command table (src/pika_command.cc)

    What the [DoInitial]s of the commands have in common, the entries of the command
    table, and the lemmas about them.  An entry makes a command of a type [C] from the
    arguments; each family of commands has its own type and its part of the table. *)

From S2P Require Import Prelude Define Env Transverter Command StableLog CmdRes.
From stdpp Require Import base list strings pretty gmap.
From Stdlib Require Import ZArith Lia Init.Byte.
#[local] Open Scope string_scope.
#[local] Open Scope list_scope.
#[local] Open Scope Z_scope.

(** [Cmd::CheckArg]. *)
Definition CheckArg (arity : Z) (argv : list bytes) : bool :=
  negb (((arity >? 0) && negb (zlen argv =? arity)) || ((arity <? 0) && (zlen argv <? - arity))).

(** A text as C reads it: up to the first NUL. *)
Fixpoint c_text (s : bytes) : bytes :=
  match s with
  | [] => []
  | c :: s => if bool_decide (c = x00) then [] else c :: c_text s
  end.
Definition tolower (c : byte) : byte :=
  if (65 <=? Z.of_N (Byte.to_N c)) && (Z.of_N (Byte.to_N c) <=? 90)
  then default c (Byte.of_N (Byte.to_N c + 32)) else c.
(** [!strcasecmp(s, t)] for a lower-case [t]. *)
Definition same_word (s : bytes) (t : string) : bool := bool_decide (tolower <$> c_text s = str t).

(** What [DoInitial] makes of the arguments: an error or the command; [None]: it read an
    argument that is not there. *)
Abbreviation Init C := (option (CmdRes + C)).
Definition bad {C} (ret : CmdRet) (content : string) : Init C := Some (inl (SetRes ret (str content) res_new)).
Definition good {C} (c : C) : Init C := Some (inr c).

(** [CheckArg], then [k]. *)
Definition checked {C} (name : string) (arity : Z) (argv : list bytes) (k : Init C) : Init C :=
  if CheckArg arity argv then k else bad kWrongNum name.

(** An entry of the table: the name, the number of arguments, the flags, the name in the
    error about their number, and the rest of [DoInitial]. *)
Record Entry (C : Type) := mkEntry {
  e_name : string; e_arity : Z; e_flag : Z; e_wrong : string; e_init : list bytes → Init C }.
#[global] Arguments mkEntry {C}.
#[global] Arguments e_name {C}.
#[global] Arguments e_arity {C}.
#[global] Arguments e_flag {C}.
#[global] Arguments e_wrong {C}.
#[global] Arguments e_init {C}.
Definition entry {C} (name : string) (arity flag : Z) (init : list bytes → Init C) : Entry C :=
  mkEntry name arity flag name init.

Definition DoInitial {C} (e : Entry C) (argv : list bytes) : Init C :=
  checked (e_wrong e) (e_arity e) argv (e_init e argv).
Definition find_entry {C} (table : list (Entry C)) (name : bytes) : option (Entry C) :=
  find (λ e, bool_decide (str (e_name e) = name)) table.
(** The entry of a command read from the log: its name in lower case. *)
Definition log_entry {C} (table : list (Entry C)) (name : bytes) : option (Entry C) :=
  find_entry table (tolower <$> name).

(** [slash::string2d]: whether a text is a floating-point number. *)
Class FloatText := { string2d : bytes → bool }.

Section Initial.
Context {SN : StringNum} {C : Type}.

(** [slash::string2l]. *)
Definition num (s : bytes) : option Z := string2l (String.string_of_list_byte s).
Definition need_num (s : bytes) (k : Z → Init C) : Init C :=
  match num s with None => bad kInvalidInt "" | Some n => k n end.

(** The options of the scans: MATCH, and COUNT or LIMIT, whose numbers must not be
    [refused]; then [finish]. *)
Fixpoint scan_options (word : string) (refused : Z → bool) (finish : bytes → Z → Init C)
    (pattern : bytes) (count : Z) (opts : list bytes) : Init C :=
  match opts with
  | [] => finish pattern count
  | opt :: opts =>
      if same_word opt "match" || same_word opt word then
        match opts with
        | [] => bad kSyntaxErr ""
        | v :: opts =>
            if same_word opt "match" then scan_options word refused finish v count opts
            else match num v with
                 | None => bad kInvalidInt ""
                 | Some n => if refused n then bad kInvalidInt "" else scan_options word refused finish pattern n opts
                 end
        end
      else bad kSyntaxErr ""
  end.

(** The commands of one, two and three arguments. *)
Definition key_only (make : bytes → C) (argv : list bytes) : Init C :=
  key ← argv !! 1%nat; good (make key).
Definition key_value (make : bytes → bytes → C) (argv : list bytes) : Init C :=
  key ← argv !! 1%nat; value ← argv !! 2%nat; good (make key value).
Definition key_two (make : bytes → bytes → bytes → C) (argv : list bytes) : Init C :=
  key ← argv !! 1%nat; a ← argv !! 2%nat; b ← argv !! 3%nat; good (make key a b).
Definition key_num (make : bytes → Z → C) (argv : list bytes) : Init C :=
  key ← argv !! 1%nat; v ← argv !! 2%nat; need_num v (λ n, good (make key n)).
Definition key_num_value (make : bytes → Z → bytes → C) (argv : list bytes) : Init C :=
  key ← argv !! 1%nat; v ← argv !! 2%nat;
  need_num v (λ n, value ← argv !! 3%nat; good (make key n value)).
Definition key_nums (make : bytes → Z → Z → C) (argv : list bytes) : Init C :=
  key ← argv !! 1%nat; a ← argv !! 2%nat;
  need_num a (λ m, b ← argv !! 3%nat; need_num b (λ n, good (make key m n))).
Definition all_keys (make : list bytes → C) (argv : list bytes) : Init C := good (make (drop 1 argv)).
Definition key_list (make : bytes → list bytes → C) (argv : list bytes) : Init C :=
  key ← argv !! 1%nat; good (make key (drop 2 argv)).
End Initial.

(** A family of commands: its part of the table, the keys a command locks, and its text in
    the log, for the arguments and the clock's reading. *)
Class CmdFamily (C : Type) := {
  family_table : list (Entry C);
  family_key : C → list bytes;
  family_text : list bytes → C → Z → bytes }.

(** ** Lemmas *)

Lemma CheckArg_exact arity argv : 0 < arity → CheckArg arity argv = true → zlen argv = arity.
Proof. unfold CheckArg. intros Ha H. lia. Qed.
Lemma CheckArg_least arity argv : arity < 0 → CheckArg arity argv = true → - arity ≤ zlen argv.
Proof. unfold CheckArg. intros Ha H. lia. Qed.

(** Induction for the loops that may take two arguments in a step. *)
Lemma by_length {A} (P : list A → Prop) :
  (∀ l, (∀ k, (length k < length l)%nat → P k) → P l) → ∀ l, P l.
Proof.
  intros H l. assert (∀ n k, (length k < n)%nat → P k) as G; [|by apply (G (S (length l))), Nat.lt_succ_diag_r].
  induction n as [|n IH]; intros k Hk; [lia|]. apply H. intros m Hm. apply IH. lia.
Qed.
Ltac option_loop IH := repeat (case_match; try done); subst; apply IH; cbn; lia.

(** What an error about the arguments is. *)
Definition refusal (r : CmdRes) : Prop :=
  ∃ ret s, ret ≠ CmdNone ∧ ret ≠ kOk ∧ flatb (str s) = true ∧ r = SetRes ret (str s) res_new.

Lemma refusal_not_ok r : refusal r → res_ok r = false.
Proof. intros (ret & s & Hn & Ho & _ & ->). unfold res_ok. cbn [SetRes ret_]. by rewrite !bool_decide_eq_false_2. Qed.
Lemma refusal_reply `{NumString} r : refusal r → is_reply (message r).
Proof.
  intros (ret & s & Hn & _ & Hs & ->). apply message_reply; [done|]. unfold SetRes. cbn [message_].
  case_bool_decide; [split; apply not_elem_of_nil|by apply flatb_flat].
Qed.

(** The outcome of [DoInitial]: [U] if it reads an argument that is not there, a refusal, or
    a command with [G]. *)
Definition outcome {C} (U : Prop) (G : C → Prop) (x : Init C) : Prop :=
  match x with None => U | Some (inl r) => refusal r | Some (inr c) => G c end.

Section Outcome.
Context {SN : StringNum} {C : Type} (U : Prop) (G : C → Prop).

Lemma outcome_bad ret s : ret ≠ CmdNone → ret ≠ kOk → flatb (str s) = true → outcome U G (bad ret s).
Proof. intros. by exists ret, s. Qed.
Lemma outcome_good c : G c → outcome U G (good c).
Proof. done. Qed.
Lemma outcome_arg (argv : list bytes) i (k : bytes → Init C) : (i < length argv)%nat →
  (∀ v, outcome U G (k v)) → outcome U G (argv !! i ≫= k).
Proof. intros Hi H. apply lookup_lt_is_Some in Hi as [v ->]. apply H. Qed.
Lemma outcome_need_num s (k : Z → Init C) : (∀ n, num s = Some n → outcome U G (k n)) → outcome U G (need_num s k).
Proof. unfold need_num. intros H. destruct (num s); [by apply H|by apply outcome_bad]. Qed.
Lemma outcome_scan word refused finish opts : (∀ p n, outcome U G (finish p n)) → ∀ pattern count,
  outcome U G (scan_options word refused finish pattern count opts).
Proof.
  intros HP. induction opts as [[|x l] IH] using by_length; intros pattern count; [by apply HP|].
  cbn [scan_options]. repeat (case_match; try by apply outcome_bad); subst; apply IH; cbn; lia.
Qed.

Lemma outcome_checked e argv : flatb (str (e_wrong e)) = true →
  (CheckArg (e_arity e) argv = true → outcome U G (e_init e argv)) → outcome U G (DoInitial e argv).
Proof. intros Hn H. unfold DoInitial, checked. destruct (CheckArg _ _); [auto|by apply outcome_bad]. Qed.
End Outcome.

(** A table whose names and errors are well formed, whose [DoInitial]s read an argument that
    is not there only in the case [U], and make commands with [G] of their names, flags and
    arguments. *)
Definition table_ok {C} (U : string → list bytes → Prop) (G : string → Z → list bytes → C → Prop) (table : list (Entry C)) : Prop :=
  Forall (λ e, (flatb (str (e_wrong e)) = true ∧ tolower <$> str (e_name e) = str (e_name e)) ∧
    ∀ argv, CheckArg (e_arity e) argv = true →
      outcome (U (e_name e) argv) (G (e_name e) (e_flag e) argv) (e_init e argv)) table.

Lemma table_outcome {C} U G (table : list (Entry C)) e argv :
  table_ok U G table → e ∈ table →
  outcome (U (e_name e) argv) (G (e_name e) (e_flag e) argv) (DoInitial e argv).
Proof.
  unfold table_ok. rewrite Forall_forall. intros H He. destruct (H e He) as [[Hw _] Hi].
  apply outcome_checked; [done|apply Hi].
Qed.
Lemma table_names {C} U G (table : list (Entry C)) :
  table_ok U G table → Forall (λ e, tolower <$> str (e_name e) = str (e_name e)) table.
Proof. intros H. eapply Forall_impl; [exact H|]. by intros e [[_ Hn] _]. Qed.

(** A step through the definition of a [DoInitial]; the number of arguments is in the
    hypotheses. *)
Ltac outcome_step :=
  first [ apply outcome_bad; [done|done|reflexivity] | apply outcome_arg; [unfold zlen in *; lia|intros ?]
    | apply outcome_need_num; intros ? ? | apply outcome_scan; intros ? ? | case_match ].
Ltac arity := match goal with H : CheckArg _ ?argv = true |- _ =>
  first [apply CheckArg_exact in H; [|lia] | apply CheckArg_least in H; [|lia]] end.

Create HintDb cmd_init.
#[export] Hint Unfold key_only key_value key_two key_num key_num_value key_nums all_keys key_list : cmd_init.

(** The names of a table are in lower case: the log finds the entry the client found. *)
Lemma log_entry_found {C} (table : list (Entry C)) name e :
  Forall (λ e, tolower <$> str (e_name e) = str (e_name e)) table →
  find_entry table name = Some e → log_entry table name = Some e.
Proof.
  intros Hl He. unfold log_entry. enough (tolower <$> name = name) as -> by done.
  unfold find_entry in He. apply find_some in He as [Hin <-%bool_decide_eq_true_1].
  rewrite Forall_forall in Hl. by apply Hl, list_elem_of_In.
Qed.
Lemma find_entry_in {C} (table : list (Entry C)) name e : find_entry table name = Some e → e ∈ table.
Proof. intros [He _]%find_some. by apply list_elem_of_In. Qed.
