(* ===== verification/CmdReply.v ===== *)
(** * Replies of the commands

    What the [Do]s of the commands have in common: the replies they make of a status and
    the values of the engine, and that each is one reply of the protocol. *)

From S2P Require Import Prelude Define Env Transverter Command StableLog CmdRes Blackwidow.
From stdpp Require Import base list strings pretty gmap.
From Stdlib Require Import ZArith Lia Init.Byte.
#[local] Open Scope string_scope.
#[local] Open Scope list_scope.
#[local] Open Scope Z_scope.

Definition PIKA_SCAN_STEP_LENGTH : Z := 1000.

Section Replies.
Context {N : NumString} {RS : Type} {RO : RocksStatus RS}.

(** A text the commands write for [int64_t]: [std::to_string]. *)
Definition to_string (n : Z) : bytes := str (pretty n).

(** *** Replies *)

Definition err (s : RS) : CmdRes := SetRes kErrOther (rs_ToString s) res_new.
Definition internal (msg : string) : CmdRes := SetRes kErrOther (str msg) res_new.
Definition integer (n : Z) : CmdRes := AppendInteger n res_new.
Definition ok_or_err (s : RS) : CmdRes := if rs_ok s then SetRes kOk [] res_new else err s.
Definition integer_or_err (s : RS) (n : Z) : CmdRes := if rs_ok s then integer n else err s.
Definition found_or_err (s : RS) (n : Z) : CmdRes := if rs_ok s || rs_IsNotFound s then integer n else err s.
Definition count_or_err (n : Z) (msg : string) : CmdRes := if negb (n =? -1) then integer n else internal msg.
(** INCR and its kind; [corrupt] is the status text for a value that is no number. *)
Definition counter_reply (done : bool) (corrupt : string) (s : RS) (n : Z) : CmdRes :=
  if done then AppendContent (str ":" ++ to_string n) res_new
  else if rs_IsCorruption s && bool_decide (rs_ToString s = str corrupt)
  then SetRes kInvalidInt [] res_new
  else if rs_IsInvalidArgument s then SetRes kOverFlow [] res_new
  else err s.
Definition float_reply (corrupt : string) (s : RS) (v : bytes) : CmdRes :=
  if rs_ok s then AppendString v res_new
  else if rs_IsCorruption s && bool_decide (rs_ToString s = str corrupt)
  then SetRes kInvalidFloat [] res_new
  else if rs_IsInvalidArgument s then SetRes kOverFlow [] res_new
  else err s.
Definition append_strings (l : list bytes) (r : CmdRes) : CmdRes := foldl (λ r k, AppendString k r) r l.

(** The texts of the keys of a scan, after [raw]. *)
Definition raw_keys (keys : list bytes) (raw : bytes) : bytes :=
  foldl (λ raw k, RedisAppendContent (RedisAppendLen raw (zlen k) (str "$")) k) raw keys.

Definition too_large : CmdRes := internal "Response exceeds the max-client-response-size limit".

Definition mget_reply (vss : list (RS * bytes)) : CmdRes :=
  foldl (λ r vs, if rs_ok vs.1 then AppendString vs.2 r else AppendContent (str "$-1") r)
    (AppendArrayLen (zlen vss) res_new) vss.

(** [r] for a status that is ok or says that the key was not found. *)
Definition found_reply (s : RS) (r : CmdRes) : CmdRes := if rs_ok s || rs_IsNotFound s then r else err s.
(** An array of texts, after [r]. *)
Definition strings_reply (l : list bytes) (r : CmdRes) : CmdRes := append_strings l (AppendArrayLen (zlen l) r).
(** A list that may be missing. *)
Definition list_reply (s : RS) (l : list bytes) : CmdRes := found_reply s (strings_reply l res_new).
(** A value that may be missing: [AppendContent("$-1")] or [AppendStringLen(-1)]. *)
Definition value_reply (s : RS) (v : bytes) : CmdRes :=
  if rs_ok s then AppendString v res_new
  else if rs_IsNotFound s then AppendContent (str "$-1") res_new else err s.
Definition value_or_len_reply (s : RS) (v : bytes) : CmdRes :=
  if rs_ok s then AppendString v res_new
  else if rs_IsNotFound s then AppendStringLen (-1) res_new else err s.
(** An integer written by [std::to_string]. *)
Definition colon (n : Z) : CmdRes := AppendContent (str ":" ++ to_string n) res_new.
(** Pairs of texts, after [r]. *)
Definition pair_texts (l : list (bytes * bytes)) : list bytes := l ≫= λ fv, [fv.1; fv.2].
Definition pairs_reply (l : list (bytes * bytes)) (r : CmdRes) : CmdRes :=
  append_strings (pair_texts l) (AppendArrayLen (2 * zlen l) r).
(** The head of the page of a scan: the two forms that the code uses. *)
Definition cursor_head (next : Z) : CmdRes := AppendString (ll2string next) (AppendContent (str "*2") res_new).
Definition text_head (next : bytes) : CmdRes := AppendString next (AppendArrayLen 2 res_new).
End Replies.

(** ** Facts *)

Section Facts.
Context {N : NumString} {NL : NumStringLaws} {RS : Type} {RO : RocksStatus RS}.
(** The texts of numbers and of the engine's statuses have no line ends. *)
Context (num_flat : ∀ n, flat (ll2string n)) (status_flat : ∀ s : RS, flat (rs_ToString s)).

Definition good_reply (r : CmdRes) : Prop := is_reply (message r).

Lemma err_reply (s : RS) : good_reply (err s).
Proof.
  apply message_reply; [done|]. unfold err, SetRes. cbn [message_].
  case_bool_decide; [split; apply not_elem_of_nil|apply status_flat].
Qed.
Lemma internal_reply msg : flatb (str msg) = true → good_reply (internal msg).
Proof.
  intros H. apply message_reply; [done|]. unfold internal, SetRes. cbn [message_].
  case_bool_decide; [split; apply not_elem_of_nil|by apply flatb_flat].
Qed.
Lemma code_reply c : c ≠ CmdNone → good_reply (SetRes c [] res_new).
Proof. intros H. apply message_reply; [done|]. split; apply not_elem_of_nil. Qed.
Lemma int_reply n : good_reply (integer n).
Proof. apply (reply_line x3a); [reflexivity|apply num_flat]. Qed.
Lemma text_reply s : good_reply (AppendString s res_new).
Proof. apply bulk_reply. Qed.
Lemma null_reply : good_reply (AppendStringLen (-1) res_new).
Proof.
  unfold good_reply. change (is_reply (str "$" ++ ll2string (-1) ++ kNewLine)).
  rewrite law_ll2string by lia. apply reply_nil.
Qed.
Lemma null_array_reply : good_reply (AppendArrayLen (-1) res_new).
Proof.
  unfold good_reply. change (is_reply (str "*" ++ ll2string (-1) ++ kNewLine)).
  rewrite law_ll2string by lia. apply reply_nil_array.
Qed.
Lemma null_content_reply : good_reply (AppendContent (str "$-1") res_new).
Proof. apply reply_nil. Qed.
Lemma counter_text_reply n : good_reply (AppendContent (str ":" ++ to_string n) res_new).
Proof. apply content_reply; [reflexivity|apply flat_digits]. Qed.

(** *** Arrays *)

Definition bulk (s : bytes) : bytes := str "$" ++ ll2string (zlen s) ++ kNewLine ++ s ++ kNewLine.

Lemma AppendString_message s r : message_ (AppendString s r) = message_ r ++ bulk s.
Proof.
  unfold AppendString, AppendContent, AppendStringLen, append_message, RedisAppendContent, RedisAppendLen, bulk.
  cbn [message_]. by rewrite <- !app_assoc.
Qed.
Lemma AppendArrayLen_message n r : message_ (AppendArrayLen n r) = message_ r ++ str "*" ++ ll2string n ++ kNewLine.
Proof. reflexivity. Qed.
Lemma append_strings_message l : ∀ r,
  message_ (append_strings l r) = message_ r ++ concat (bulk <$> l) ∧ ret_ (append_strings l r) = ret_ r.
Proof.
  induction l as [|s l IH]; intros r; cbn [append_strings foldl]; [by rewrite app_nil_r|].
  destruct (IH (AppendString s r)) as [Hm Hr]. unfold append_strings in Hm, Hr. rewrite Hm, Hr.
  by rewrite AppendString_message, <- app_assoc.
Qed.
Lemma raw_keys_text l : ∀ raw, raw_keys l raw = raw ++ concat (bulk <$> l).
Proof.
  induction l as [|s l IH]; intros raw; cbn [raw_keys foldl]; [by rewrite app_nil_r|].
  unfold raw_keys in IH. rewrite IH. cbn [fmap list_fmap concat]. rewrite app_assoc. f_equal.
  unfold RedisAppendContent, RedisAppendLen, bulk. by rewrite <- !app_assoc.
Qed.

Lemma bulks_are_replies (l : list bytes) : Forall is_reply (bulk <$> l).
Proof. apply Forall_fmap, Forall_true. intros s. apply reply_bulk. Qed.
Lemma bulk_array l : is_reply (str "*" ++ ll2string (zlen l) ++ kNewLine ++ concat (bulk <$> l)).
Proof.
  replace (zlen l) with (zlen (bulk <$> l)) by (unfold zlen; by rewrite length_fmap).
  apply reply_array, bulks_are_replies.
Qed.
(** A string and an array of strings. *)
Lemma pair_array s l n : n = zlen l → is_reply (str "*" ++ ll2string 2 ++ kNewLine ++ bulk s
  ++ str "*" ++ ll2string n ++ kNewLine ++ concat (bulk <$> l)).
Proof.
  intros ->. pose proof (reply_array [bulk s; str "*" ++ ll2string (zlen l) ++ kNewLine ++ concat (bulk <$> l)]) as H.
  cbn [concat] in H. rewrite app_nil_r in H. apply H.
  constructor; [apply reply_bulk|]. constructor; [apply bulk_array|constructor].
Qed.

Lemma mget_reply_ok (vss : list (RS * bytes)) : good_reply (mget_reply vss).
Proof.
  unfold good_reply, mget_reply.
  assert (∀ r, ret_ r = CmdNone → ∃ l, length l = length vss ∧ Forall is_reply l ∧
    message (foldl (λ r vs, if rs_ok vs.1 then AppendString vs.2 r else AppendContent (str "$-1") r) r vss)
      = message_ r ++ concat l) as H.
  { induction vss as [|[s v] vss IH]; intros r Hr; cbn [foldl].
    { exists []. split; [done|]. split; [constructor|]. unfold message. rewrite Hr. by rewrite app_nil_r. }
    cbn [fst snd]. destruct (rs_ok s).
    - destruct (IH (AppendString v r) Hr) as (l & Hl & Hf & Hm). exists (bulk v :: l). split; [cbn; lia|].
      split; [constructor; [apply reply_bulk|done]|]. rewrite Hm, AppendString_message. by rewrite <- app_assoc.
    - destruct (IH (AppendContent (str "$-1") r) Hr) as (l & Hl & Hf & Hm). exists (rline "$-1" :: l). split; [cbn; lia|].
      split; [constructor; [apply reply_nil|done]|]. rewrite Hm. cbn [concat]. rewrite app_assoc. f_equal. }
  destruct (H (AppendArrayLen (zlen vss) res_new) eq_refl) as (l & Hl & Hf & ->).
  replace (zlen vss) with (zlen l) by (unfold zlen; congruence).
  rewrite AppendArrayLen_message. cbn [message_ res_new app]. rewrite <- !app_assoc. by apply reply_array.
Qed.

Lemma scanned_reply next keys n : n = zlen keys →
  good_reply (append_strings keys (AppendArrayLen n (AppendString next (AppendArrayLen 2 res_new)))).
Proof.
  intros Hn. unfold good_reply, message.
  destruct (append_strings_message keys (AppendArrayLen n (AppendString next (AppendArrayLen 2 res_new)))) as [Hm Hr].
  rewrite Hr, Hm. cbn [ret_ AppendArrayLen AppendString append_message AppendContent AppendStringLen].
  rewrite AppendArrayLen_message, AppendString_message, AppendArrayLen_message. cbn [message_ res_new app].
  rewrite <- !app_assoc. by apply pair_array.
Qed.

Lemma counter_reply_ok d corrupt (s : RS) n : good_reply (counter_reply d corrupt s n).
Proof.
  unfold counter_reply. destruct d; [apply counter_text_reply|].
  destruct (_ && _); [by apply code_reply|]. destruct (rs_IsInvalidArgument s); [by apply code_reply|apply err_reply].
Qed.
Lemma float_reply_ok corrupt (s : RS) v : good_reply (float_reply corrupt s v).
Proof.
  unfold float_reply. destruct (rs_ok s); [apply text_reply|].
  destruct (_ && _); [by apply code_reply|]. destruct (rs_IsInvalidArgument s); [by apply code_reply|apply err_reply].
Qed.


Lemma strings_reply_ok l : good_reply (strings_reply l res_new).
Proof.
  unfold good_reply, message, strings_reply. destruct (append_strings_message l (AppendArrayLen (zlen l) res_new)) as [Hm Hr].
  rewrite Hr, Hm. cbn [ret_ AppendArrayLen append_message res_new]. rewrite AppendArrayLen_message.
  cbn [message_ res_new app]. rewrite <- !app_assoc. apply bulk_array.
Qed.
Lemma found_reply_ok (s : RS) r : good_reply r → good_reply (found_reply s r).
Proof. unfold found_reply. destruct (_ || _); [done|intros _; apply err_reply]. Qed.
Lemma list_reply_ok (s : RS) l : good_reply (list_reply s l).
Proof. apply found_reply_ok, strings_reply_ok. Qed.
Lemma value_reply_ok (s : RS) v : good_reply (value_reply s v).
Proof. unfold value_reply. repeat case_match; auto using text_reply, null_content_reply, err_reply. Qed.
Lemma value_or_len_reply_ok (s : RS) v : good_reply (value_or_len_reply s v).
Proof. unfold value_or_len_reply. repeat case_match; auto using text_reply, null_reply, err_reply. Qed.
Lemma colon_ok n : good_reply (colon n).
Proof. apply counter_text_reply. Qed.
Lemma colon_digit_ok d : flatb (str d) = true → good_reply (AppendContent (x3a :: str d) res_new).
Proof. intros H. apply content_reply; [reflexivity|by apply flatb_flat]. Qed.
Lemma empty_array_ok : good_reply (AppendContent (str "*0") res_new).
Proof.
  pose proof (reply_array []) as H. change (zlen []) with 0 in H. rewrite law_ll2string in H by lia. apply H. constructor.
Qed.
Lemma pair_texts_length l : zlen (pair_texts l) = 2 * zlen l.
Proof.
  unfold pair_texts. induction l as [|[a b] l IH]; [done|]. rewrite bind_cons, zlen_app, IH.
  unfold zlen. cbn [length fst snd]. lia.
Qed.
Lemma pairs_reply_eq l r : pairs_reply l r = strings_reply (pair_texts l) r.
Proof. unfold pairs_reply, strings_reply. by rewrite pair_texts_length. Qed.
Lemma pairs_reply_ok l : good_reply (pairs_reply l res_new).
Proof. rewrite pairs_reply_eq. apply strings_reply_ok. Qed.
Lemma cursor_head_eq n : cursor_head n = text_head (ll2string n).
Proof.
  unfold cursor_head, text_head, AppendContent, AppendArrayLen, append_message, RedisAppendContent, RedisAppendLen.
  by rewrite (law_ll2string 2) by lia.
Qed.
Lemma headed_strings_ok next l : good_reply (strings_reply l (text_head next)).
Proof. by apply scanned_reply. Qed.
Lemma headed_pairs_ok next l : good_reply (pairs_reply l (text_head next)).
Proof. rewrite pairs_reply_eq. apply headed_strings_ok. Qed.
Lemma ok_or_err_ok (s : RS) : good_reply (ok_or_err s).
Proof. unfold ok_or_err. destruct (rs_ok s); [by apply code_reply|apply err_reply]. Qed.
Lemma integer_or_err_ok (s : RS) n : good_reply (integer_or_err s n).
Proof. unfold integer_or_err. destruct (rs_ok s); [apply int_reply|apply err_reply]. Qed.
Lemma found_or_err_ok (s : RS) n : good_reply (found_or_err s n).
Proof. unfold found_or_err. destruct (_ || _); [apply int_reply|apply err_reply]. Qed.
End Facts.
