(* ===== verification/ConfState.v ===== *)
(** * The members of the configuration (src/include/pika_conf.h)

    The library that reads and writes the file, and the record of the settings with an
    update for each. *)

From S2P Require Import Prelude Define Env Transverter Command StableLog CmdRes Blackwidow CmdArgs CmdReply.
From S2P Require Import SlaveNode Consensus Server.
From stdpp Require Import base list strings pretty gmap.
From coqutil Require Import Datatypes.RecordSetters.
From Stdlib Require Import ZArith Lia Init.Byte.
Import TriangleBracketNotations.
#[local] Open Scope string_scope.
#[local] Open Scope list_scope.
#[local] Open Scope Z_scope.

(** An item of the file that is added: a comment or a setting. *)
Inductive ConfItem := kComment (text : bytes) | kConf (name : string) (value : bytes).

(** [slash::BaseConf], the items of a file: [None] is an item that is not there. *)
Class BaseConf (F : Type) := {
  GetConfStr : string → F → option bytes;
  GetConfInt : string → F → option Z;
  GetConfInt64 : string → F → option Z;
  CheckConfExist : string → F → bool;
  SetConfStr : string → bytes → F → F;
  SetConfInt : string → Z → F → F;
  SetConfInt64 : string → Z → F → F;
  PushConfItem : ConfItem → F → F;
  WriteBack : F → Z * F }.

(** Functions of slash on texts. *)
Class SlashText := {
  StringSplit : bytes → byte → list bytes;
  StringConcat : list bytes → byte → bytes;
  StringToLower : bytes → bytes;
  stringmatch : bytes → bytes → bool }.

Definition kBinlogReadWinDefaultSize : Z := 9000.
Definition kBinlogReadWinMaxSize : Z := 90000.
Definition PIKA_MAX_CONN_RBUF : Z := Z.shiftl 1 28.
Definition PIKA_MAX_CONN_RBUF_LB : Z := Z.shiftl 1 26.
Definition PIKA_SERVER_ID_MAX : Z := 65535.
Definition COMMA : byte := x2c.

Record Conf (F : Type) := mkConfig {
  rep_ : F; conf_path_ : bytes; sideplugin_conf_ : bytes; port_ : Z; slaveof_ : bytes; slave_priority_ : Z;
  thread_num_ : Z; thread_pool_size_ : Z; sync_thread_num_ : Z; log_path_ : bytes; db_path_ : bytes; db_sync_path_ : bytes;
  expire_dump_days_ : Z; db_sync_speed_ : Z; compact_cron_ : bytes; compact_interval_ : bytes; write_buffer_size_ : Z;
  arena_block_size_ : Z; max_write_buffer_size_ : Z; max_write_buffer_num_ : Z; max_client_response_size_ : Z;
  daemonize_ : bool; timeout_ : Z; server_id_ : bytes; requirepass_ : bytes; masterauth_ : bytes; userpass_ : bytes;
  user_blacklist_ : list bytes; classic_mode_ : bool; databases_ : Z; default_slot_num_ : Z; table_structs_ : list TableStruct;
  default_table_ : string; bgsave_path_ : bytes; bgsave_prefix_ : bytes; pidfile_ : bytes; compression_ : bytes;
  maxclients_ : Z; root_connection_num_ : Z; slowlog_write_errorlog_ : bool; slowlog_log_slower_than_ : Z; slowlog_max_len_ : Z;
  expire_logs_days_ : Z; expire_logs_nums_ : Z; slave_read_only_ : bool; max_cache_statistic_keys_ : Z;
  small_compaction_threshold_ : Z; max_background_flushes_ : Z; max_background_compactions_ : Z; max_cache_files_ : Z;
  max_bytes_for_level_multiplier_ : Z; block_size_ : Z; block_cache_ : Z; share_block_cache_ : bool;
  cache_index_and_filter_blocks_ : bool; optimize_filters_for_hits_ : bool; level_compaction_dynamic_level_bytes_ : bool;
  sync_window_size_ : Z; max_conn_rbuf_size_ : Z; consensus_level_ : Z; replication_num_ : Z; network_interface_ : bytes;
  diff_commands_ : list (string * bytes); write_binlog_ : bool; target_file_size_base_ : Z; binlog_file_size_ : Z;
  local_meta_path_ : bytes }.
#[global] Arguments mkConfig {F}.
#[global] Arguments rep_ {F}.
#[global] Arguments conf_path_ {F}.
#[global] Arguments sideplugin_conf_ {F}.
#[global] Arguments port_ {F}.
#[global] Arguments slaveof_ {F}.
#[global] Arguments slave_priority_ {F}.
#[global] Arguments thread_num_ {F}.
#[global] Arguments thread_pool_size_ {F}.
#[global] Arguments sync_thread_num_ {F}.
#[global] Arguments log_path_ {F}.
#[global] Arguments db_path_ {F}.
#[global] Arguments db_sync_path_ {F}.
#[global] Arguments expire_dump_days_ {F}.
#[global] Arguments db_sync_speed_ {F}.
#[global] Arguments compact_cron_ {F}.
#[global] Arguments compact_interval_ {F}.
#[global] Arguments write_buffer_size_ {F}.
#[global] Arguments arena_block_size_ {F}.
#[global] Arguments max_write_buffer_size_ {F}.
#[global] Arguments max_write_buffer_num_ {F}.
#[global] Arguments max_client_response_size_ {F}.
#[global] Arguments daemonize_ {F}.
#[global] Arguments timeout_ {F}.
#[global] Arguments server_id_ {F}.
#[global] Arguments requirepass_ {F}.
#[global] Arguments masterauth_ {F}.
#[global] Arguments userpass_ {F}.
#[global] Arguments user_blacklist_ {F}.
#[global] Arguments classic_mode_ {F}.
#[global] Arguments databases_ {F}.
#[global] Arguments default_slot_num_ {F}.
#[global] Arguments table_structs_ {F}.
#[global] Arguments default_table_ {F}.
#[global] Arguments bgsave_path_ {F}.
#[global] Arguments bgsave_prefix_ {F}.
#[global] Arguments pidfile_ {F}.
#[global] Arguments compression_ {F}.
#[global] Arguments maxclients_ {F}.
#[global] Arguments root_connection_num_ {F}.
#[global] Arguments slowlog_write_errorlog_ {F}.
#[global] Arguments slowlog_log_slower_than_ {F}.
#[global] Arguments slowlog_max_len_ {F}.
#[global] Arguments expire_logs_days_ {F}.
#[global] Arguments expire_logs_nums_ {F}.
#[global] Arguments slave_read_only_ {F}.
#[global] Arguments max_cache_statistic_keys_ {F}.
#[global] Arguments small_compaction_threshold_ {F}.
#[global] Arguments max_background_flushes_ {F}.
#[global] Arguments max_background_compactions_ {F}.
#[global] Arguments max_cache_files_ {F}.
#[global] Arguments max_bytes_for_level_multiplier_ {F}.
#[global] Arguments block_size_ {F}.
#[global] Arguments block_cache_ {F}.
#[global] Arguments share_block_cache_ {F}.
#[global] Arguments cache_index_and_filter_blocks_ {F}.
#[global] Arguments optimize_filters_for_hits_ {F}.
#[global] Arguments level_compaction_dynamic_level_bytes_ {F}.
#[global] Arguments sync_window_size_ {F}.
#[global] Arguments max_conn_rbuf_size_ {F}.
#[global] Arguments consensus_level_ {F}.
#[global] Arguments replication_num_ {F}.
#[global] Arguments network_interface_ {F}.
#[global] Arguments diff_commands_ {F}.
#[global] Arguments write_binlog_ {F}.
#[global] Arguments target_file_size_base_ {F}.
#[global] Arguments binlog_file_size_ {F}.
#[global] Arguments local_meta_path_ {F}.

(** The updates of the members. *)
#[export] Instance update_rep {F} : Setter (@rep_ F) := _.
#[export] Instance update_sideplugin_conf {F} : Setter (@sideplugin_conf_ F) := _.
#[export] Instance update_port {F} : Setter (@port_ F) := _.
#[export] Instance update_slaveof {F} : Setter (@slaveof_ F) := _.
#[export] Instance update_slave_priority {F} : Setter (@slave_priority_ F) := _.
#[export] Instance update_thread_num {F} : Setter (@thread_num_ F) := _.
#[export] Instance update_thread_pool_size {F} : Setter (@thread_pool_size_ F) := _.
#[export] Instance update_sync_thread_num {F} : Setter (@sync_thread_num_ F) := _.
#[export] Instance update_log_path {F} : Setter (@log_path_ F) := _.
#[export] Instance update_db_path {F} : Setter (@db_path_ F) := _.
#[export] Instance update_db_sync_path {F} : Setter (@db_sync_path_ F) := _.
#[export] Instance update_expire_dump_days {F} : Setter (@expire_dump_days_ F) := _.
#[export] Instance update_db_sync_speed {F} : Setter (@db_sync_speed_ F) := _.
#[export] Instance update_compact_cron {F} : Setter (@compact_cron_ F) := _.
#[export] Instance update_compact_interval {F} : Setter (@compact_interval_ F) := _.
#[export] Instance update_write_buffer_size {F} : Setter (@write_buffer_size_ F) := _.
#[export] Instance update_arena_block_size {F} : Setter (@arena_block_size_ F) := _.
#[export] Instance update_max_write_buffer_size {F} : Setter (@max_write_buffer_size_ F) := _.
#[export] Instance update_max_write_buffer_num {F} : Setter (@max_write_buffer_num_ F) := _.
#[export] Instance update_max_client_response_size {F} : Setter (@max_client_response_size_ F) := _.
#[export] Instance update_daemonize {F} : Setter (@daemonize_ F) := _.
#[export] Instance update_timeout {F} : Setter (@timeout_ F) := _.
#[export] Instance update_server_id {F} : Setter (@server_id_ F) := _.
#[export] Instance update_requirepass {F} : Setter (@requirepass_ F) := _.
#[export] Instance update_masterauth {F} : Setter (@masterauth_ F) := _.
#[export] Instance update_userpass {F} : Setter (@userpass_ F) := _.
#[export] Instance update_user_blacklist {F} : Setter (@user_blacklist_ F) := _.
#[export] Instance update_classic_mode {F} : Setter (@classic_mode_ F) := _.
#[export] Instance update_databases {F} : Setter (@databases_ F) := _.
#[export] Instance update_default_slot_num {F} : Setter (@default_slot_num_ F) := _.
#[export] Instance update_table_structs {F} : Setter (@table_structs_ F) := _.
#[export] Instance update_default_table {F} : Setter (@default_table_ F) := _.
#[export] Instance update_bgsave_path {F} : Setter (@bgsave_path_ F) := _.
#[export] Instance update_bgsave_prefix {F} : Setter (@bgsave_prefix_ F) := _.
#[export] Instance update_pidfile {F} : Setter (@pidfile_ F) := _.
#[export] Instance update_compression {F} : Setter (@compression_ F) := _.
#[export] Instance update_maxclients {F} : Setter (@maxclients_ F) := _.
#[export] Instance update_root_connection_num {F} : Setter (@root_connection_num_ F) := _.
#[export] Instance update_slowlog_write_errorlog {F} : Setter (@slowlog_write_errorlog_ F) := _.
#[export] Instance update_slowlog_log_slower_than {F} : Setter (@slowlog_log_slower_than_ F) := _.
#[export] Instance update_slowlog_max_len {F} : Setter (@slowlog_max_len_ F) := _.
#[export] Instance update_expire_logs_days {F} : Setter (@expire_logs_days_ F) := _.
#[export] Instance update_expire_logs_nums {F} : Setter (@expire_logs_nums_ F) := _.
#[export] Instance update_slave_read_only {F} : Setter (@slave_read_only_ F) := _.
#[export] Instance update_max_cache_statistic_keys {F} : Setter (@max_cache_statistic_keys_ F) := _.
#[export] Instance update_small_compaction_threshold {F} : Setter (@small_compaction_threshold_ F) := _.
#[export] Instance update_max_background_flushes {F} : Setter (@max_background_flushes_ F) := _.
#[export] Instance update_max_background_compactions {F} : Setter (@max_background_compactions_ F) := _.
#[export] Instance update_max_cache_files {F} : Setter (@max_cache_files_ F) := _.
#[export] Instance update_max_bytes_for_level_multiplier {F} : Setter (@max_bytes_for_level_multiplier_ F) := _.
#[export] Instance update_block_size {F} : Setter (@block_size_ F) := _.
#[export] Instance update_block_cache {F} : Setter (@block_cache_ F) := _.
#[export] Instance update_share_block_cache {F} : Setter (@share_block_cache_ F) := _.
#[export] Instance update_cache_index_and_filter_blocks {F} : Setter (@cache_index_and_filter_blocks_ F) := _.
#[export] Instance update_optimize_filters_for_hits {F} : Setter (@optimize_filters_for_hits_ F) := _.
#[export] Instance update_level_compaction_dynamic_level_bytes {F} : Setter (@level_compaction_dynamic_level_bytes_ F) := _.
#[export] Instance update_sync_window_size {F} : Setter (@sync_window_size_ F) := _.
#[export] Instance update_max_conn_rbuf_size {F} : Setter (@max_conn_rbuf_size_ F) := _.
#[export] Instance update_consensus_level {F} : Setter (@consensus_level_ F) := _.
#[export] Instance update_replication_num {F} : Setter (@replication_num_ F) := _.
#[export] Instance update_network_interface {F} : Setter (@network_interface_ F) := _.
#[export] Instance update_diff_commands {F} : Setter (@diff_commands_ F) := _.
#[export] Instance update_write_binlog {F} : Setter (@write_binlog_ F) := _.
#[export] Instance update_target_file_size_base {F} : Setter (@target_file_size_base_ F) := _.
#[export] Instance update_binlog_file_size {F} : Setter (@binlog_file_size_ F) := _.
#[export] Instance update_local_meta_path {F} : Setter (@local_meta_path_ F) := _.
