(* ===== verification/Config.v ===== *)
(** * The configuration (src/pika_conf.cc, src/include/pika_conf.h)

    The settings of the server: how they are loaded, with their defaults and limits, what
    changes them, how they are written back, and the tables they list.  Reading and writing
    the file is a separate library.  Members that the constructor leaves unset have any
    value: loading starts from an arbitrary configuration. *)

From S2P Require Import Prelude Define Env Transverter Command StableLog CmdRes Blackwidow CmdArgs CmdReply.
From S2P Require Import SlaveNode Consensus Server PikaMeta ConfState.
From stdpp Require Import base list strings pretty gmap.
From coqutil Require Import Datatypes.RecordSetters.
From Stdlib Require Import ZArith Lia Init.Byte.
Import TriangleBracketNotations.
#[local] Open Scope string_scope.
#[local] Open Scope list_scope.
#[local] Open Scope Z_scope.

(** ** Numbers in texts *)

(** [isspace] and the digits of the C library. *)
Definition isspace (c : byte) : bool := let n := Z.of_N (Byte.to_N c) in (n =? 32) || ((9 <=? n) && (n <=? 13)).
Definition digit_value (c : byte) : option Z :=
  let n := Z.of_N (Byte.to_N c) in if (48 <=? n) && (n <=? 57) then Some (n - 48) else None.
Fixpoint skip_spaces (s : bytes) : bytes :=
  match s with c :: s' => if isspace c then skip_spaces s' else s | [] => [] end.
(** The number that a text begins with; [None]: no digit. *)
Fixpoint digits_value (s : bytes) (acc : option Z) : option Z :=
  match s with
  | [] => acc
  | c :: s => match digit_value c with Some d => digits_value s (Some (default 0 acc * 10 + d)) | None => acc end
  end.
Definition signed_digits (s : bytes) : bool * bytes :=
  match skip_spaces s with
  | c :: s' => if bool_decide (c = x2d) then (true, s') else if bool_decide (c = x2b) then (false, s') else (false, c :: s')
  | [] => (false, [])
  end.
(** [std::atoi]; a number that is no [int] is undefined. *)
Definition atoi (s : bytes) : option Z :=
  let '(neg, s) := signed_digits s in
  let n := default 0 (digits_value s None) in
  let n := if neg : bool then - n else n in
  if (- 2 ^ 31 <=? n) && (n <? 2 ^ 31) then Some n else None.
(** [std::stoull]; it throws if there is no number or it is too large. *)
Definition stoull (s : bytes) : option Z :=
  let '(neg, s) := signed_digits s in
  n ← digits_value s None; if n <? 2 ^ 64 then Some (u64 (if neg : bool then - n else n)) else None.

Definition find_char (c : byte) (s : bytes) : option nat := fst <$> list_find (λ d, d = c) s.
Definition substr (pos n : nat) (s : bytes) : bytes := take n (drop pos s).
Definition slash_ : byte := x2f.
Definition dash_ : byte := x2d.

(** A time of day for compactions, [start-end/usage] or [week/start-end/usage]. *)
Definition compact_cron_ok (value : bytes) : option bool :=
  let have_week := bool_decide (length (filter (λ c, c = slash_) value) = 2%nat) in
  let first_slash := default 0%nat (find_char slash_ value) in
  let week_str := if have_week then take first_slash value else [] in
  let cron := if have_week then drop (S first_slash) value else value in
  let len := length cron in
  match find_char dash_ cron, find_char slash_ cron with
  | Some colon, Some underline =>
      if (underline <=? colon)%nat || (len <=? colon + 1)%nat || (colon + 1 =? underline)%nat || (len <=? underline + 1)%nat
      then Some false
      else
        week ← atoi week_str; start ← atoi (take colon cron); end_ ← atoi (substr (colon + 1) underline cron);
        usage ← atoi (drop (underline + 1) cron);
        Some (negb ((have_week && ((week <? 1) || (week >? 7))) || (start <? 0) || (start >? 23) || (end_ <? 0) || (end_ >? 23)
                    || (usage <? 0) || (usage >? 100)))
  | _, _ => Some false
  end.
(** An interval between compactions, [hours/usage]. *)
Definition compact_interval_ok (value : bytes) : option bool :=
  match find_char slash_ value with
  | None => Some false
  | Some slash =>
      if (length value <=? slash + 1)%nat then Some false else
      interval ← atoi (take slash value); usage ← atoi (drop (slash + 1) value);
      Some (negb ((interval <=? 0) || (usage <? 0) || (usage >? 100)))
  end.

(** A path with a slash at its end. *)
Definition slash_ended (default_path : string) (path : bytes) : bytes :=
  let path := if bool_decide (path = []) then str default_path else path in
  if bool_decide (last path = Some slash_) then path else path ++ [slash_].

Section Conf.
Context {F : Type} {BC : BaseConf F} {ST : SlashText}.
Context {FS : Type} {E : SlashEnv FS} {P : SlashPaths FS} {MC : MetaCodec}.
Implicit Types (c : Conf F) (fs : FS).

(** ** Loading *)

(** A setting of the file; one that is not there leaves [old]. *)
Definition get_str (name : string) (old : bytes) c : bytes := default old (GetConfStr name (rep_ c)).
Definition get_int (name : string) (old : Z) c : Z := default old (GetConfInt name (rep_ c)).
Definition get_int64 (name : string) (old : Z) c : Z := default old (GetConfInt64 name (rep_ c)).
Definition get_yes (name : string) c : bool := bool_decide (get_str name [] c = str "yes").

Definition split_blacklist (value : bytes) : list bytes := StringToLower <$> StringSplit value COMMA.

(** The first settings; [None]: the identity of the server is no number. *)
Definition load_general c : option (Conf F) :=
  let timeout := get_int "timeout" (-1) c in
  let server_id := get_str "server-id" (server_id_ c) c in
  server_id ← (if bool_decide (server_id = []) then Some (str "1")
               else n ← stoull server_id; Some (if PIKA_SERVER_ID_MAX <? n then str "PIKA_SERVER_ID_MAX" else server_id));
  let maxclients := get_int "maxclients" (maxclients_ c) c in
  let root_connection_num := get_int "root-connection-num" (root_connection_num_ c) c in
  let slowlog_max_len := get_int "slowlog-max-len" (slowlog_max_len_ c) c in
  let expire_dump_days := get_int "dump-expire" (expire_dump_days_ c) c in
  let expire_logs_nums := get_int "expire-logs-nums" (expire_logs_nums_ c) c in
  let expire_logs_days := get_int "expire-logs-days" (expire_logs_days_ c) c in
  Some c<|sideplugin_conf_ := get_str "sideplugin-conf" (sideplugin_conf_ c) c|>
    <|timeout_ := if timeout <? 0 then 60 else timeout|>
    <|server_id_ := server_id|>
    <|requirepass_ := get_str "requirepass" (requirepass_ c) c|>
    <|masterauth_ := get_str "masterauth" (masterauth_ c) c|>
    <|userpass_ := get_str "userpass" (userpass_ c) c|>
    <|maxclients_ := if maxclients <=? 0 then 20000 else maxclients|>
    <|root_connection_num_ := if root_connection_num <? 0 then 2 else root_connection_num|>
    <|slowlog_write_errorlog_ := get_yes "slowlog-write-errorlog" c|>
    <|slowlog_log_slower_than_ := get_int "slowlog-log-slower-than" (-1) c|>
    <|slowlog_max_len_ := if slowlog_max_len =? 0 then 128 else slowlog_max_len|>
    <|user_blacklist_ := split_blacklist (get_str "userblacklist" [] c)|>
    <|bgsave_path_ := slash_ended "./dump/" (get_str "dump-path" (bgsave_path_ c) c)|>
    <|expire_dump_days_ := if expire_dump_days <? 0 then 0 else expire_dump_days|>
    <|bgsave_prefix_ := get_str "dump-prefix" (bgsave_prefix_ c) c|>
    <|expire_logs_nums_ := if expire_logs_nums <=? 10 then 10 else expire_logs_nums|>
    <|expire_logs_days_ := if expire_logs_days <=? 0 then 1 else expire_logs_days|>
    <|compression_ := get_str "compression" (compression_ c) c|>
    <|slave_read_only_ := true|>
    <|slave_priority_ := get_int "slave-priority" (slave_priority_ c) c|>.

(** The port, the paths and the numbers of threads. *)
Definition load_threads c : Conf F :=
  let db_path := slash_ended "./db/" (get_str "db-path" (db_path_ c) c) in
  let thread_num := get_int "thread-num" (thread_num_ c) c in
  let thread_pool_size := get_int "thread-pool-size" (thread_pool_size_ c) c in
  let sync_thread_num := get_int "sync-thread-num" (sync_thread_num_ c) c in
  let sync_thread_num := if sync_thread_num <=? 0 then 3 else sync_thread_num in
  c<|port_ := get_int "port" (port_ c) c|>
    <|log_path_ := slash_ended "./log/" (get_str "log-path" (log_path_ c) c)|>
    <|db_path_ := db_path|>
    <|local_meta_path_ := db_path|>
    <|thread_num_ := if thread_num <=? 0 then 12 else thread_num|>
    <|thread_pool_size_ := if thread_pool_size <=? 0 then 12 else thread_pool_size|>
    <|sync_thread_num_ := if sync_thread_num >? 24 then 24 else sync_thread_num|>.

(** The tables of the meta file, which is made, with a table of that many partitions, if it
    is not there; [None]: it cannot be read. *)
Definition path_of c : string := String.string_of_list_byte (local_meta_path_ c).
Definition meta_tables (slots : Z) c fs : option (list TableStruct * FS) :=
  fs ← (if env_exists fs (meta_file (path_of c)) then Some fs
        else snd <$> PikaMeta_StableSave (path_of c) [mkTableStruct "db0" (u32 slots) []] fs);
  match PikaMeta_ParseMeta (path_of c) fs with Some (inr tables, fs) => Some (tables, fs) | _ => None end.
(** The tables and the consensus; [None]: a value that ends the process. *)
Definition load_tables c fs : option (Conf F * FS) :=
  let instance_mode := get_str "instance-mode" [] c in
  let classic_mode := bool_decide (instance_mode = []) || same_word instance_mode "classic" in
  let databases := if classic_mode then get_int "databases" (databases_ c) c else databases_ c in
  let default_slot_num := if classic_mode then default_slot_num_ c else get_int "default-slot-num" (default_slot_num_ c) c in
  '(tables, fs) ← (if classic_mode then
      if (databases <? 1) || (databases >? 8) then None
      else Some (table_structs_ c ++ ((λ idx, mkTableStruct ("db" ++ pretty idx)%string 1 [0]) <$> seqZ 0 databases), fs)
    else if default_slot_num <=? 0 then None else meta_tables default_slot_num c fs);
  first ← head tables;
  let replication_num := get_int "replication-num" 0 c in
  let consensus_level := get_int "consensus-level" 0 c in
  if (replication_num >? 4) || (replication_num <? 0) then None
  else if (consensus_level <? 0) || (consensus_level >? replication_num) then None
  else if classic_mode && (negb (consensus_level =? 0) || negb (replication_num =? 0)) then None
  else Some (c<|classic_mode_ := classic_mode|><|databases_ := databases|><|default_slot_num_ := default_slot_num|>
    <|table_structs_ := tables|><|default_table_ := tbl_name first|>
    <|replication_num_ := replication_num|><|consensus_level_ := consensus_level|>, fs).

(** The times of compactions: a text that is not in the form of one is dropped. *)
Definition load_compaction c : option (Conf F) :=
  let compact_cron := get_str "compact-cron" [] c in
  let compact_interval := get_str "compact-interval" [] c in
  cron_ok ← (if bool_decide (compact_cron = []) then Some true else compact_cron_ok compact_cron);
  interval_ok ← (if bool_decide (compact_interval = []) then Some true else compact_interval_ok compact_interval);
  Some c<|compact_cron_ := if cron_ok : bool then compact_cron else []|>
    <|compact_interval_ := if interval_ok : bool then compact_interval else []|>.

(** The settings of the storage engine. *)
Definition load_engine c : Conf F :=
  let write_buffer_size := get_int64 "write-buffer-size" (write_buffer_size_ c) c in
  let write_buffer_size := if write_buffer_size <=? 0 then 268435456 else write_buffer_size in
  let arena_block_size := get_int64 "arena-block-size" (arena_block_size_ c) c in
  let max_write_buffer_size := get_int64 "max-write-buffer-size" (max_write_buffer_size_ c) c in
  let max_write_buffer_num := get_int "max-write-buffer-num" 2 c in
  let max_client_response_size := get_int64 "max-client-response-size" (max_client_response_size_ c) c in
  let target_file_size_base := get_int "target-file-size-base" (target_file_size_base_ c) c in
  let max_cache_statistic_keys := get_int "max-cache-statistic-keys" 0 c in
  let small_compaction_threshold := get_int "small-compaction-threshold" 5000 c in
  let max_background_flushes := get_int "max-background-flushes" 1 c in
  let max_background_flushes := if max_background_flushes <=? 0 then 1 else max_background_flushes in
  let max_background_compactions := get_int "max-background-compactions" 2 c in
  let max_background_compactions := if max_background_compactions <=? 0 then 2 else max_background_compactions in
  let max_cache_files := get_int "max-cache-files" 5000 c in
  let max_bytes_for_level_multiplier := get_int "max-bytes-for-level-multiplier" 10 c in
  let block_size := get_int64 "block-size" (4 * 1024) c in
  let block_cache := get_int64 "block-cache" (8 * 1024 * 1024) c in
  c<|write_buffer_size_ := write_buffer_size|>
    <|arena_block_size_ := if arena_block_size <=? 0 then Z.shiftr write_buffer_size 3 else arena_block_size|>
    <|max_write_buffer_size_ := if max_write_buffer_size <=? 0 then 10737418240 else max_write_buffer_size|>
    <|max_write_buffer_num_ := if max_write_buffer_num <=? 0 then 2 else max_write_buffer_num|>
    <|max_client_response_size_ := if max_client_response_size <=? 0 then 1073741824 else max_client_response_size|>
    <|target_file_size_base_ := if target_file_size_base <=? 0 then 1048576 else target_file_size_base|>
    <|max_cache_statistic_keys_ := if max_cache_statistic_keys <=? 0 then 0 else max_cache_statistic_keys|>
    <|small_compaction_threshold_ :=
        if (small_compaction_threshold <=? 0) || (small_compaction_threshold >=? 100000) then 5000 else small_compaction_threshold|>
    <|max_background_flushes_ := if max_background_flushes >=? 4 then 4 else max_background_flushes|>
    <|max_background_compactions_ := if max_background_compactions >=? 8 then 8 else max_background_compactions|>
    <|max_cache_files_ := if max_cache_files <? -1 then 5000 else max_cache_files|>
    <|max_bytes_for_level_multiplier_ := if max_bytes_for_level_multiplier <? 10 then 5 else max_bytes_for_level_multiplier|>
    <|block_size_ := if block_size <=? 0 then 4 * 1024 else block_size|>
    <|block_cache_ := if block_cache <? 0 then 8 * 1024 * 1024 else block_cache|>
    <|share_block_cache_ := get_yes "share-block-cache" c|>
    <|cache_index_and_filter_blocks_ := get_yes "cache-index-and-filter-blocks" c|>
    <|optimize_filters_for_hits_ := get_yes "optimize-filters-for-hits" c|>
    <|level_compaction_dynamic_level_bytes_ := get_yes "level-compaction-dynamic-level-bytes" c|>.

(** The log, the synchronisation and the network. *)
Definition load_sync c : Conf F :=
  let binlog_file_size := get_int "binlog-file-size" (binlog_file_size_ c) c in
  let db_sync_speed := get_int "db-sync-speed" (db_sync_speed_ c) c in
  let sync_window_size := get_int "sync-window-size" kBinlogReadWinDefaultSize c in
  let max_conn_rbuf_size := get_int "max-conn-rbuf-size" PIKA_MAX_CONN_RBUF c in
  c<|daemonize_ := get_yes "daemonize" c|>
    <|write_binlog_ := negb (bool_decide (get_str "write-binlog" [] c = str "no"))|>
    <|binlog_file_size_ :=
        if (binlog_file_size <? 1024) || (binlog_file_size >? 1024 * 1024 * 1024) then 100 * 1024 * 1024 else binlog_file_size|>
    <|pidfile_ := get_str "pidfile" (pidfile_ c) c|>
    <|db_sync_path_ := slash_ended "./dbsync/" (get_str "db-sync-path" (db_sync_path_ c) c)|>
    <|db_sync_speed_ := if (db_sync_speed <? 0) || (db_sync_speed >? 1024) then 1024 else db_sync_speed|>
    <|network_interface_ := get_str "network-interface" [] c|>
    <|slaveof_ := get_str "slaveof" [] c|>
    <|sync_window_size_ :=
        if sync_window_size <=? 0 then kBinlogReadWinDefaultSize
        else if sync_window_size >? kBinlogReadWinMaxSize then kBinlogReadWinMaxSize else sync_window_size|>
    <|max_conn_rbuf_size_ :=
        if (max_conn_rbuf_size =? PIKA_MAX_CONN_RBUF_LB) || (max_conn_rbuf_size =? PIKA_MAX_CONN_RBUF_HB)
        then max_conn_rbuf_size else PIKA_MAX_CONN_RBUF|>.

(** [Load]; [loaded] is the outcome of [LoadConf]: an error or the items of the file. *)
Definition Load (loaded : Z + F) c fs : option (Z * Conf F * FS) :=
  match loaded with
  | inl ret => Some (ret, c, fs)
  | inr f =>
      c ← load_general c<|rep_ := f|>; '(c, fs) ← load_tables (load_threads c) fs; c ← load_compaction c;
      Some (0, load_sync (load_engine c), fs)
  end.

(** ** Changing *)

(** [diff_commands_] is a sorted map. *)
Fixpoint diff_insert (name : string) (value : bytes) (l : list (string * bytes)) : list (string * bytes) :=
  match l with
  | [] => [(name, value)]
  | (n, v) :: l =>
      match String.compare name n with
      | Eq => (name, value) :: l
      | Lt => (name, value) :: (n, v) :: l
      | Gt => (n, v) :: diff_insert name value l
      end
  end.
(** A setting that is not in the file is remembered for it. *)
Definition TryPushDiffCommands (command : string) (value : bytes) c : Conf F :=
  if CheckConfExist command (rep_ c) then c else c<|diff_commands_ ::= diff_insert command value|>.

(** The parameters of the setters are [int]s. *)
Definition SetTimeout (value : Z) c : Conf F := (TryPushDiffCommands "timeout" (to_string value) c)<|timeout_ := value|>.
Definition SetSlaveof (value : bytes) c : Conf F := (TryPushDiffCommands "slaveof" value c)<|slaveof_ := value|>.
Definition SetSlavePriority (value : Z) c : Conf F := (TryPushDiffCommands "slave-priority" (to_string value) c)<|slave_priority_ := value|>.
Definition SetMaxCacheStatisticKeys (value : Z) c : Conf F := (TryPushDiffCommands "max-cache-statistic-keys" (to_string value) c)<|max_cache_statistic_keys_ := value|>.
Definition SetSmallCompactionThreshold (value : Z) c : Conf F := (TryPushDiffCommands "small-compaction-threshold" (to_string value) c)<|small_compaction_threshold_ := value|>.
Definition SetMaxClientResponseSize (value : Z) c : Conf F := (TryPushDiffCommands "max-client-response-size" (to_string value) c)<|max_client_response_size_ := value|>.
Definition SetExpireDumpDays (value : Z) c : Conf F := (TryPushDiffCommands "dump-expire" (to_string value) c)<|expire_dump_days_ := value|>.
Definition SetBgsavePrefix (value : bytes) c : Conf F := (TryPushDiffCommands "dump-prefix" value c)<|bgsave_prefix_ := value|>.
Definition SetRequirePass (value : bytes) c : Conf F := (TryPushDiffCommands "requirepass" value c)<|requirepass_ := value|>.
Definition SetMasterAuth (value : bytes) c : Conf F := (TryPushDiffCommands "masterauth" value c)<|masterauth_ := value|>.
Definition SetUserPass (value : bytes) c : Conf F := (TryPushDiffCommands "userpass" value c)<|userpass_ := value|>.
Definition SetExpireLogsNums (value : Z) c : Conf F := (TryPushDiffCommands "expire-logs-nums" (to_string value) c)<|expire_logs_nums_ := value|>.
Definition SetExpireLogsDays (value : Z) c : Conf F := (TryPushDiffCommands "expire-logs-days" (to_string value) c)<|expire_logs_days_ := value|>.
Definition SetMaxConnection (value : Z) c : Conf F := (TryPushDiffCommands "maxclients" (to_string value) c)<|maxclients_ := value|>.
Definition SetRootConnectionNum (value : Z) c : Conf F := (TryPushDiffCommands "root-connection-num" (to_string value) c)<|root_connection_num_ := value|>.
Definition SetSlowlogSlowerThan (value : Z) c : Conf F := (TryPushDiffCommands "slowlog-log-slower-than" (to_string value) c)<|slowlog_log_slower_than_ := value|>.
Definition SetSlowlogMaxLen (value : Z) c : Conf F := (TryPushDiffCommands "slowlog-max-len" (to_string value) c)<|slowlog_max_len_ := value|>.
Definition SetDbSyncSpeed (value : Z) c : Conf F := (TryPushDiffCommands "db-sync-speed" (to_string value) c)<|db_sync_speed_ := value|>.
Definition SetCompactCron (value : bytes) c : Conf F := (TryPushDiffCommands "compact-cron" value c)<|compact_cron_ := value|>.
Definition SetCompactInterval (value : bytes) c : Conf F := (TryPushDiffCommands "compact-interval" value c)<|compact_interval_ := value|>.
Definition SetSyncWindowSize (value : Z) c : Conf F := (TryPushDiffCommands "sync-window-size" (to_string value) c)<|sync_window_size_ := value|>.
Definition SetMaxConnRbufSize (value : Z) c : Conf F := (TryPushDiffCommands "max-conn-rbuf-size" (to_string value) c)<|max_conn_rbuf_size_ := value|>.
Definition SetMaxCacheFiles (value : Z) c : Conf F := (TryPushDiffCommands "max-cache-files" (to_string value) c)<|max_cache_files_ := value|>.
Definition SetMaxBackgroudCompactions (value : Z) c : Conf F := (TryPushDiffCommands "max-background-compactions" (to_string value) c)<|max_background_compactions_ := value|>.
Definition SetWriteBufferSize (value : Z) c : Conf F := (TryPushDiffCommands "write-buffer-size" (to_string value) c)<|write_buffer_size_ := value|>.
Definition SetMaxWriteBufferNumber (value : Z) c : Conf F := (TryPushDiffCommands "max-write-buffer-number" (to_string value) c)<|max_write_buffer_num_ := value|>.
Definition SetArenaBlockSize (value : Z) c : Conf F := (TryPushDiffCommands "arena-block-size" (to_string value) c)<|arena_block_size_ := value|>.
Definition SetWriteBinlog (value : bytes) c : Conf F :=
  (TryPushDiffCommands "write-binlog" value c)<|write_binlog_ := bool_decide (value = str "yes")|>.
Definition SetSlowlogWriteErrorlog (value : bool) c : Conf F :=
  (TryPushDiffCommands "slowlog-write-errorlog" (str (if value then "yes" else "no")) c)<|slowlog_write_errorlog_ := value|>.
Definition SetUserBlackList (value : bytes) c : Conf F :=
  (TryPushDiffCommands "userblacklist" value c)<|user_blacklist_ := split_blacklist value|>.
Definition SetBgsavePath (value : bytes) c : Conf F :=
  c<|bgsave_path_ := if bool_decide (last value = Some slash_) then value else value ++ [slash_]|>.
Definition SetJsonFile (fname : bytes) c : Conf F := c<|sideplugin_conf_ := fname|>.
Definition SetPort (value : Z) c : Conf F := c<|port_ := value|>.
Definition SetThreadNum (value : Z) c : Conf F := c<|thread_num_ := value|>.
Definition SetThreadPoolSize (value : Z) c : Conf F := c<|thread_pool_size_ := value|>.

(** ** Writing back *)

Definition suser_blacklist c : bytes := StringConcat (user_blacklist_ c) COMMA.
Definition yes_no (b : bool) : bytes := str (if b then "yes" else "no").

(** The settings that can be changed.  [SetConfInt] takes an [int]. *)
Definition rewrite_items c (f : F) : F :=
  let f := SetConfInt "timeout" (timeout_ c) f in
  let f := SetConfStr "requirepass" (requirepass_ c) f in
  let f := SetConfStr "masterauth" (masterauth_ c) f in
  let f := SetConfStr "userpass" (userpass_ c) f in
  let f := SetConfStr "userblacklist" (suser_blacklist c) f in
  let f := SetConfStr "dump-prefix" (bgsave_prefix_ c) f in
  let f := SetConfInt "maxclients" (maxclients_ c) f in
  let f := SetConfInt "dump-expire" (expire_dump_days_ c) f in
  let f := SetConfInt "expire-logs-days" (expire_logs_days_ c) f in
  let f := SetConfInt "expire-logs-nums" (expire_logs_nums_ c) f in
  let f := SetConfInt "root-connection-num" (root_connection_num_ c) f in
  let f := SetConfStr "slowlog-write-errorlog" (yes_no (slowlog_write_errorlog_ c)) f in
  let f := SetConfInt "slowlog-log-slower-than" (slowlog_log_slower_than_ c) f in
  let f := SetConfInt "slowlog-max-len" (slowlog_max_len_ c) f in
  let f := SetConfStr "write-binlog" (yes_no (write_binlog_ c)) f in
  let f := SetConfInt "max-cache-statistic-keys" (max_cache_statistic_keys_ c) f in
  let f := SetConfInt "small-compaction-threshold" (small_compaction_threshold_ c) f in
  let f := SetConfInt "max-client-response-size" (s32 (max_client_response_size_ c)) f in
  let f := SetConfInt "db-sync-speed" (db_sync_speed_ c) f in
  let f := SetConfStr "compact-cron" (compact_cron_ c) f in
  let f := SetConfStr "compact-interval" (compact_interval_ c) f in
  let f := SetConfInt "slave-priority" (slave_priority_ c) f in
  let f := SetConfInt "sync-window-size" (sync_window_size_ c) f in
  let f := SetConfInt "consensus-level" (consensus_level_ c) f in
  let f := SetConfInt "replication-num" (replication_num_ c) f in
  let f := SetConfInt "max-cache-files" (max_cache_files_ c) f in
  let f := SetConfInt "max-background-compactions" (max_background_compactions_ c) f in
  let f := SetConfInt "max-write-buffer-number" (max_write_buffer_num_ c) f in
  let f := SetConfInt64 "write-buffer-size" (write_buffer_size_ c) f in
  let f := SetConfInt64 "arena-block-size" (arena_block_size_ c) f in
  SetConfStr "slaveof" (slaveof_ c) f.
(** The remembered settings that have a value. *)
Definition rewrite_diff (diff : list (string * bytes)) (f : F) : F :=
  let items := filter (λ nv : string * bytes, nv.2 ≠ []) diff in
  match items with
  | [] => f
  | _ => foldl (λ f (nv : string * bytes), PushConfItem (kConf nv.1 nv.2) f)
           (PushConfItem (kComment (str "# Generated by CONFIG REWRITE" ++ [x0a])) f) items
  end.
Definition ConfigRewrite c : Z * Conf F :=
  let '(ret, f) := WriteBack (rewrite_diff (diff_commands_ c) (rewrite_items c (rep_ c))) in
  (ret, c<|rep_ := f|><|diff_commands_ := []|>).

(** ** Tables *)

(** The index of a table; [uint32_t] ids are kept in order. *)
Definition InternalGetTargetTable (table_name : string) c : option nat :=
  fst <$> list_find (λ t, tbl_name t = table_name) (table_structs_ c).
Definition not_found (table_name : string) : Status := NotFound ("table : " ++ table_name ++ " not found").
Fixpoint check_ids (ids : list Z) (is_add : bool) (t : TableStruct) : Status :=
  match ids with
  | [] => OK
  | id :: ids =>
      if id >=? partition_num t then Corruption "partition index out of range"
      else if is_add && bool_decide (id ∈ partition_ids t) then Corruption ("partition : " ++ pretty id ++ " exist")
      else if negb is_add && negb (bool_decide (id ∈ partition_ids t)) then Corruption ("partition : " ++ pretty id ++ " not exist")
      else check_ids ids is_add t
  end.
Definition TablePartitionsSanityCheck (table_name : string) (ids : list Z) (is_add : bool) c : Status :=
  match InternalGetTargetTable table_name c ≫= λ i, table_structs_ c !! i with
  | None => not_found table_name
  | Some t => check_ids ids is_add t
  end.
Definition id_erase (id : Z) (l : list Z) : list Z := filter (λ x, x ≠ id) l.
Definition with_ids (f : list Z → list Z) (t : TableStruct) : TableStruct :=
  mkTableStruct (tbl_name t) (partition_num t) (f (partition_ids t)).
(** The tables are changed before they are saved, and stay changed if that fails. *)
Definition save_tables (tables : list TableStruct) c fs : option (Status * Conf F * FS) :=
  '(s, fs) ← PikaMeta_StableSave (path_of c) tables fs; Some (s, c<|table_structs_ := tables|>, fs).
Definition change_ids (table_name : string) (f : list Z → list Z) c fs : option (Status * Conf F * FS) :=
  match InternalGetTargetTable table_name c with
  | None => Some (not_found table_name, c, fs)
  | Some i => save_tables (alter (with_ids f) i (table_structs_ c)) c fs
  end.
Definition AddTablePartitions (table_name : string) (ids : list Z) c fs : option (Status * Conf F * FS) :=
  let s := TablePartitionsSanityCheck table_name ids true c in
  if negb (ok s) then Some (s, c, fs) else change_ids table_name (λ l, foldl (λ l id, id_insert id l) l ids) c fs.
Definition RemoveTablePartitions (table_name : string) (ids : list Z) c fs : option (Status * Conf F * FS) :=
  let s := TablePartitionsSanityCheck table_name ids false c in
  if negb (ok s) then Some (s, c, fs) else change_ids table_name (λ l, foldl (λ l id, id_erase id l) l ids) c fs.
Definition AddTableSanityCheck (table_name : string) c : Status :=
  match InternalGetTargetTable table_name c with
  | None => OK
  | Some _ => Corruption ("table: " ++ table_name ++ " already exist")
  end.
Definition DelTableSanityCheck (table_name : string) c : Status :=
  match InternalGetTargetTable table_name c with None => not_found table_name | Some _ => OK end.
Definition AddTable (table_name : string) (slot_num : Z) c fs : option (Status * Conf F * FS) :=
  let s := AddTableSanityCheck table_name c in
  if negb (ok s) then Some (s, c, fs) else save_tables (table_structs_ c ++ [mkTableStruct table_name slot_num []]) c fs.
Definition DelTable (table_name : string) c fs : option (Status * Conf F * FS) :=
  let s := DelTableSanityCheck table_name c in
  if negb (ok s) then Some (s, c, fs) else
  match InternalGetTargetTable table_name c with
  | None => save_tables (table_structs_ c) c fs
  | Some i => save_tables (delete i (table_structs_ c)) c fs
  end.
End Conf.

Create HintDb conf_set.
#[export] Hint Unfold SetTimeout SetSlaveof SetSlavePriority SetMaxCacheStatisticKeys SetSmallCompactionThreshold SetMaxClientResponseSize SetExpireDumpDays SetBgsavePrefix SetRequirePass SetMasterAuth SetUserPass SetExpireLogsNums SetExpireLogsDays SetMaxConnection SetRootConnectionNum SetSlowlogSlowerThan SetSlowlogMaxLen SetDbSyncSpeed SetCompactCron SetCompactInterval SetSyncWindowSize SetMaxConnRbufSize SetMaxCacheFiles SetMaxBackgroudCompactions SetWriteBufferSize SetMaxWriteBufferNumber SetArenaBlockSize SetWriteBinlog SetSlowlogWriteErrorlog SetUserBlackList SetBgsavePath SetJsonFile SetPort SetThreadNum SetThreadPoolSize : conf_set.
(** The members of an updated configuration. *)
Ltac conf_simpl := cbn; unfold constant.
