(* ===== verification/ConfigCmd.v ===== *)
(** * CONFIG (src/pika_admin.cc)

    Reading and changing the configuration by a client: what CONFIG GET lists, what CONFIG
    SET accepts and changes, writing the file.  The calls of the server that only reach the
    storage engine, the slow log or the system are recorded in order. *)

From S2P Require Import Prelude Define Env Transverter Command StableLog CmdRes Blackwidow CmdArgs CmdReply.
From S2P Require Import SlaveNode Consensus Server ConfState Config.
From stdpp Require Import base list strings pretty gmap.
From coqutil Require Import Datatypes.RecordSetters.
From Stdlib Require Import ZArith Lia Init.Byte.
Import TriangleBracketNotations.
#[local] Open Scope string_scope.
#[local] Open Scope list_scope.
#[local] Open Scope Z_scope.

Inductive OptionType := kDB | kColumnFamily.
Inductive ServerCall :=
  | SetDispatchQueueLimit (queue_limit : Z) | SlowlogTrim | ResetStat
  | PartitionSetMaxCacheStatisticKeys (n : Z) | PartitionSetSmallCompactionThreshold (n : Z).

(** [RewriteBlackwidowOptions]: an option of the storage engine, in all partitions. *)
Class EngineOptions (RS W : Type) := { RewriteBlackwidowOptions : OptionType → string → bytes → W → RS * W }.

(** ** Arguments *)

Definition ConfigCmd_DoInitial (argv : list bytes) : option (CmdRes + list bytes) :=
  let wrong (sub : string) := bad kErrOther ("Wrong number of arguments for CONFIG " ++ sub) in
  sub ← argv !! 1%nat;
  let argc := zlen argv in
  let ok := good (drop 1 argv) in
  if same_word sub "get" then (if negb (argc =? 3) then wrong "get" else ok)
  else if same_word sub "set" then
    (if (argc =? 3) && negb (bool_decide (argv !! 2%nat = Some (str "*"))) then wrong "set"
     else if negb (argc =? 4) && negb (argc =? 3) then wrong "set" else ok)
  else if same_word sub "rewrite" then (if negb (argc =? 2) then wrong "rewrite" else ok)
  else if same_word sub "resetstat" then (if negb (argc =? 2) then wrong "resetstat" else ok)
  else bad kErrOther "CONFIG subcommand must be one of GET, SET, RESETSTAT, REWRITE".

Section ConfigCmd.
Context {F : Type} {BC : BaseConf F} {ST : SlashText} {SN : StringNum}.
Context {RS W : Type} {RO : RocksStatus RS} {EO : EngineOptions RS W}.
Implicit Types (c : Conf F) (w : W).

(** ** CONFIG GET *)

Definition EncodeString (value : bytes) : bytes := str "$" ++ to_string (zlen value) ++ kNewLine ++ value ++ kNewLine.

(** The settings in the order of the code; [EncodeInt32] and [EncodeInt64] encode the text
    of the number. *)
Definition items_files c : list (string * bytes) := [
  ("port", to_string (port_ c)); ("thread-num", to_string (thread_num_ c));
  ("thread-pool-size", to_string (thread_pool_size_ c)); ("sync-thread-num", to_string (sync_thread_num_ c));
  ("log-path", log_path_ c); ("db-path", db_path_ c); ("maxmemory", to_string (write_buffer_size_ c));
  ("write-buffer-size", to_string (write_buffer_size_ c)); ("arena-block-size", to_string (arena_block_size_ c));
  ("max-write-buffer-number", to_string (max_write_buffer_num_ c)) ].
(** [classic_mode()] is constantly true. *)
Definition items_clients c : list (string * bytes) := [
  ("timeout", to_string (timeout_ c)); ("requirepass", requirepass_ c); ("masterauth", masterauth_ c);
  ("userpass", userpass_ c); ("userblacklist", c_text (suser_blacklist c)); ("instance-mode", str "classic");
  ("databases", to_string (databases_ c)); ("daemonize", yes_no (daemonize_ c)); ("dump-path", bgsave_path_ c);
  ("dump-expire", to_string (expire_dump_days_ c)); ("dump-prefix", bgsave_prefix_ c); ("pidfile", pidfile_ c);
  ("maxclients", to_string (maxclients_ c)) ].
Definition items_engine c : list (string * bytes) := [
  ("target-file-size-base", to_string (target_file_size_base_ c));
  ("max-cache-statistic-keys", to_string (max_cache_statistic_keys_ c));
  ("small-compaction-threshold", to_string (small_compaction_threshold_ c));
  ("max-background-flushes", to_string (max_background_flushes_ c));
  ("max-background-compactions", to_string (max_background_compactions_ c));
  ("max-cache-files", to_string (max_cache_files_ c));
  ("max-bytes-for-level-multiplier", to_string (max_bytes_for_level_multiplier_ c));
  ("block-size", to_string (block_size_ c)); ("block-cache", to_string (block_cache_ c));
  ("share-block-cache", yes_no (share_block_cache_ c));
  ("cache-index-and-filter-blocks", yes_no (cache_index_and_filter_blocks_ c));
  ("optimize-filters-for-hits", yes_no (optimize_filters_for_hits_ c));
  ("level-compaction-dynamic-level-bytes", yes_no (level_compaction_dynamic_level_bytes_ c)) ].
Definition items_log c : list (string * bytes) := [
  ("expire-logs-days", to_string (expire_logs_days_ c)); ("expire-logs-nums", to_string (expire_logs_nums_ c));
  ("root-connection-num", to_string (root_connection_num_ c));
  ("slowlog-write-errorlog", yes_no (slowlog_write_errorlog_ c));
  ("slowlog-log-slower-than", to_string (slowlog_log_slower_than_ c)); ("slowlog-max-len", to_string (slowlog_max_len_ c));
  ("write-binlog", yes_no (write_binlog_ c)); ("binlog-file-size", to_string (binlog_file_size_ c));
  ("max-cache-statistic-keys", to_string (max_cache_statistic_keys_ c));
  ("small-compaction-threshold", to_string (small_compaction_threshold_ c));
  ("max-write-buffer-size", to_string (max_write_buffer_size_ c));
  ("max-client-response-size", to_string (max_client_response_size_ c)); ("compression", compression_ c) ].
Definition items_sync c : list (string * bytes) := [
  ("db-sync-path", db_sync_path_ c); ("db-sync-speed", to_string (db_sync_speed_ c)); ("compact-cron", compact_cron_ c);
  ("compact-interval", compact_interval_ c); ("network-interface", network_interface_ c); ("slaveof", slaveof_ c);
  ("slave-priority", to_string (slave_priority_ c)); ("sync-window-size", to_string (sync_window_size_ c));
  ("max-conn-rbuf-size", to_string (max_conn_rbuf_size_ c)); ("replication-num", to_string (replication_num_ c));
  ("consensus-level", to_string 0) ].
Definition config_items c : list (string * bytes) :=
  items_files c ++ items_clients c ++ items_engine c ++ items_log c ++ items_sync c.

Definition ConfigGet (pattern : bytes) c : bytes :=
  let matched := filter (λ nv : string * bytes, stringmatch (c_text pattern) (str nv.1) = true) (config_items c) in
  str "*" ++ to_string (2 * zlen matched) ++ kNewLine ++
    concat ((λ nv : string * bytes, EncodeString (str nv.1) ++ EncodeString nv.2) <$> matched).

(** ** CONFIG SET *)

Definition settable : list string := [
  "timeout"; "requirepass"; "masterauth"; "userpass"; "userblacklist"; "dump-prefix"; "maxclients"; "dump-expire";
  "expire-logs-days"; "expire-logs-nums"; "root-connection-num"; "slowlog-write-errorlog"; "slowlog-log-slower-than";
  "slowlog-max-len"; "write-binlog"; "max-cache-statistic-keys"; "small-compaction-threshold"; "max-client-response-size";
  "db-sync-speed"; "compact-cron"; "compact-interval"; "slave-priority"; "sync-window-size"; "max-cache-files";
  "max-background-compactions"; "write-buffer-size"; "max-write-buffer-number"; "arena-block-size" ].

(** The reply, the configuration, the engine and the calls; [None]: undefined. *)
Definition SetResult : Type := option (bytes * Conf F * W * list ServerCall).
Definition text_line (s : string) : bytes := str s ++ kNewLine.
Definition refuse (ret : bytes) c w : SetResult := Some (ret, c, w, []).
Definition accept (calls : list ServerCall) c w : SetResult := Some (text_line "+OK", c, w, calls).
Definition invalid_argument (item : string) (value : bytes) : bytes :=
  str "-ERR Invalid argument '" ++ value ++ str "' for CONFIG SET '" ++ str item ++ text_line "'".
(** A number that is not [refused]; the setters take [int]s. *)
Definition set_number (item : string) (value : bytes) (refused : Z → bool) (set : Z → Conf F → Conf F)
    (calls : Z → list ServerCall) c w : SetResult :=
  match num value with
  | None => refuse (invalid_argument item value) c w
  | Some ival =>
      if refused ival then refuse (invalid_argument item value) c w
      else accept (calls (s32 ival)) (set (s32 ival) c) w
  end.
(** A number that the engine takes as an option. *)
Definition set_option (item : string) (value : bytes) (type : OptionType) (option_name : string) (set : Z → Conf F → Conf F)
    c w : SetResult :=
  match num value with
  | None => refuse (invalid_argument item value) c w
  | Some ival =>
      let '(s, w) := RewriteBlackwidowOptions (RS := RS) type option_name value w in
      if negb (rs_ok s) then refuse (str "-ERR Set " ++ str item ++ str " wrong: " ++ rs_ToString s ++ kNewLine) c w
      else accept [] (set (s32 ival) c) w
  end.
Definition none_refused (ival : Z) : bool := false.
Definition no_calls (n : Z) : list ServerCall := [].

(** The numbers with limits, the compactions, and the options of the engine. *)
Definition set_limited (item : bytes) (value : bytes) c w : SetResult :=
  let named (name : string) := bool_decide (item = str name) in
  if named "db-sync-speed" then
    match num value with
    | None => refuse (invalid_argument "db-sync-speed(MB)" value) c w
    | Some ival => accept [] (SetDbSyncSpeed (if (ival <? 0) || (ival >? 1024) then 1024 else ival) c) w
    end
  else if named "compact-cron" then
    valid ← (if bool_decide (value = []) then Some true else compact_cron_ok value);
    if valid : bool then accept [] (SetCompactCron value c) w else refuse (text_line "-ERR invalid compact-cron") c w
  else if named "compact-interval" then
    valid ← (if bool_decide (value = []) then Some true else compact_interval_ok value);
    if valid : bool then accept [] (SetCompactInterval value c) w else refuse (text_line "-ERR invalid compact-interval") c w
  else if named "sync-window-size" then
    match num value with
    | None => refuse (invalid_argument "sync-window-size" value) c w
    | Some ival =>
        if (ival <=? 0) || (ival >? kBinlogReadWinMaxSize)
        then refuse (str "-ERR Argument exceed range '" ++ value ++ text_line "' for CONFIG SET 'sync-window-size'") c w
        else accept [] (SetSyncWindowSize ival c) w
    end
  else if named "max-cache-files" then set_option "max-cache-files" value kDB "max_open_files" SetMaxCacheFiles c w
  else if named "max-background-compactions" then
    set_option "max-background-compactions" value kDB "max_background_compactions" SetMaxBackgroudCompactions c w
  else if named "write-buffer-size" then
    set_option "write-buffer-size" value kColumnFamily "write_buffer_size" SetWriteBufferSize c w
  else if named "max-write-buffer-number" then
    set_option "max-write-buffer-number" value kColumnFamily "max_write_buffer_number" SetMaxWriteBufferNumber c w
  else if named "arena-block-size" then
    set_option "arena-block-size" value kColumnFamily "arena_block_size" SetArenaBlockSize c w
  else refuse (str "-ERR Unsupported CONFIG parameter: " ++ item ++ kNewLine) c w.

(** The texts and the other numbers. *)
Definition set_item (role : Z) (item value : bytes) c w : SetResult :=
  let named (name : string) := bool_decide (item = str name) in
  if named "timeout" then
    match num value with
    | None => refuse (str "-ERR Invalid argument " ++ value ++ text_line " for CONFIG SET 'timeout'") c w
    | Some ival => accept [] (SetTimeout (s32 ival) c) w
    end
  else if named "requirepass" then accept [] (SetRequirePass value c) w
  else if named "masterauth" then accept [] (SetMasterAuth value c) w
  else if named "userpass" then accept [] (SetUserPass value c) w
  else if named "userblacklist" then accept [] (SetUserBlackList value c) w
  else if named "dump-prefix" then accept [] (SetBgsavePrefix value c) w
  else if named "maxclients" then
    set_number "maxclients" value (λ ival, ival <=? 0) SetMaxConnection (λ n, [SetDispatchQueueLimit n]) c w
  else if named "dump-expire" then set_number "dump-expire" value none_refused SetExpireDumpDays no_calls c w
  else if named "slave-priority" then set_number "slave-priority" value none_refused SetSlavePriority no_calls c w
  else if named "expire-logs-days" then set_number "expire-logs-days" value (λ ival, ival <=? 0) SetExpireLogsDays no_calls c w
  else if named "expire-logs-nums" then set_number "expire-logs-nums" value (λ ival, ival <=? 0) SetExpireLogsNums no_calls c w
  else if named "root-connection-num" then
    set_number "root-connection-num" value (λ ival, ival <=? 0) SetRootConnectionNum no_calls c w
  else if named "slowlog-write-errorlog" then
    if bool_decide (value = str "yes") then accept [] (SetSlowlogWriteErrorlog true c) w
    else if bool_decide (value = str "no") then accept [] (SetSlowlogWriteErrorlog false c) w
    else refuse (invalid_argument "slowlog-write-errorlog" value) c w
  else if named "slowlog-log-slower-than" then
    set_number "slowlog-log-slower-than" value (λ ival, ival <? 0) SetSlowlogSlowerThan no_calls c w
  else if named "slowlog-max-len" then
    set_number "slowlog-max-len" value (λ ival, ival <? 0) SetSlowlogMaxLen (λ _, [SlowlogTrim]) c w
  else if named "max-cache-statistic-keys" then
    set_number "max-cache-statistic-keys" value (λ ival, ival <? 0) SetMaxCacheStatisticKeys
      (λ n, [PartitionSetMaxCacheStatisticKeys (u32 n)]) c w
  else if named "small-compaction-threshold" then
    set_number "small-compaction-threshold" value (λ ival, ival <? 0) SetSmallCompactionThreshold
      (λ n, [PartitionSetSmallCompactionThreshold (u32 n)]) c w
  else if named "max-client-response-size" then
    set_number "max-client-response-size" value (λ ival, ival <? 0) SetMaxClientResponseSize no_calls c w
  else if named "write-binlog" then
    if role =? PIKA_ROLE_SLAVE then refuse (text_line "-ERR need to close master-slave mode first") c w
    else if negb (bool_decide (value = str "yes")) && negb (bool_decide (value = str "no"))
    then refuse (text_line "-ERR invalid write-binlog (yes or no)") c w
    else accept [] (SetWriteBinlog value c) w
  else set_limited item value c w.

Definition ConfigSet (role : Z) (args : list bytes) c w : SetResult :=
  item ← args !! 1%nat;
  if bool_decide (item = str "*") then refuse (text_line "*28" ++ concat ((λ n, EncodeString (str n)) <$> settable)) c w else
  value ← args !! 2%nat; set_item role item value c w.

(** ** The command *)

Definition ConfigCmd_Do (role : Z) (args : list bytes) c w : option (CmdRes * Conf F * W * list ServerCall) :=
  sub ← args !! 0%nat;
  '(ret, c, w, calls) ←
    (if same_word sub "get" then pattern ← args !! 1%nat; refuse (ConfigGet pattern c) c w
     else if same_word sub "set" then ConfigSet role args c w
     else if same_word sub "rewrite" then accept [] (ConfigRewrite c).2 w
     else if same_word sub "resetstat" then accept [ResetStat] c w
     else refuse [] c w);
  Some (AppendStringRaw ret res_new, c, w, calls).
End ConfigCmd.
