(* ===== verification/ConfigFacts.v ===== *)
(** * The configuration: what is guaranteed

    A configuration that is loaded is within its limits whatever the file says; CONFIG SET
    changes what it names and nothing else, but its limits are not those of [Load]. *)

From S2P Require Import Prelude Define Env Transverter Command SlaveNode Consensus StableLog Server PikaMeta.
From S2P Require Import CmdRes Blackwidow CmdArgs CmdReply ConfState Config ConfigCmd.
From stdpp Require Import base list strings pretty gmap.
From coqutil Require Import Datatypes.RecordSetters.
From Stdlib Require Import ZArith Lia Init.Byte.
Import TriangleBracketNotations.
#[local] Open Scope string_scope.
#[local] Open Scope list_scope.
#[local] Open Scope Z_scope.

(** ** Limits *)

Section Limits.
Context {F : Type}.
Implicit Types (c : Conf F).

Definition ends_in_slash (path : bytes) : Prop := last path = Some slash_.
Record general_ok c : Prop := {
  ok_timeout : 0 ≤ timeout_ c; ok_maxclients : 0 < maxclients_ c; ok_root : 0 ≤ root_connection_num_ c;
  ok_slowlog : slowlog_max_len_ c ≠ 0; ok_dump : 0 ≤ expire_dump_days_ c; ok_nums : 10 ≤ expire_logs_nums_ c;
  ok_days : 1 ≤ expire_logs_days_ c; ok_bgsave_path : ends_in_slash (bgsave_path_ c); ok_id : server_id_ c ≠ [];
  ok_read_only : slave_read_only_ c = true }.
Record threads_ok c : Prop := {
  ok_threads : 0 < thread_num_ c; ok_pool : 0 < thread_pool_size_ c; ok_sync_threads : 1 ≤ sync_thread_num_ c ≤ 24;
  ok_log_path : ends_in_slash (log_path_ c); ok_db_path : ends_in_slash (db_path_ c); ok_meta : local_meta_path_ c = db_path_ c }.
Record tables_ok c : Prop := {
  ok_default : ∃ t l, table_structs_ c = t :: l ∧ default_table_ c = tbl_name t;
  ok_consensus : 0 ≤ consensus_level_ c ≤ replication_num_ c; ok_replication : replication_num_ c ≤ 4;
  ok_classic : classic_mode_ c = true → 1 ≤ databases_ c ≤ 8 ∧ consensus_level_ c = 0 ∧ replication_num_ c = 0;
  ok_slots : classic_mode_ c = false → 0 < default_slot_num_ c }.
Record compaction_ok c : Prop := {
  ok_cron : compact_cron_ c = [] ∨ compact_cron_ok (compact_cron_ c) = Some true;
  ok_interval : compact_interval_ c = [] ∨ compact_interval_ok (compact_interval_ c) = Some true }.
Record engine_ok c : Prop := {
  ok_write_buffer : 0 < write_buffer_size_ c; ok_arena : 0 ≤ arena_block_size_ c; ok_max_write : 0 < max_write_buffer_size_ c;
  ok_write_num : 0 < max_write_buffer_num_ c; ok_response : 0 < max_client_response_size_ c;
  ok_target : 0 < target_file_size_base_ c; ok_cache_keys : 0 ≤ max_cache_statistic_keys_ c;
  ok_small : 0 < small_compaction_threshold_ c < 100000; ok_flushes : 1 ≤ max_background_flushes_ c ≤ 4;
  ok_compactions : 1 ≤ max_background_compactions_ c ≤ 8; ok_files : -1 ≤ max_cache_files_ c;
  ok_multiplier : 5 ≤ max_bytes_for_level_multiplier_ c; ok_block : 0 < block_size_ c; ok_block_cache : 0 ≤ block_cache_ c }.
Record sync_ok c : Prop := {
  ok_binlog : 1024 ≤ binlog_file_size_ c ≤ 2 ^ 30; ok_sync_path : ends_in_slash (db_sync_path_ c);
  ok_speed : 0 ≤ db_sync_speed_ c ≤ 1024; ok_window : 0 < sync_window_size_ c ≤ kBinlogReadWinMaxSize;
  ok_rbuf : max_conn_rbuf_size_ c ∈ [PIKA_MAX_CONN_RBUF_LB; PIKA_MAX_CONN_RBUF; PIKA_MAX_CONN_RBUF_HB] }.
Definition within_limits c : Prop :=
  general_ok c ∧ threads_ok c ∧ tables_ok c ∧ compaction_ok c ∧ engine_ok c ∧ sync_ok c.
End Limits.

Lemma slash_ended_ends default_path path : default_path ≠ "" → ends_in_slash (slash_ended default_path path).
Proof.
  intros H. unfold ends_in_slash, slash_ended. case_bool_decide; [done|]. by rewrite last_snoc.
Qed.

Section Load.
Context {F : Type} {BC : BaseConf F} {ST : SlashText} {FS : Type} {E : SlashEnv FS} {P : SlashPaths FS} {MC : MetaCodec}.
Implicit Types (c : Conf F).

Ltac in_limits := repeat case_match; lia.

Lemma load_general_ok c c' : load_general c = Some c' → general_ok c'.
Proof.
  unfold load_general. intros (id & Hid & [= <-])%bind_Some. split; conf_simpl; try in_limits; try done.
  - by apply slash_ended_ends.
  - case_bool_decide; [by injection Hid as <-|]. apply bind_Some in Hid as (n & _ & [= <-]). by case_match.
Qed.
Lemma load_threads_ok c : threads_ok (load_threads c).
Proof. split; conf_simpl; try in_limits; try done; by apply slash_ended_ends. Qed.
Lemma load_tables_ok c c' (fs fs' : FS) : load_tables c fs = Some (c', fs') → tables_ok c'.
Proof.
  unfold load_tables. intros ([tables fs1] & Ht & (first & Hf & H)%bind_Some)%bind_Some.
  do 3 (case_match; [done|]). injection H as <- <-. split; conf_simpl.
  - destruct tables as [|t l]; [done|]. injection Hf as <-. by exists t, l.
  - lia.
  - lia.
  - intros Hc. rewrite Hc in *. case_match; [done|]. lia.
  - intros Hc. rewrite Hc in *. case_match; [done|]. lia.
Qed.
Lemma load_compaction_ok c c' : load_compaction c = Some c' → compaction_ok c'.
Proof.
  unfold load_compaction. intros (b1 & H1 & (b2 & H2 & [= <-])%bind_Some)%bind_Some. split; conf_simpl.
  - destruct b1; [|by left]. clear H2. case_bool_decide; [by left|by right].
  - destruct b2; [|by left]. clear H1. case_bool_decide; [by left|by right].
Qed.
Lemma load_engine_ok c : engine_ok (load_engine c).
Proof. split; conf_simpl; try in_limits. case_match; [|lia]. apply Z.shiftr_nonneg. in_limits. Qed.
Lemma load_sync_ok c : sync_ok (load_sync c).
Proof.
  split; conf_simpl; try in_limits; [by apply slash_ended_ends| |].
  - unfold kBinlogReadWinMaxSize, kBinlogReadWinDefaultSize. in_limits.
  - case_match eqn:H; [|right; left]. apply orb_true_iff in H as [->%Z.eqb_eq| ->%Z.eqb_eq]; [left|right; right; left].
Qed.

Lemma load_ok c c1 c2 c3 (fs fs' : FS) : load_general c = Some c1 → load_tables (load_threads c1) fs = Some (c2, fs') →
  load_compaction c2 = Some c3 → within_limits (load_sync (load_engine c3)).
Proof.
  intros H1 H2 H3. apply load_general_ok in H1 as G. pose proof (load_threads_ok c1) as T. apply load_tables_ok in H2 as B.
  apply load_compaction_ok in H3 as K. pose proof (load_engine_ok c3) as En. pose proof (load_sync_ok (load_engine c3)) as S.
  unfold load_tables in H2. apply bind_Some in H2 as ([t fs1] & _ & (h & _ & H2)%bind_Some). do 3 (case_match; [done|]).
  injection H2 as <- <-. apply bind_Some in H3 as (b1 & _ & (b2 & _ & [= <-])%bind_Some).
  split_and!; [destruct G|destruct T|destruct B|destruct K|destruct En|exact S]; split; assumption.
Qed.

(** C22. Whatever the file says, and whatever the members were before, a configuration that is
    loaded is within the limits of every setting; values that are refused end the process. *)
Theorem Load_within_limits f c c' (fs fs' : FS) ret : Load (inr f) c fs = Some (ret, c', fs') → ret = 0 ∧ within_limits c'.
Proof.
  intros (c1 & H1 & ([c2 fs1] & H2 & (c3 & H3 & [= <- <- <-])%bind_Some)%bind_Some)%bind_Some. split; [done|].
  by eapply load_ok.
Qed.
End Load.

(** * CONFIG SET: what it changes

    An item that is accepted changes what CONFIG GET shows of it, and of nothing else; one
    that is refused changes nothing.  The limits that CONFIG SET checks are those of the
    number before it is cut to an [int]. *)

(** ** CONFIG SET *)

Section Setting.
Context {F : Type} {BC : BaseConf F} {ST : SlashText} {SN : StringNum}.
Context {RS W : Type} {RO : RocksStatus RS} {EO : EngineOptions RS W}.
Implicit Types (c : Conf F) (w : W).

(** What CONFIG GET shows of a setting. *)
Definition shown (name : string) c : option bytes := snd <$> find (λ nv, bool_decide (nv.1 = name)) (config_items c).
(** The settings that an item stands for. *)
Definition names (item : string) : list string :=
  if bool_decide (item = "write-buffer-size") then [item; "maxmemory"] else [item].
Definition unchanged (item : string) (a b : string * bytes) : Prop := a.1 = b.1 ∧ (a.1 ∉ names item → a.2 = b.2).
Definition only (item : string) c c' : Prop := Forall2 (unchanged item) (config_items c) (config_items c').

Lemma shown_unchanged item name l l' : Forall2 (unchanged item) l l' → name ∉ names item →
  snd <$> find (λ nv : string * bytes, bool_decide (nv.1 = name)) l = snd <$> find (λ nv, bool_decide (nv.1 = name)) l'.
Proof.
  intros H Hn. induction H as [|a b l l' [Ha Hb] H IH]; [done|]. cbn [find]. rewrite <- Ha.
  case_bool_decide as E; [|done]. cbn. f_equal. apply Hb. by rewrite E.
Qed.
Lemma only_shown item name c c' : only item c c' → name ∉ names item → shown name c' = shown name c.
Proof. intros H Hn. symmetry. by eapply shown_unchanged. Qed.
Lemma push_items command value c : config_items (TryPushDiffCommands command value c) = config_items c.
Proof. unfold TryPushDiffCommands. by destruct (CheckConfExist _ _). Qed.

(** An update of one member. *)
Ltac one_item := intros v c; unfold only; autounfold with conf_set;
  match goal with |- context [TryPushDiffCommands ?k ?t c] => rewrite <- (push_items k t c);
    generalize (TryPushDiffCommands k t c); clear c; intros c end;
  cbv [config_items items_files items_clients items_engine items_log items_sync app suser_blacklist];
  repeat (apply Forall2_cons; split; [split; [reflexivity|first [intros _; reflexivity
    | intros H; exfalso; apply H; first [left | right; left]]]|]); apply Forall2_nil; exact I.

Definition number_setters : list (string * (Z → Conf F → Conf F)) := [
  ("timeout", SetTimeout); ("maxclients", SetMaxConnection); ("dump-expire", SetExpireDumpDays);
  ("slave-priority", SetSlavePriority); ("expire-logs-days", SetExpireLogsDays); ("expire-logs-nums", SetExpireLogsNums);
  ("root-connection-num", SetRootConnectionNum); ("slowlog-log-slower-than", SetSlowlogSlowerThan);
  ("slowlog-max-len", SetSlowlogMaxLen); ("max-cache-statistic-keys", SetMaxCacheStatisticKeys);
  ("small-compaction-threshold", SetSmallCompactionThreshold); ("max-client-response-size", SetMaxClientResponseSize);
  ("db-sync-speed", SetDbSyncSpeed); ("sync-window-size", SetSyncWindowSize); ("max-cache-files", SetMaxCacheFiles);
  ("max-background-compactions", SetMaxBackgroudCompactions); ("write-buffer-size", SetWriteBufferSize);
  ("max-write-buffer-number", SetMaxWriteBufferNumber); ("arena-block-size", SetArenaBlockSize) ].
Definition text_setters : list (string * (bytes → Conf F → Conf F)) := [
  ("requirepass", SetRequirePass); ("masterauth", SetMasterAuth); ("userpass", SetUserPass); ("dump-prefix", SetBgsavePrefix);
  ("compact-cron", SetCompactCron); ("compact-interval", SetCompactInterval) ].

Ltac shown_item := intros v c; autounfold with conf_set;
  match goal with |- context [TryPushDiffCommands ?k ?t c] => generalize (TryPushDiffCommands k t c); intros c'; reflexivity end.
Ltac setters := repeat (apply Forall_cons; split); try (apply Forall_nil; exact I); cbn [fst snd];
  intros v c; (split; [revert v c; one_item|revert v c; shown_item]).
Lemma number_setters_ok : Forall (λ s, ∀ v c, only s.1 c (s.2 v c) ∧ shown s.1 (s.2 v c) = Some (to_string v)) number_setters.
Proof. setters. Qed.
Lemma text_setters_ok : Forall (λ s, ∀ v c, only s.1 c (s.2 v c) ∧ shown s.1 (s.2 v c) = Some v) text_setters.
Proof. setters. Qed.

Lemma blacklist_only v c : only "userblacklist" c (SetUserBlackList v c).
Proof. revert v c. one_item. Qed.
Lemma write_binlog_only v c : only "write-binlog" c (SetWriteBinlog v c).
Proof. revert v c. one_item. Qed.
Lemma errorlog_only v c : only "slowlog-write-errorlog" c (SetSlowlogWriteErrorlog v c).
Proof. revert v c. one_item. Qed.

Definition number_items : list string := [
  "timeout"; "maxclients"; "dump-expire"; "slave-priority"; "expire-logs-days"; "expire-logs-nums"; "root-connection-num";
  "slowlog-log-slower-than"; "slowlog-max-len"; "max-cache-statistic-keys"; "small-compaction-threshold";
  "max-client-response-size"; "db-sync-speed"; "sync-window-size"; "max-cache-files"; "max-background-compactions";
  "write-buffer-size"; "max-write-buffer-number"; "arena-block-size" ].
(** The text that a setting has after CONFIG SET. *)
Definition set_text (item : string) (value : bytes) : bytes :=
  if bool_decide (item ∈ number_items) then
    to_string (match num value with
      | None => 0
      | Some n => if bool_decide (item = "db-sync-speed") then (if (n <? 0) || (n >? 1024) then 1024 else n) else s32 n
      end)
  else if bool_decide (item = "userblacklist") then c_text (StringConcat (split_blacklist value) COMMA)
  else value.

(** A command that is accepted changes what it names; one that is refused changes nothing. *)
Definition set_spec (item value : bytes) c (x : SetResult (F := F) (W := W)) : Prop :=
  match x with
  | None => True
  | Some (ret, c', _, calls) =>
      (ret = text_line "+OK" ∧ ∃ n, n ∈ settable ∧ item = str n ∧ shown n c' = Some (set_text n value) ∧
        ∀ name, name ∉ names n → shown name c' = shown name c) ∨
      (ret ≠ text_line "+OK" ∧ c' = c ∧ calls = [])
  end.

Lemma spec_refuse item value c w ret : head ret = Some x2d → set_spec item value c (refuse ret c w).
Proof. intros H. right. split; [|done]. by intros ->. Qed.
Lemma spec_accept n value c c' w calls : n ∈ settable → only n c c' → shown n c' = Some (set_text n value) →
  set_spec (str n) value c (accept calls c' w).
Proof. intros Hn Ho Hs. left. split; [done|]. exists n. split; [exact Hn|]. split; [reflexivity|]. split; [exact Hs|].
  intros name. exact (only_shown n name c c' Ho). Qed.
Lemma number_accept n set value c w v calls : (n, set) ∈ number_setters → n ∈ settable → set_text n value = to_string v →
  set_spec (str n) value c (accept calls (set v c) w).
Proof.
  intros Hin Hn Ht. pose proof number_setters_ok as H. rewrite Forall_forall in H. destruct (H _ Hin v c) as [Ho Hs].
  cbn [fst snd] in *. apply spec_accept; [exact Hn|exact Ho|]. rewrite Ht. exact Hs.
Qed.
Lemma text_accept n set value c w calls : (n, set) ∈ text_setters → n ∈ settable → set_text n value = value →
  set_spec (str n) value c (accept calls (set value c) w).
Proof.
  intros Hin Hn Ht. pose proof text_setters_ok as H. rewrite Forall_forall in H. destruct (H _ Hin value c) as [Ho Hs].
  cbn [fst snd] in *. apply spec_accept; [exact Hn|exact Ho|]. rewrite Ht. exact Hs.
Qed.
Lemma number_text n value v : bool_decide (n ∈ number_items) = true → bool_decide (n = "db-sync-speed") = false → num value = Some v → set_text n value = to_string (s32 v).
Proof. intros H1 H2 H3. unfold set_text. by rewrite H1, H3, H2. Qed.
Lemma plain_text n value : bool_decide (n ∈ number_items) = false → bool_decide (n = "userblacklist") = false → set_text n value = value.
Proof. intros H1 H2. unfold set_text. by rewrite H1, H2. Qed.

Lemma spec_number n set value refused calls c w : (n, set) ∈ number_setters → n ∈ settable →
  bool_decide (n ∈ number_items) = true → bool_decide (n = "db-sync-speed") = false →
  set_spec (str n) value c (set_number n value refused set calls c w).
Proof.
  intros Hin Hn Hi Hd. unfold set_number. destruct (num value) as [v|] eqn:E; [|by apply spec_refuse].
  destruct (refused v); [by apply spec_refuse|]. apply number_accept; [done|done|]. by apply number_text.
Qed.
Lemma spec_option n set value type option_name c w : (n, set) ∈ number_setters → n ∈ settable →
  bool_decide (n ∈ number_items) = true → bool_decide (n = "db-sync-speed") = false →
  set_spec (str n) value c (set_option (RS := RS) n value type option_name set c w).
Proof.
  intros Hin Hn Hi Hd. unfold set_option. destruct (num value) as [v|] eqn:E; [|by apply spec_refuse].
  destruct (RewriteBlackwidowOptions _ _ _ _) as [s w']. destruct (rs_ok s); [|by apply spec_refuse].
  apply number_accept; [done|done|]. by apply number_text.
Qed.

Ltac elem := repeat first [apply list_elem_of_here | apply list_elem_of_further].
Ltac next_item := case_bool_decide; [subst|].
Lemma set_limited_spec item value c w : set_spec item value c (set_limited (RS := RS) item value c w).
Proof.
  unfold set_limited. cbv zeta.
  next_item.
  { destruct (num value) as [v|] eqn:E; [|by apply spec_refuse]. apply number_accept; [elem|elem|].
    unfold set_text. by rewrite E. }
  next_item.
  { destruct (if bool_decide _ then _ else _) as [[]|]; cbn [mbind option_bind]; [|by apply spec_refuse|done].
    apply text_accept; [elem|elem|by apply plain_text]. }
  next_item.
  { destruct (if bool_decide _ then _ else _) as [[]|]; cbn [mbind option_bind]; [|by apply spec_refuse|done].
    apply text_accept; [elem|elem|by apply plain_text]. }
  next_item.
  { destruct (num value) as [v|] eqn:E; [|by apply spec_refuse]. case_match eqn:Hv; [by apply spec_refuse|].
    apply number_accept; [elem|elem|]. rewrite (number_text _ _ v) by done.
    by rewrite s32_small by (unfold kBinlogReadWinMaxSize in *; lia). }
  repeat (next_item; [apply spec_option; [elem|elem|done|done]|]). by apply spec_refuse.
Qed.

Lemma set_item_spec role item value c w : set_spec item value c (set_item (RS := RS) role item value c w).
Proof.
  unfold set_item. cbv zeta.
  next_item.
  { destruct (num value) as [v|] eqn:E; [|by apply spec_refuse]. apply number_accept; [elem|elem|].
    by apply number_text. }
  next_item; [apply text_accept; [elem|elem|by apply plain_text]|].
  next_item; [apply text_accept; [elem|elem|by apply plain_text]|].
  next_item; [apply text_accept; [elem|elem|by apply plain_text]|].
  next_item.
  { apply (spec_accept "userblacklist"); [elem|apply blacklist_only|]. unfold SetUserBlackList.
    generalize (TryPushDiffCommands "userblacklist" value c). intros c1. reflexivity. }
  next_item; [apply text_accept; [elem|elem|by apply plain_text]|].
  do 6 (next_item; [apply spec_number; [elem|elem|done|done]|]).
  next_item.
  { case_bool_decide; [|case_bool_decide; [|by apply spec_refuse]]; subst;
      (apply (spec_accept "slowlog-write-errorlog"); [elem|apply errorlog_only|]); unfold SetSlowlogWriteErrorlog;
      generalize (TryPushDiffCommands "slowlog-write-errorlog"); intros f; reflexivity. }
  do 5 (next_item; [apply spec_number; [elem|elem|done|done]|]).
  next_item.
  { case_match; [by apply spec_refuse|]. case_bool_decide; cbn [negb andb]; [|case_bool_decide; cbn [negb andb]; [|by apply spec_refuse]];
      subst; (apply (spec_accept "write-binlog"); [elem|apply write_binlog_only|]); unfold SetWriteBinlog;
      generalize (TryPushDiffCommands "write-binlog"); intros f; reflexivity. }
  apply set_limited_spec.
Qed.


(** *** Limits *)

(** The limits that CONFIG SET checks, and those that hold whatever the value is. *)
Record bounded_ok c : Prop := {
  set_speed : 0 ≤ db_sync_speed_ c ≤ 1024; set_window : 0 < sync_window_size_ c ≤ kBinlogReadWinMaxSize;
  set_cron : compact_cron_ c = [] ∨ compact_cron_ok (compact_cron_ c) = Some true;
  set_interval : compact_interval_ c = [] ∨ compact_interval_ok (compact_interval_ c) = Some true }.
Record checked_ok c : Prop := {
  set_maxclients : 0 < maxclients_ c; set_days : 0 < expire_logs_days_ c; set_nums : 0 < expire_logs_nums_ c;
  set_root : 0 ≤ root_connection_num_ c; set_keys : 0 ≤ max_cache_statistic_keys_ c;
  set_small : 0 ≤ small_compaction_threshold_ c; set_response : 0 ≤ max_client_response_size_ c }.

Definition limits_spec (fits : Prop) c (x : SetResult (F := F) (W := W)) : Prop :=
  match x with
  | None => True
  | Some (_, c', _, _) => (bounded_ok c → bounded_ok c') ∧ (fits → checked_ok c → checked_ok c')
  end.
Definition fits_int (value : bytes) : Prop := ∀ n, num value = Some n → - 2 ^ 31 ≤ n < 2 ^ 31.

(** A setter of a member: it is within its limits if the value is. *)
Ltac limits := try match goal with |- limits_spec _ _ _ => unfold limits_spec, accept end; autounfold with conf_set; unfold TryPushDiffCommands; destruct (CheckConfExist _ _);
  (split; [intros [????]|intros ? [???????]]); split; conf_simpl; try assumption; try lia; try (rewrite s32_small by lia; lia).
Lemma limits_refuse P c w ret : limits_spec P c (refuse ret c w).
Proof. done. Qed.
Lemma limits_number value item refused (set : Z → Conf F → Conf F) calls c w :
  (∀ n, refused n = false →
    (bounded_ok c → bounded_ok (set (s32 n) c)) ∧ (- 2 ^ 31 ≤ n < 2 ^ 31 → checked_ok c → checked_ok (set (s32 n) c))) →
  limits_spec (fits_int value) c (set_number item value refused set calls c w).
Proof.
  intros H. unfold set_number. destruct (num value) as [n|] eqn:E; [|done]. destruct (refused n) eqn:Er; [done|].
  destruct (H n Er) as [H1 H2]. split; [done|]. intros Hf. by apply H2, Hf.
Qed.
Lemma limits_option value item type option_name (set : Z → Conf F → Conf F) c w :
  (∀ n, (bounded_ok c → bounded_ok (set n c)) ∧ (True → checked_ok c → checked_ok (set n c))) →
  limits_spec (fits_int value) c (set_option (RS := RS) item value type option_name set c w).
Proof.
  intros H. unfold set_option. destruct (num value) as [n|]; [|done].
  destruct (RewriteBlackwidowOptions _ _ _ _) as [s w']. destruct (rs_ok s); [|done].
  destruct (H (s32 n)) as [H1 H2]. split; [done|]. intros _. by apply H2.
Qed.

Lemma set_limited_limits item value c w : limits_spec (fits_int value) c (set_limited (RS := RS) item value c w).
Proof.
  unfold set_limited. cbv zeta.
  next_item.
  { destruct (num value) as [n|] eqn:E; [|done]. case_match; limits. }
  next_item.
  { destruct (if bool_decide _ then _ else _) as [[]|] eqn:E; cbn [mbind option_bind]; [|done|done].
    assert (value = [] ∨ compact_cron_ok value = Some true) as Hv by (case_bool_decide; [by left|by right]). limits. }
  next_item.
  { destruct (if bool_decide _ then _ else _) as [[]|] eqn:E; cbn [mbind option_bind]; [|done|done].
    assert (value = [] ∨ compact_interval_ok value = Some true) as Hv by (case_bool_decide; [by left|by right]). limits. }
  next_item.
  { destruct (num value) as [n|] eqn:E; [|done]. case_match; [done|]. limits. }
  repeat (next_item; [apply limits_option; intros n; limits|]). done.
Qed.
Lemma set_item_limits role item value c w : limits_spec (fits_int value) c (set_item (RS := RS) role item value c w).
Proof.
  unfold set_item. cbv zeta.
  next_item. { destruct (num value) as [n|] eqn:E; [|done]. limits. }
  do 5 (next_item; [limits|]).
  do 6 (next_item; [apply limits_number; intros n Hn; limits|]).
  next_item. { case_bool_decide; [limits|]. case_bool_decide; [limits|done]. }
  do 5 (next_item; [apply limits_number; intros n Hn; limits|]).
  next_item. { case_match; [done|]. case_match; [done|]. limits. }
  apply set_limited_limits.
Qed.

Lemma loaded_limits c : within_limits c → bounded_ok c ∧ checked_ok c.
Proof. intros ([] & [] & [] & [] & [] & []). split; split; first [assumption|lia]. Qed.

(** Commands in a row, each in any role of the server. *)
Fixpoint run_sets (cmds : list (Z * bytes * bytes)) c w : option (Conf F * W) :=
  match cmds with
  | [] => Some (c, w)
  | (role, item, value) :: cmds => '(_, c, w, _) ← set_item (RS := RS) role item value c w; run_sets cmds c w
  end.
Lemma run_sets_limits cmds c w c' w' : run_sets cmds c w = Some (c', w') →
  (bounded_ok c → bounded_ok c') ∧ (Forall (λ cmd, fits_int cmd.2) cmds → checked_ok c → checked_ok c').
Proof.
  revert c w. induction cmds as [|[[role item] value] cmds IH]; intros c w; cbn [run_sets]; [by intros [= <- <-]|].
  intros ([[[ret c1] w1] calls] & H & [Hb Hc]%IH)%bind_Some.
  pose proof (set_item_limits role item value c w) as Hl. rewrite H in Hl. destruct Hl as [Hb1 Hc1].
  split; [by auto|]. intros [Hf Hfs]%Forall_cons. by auto.
Qed.

(** After any sequence of CONFIG SET commands on a configuration that was loaded, the
    speed, the window and the times of compactions are within their limits; the settings
    that are checked as long numbers are, too, if every number that was sent is an [int]. *)
Theorem ConfigSet_limits {FS} {E : SlashEnv FS} {P : SlashPaths FS} {MC : MetaCodec} f c0 c fs fs' cmds w c' w' :
  Load (inr f) c0 fs = Some (0, c, fs') → run_sets cmds c w = Some (c', w') →
  bounded_ok c' ∧ (Forall (λ cmd, fits_int cmd.2) cmds → checked_ok c').
Proof.
  intros Hl [Hb Hc]%run_sets_limits.
  assert (within_limits c) as [? ?]%loaded_limits; [|by auto].
  unfold Load in Hl. apply bind_Some in Hl as (c1 & H1 & ([c2 fs1] & H2 & (c3 & H3 & [= <- <-])%bind_Some)%bind_Some).
  eapply load_ok; eassumption.
Qed.

(** A number that is no [int] is checked before it is cut: CONFIG SET accepts every
    positive number of clients that fits a [long], and stores what is left of it, which is
    zero for a multiple of 2^32 and negative for every other number up to 2^32 from 2^31. *)
Theorem ConfigSet_wraps role value n c w : num value = Some n → 0 < n →
  ∃ c', set_item (RS := RS) role (str "maxclients") value c w = accept [SetDispatchQueueLimit (s32 n)] c' w ∧
    maxclients_ c' = s32 n ∧ (n mod 2 ^ 32 = 0 → maxclients_ c' = 0) ∧ (2 ^ 31 ≤ n < 2 ^ 32 → maxclients_ c' < 0).
Proof.
  intros Hn Hp. exists (SetMaxConnection (s32 n) c).
  assert (maxclients_ (SetMaxConnection (s32 n) c) = s32 n) as ->.
  { autounfold with conf_set. generalize (TryPushDiffCommands "maxclients" (to_string (s32 n)) c). reflexivity. }
  split_and!; [|done|intros H; unfold s32; by rewrite <- Z.add_mod_idemp_l, H|
    intros H; unfold s32; Z.to_euclidean_division_equations; lia].
  unfold set_item. cbv zeta. repeat (case_bool_decide; [try done|]); [|done].
  unfold set_number. rewrite Hn. destruct (Z.leb_spec n 0); [lia|done].
Qed.
End Setting.
