(* ===== verification/ConfigReload.v ===== *)
(** * Writing the configuration and loading it again

    What CONFIG REWRITE writes is what [Load] reads: the laws of the file's items as an
    interface, the items that the code writes as one list, and the exceptions. *)

From S2P Require Import Prelude Define Env Transverter Command StableLog CmdRes Blackwidow CmdArgs CmdReply.
From S2P Require Import SlaveNode Consensus Server PikaMeta ConfState Config ConfigCmd ConfigFacts.
From stdpp Require Import base list strings pretty gmap.
From coqutil Require Import Datatypes.RecordSetters.
From Stdlib Require Import ZArith Lia Init.Byte.
Import TriangleBracketNotations.
#[local] Open Scope string_scope.
#[local] Open Scope list_scope.
#[local] Open Scope Z_scope.

(** ** The items of a file *)

(** The text of a setting in a list of settings. *)
Definition text_of (m : string) (l : list (string * bytes)) : option bytes :=
  snd <$> find (λ nv : string * bytes, bool_decide (nv.1 = m)) l.

(** Setting replaces the text of an item that is there, numbers are their texts, and an
    item that is added counts if there is none of its name. *)
Class BaseConfLaws {F : Type} (BC : BaseConf F) := {
  law_set_str m n v f : GetConfStr m (SetConfStr n v f) = if bool_decide (m = n) then (λ _, v) <$> GetConfStr m f else GetConfStr m f;
  law_set_int m n v f : GetConfStr m (SetConfInt n v f) = GetConfStr m (SetConfStr n (to_string v) f);
  law_set_int64 m n v f : GetConfStr m (SetConfInt64 n v f) = GetConfStr m (SetConfStr n (to_string v) f);
  law_push m n v f : GetConfStr m (PushConfItem (kConf n v) f) =
    match GetConfStr m f with Some t => Some t | None => if bool_decide (n = m) then Some v else None end;
  law_comment m t f : GetConfStr m (PushConfItem (kComment t) f) = GetConfStr m f;
  law_write_back m f : GetConfStr m (WriteBack f).2 = GetConfStr m f;
  law_get_int n v f : GetConfStr n f = Some (to_string v) → - 2 ^ 31 ≤ v < 2 ^ 31 → GetConfInt n f = Some v;
  law_get_int64 n v f : GetConfStr n f = Some (to_string v) → - 2 ^ 63 ≤ v < 2 ^ 63 → GetConfInt64 n f = Some v;
  law_no_int n f : GetConfStr n f = None → GetConfInt n f = None }.

Section Items.
Context {F : Type} {BC : BaseConf F} {LW : BaseConfLaws BC}.
Implicit Types (f : F) (m n : string).

(** Files with the same settings. *)
Definition same_items f f' : Prop := ∀ m, GetConfStr m f = GetConfStr m f'.
#[export] Instance same_items_equiv : Equivalence same_items.
Proof.
  split; [by intros f m|by intros f f' H m|]. intros f1 f2 f3 H1 H2 m. by rewrite H1.
Qed.
#[export] Instance GetConfStr_proper m : Proper (same_items ==> eq) (GetConfStr m).
Proof. intros f f' H. apply H. Qed.
#[export] Instance SetConfStr_proper n v : Proper (same_items ==> same_items) (SetConfStr n v).
Proof. intros f f' H m. rewrite !law_set_str. by rewrite (H m). Qed.
Lemma set_int_text n v f : same_items (SetConfInt n v f) (SetConfStr n (to_string v) f).
Proof. intros m. apply law_set_int. Qed.
Lemma set_int64_text n v f : same_items (SetConfInt64 n v f) (SetConfStr n (to_string v) f).
Proof. intros m. apply law_set_int64. Qed.

Definition set_all (l : list (string * bytes)) f : F := foldl (λ f nv, SetConfStr nv.1 nv.2 f) f l.

Lemma text_of_none m l : m ∉ l.*1 → text_of m l = None.
Proof.
  unfold text_of. induction l as [|[n t] l IH]; [done|]. intros [Hm Hl]%not_elem_of_cons. cbn in *.
  rewrite bool_decide_eq_false_2 by congruence. by apply IH.
Qed.
Lemma text_of_in m t l : NoDup l.*1 → (m, t) ∈ l → text_of m l = Some t.
Proof.
  unfold text_of. induction l as [|[n u] l IH]; [by intros _ H%elem_of_nil|]. cbn. intros [Hn Hd]%NoDup_cons.
  intros [[= -> ->]|H]%elem_of_cons; [by rewrite bool_decide_eq_true_2|].
  rewrite bool_decide_eq_false_2; [by apply IH|]. intros ->. apply Hn. apply list_elem_of_fmap. by exists (m, t).
Qed.
Lemma set_all_get m l f : NoDup l.*1 →
  GetConfStr m (set_all l f) = match text_of m l with Some t => (λ _, t) <$> GetConfStr m f | None => GetConfStr m f end.
Proof.
  revert f. induction l as [|[n t] l IH]; [done|]. intros f [Hn Hd]%NoDup_cons. cbn [set_all foldl fst snd].
  change (GetConfStr m (set_all l (SetConfStr n t f)) = match text_of m ((n, t) :: l) with
    | Some t => (λ _, t) <$> GetConfStr m f | None => GetConfStr m f end).
  rewrite IH, law_set_str by done. unfold text_of at 2. cbn [find fst snd].
  destruct (decide (m = n)) as [->|Hm].
  - rewrite (text_of_none n l) by done. by rewrite !bool_decide_eq_true_2.
  - by rewrite !bool_decide_eq_false_2 by congruence.
Qed.

Lemma push_all_get m l f :
  GetConfStr m (foldl (λ f (nv : string * bytes), PushConfItem (kConf nv.1 nv.2) f) f l) =
  match GetConfStr m f with Some t => Some t | None => text_of m l end.
Proof.
  revert f. induction l as [|[n t] l IH]; intros f; cbn [foldl fst snd].
  - by destruct (GetConfStr m f).
  - rewrite IH, law_push. unfold text_of. cbn [find fst snd]. destruct (GetConfStr m f); [done|]. by case_bool_decide.
Qed.
Definition with_value (l : list (string * bytes)) : list (string * bytes) := filter (λ nv, nv.2 ≠ []) l.
Lemma rewrite_diff_get m d f :
  GetConfStr m (rewrite_diff d f) = match GetConfStr m f with Some t => Some t | None => text_of m (with_value d) end.
Proof.
  unfold rewrite_diff. fold (with_value d). destruct (with_value d) as [|nv l]; [by destruct (GetConfStr m f)|].
  by rewrite push_all_get, law_comment.
Qed.
End Items.

(** ** What is written *)

Section Reload.
Context {F : Type} {BC : BaseConf F} {LW : BaseConfLaws BC} {ST : SlashText}.
Context {FS : Type} {E : SlashEnv FS} {P : SlashPaths FS} {MC : MetaCodec}.
Implicit Types (c : Conf F) (fs : FS).

(** The settings that [ConfigRewrite] writes, as texts. *)
Definition rewritten c : list (string * bytes) := [
  ("timeout", to_string (timeout_ c)); ("requirepass", requirepass_ c); ("masterauth", masterauth_ c); ("userpass", userpass_ c);
  ("userblacklist", suser_blacklist c); ("dump-prefix", bgsave_prefix_ c); ("maxclients", to_string (maxclients_ c));
  ("dump-expire", to_string (expire_dump_days_ c)); ("expire-logs-days", to_string (expire_logs_days_ c));
  ("expire-logs-nums", to_string (expire_logs_nums_ c)); ("root-connection-num", to_string (root_connection_num_ c));
  ("slowlog-write-errorlog", yes_no (slowlog_write_errorlog_ c));
  ("slowlog-log-slower-than", to_string (slowlog_log_slower_than_ c)); ("slowlog-max-len", to_string (slowlog_max_len_ c));
  ("write-binlog", yes_no (write_binlog_ c)); ("max-cache-statistic-keys", to_string (max_cache_statistic_keys_ c));
  ("small-compaction-threshold", to_string (small_compaction_threshold_ c));
  ("max-client-response-size", to_string (s32 (max_client_response_size_ c))); ("db-sync-speed", to_string (db_sync_speed_ c));
  ("compact-cron", compact_cron_ c); ("compact-interval", compact_interval_ c); ("slave-priority", to_string (slave_priority_ c));
  ("sync-window-size", to_string (sync_window_size_ c)); ("consensus-level", to_string (consensus_level_ c));
  ("replication-num", to_string (replication_num_ c)); ("max-cache-files", to_string (max_cache_files_ c));
  ("max-background-compactions", to_string (max_background_compactions_ c));
  ("max-write-buffer-number", to_string (max_write_buffer_num_ c)); ("write-buffer-size", to_string (write_buffer_size_ c));
  ("arena-block-size", to_string (arena_block_size_ c)); ("slaveof", slaveof_ c) ].
(** Two of them are not compared: the list of names goes through the library's texts, and
    the number of write buffers is read under another name. *)
Definition lost : list string := ["userblacklist"; "max-write-buffer-number"].
Definition kept c : list (string * bytes) := filter (λ nv : string * bytes, nv.1 ∉ lost) (rewritten c).

(** A setting is in the file, or it is remembered for it with the value it has. *)
Definition saved c (nv : string * bytes) : Prop :=
  is_Some (GetConfStr nv.1 (rep_ c)) ∨ text_of nv.1 (with_value (diff_commands_ c)) = Some nv.2.
(** The members that are [int]s in the code, and the sizes. *)
Definition ints_ok c : Prop :=
  Forall (λ v, - 2 ^ 31 ≤ v < 2 ^ 31) [timeout_ c; maxclients_ c; expire_dump_days_ c; expire_logs_days_ c; expire_logs_nums_ c;
    root_connection_num_ c; slowlog_log_slower_than_ c; slowlog_max_len_ c; max_cache_statistic_keys_ c;
    small_compaction_threshold_ c; max_client_response_size_ c; db_sync_speed_ c; slave_priority_ c; sync_window_size_ c;
    consensus_level_ c; replication_num_ c; max_cache_files_ c; max_background_compactions_ c] ∧
  Forall (λ v, 0 < v < 2 ^ 63) [write_buffer_size_ c; arena_block_size_ c].

Lemma rewrite_items_text c f : same_items (rewrite_items c f) (set_all (rewritten c) f).
Proof.
  unfold rewrite_items. cbv zeta. rewrite !set_int64_text. rewrite !set_int_text. reflexivity.
Qed.
Lemma rewritten_nodup c : NoDup (rewritten c).*1.
Proof.
  change ((rewritten c).*1) with (fst <$> (rewritten c)). cbn. apply (bool_decide_unpack _). vm_compute. exact I.
Qed.
Lemma rewritten_get c n t : (n, t) ∈ rewritten c → saved c (n, t) →
  GetConfStr n (rep_ (ConfigRewrite c).2) = Some t.
Proof.
  intros Hin Hs.
  assert (rep_ (ConfigRewrite c).2 = (WriteBack (rewrite_diff (diff_commands_ c) (rewrite_items c (rep_ c)))).2) as ->.
  { unfold ConfigRewrite. by destruct (WriteBack _) as [ret f]. }
  rewrite law_write_back, rewrite_diff_get, rewrite_items_text, set_all_get by apply rewritten_nodup.
  rewrite (text_of_in n t) by (done || apply rewritten_nodup). unfold saved in Hs. cbn [fst snd] in Hs.
  destruct Hs as [[x ->]|Hd]; [done|]. destruct (GetConfStr n (rep_ c)); [done|]. exact Hd.
Qed.
Lemma saved_file c f : same_items f (rep_ (ConfigRewrite c).2) → Forall (saved c) (rewritten c) →
  Forall (λ nv, GetConfStr nv.1 f = Some nv.2) (rewritten c).
Proof.
  intros Hf Hs. rewrite Forall_forall in Hs |- *. intros [n t] Hin. rewrite Hf. by apply rewritten_get; [|apply Hs].
Qed.
Lemma get_str_text n old t c : GetConfStr n (rep_ c) = Some t → get_str n old c = t.
Proof. unfold get_str. by intros ->. Qed.
Lemma get_int_text n old v c : GetConfStr n (rep_ c) = Some (to_string v) → - 2 ^ 31 ≤ v < 2 ^ 31 → get_int n old c = v.
Proof. intros H Hv. unfold get_int. by rewrite (law_get_int n v). Qed.
Lemma get_int64_text n old v c : GetConfStr n (rep_ c) = Some (to_string v) → - 2 ^ 63 ≤ v < 2 ^ 63 → get_int64 n old c = v.
Proof. intros H Hv. unfold get_int64. by rewrite (law_get_int64 n v). Qed.
Lemma get_yes_text n b c : GetConfStr n (rep_ c) = Some (yes_no b) → get_yes n c = b.
Proof. intros H. unfold get_yes. rewrite (get_str_text _ _ _ _ H). by destruct b. Qed.

Lemma load_general_rep c c' : load_general c = Some c' → rep_ c' = rep_ c.
Proof. unfold load_general. by intros (id & _ & [= <-])%bind_Some. Qed.
Lemma load_tables_rep c c' fs fs' : load_tables c fs = Some (c', fs') → rep_ c' = rep_ c.
Proof.
  unfold load_tables. intros ([t fs1] & _ & (h & _ & H)%bind_Some)%bind_Some. repeat (case_match; [done|]). by injection H as <- <-.
Qed.
Lemma load_compaction_rep c c' : load_compaction c = Some c' → rep_ c' = rep_ c.
Proof. unfold load_compaction. by intros (b1 & _ & (b2 & _ & [= <-])%bind_Some)%bind_Some. Qed.

(** A setting of one list has the text of its place in the other, unless it is lost. *)
Definition same_setting (a b : string * bytes) : Prop := a.1 = b.1 ∧ (a.1 ∉ lost → a.2 = b.2).
Lemma kept_same c c' : Forall2 same_setting (rewritten c) (rewritten c') → kept c = kept c'.
Proof.
  unfold kept. induction 1 as [|[n t] [n' t'] l l' [Hn Ht] H IH]; [done|]. cbn in Hn, Ht. subst n'.
  rewrite !filter_cons. cbn [fst]. destruct (decide _) as [Hin|]; [|done]. by rewrite Ht, IH.
Qed.

(** What the parts of [Load] read again. *)
Definition general_settings c := (timeout_ c, requirepass_ c, masterauth_ c, userpass_ c, bgsave_prefix_ c, maxclients_ c,
  expire_dump_days_ c, expire_logs_days_ c, expire_logs_nums_ c, root_connection_num_ c, slowlog_write_errorlog_ c,
  slowlog_log_slower_than_ c, slowlog_max_len_ c, slave_priority_ c).
Definition tables_settings c := (consensus_level_ c, replication_num_ c).
Definition compaction_settings c := (compact_cron_ c, compact_interval_ c).
Definition engine_settings c := (max_cache_statistic_keys_ c, small_compaction_threshold_ c, max_client_response_size_ c,
  max_cache_files_ c, max_background_compactions_ c, write_buffer_size_ c, arena_block_size_ c).
Definition sync_settings c := (write_binlog_ c, db_sync_speed_ c, sync_window_size_ c, slaveof_ c).

Lemma load_tables_frame c c' fs fs' : load_tables c fs = Some (c', fs') → general_settings c' = general_settings c.
Proof.
  unfold load_tables. intros ([t fs1] & _ & (h & _ & H)%bind_Some)%bind_Some. repeat (case_match; [done|]). by injection H as <- <-.
Qed.
Lemma load_compaction_frame c c' : load_compaction c = Some c' →
  general_settings c' = general_settings c ∧ tables_settings c' = tables_settings c.
Proof. unfold load_compaction. by intros (b1 & _ & (b2 & _ & [= <-])%bind_Some)%bind_Some. Qed.

Section Read.
Context (d : Conf F) (Hlim : within_limits d) (Hint : ints_ok d).
Definition file_has f : Prop := Forall (λ nv, GetConfStr nv.1 f = Some nv.2) (rewritten d).

Ltac reread :=
  repeat match goal with
  | H : GetConfStr ?n (rep_ ?c) = Some (to_string ?v) |- context [get_int ?n ?old ?c] => rewrite (get_int_text n old v c H) by lia
  | H : GetConfStr ?n (rep_ ?c) = Some (to_string ?v) |- context [get_int64 ?n ?old ?c] => rewrite (get_int64_text n old v c H) by lia
  | H : GetConfStr ?n (rep_ ?c) = Some (yes_no ?b) |- context [get_yes ?n ?c] => rewrite (get_yes_text n b c H)
  | H : GetConfStr ?n (rep_ ?c) = Some ?t |- context [get_str ?n ?old ?c] => rewrite (get_str_text n old t c H)
  end.
Ltac written_texts H := unfold file_has, rewritten in H; repeat apply Forall_cons in H as [? H]; cbn [fst snd] in *;
  destruct Hint as [HI HS]; repeat apply Forall_cons in HI as [? HI]; repeat apply Forall_cons in HS as [? HS].
Ltac in_bounds := repeat match goal with
  | |- context [if ?x <? ?y then _ else _] => destruct (Z.ltb_spec x y); [lia|]
  | |- context [if ?x <=? ?y then _ else _] => destruct (Z.leb_spec x y); [lia|]
  | |- context [if ?x =? ?y then _ else _] => destruct (Z.eqb_spec x y); [lia|]
  end.

Lemma load_general_kept c c' : file_has (rep_ c) → load_general c = Some c' → general_settings c' = general_settings d.
Proof.
  intros H. destruct Hlim as ([] & _). unfold load_general. cbv zeta. intros (id & _ & [= <-])%bind_Some.
  unfold general_settings. conf_simpl. written_texts H. reread. in_bounds.
  destruct (Z.leb_spec (expire_logs_nums_ d) 10); [|done]. by replace (expire_logs_nums_ d) with 10 by lia.
Qed.
Lemma load_tables_kept c c' fs fs' : file_has (rep_ c) → load_tables c fs = Some (c', fs') → tables_settings c' = tables_settings d.
Proof.
  intros H. unfold load_tables. cbv zeta. intros ([t fs1] & _ & (h & _ & Hc)%bind_Some)%bind_Some.
  repeat (case_match; [done|]). injection Hc as <- <-. unfold tables_settings. conf_simpl. written_texts H. by reread.
Qed.
Lemma form_ok (t : bytes) (check : bytes → option bool) b : t = [] ∨ check t = Some true →
  (if bool_decide (t = []) then Some true else check t) = Some b → b = true.
Proof. intros H. case_bool_decide; [by intros [= <-]|]. destruct H as [?|Eq]; [done|]; rewrite Eq. by intros [= <-]. Qed.
Lemma load_compaction_kept c c' : file_has (rep_ c) → load_compaction c = Some c' → compaction_settings c' = compaction_settings d.
Proof.
  intros H. destruct Hlim as (_ & _ & _ & [Hc Hi] & _). unfold load_compaction. cbv zeta. written_texts H. reread.
  intros (b1 & Q1 & (b2 & Q2 & [= <-])%bind_Some)%bind_Some. unfold compaction_settings. conf_simpl.
  by rewrite (form_ok _ _ _ Hc Q1), (form_ok _ _ _ Hi Q2).
Qed.
Lemma load_engine_kept c : file_has (rep_ c) → engine_settings (load_engine c) = engine_settings d.
Proof.
  intros H. destruct Hlim as (_ & _ & _ & _ & [] & _). unfold engine_settings, load_engine. cbv zeta. conf_simpl. written_texts H.
  rewrite s32_small in * by lia. reread.
  destruct (Z.leb_spec (max_cache_statistic_keys_ d) 0);
    [replace (max_cache_statistic_keys_ d) with 0 by lia|]; in_bounds;
  (destruct (Z.leb_spec (small_compaction_threshold_ d) 0); [lia|]);
  (destruct (Z.geb_spec (small_compaction_threshold_ d) 100000); [lia|]); cbn [orb];
  (destruct (Z.geb_spec (max_background_compactions_ d) 8); [|done]); by replace (max_background_compactions_ d) with 8 by lia.
Qed.
Lemma load_sync_kept c : file_has (rep_ c) → sync_settings (load_sync c) = sync_settings d.
Proof.
  intros H. destruct Hlim as (_ & _ & _ & _ & _ & []). unfold sync_settings, load_sync. cbv zeta. conf_simpl. written_texts H.
  reread. in_bounds. destruct (Z.ltb_spec (db_sync_speed_ d) 0); [lia|]. destruct (Z.gtb_spec (db_sync_speed_ d) 1024); [lia|].
  destruct (Z.gtb_spec (sync_window_size_ d) kBinlogReadWinMaxSize); [lia|].
  cbn [orb]. by destruct (write_binlog_ d).
Qed.

Lemma read_again f c c' fs fs' : file_has f → Load (inr f) c fs = Some (0, c', fs') →
  general_settings c' = general_settings d ∧ tables_settings c' = tables_settings d ∧
  compaction_settings c' = compaction_settings d ∧ engine_settings c' = engine_settings d ∧ sync_settings c' = sync_settings d.
Proof.
  intros H (c1 & H1 & ([c2 fs1] & H2 & (c3 & H3 & [= <- <-])%bind_Some)%bind_Some)%bind_Some.
  apply load_general_rep in H1 as R1. apply load_tables_rep in H2 as R2. apply load_compaction_rep in H3 as R3.
  change (rep_ (load_threads c1)) with (rep_ c1) in R2. change (rep_ c1 = f) in R1.
  assert (file_has (rep_ c1) ∧ file_has (rep_ c2) ∧ file_has (rep_ c3)) as (W1 & W2 & W3) by (split_and!; congruence).
  apply load_compaction_frame in H3 as F3. destruct F3 as [F3 F3']. apply load_tables_frame in H2 as F2.
  pose proof (load_engine_kept c3 W3) as En. pose proof (load_sync_kept (load_engine c3) W3) as S.
  apply load_compaction_kept in H3 as K; [|exact W2]. apply load_tables_kept in H2 as T; [|exact W1].
  apply load_general_kept in H1 as G; [|by rewrite R1 in W1].
  change (general_settings c3 = general_settings d ∧ tables_settings c3 = tables_settings d ∧
    compaction_settings c3 = compaction_settings d ∧ engine_settings (load_engine c3) = engine_settings d ∧
    sync_settings (load_sync (load_engine c3)) = sync_settings d).
  rewrite F3, F3', F2. by split_and!.
Qed.
End Read.

(** The settings that [Load] reads again are all those that are written but the lost ones. *)
Lemma kept_settings c c' : general_settings c' = general_settings c → tables_settings c' = tables_settings c →
  compaction_settings c' = compaction_settings c → engine_settings c' = engine_settings c → sync_settings c' = sync_settings c →
  kept c' = kept c.
Proof.
  intros [=] [=] [=] [=] [=]. apply kept_same. unfold rewritten.
  repeat (apply Forall2_cons; split; [split; [reflexivity|first
    [intros _; cbn [snd]; congruence | intros H; exfalso; apply H; cbn [fst]; unfold lost; first [left|right; left]]]|]). by apply Forall2_nil.
Qed.

End Reload.
