(* ===== verification/ConfigTables.v ===== *)
(** * The tables of the configuration

    Adding and removing tables and partitions keeps the tables well formed, and what is
    saved is what is read when the server starts again. *)

From S2P Require Import Prelude Define Env Transverter Command StableLog CmdRes Blackwidow CmdArgs CmdReply.
From S2P Require Import SlaveNode Consensus Server PikaMeta ConfState Config.
From stdpp Require Import base list strings pretty gmap sorting.
From coqutil Require Import Datatypes.RecordSetters.
From Stdlib Require Import ZArith Lia Init.Byte.
Import TriangleBracketNotations.
#[local] Open Scope string_scope.
#[local] Open Scope list_scope.
#[local] Open Scope Z_scope.

(** The requests to change the tables; the ids of partitions are unsigned. *)
Inductive table_op := AddPartitions (n : string) (ids : list Z) | RemovePartitions (n : string) (ids : list Z)
  | NewTable (n : string) (slot_num : Z) | DropTable (n : string).
Definition op_unsigned (o : table_op) : Prop :=
  match o with AddPartitions _ ids | RemovePartitions _ ids => Forall (λ id, 0 ≤ id) ids | _ => True end.

Definition table_wf (t : TableStruct) : Prop := ids_sorted t ∧ Forall (λ id, 0 ≤ id < partition_num t) (partition_ids t).
Definition all_tables_wf (ts : list TableStruct) : Prop := Forall table_wf ts ∧ NoDup (tbl_name <$> ts).

(** ** Sets of ids *)

Lemma id_insert_elem id l x : x ∈ id_insert id l ↔ x = id ∨ x ∈ l.
Proof.
  induction l as [|y l IH]; cbn [id_insert]; [set_solver|].
  destruct (Z.ltb_spec id y); [set_solver|]. destruct (Z.eqb_spec id y) as [->|]; [set_solver|]. rewrite !elem_of_cons, IH. tauto.
Qed.
Lemma id_insert_sorted id l : StronglySorted Z.lt l → StronglySorted Z.lt (id_insert id l).
Proof.
  induction 1 as [|y l Hs IH Hy]; cbn [id_insert]; [by repeat constructor|].
  destruct (Z.ltb_spec id y).
  { constructor; [by constructor|]. constructor; [lia|]. eapply Forall_impl; [exact Hy|]. cbn. lia. }
  destruct (Z.eqb_spec id y); [by constructor|]. constructor; [done|].
  rewrite Forall_forall in Hy |- *. intros x [->|Hx]%id_insert_elem; [lia|]. by apply Hy.
Qed.
Lemma ids_added ids l : StronglySorted Z.lt l → StronglySorted Z.lt (foldl (λ l id, id_insert id l) l ids) ∧
  ∀ x, x ∈ foldl (λ l id, id_insert id l) l ids ↔ x ∈ ids ∨ x ∈ l.
Proof.
  revert l. induction ids as [|id ids IH]; intros l Hs; cbn [foldl]; [set_solver|].
  destruct (IH (id_insert id l)) as [Hs' He]; [by apply id_insert_sorted|]. split; [done|]. intros x.
  rewrite He, id_insert_elem, elem_of_cons. tauto.
Qed.
Lemma sorted_filter (Q : Z → Prop) `{∀ x, Decision (Q x)} l : StronglySorted Z.lt l → StronglySorted Z.lt (filter Q l).
Proof.
  induction 1 as [|y l Hs IH Hy]; [constructor|]. rewrite filter_cons. case_decide; [|done]. constructor; [done|].
  rewrite Forall_forall in Hy |- *. intros x [_ Hx]%list_elem_of_filter. by apply Hy.
Qed.
Lemma ids_removed ids l : StronglySorted Z.lt l → StronglySorted Z.lt (foldl (λ l id, id_erase id l) l ids) ∧
  ∀ x, x ∈ foldl (λ l id, id_erase id l) l ids ↔ x ∈ l ∧ x ∉ ids.
Proof.
  revert l. induction ids as [|id ids IH]; intros l Hs; cbn [foldl]; [set_solver|].
  destruct (IH (id_erase id l)) as [Hs' He]; [by apply sorted_filter|]. split; [done|]. intros x.
  rewrite He. unfold id_erase. rewrite list_elem_of_filter, not_elem_of_cons. tauto.
Qed.

Section Tables.
Context {F : Type} {BC : BaseConf F} {FS : Type} {E : SlashEnv FS} {P : SlashPaths FS} {MC : MetaCodec}.
Implicit Types (c : Conf F) (fs : FS).

Definition run_op (o : table_op) c fs : option (Status * Conf F * FS) :=
  match o with
  | AddPartitions n ids => AddTablePartitions n ids c fs
  | RemovePartitions n ids => RemoveTablePartitions n ids c fs
  | NewTable n slot_num => AddTable n slot_num c fs
  | DropTable n => DelTable n c fs
  end.

Lemma target_some n c i : InternalGetTargetTable n c = Some i → ∃ t, table_structs_ c !! i = Some t ∧ tbl_name t = n.
Proof.
  unfold InternalGetTargetTable. intros ([j t] & H & ->)%fmap_Some. apply list_find_Some in H as (Ht & Hn & _). by exists t.
Qed.
Lemma target_none n c : InternalGetTargetTable n c = None → n ∉ tbl_name <$> table_structs_ c.
Proof.
  unfold InternalGetTargetTable. rewrite fmap_None. intros H (t & -> & Ht)%list_elem_of_fmap.
  apply list_find_None in H. rewrite Forall_forall in H. by apply (H t).
Qed.
Lemma check_ids_ok ids is_add t : check_ids ids is_add t = OK → Forall (λ id, id < partition_num t) ids.
Proof.
  induction ids as [|id ids IH]; cbn [check_ids]; [done|]. destruct (Z.geb_spec id (partition_num t)); [done|].
  repeat (case_match; [done|]). intros Hr. constructor; [lia|by apply IH].
Qed.

(** A change of one table that keeps its name and is right for it. *)
Lemma alter_wf (f : TableStruct → TableStruct) i ts t : ts !! i = Some t → tbl_name (f t) = tbl_name t →
  (table_wf t → table_wf (f t)) → all_tables_wf ts → all_tables_wf (alter f i ts).
Proof.
  intros Hi Hn Hf [Hw Hd]. assert (alter f i ts = <[i := f t]> ts) as ->.
  { apply list_eq. intros j. destruct (decide (i = j)) as [<-|Hj].
    - rewrite list_lookup_alter_eq, list_lookup_insert_eq, Hi; [done|by eapply lookup_lt_Some].
    - by rewrite list_lookup_alter_ne, list_lookup_insert_ne by done. }
  split.
  - apply Forall_insert; [done|]. apply Hf. eapply Forall_lookup_1; eassumption.
  - rewrite list_fmap_insert, Hn. rewrite list_insert_id; [done|]. by rewrite list_lookup_fmap, Hi.
Qed.

Lemma change_wf n ids f c : Forall (λ id, 0 ≤ id) ids →
  (∀ t, table_structs_ c !! default 0%nat (InternalGetTargetTable n c) = Some t → table_wf t → table_wf (with_ids f t)) →
  ∀ fs s c' fs', all_tables_wf (table_structs_ c) → change_ids n f c fs = Some (s, c', fs') → all_tables_wf (table_structs_ c').
Proof.
  intros Hids Hf fs s c' fs' Hw. unfold change_ids. destruct (InternalGetTargetTable n c) as [i|] eqn:Ei; [|by intros [= <- <- <-]].
  destruct (target_some n c i Ei) as (t & Ht & _). unfold save_tables. intros ([s1 fs1] & _ & [= <- <- <-])%bind_Some.
  change (all_tables_wf (alter (with_ids f) i (table_structs_ c))). eapply alter_wf; [exact Ht|done| |exact Hw]. by apply Hf.
Qed.
Lemma checked_table n ids is_add c t : TablePartitionsSanityCheck n ids is_add c = OK →
  table_structs_ c !! default 0%nat (InternalGetTargetTable n c) = Some t → Forall (λ id, id < partition_num t) ids.
Proof.
  unfold TablePartitionsSanityCheck. destruct (InternalGetTargetTable n c) as [i|]; [|done]. cbn. intros H Ht. rewrite Ht in H.
  by eapply check_ids_ok.
Qed.
Lemma ok_OK s : ok s = true → s = OK.
Proof. by destruct s. Qed.

Lemma run_op_wf o c fs s c' fs' : op_unsigned o → all_tables_wf (table_structs_ c) →
  run_op o c fs = Some (s, c', fs') → all_tables_wf (table_structs_ c').
Proof.
  intros Hu Hw. destruct o as [n ids|n ids|n k|n]; cbn [run_op].
  - unfold AddTablePartitions. destruct (ok _) eqn:Hk; [|by intros [= <- <- <-]]. apply ok_OK in Hk. cbn [negb].
    eapply change_wf; [done| |exact Hw]. intros t Ht [Hs Hr]. pose proof (checked_table _ _ _ _ _ Hk Ht) as Hc.
    destruct (ids_added ids (partition_ids t) Hs) as [Hs' He]. split; [done|]. apply Forall_forall. intros x Hx.
    cbn [with_ids partition_ids partition_num] in *. apply He in Hx. cbn in Hu. rewrite Forall_forall in Hu, Hc, Hr.
    destruct Hx as [Hx|Hx]; [by split; [apply Hu|apply Hc]|by apply Hr].
  - unfold RemoveTablePartitions. destruct (ok _) eqn:Hk; [|by intros [= <- <- <-]]. cbn [negb].
    eapply change_wf; [done| |exact Hw]. intros t Ht [Hs Hr]. destruct (ids_removed ids (partition_ids t) Hs) as [Hs' He].
    split; [done|]. apply Forall_forall. intros x Hx. cbn [with_ids partition_ids partition_num] in *. apply He in Hx as [Hx _].
    rewrite Forall_forall in Hr. by apply Hr.
  - unfold AddTable, AddTableSanityCheck. destruct (InternalGetTargetTable n c) eqn:Ei; [by intros [= <- <- <-]|]. cbn [negb ok].
    unfold save_tables. intros ([s1 fs1] & _ & [= <- <- <-])%bind_Some. apply target_none in Ei. destruct Hw as [Hw Hd].
    change (all_tables_wf (table_structs_ c ++ [mkTableStruct n k []])). split.
    + apply Forall_app. split; [done|]. apply Forall_singleton. split; constructor.
    + rewrite fmap_app. apply NoDup_app. split; [done|]. split; [|apply NoDup_singleton]. intros x Hx ->%list_elem_of_singleton. done.
  - unfold DelTable, DelTableSanityCheck. destruct (InternalGetTargetTable n c) as [i|] eqn:Ei; [|by intros [= <- <- <-]]. cbn [negb ok].
    unfold save_tables. intros ([s1 fs1] & _ & [= <- <- <-])%bind_Some.
    change (all_tables_wf (delete i (table_structs_ c))). destruct Hw as [Hw Hd]. split.
    + by apply Forall_delete.
    + rewrite list_fmap_delete. eapply sublist_NoDup; [exact Hd|]. apply sublist_delete.
Qed.

(** A change that is not refused is written, with the tables it leaves. *)
Lemma run_op_saves o c fs c' fs' : run_op o c fs = Some (OK, c', fs') →
  path_of c' = path_of c ∧ PikaMeta_StableSave (path_of c) (table_structs_ c') fs = Some (OK, fs').
Proof.
  assert (∀ ts, save_tables ts c fs = Some (OK, c', fs') →
    path_of c' = path_of c ∧ PikaMeta_StableSave (path_of c) (table_structs_ c') fs = Some (OK, fs')) as Hsave.
  { intros ts. unfold save_tables. by intros ([s1 fs1] & H & [= -> <- <-])%bind_Some. }
  assert (∀ n f, change_ids n f c fs = Some (OK, c', fs') →
    path_of c' = path_of c ∧ PikaMeta_StableSave (path_of c) (table_structs_ c') fs = Some (OK, fs')) as Hchange.
  { intros n f. unfold change_ids. destruct (InternalGetTargetTable n c); [apply Hsave|done]. }
  destruct o as [n ids|n ids|n k|n]; cbn [run_op].
  - unfold AddTablePartitions. destruct (TablePartitionsSanityCheck _ _ _ _); try done. apply Hchange.
  - unfold RemoveTablePartitions. destruct (TablePartitionsSanityCheck _ _ _ _); try done. apply Hchange.
  - unfold AddTable. destruct (AddTableSanityCheck _ _); try done. apply Hsave.
  - unfold DelTable. destruct (DelTableSanityCheck _ _); try done. destruct (InternalGetTargetTable n c); apply Hsave.
Qed.
End Tables.

(** Every change of the tables keeps them well formed, with the ids of their partitions in
    order and within the number of partitions, and no name twice; and a change that is
    answered with OK is in the meta file: a server that starts again has the same tables. *)
Theorem table_changes_saved {F} {BC : BaseConf F} {FS} {E : SlashEnv FS} {L : SlashEnvLaws FS} {P : SlashPaths FS}
    {PL : SlashPathsLaws FS} {MC : MetaCodec} {CL : MetaCodecLaws} o (c : Conf F) (fs : FS) s c' fs' :
  op_unsigned o → all_tables_wf (table_structs_ c) → run_op o c fs = Some (s, c', fs') →
  all_tables_wf (table_structs_ c') ∧
  (s = OK → (∀ t, SerializeToString (table_structs_ c') = Some t → zlen t < 2 ^ 32) →
    ∀ fs'', env_new_rwfile fs' (meta_file (path_of c')) = (OK, fs'') →
    PikaMeta_ParseMeta (path_of c') fs' = Some (inr (table_structs_ c'), fs'')).
Proof.
  intros Hu Hw H. pose proof (run_op_wf _ _ _ _ _ _ Hu Hw H) as Hw'. split; [done|]. intros -> Hz fs'' Ho.
  apply run_op_saves in H as [Hp H]. rewrite Hp in Ho |- *. eapply meta_saved; try eassumption.
  destruct Hw' as [Hw' _]. eapply Forall_impl; [exact Hw'|]. by intros t [? _].
Qed.
