(* ===== verification/CmdFamily.v ===== *)
(** * Families of commands

    The commands of the table are a sum of families.  What a family promises to the
    dispatcher and to the log is stated in the classes [CmdRun], [FamilyLaws],
    [Replying], [Returning] and [LoggedLaws]; the sum of two families keeps the promises of both. *)

From S2P Require Import Prelude Define Env Transverter Command StableLog CmdRes CmdArgs CmdReply.
From stdpp Require Import base list strings pretty gmap.
From Stdlib Require Import ZArith Lia Init.Byte.
#[local] Open Scope string_scope.
#[local] Open Scope list_scope.
#[local] Open Scope Z_scope.

(** [Do] on a database at a time of the clock; [None]: it does not return. *)
Class CmdRun (C DB : Type) := cmd_Do : C → Z → DB → option (CmdRes * DB).

(** The definitions of the commands of the families, for proofs by cases. *)
Create HintDb family_init.
Create HintDb family_do.

(** [max_client_response_size], and fuel for the loops that run until a scan of the engine
    comes to its end. *)
Class ReplyLimits := { raw_limit : Z; scan_fuel : nat }.

(** The entry of a part of the table, as an entry of the whole. *)
Definition lift_init {C D} (f : C → D) (x : Init C) : Init D :=
  match x with None => None | Some (inl r) => Some (inl r) | Some (inr c) => Some (inr (f c)) end.
Definition lift_entry {C D} (f : C → D) (e : Entry C) : Entry D :=
  mkEntry (e_name e) (e_arity e) (e_flag e) (e_wrong e) (λ argv, lift_init f (e_init e argv)).

#[export] Instance sum_family {A B} (FA : CmdFamily A) (FB : CmdFamily B) : CmdFamily (A + B) := {
  family_table := (lift_entry inl <$> family_table) ++ (lift_entry inr <$> family_table);
  family_key c := match c with inl c => family_key c | inr c => family_key c end;
  family_text argv c now := match c with inl c => family_text argv c now | inr c => family_text argv c now end }.
#[export] Instance sum_run {A B DB} (RA : CmdRun A DB) (RB : CmdRun B DB) : CmdRun (A + B) DB :=
  λ c now db, match c with inl c => cmd_Do c now db | inr c => cmd_Do c now db end.

(** No name is in both tables. *)
Definition names_apart {A B} (ta : list (Entry A)) (tb : list (Entry B)) : bool :=
  forallb (λ a, forallb (λ b, negb (bool_decide (e_name a = e_name b))) tb) ta.

(** A slave reads the content of an item and runs the command. *)
Definition replay {C DB} {F : CmdFamily C} {R : CmdRun C DB} (parse : bytes → option (list bytes))
    (text : bytes) (now : Z) (db : DB) : option (CmdRes * DB) :=
  argv ← parse text; name ← head argv; e ← log_entry family_table name;
  match DoInitial e argv with
  | Some (inr c) => cmd_Do c now db
  | _ => None
  end.

(** The definition of a command that returns the database it was given. *)
Ltac same_database H :=
  repeat match type of H with context [let '(_, _) := ?x in _] => destruct x end;
  repeat case_match; try (apply bind_Some in H as (? & _ & H)); simplify_eq/=.

(** ** What a family promises *)

(** The commands that only read the database. *)
Class Reading (C : Type) := reads : C → bool.
#[export] Instance sum_reading {A B} (RA : Reading A) (RB : Reading B) : Reading (A + B) :=
  λ c, match c with inl c => reads c | inr c => reads c end.
(** What is flagged as no write reads; but SRANDMEMBER moves the engine's random choice, and
    GEORADIUS can store. *)
Definition unflagged_writers : list string := ["srandmember"; "georadius"; "georadiusbymember"].
Definition read_only {C} {RD : Reading C} (name : string) (flag : Z) (argv : list bytes) (c : C) : Prop :=
  flag_is_write flag = false → name ∉ unflagged_writers → reads c = true.

(** The arguments are read within bounds but for the case [U]. *)
Class FamilyLaws (C : Type) {N : NumString} {F : CmdFamily C} {RD : Reading C} (U : string → list bytes → Prop) :=
  law_table : table_ok U read_only family_table.
(** A command that reads leaves the database as it is. *)
Class Keeping (C DB : Type) {RD : Reading C} {R : CmdRun C DB} :=
  law_keeps (c : C) now (db : DB) r db' : reads c = true → cmd_Do c now db = Some (r, db') → db' = db.
(** When a reply is one of the protocol. *)
Class Replying (C DB : Type) {N : NumString} {R : CmdRun C DB} := {
  replies : C → Z → DB → Prop;
  law_reply (c : C) now (db : DB) r db' : replies c now db → cmd_Do c now db = Some (r, db') → good_reply r }.

(** When a command is sure to return. *)
Class Returning (C DB : Type) {R : CmdRun C DB} := {
  returns : C → Z → DB → Prop;
  law_returns (c : C) now (db : DB) : returns c now db → cmd_Do c now db ≠ None }.
#[export] Instance sum_returning {A B DB} {RA : CmdRun A DB} {RB : CmdRun B DB} (EA : Returning A DB) (EB : Returning B DB) :
  Returning (A + B) DB.
Proof.
  refine {| returns c now db := match c with inl c => returns c now db | inr c => returns c now db end |}.
  intros [c|c] now db H.
  - exact (law_returns (Returning := EA) c now db H).
  - exact (law_returns (Returning := EB) c now db H).
Defined.

(** The command that is in the log for [c], and whether its times can be written. *)
Class Logged (C : Type) := { logged : C → Z → C; times_fit : C → Z → Prop }.
#[export] Instance sum_logged {A B} (LA : Logged A) (LB : Logged B) : Logged (A + B) := {
  logged c now := match c with inl c => inl (logged c now) | inr c => inr (logged c now) end;
  times_fit c now := match c with inl c => times_fit c now | inr c => times_fit c now end }.

(** The text of a command is a request for its logged form, and that request is logged as
    the same text again. *)
Definition logged_as {C} {N : NumString} {F : CmdFamily C} {L : Logged C} (e : Entry C) (argv : list bytes) (c : C) (now : Z) : Prop :=
  ∃ argv' e', head argv' ≫= find_entry family_table = Some e' ∧
    DoInitial e' argv' = Some (inr (logged c now)) ∧ family_text argv c now = request_text argv' ∧
    ∀ t, family_text argv' (logged c now) t = request_text argv'.
Class LoggedLaws (C : Type) {N : NumString} {F : CmdFamily C} {L : Logged C} := {
  law_names : Forall (λ e : Entry C, tolower <$> str (e_name e) = str (e_name e)) family_table;
  law_logged e argv (c : C) now :
    head argv ≫= find_entry family_table = Some e → DoInitial e argv = Some (inr c) → times_fit c now →
    logged_as e argv c now }.

(** ** Facts *)

Lemma table_ok_lift {A B} (f : A → B) U (G : string → Z → list bytes → A → Prop) (G' : string → Z → list bytes → B → Prop) t :
  (∀ n w argv c, G n w argv c → G' n w argv (f c)) → table_ok U G t → table_ok U G' (lift_entry f <$> t).
Proof.
  intros HG H. apply Forall_fmap. eapply Forall_impl; [exact H|]. intros e [Hn Hi].
  split; [exact Hn|]. intros argv Ha. specialize (Hi argv Ha). cbn [lift_entry e_init e_name e_flag].
  destruct (e_init e argv) as [[r|c]|]; cbn in *; auto.
Qed.

Lemma table_ok_undefined {A} (U U' : string → list bytes → Prop) G (t : list (Entry A)) :
  (∀ n argv, U n argv → U' n argv) → table_ok U G t → table_ok U' G t.
Proof.
  intros HU H. eapply Forall_impl; [exact H|]. intros e [Hn Hi].
  split; [exact Hn|]. intros argv Ha. specialize (Hi argv Ha). destruct (e_init e argv) as [[r|c]|]; cbn in *; auto.
Qed.

#[export] Instance sum_laws {A B} {N : NumString} (FA : CmdFamily A) (FB : CmdFamily B) (RA : Reading A) (RB : Reading B) U :
  FamilyLaws A U → FamilyLaws B U → FamilyLaws (A + B) U.
Proof.
  intros LA LB. apply Forall_app. split.
  - by apply (table_ok_lift inl U read_only).
  - by apply (table_ok_lift inr U read_only).
Qed.
#[export] Instance sum_keeping {A B DB} (DA : Reading A) (DB' : Reading B) (RA : CmdRun A DB) (RB : CmdRun B DB) :
  Keeping A DB → Keeping B DB → Keeping (A + B) DB.
Proof.
  intros LA LB [c|c] now db r db' Hr H.
  - exact (LA c now db r db' Hr H).
  - exact (LB c now db r db' Hr H).
Qed.
#[export] Instance sum_replying {A B DB} {N : NumString} {RA : CmdRun A DB} {RB : CmdRun B DB} (LA : Replying A DB) (LB : Replying B DB) :
  Replying (A + B) DB.
Proof.
  refine {| replies c now db := match c with inl c => replies c now db | inr c => replies c now db end |}.
  intros [c|c] now db r db' Hc H.
  - exact (law_reply (Replying := LA) c now db r db' Hc H).
  - exact (law_reply (Replying := LB) c now db r db' Hc H).
Defined.

Lemma DoInitial_lift {A B} (f : A → B) e argv : DoInitial (lift_entry f e) argv = lift_init f (DoInitial e argv).
Proof. unfold DoInitial, checked. cbn [lift_entry e_init e_arity e_wrong]. by destruct (CheckArg _ _). Qed.

Lemma find_lift {A B} (f : A → B) t name : find_entry (lift_entry f <$> t) name = lift_entry f <$> find_entry t name.
Proof. unfold find_entry. induction t as [|e t IH]; [done|]. cbn. by destruct (bool_decide _). Qed.
Lemma find_app {A} (t1 t2 : list (Entry A)) name :
  find_entry (t1 ++ t2) name = match find_entry t1 name with Some e => Some e | None => find_entry t2 name end.
Proof. unfold find_entry. induction t1 as [|e t IH]; [done|]. cbn. by destruct (bool_decide _). Qed.
Lemma find_name {A} (t : list (Entry A)) name e : find_entry t name = Some e → str (e_name e) = name.
Proof. by intros [_ H%bool_decide_eq_true]%find_some. Qed.
Lemma names_apart_find {A B} (ta : list (Entry A)) (tb : list (Entry B)) name e :
  names_apart ta tb = true → find_entry tb name = Some e → find_entry ta name = None.
Proof.
  intros H Hb. destruct (find_entry ta name) as [a|] eqn:Ha; [|done]. exfalso.
  pose proof (find_name _ _ _ Ha) as Na. pose proof (find_name _ _ _ Hb) as Nb.
  apply find_entry_in, list_elem_of_In in Ha. apply find_entry_in, list_elem_of_In in Hb.
  unfold names_apart in H. rewrite forallb_forall in H. specialize (H a Ha). rewrite forallb_forall in H. specialize (H e Hb).
  apply negb_true_iff, bool_decide_eq_false in H. apply H.
  rewrite <- (String.string_of_list_byte_of_string (e_name a)), <- (String.string_of_list_byte_of_string (e_name e)).
  f_equal. unfold str in *. congruence.
Qed.

Section SumFind.
Context {A B : Type} {FA : CmdFamily A} {FB : CmdFamily B}.
Lemma sum_find name : find_entry (C := A + B) family_table name =
  match find_entry (C := A) family_table name with
  | Some e => Some (lift_entry inl e)
  | None => lift_entry inr <$> find_entry (C := B) family_table name
  end.
Proof. cbn [family_table sum_family]. rewrite find_app, !find_lift. by destruct (find_entry _ _). Qed.
End SumFind.

(** A sum of families whose names are apart is logged as its parts are. *)
Lemma sum_logged_laws {A B} {N : NumString} {FA : CmdFamily A} {FB : CmdFamily B} {GA : Logged A} {GB : Logged B} :
  LoggedLaws A → LoggedLaws B → names_apart (family_table (C := A)) (family_table (C := B)) = true →
  LoggedLaws (A + B).
Proof.
  intros LA LB Hap. split.
  { cbn [family_table sum_family]. apply Forall_app. split; apply Forall_fmap.
    - exact (law_names (C := A)).
    - exact (law_names (C := B)). }
  intros e argv c now He Hi Hfit. destruct (head argv) as [name|] eqn:Hn; [|done]. cbn [mbind option_bind] in He.
  rewrite sum_find in He. destruct (find_entry (C := A) family_table name) as [a|] eqn:Ha.
  - injection He as <-. rewrite DoInitial_lift in Hi. destruct (DoInitial a argv) as [[r|x]|] eqn:Hx; try done.
    injection Hi as <-. destruct (law_logged a argv x now) as (a' & e' & H1 & H2 & H3 & H4); [by rewrite Hn|done|done|].
    exists a', (lift_entry inl e'). split; [|split; [by rewrite DoInitial_lift, H2|done]].
    destruct (head a') as [n|]; [|done]. cbn [mbind option_bind] in *. by rewrite sum_find, H1.
  - destruct (find_entry (C := B) family_table name) as [b|] eqn:Hb; [|done].
    injection He as <-. rewrite DoInitial_lift in Hi. destruct (DoInitial b argv) as [[r|x]|] eqn:Hx; try done.
    injection Hi as <-. destruct (law_logged b argv x now) as (a' & e' & H1 & H2 & H3 & H4); [by rewrite Hn|done|done|].
    exists a', (lift_entry inr e'). split; [|split; [by rewrite DoInitial_lift, H2|done]].
    destruct (head a') as [n|]; [|done]. cbn [mbind option_bind] in *.
    rewrite sum_find, (names_apart_find _ _ _ _ Hap H1). by rewrite H1.
Qed.

(** A family whose commands are logged as they were requested. *)
Definition plain_logged (C : Type) : Logged C := {| logged c _ := c; times_fit _ _ := True |}.
Lemma plain_logged_laws {C} {N : NumString} {F : CmdFamily C} :
  (∀ argv (c : C) now, family_text argv c now = request_text argv) →
  Forall (λ e : Entry C, tolower <$> str (e_name e) = str (e_name e)) family_table →
  LoggedLaws C (L := plain_logged C).
Proof.
  intros Ht Hn. split; [exact Hn|]. intros e argv c now He Hi _. exists argv, e. cbn [logged plain_logged]. auto.
Qed.

Section Replay.
Context {C DB : Type} {N : NumString} {F : CmdFamily C} {R : CmdRun C DB} {L : Logged C} {LL : LoggedLaws C}.
(** The parser of requests, a separate library, reads back what [request_text] writes. *)
Context (parse : bytes → option (list bytes))
        (parse_text : ∀ argv, argv ≠ [] → parse (request_text argv) = Some argv).

Lemma replay_request e argv c now db :
  head argv ≫= find_entry family_table = Some e → DoInitial e argv = Some (inr c) →
  replay (C := C) parse (request_text argv) now db = cmd_Do c now db.
Proof.
  intros He Hi. unfold replay. rewrite parse_text by (by intros ->). cbn [mbind option_bind].
  destruct (head argv) as [name|]; [|done]. cbn [mbind option_bind] in *.
  rewrite (log_entry_found _ _ _ law_names He). cbn [mbind option_bind]. by rewrite Hi.
Qed.

Lemma replay_logged e argv c now now' db :
  head argv ≫= find_entry family_table = Some e → DoInitial e argv = Some (inr c) → times_fit c now →
  replay (C := C) parse (family_text argv c now) now' db = cmd_Do (logged c now) now' db.
Proof.
  intros He Hi Hfit. destruct (law_logged e argv c now He Hi Hfit) as (a & e' & H1 & H2 & -> & _).
  by apply (replay_request e').
Qed.
End Replay.
