(* ===== verification/KvCmd.v ===== *)
(** * Key-value commands (src/pika_kv.cc, src/include/pika_kv.h)

    A command is a value of [KvCmd], a constructor for each class with its fields.
    [DoInitial] makes one from the arguments; it answers an error, and reads an argument
    that is not there in no case ([KvFacts]).  [Do] runs it on the storage engine, and
    [binlog_text] is what its [ToBinlog] puts into the log. *)

From S2P Require Import Prelude Define Env Transverter Command StableLog CmdRes Blackwidow CmdArgs CmdReply CmdFamily.
From stdpp Require Import base list strings pretty gmap.
From Stdlib Require Import ZArith Lia Init.Byte.
#[local] Open Scope string_scope.
#[local] Open Scope list_scope.
#[local] Open Scope Z_scope.

Inductive SetCondition := kNONE | kNX | kXX | kVX | kEXORPX.
#[export] Instance SetCondition_eq_dec : EqDecision SetCondition.
Proof. solve_decision. Defined.

Inductive KvCmd :=
  | SetCmd (key value target : bytes) (condition : SetCondition) (sec : Z)
  | GetCmd (key : bytes)
  | DelCmd (keys : list bytes)
  | IncrCmd (key : bytes)
  | IncrbyCmd (key : bytes) (by_ : Z)
  | IncrbyfloatCmd (key value : bytes)
  | DecrCmd (key : bytes)
  | DecrbyCmd (key : bytes) (by_ : Z)
  | GetsetCmd (key new_value : bytes)
  | AppendCmd (key value : bytes)
  | MgetCmd (keys : list bytes)
  | KeysCmd (pattern : bytes) (type : DataType)
  | SetnxCmd (key value : bytes)
  | SetexCmd (key : bytes) (sec : Z) (value : bytes)
  | PsetexCmd (key : bytes) (usec : Z) (value : bytes)
  | DelvxCmd (key value : bytes)
  | MsetCmd (kvs : list KeyValue)
  | MsetnxCmd (kvs : list KeyValue)
  | GetrangeCmd (key : bytes) (start_ end_ : Z)
  | SetrangeCmd (key : bytes) (offset : Z) (value : bytes)
  | StrlenCmd (key : bytes)
  | ExistsCmd (keys : list bytes)
  | ExpireCmd (key : bytes) (sec : Z)
  | PexpireCmd (key : bytes) (msec : Z)
  | ExpireatCmd (key : bytes) (time_stamp : Z)
  | PexpireatCmd (key : bytes) (time_stamp_ms : Z)
  | TtlCmd (key : bytes)
  | PttlCmd (key : bytes)
  | PersistCmd (key : bytes)
  | TypeCmd (key : bytes)
  | ScanCmd (cursor : Z) (pattern : bytes) (count : Z)
  | ScanxCmd (type : DataType) (start_key pattern : bytes) (count : Z)
  | PKSetexAtCmd (key value : bytes) (time_stamp : Z)
  | PKScanRangeCmd (type : DataType) (with_value : bool) (key_start key_end pattern : bytes) (limit : Z)
  | PKRScanRangeCmd (type : DataType) (with_value : bool) (key_start key_end pattern : bytes) (limit : Z).

(** ** Arguments *)

Section Initial.
Context {SN : StringNum} {FT : FloatText}.

Abbreviation Init := (option (CmdRes + KvCmd)).
Definition IncrbyCmd_DoInitial (argv : list bytes) : Init :=
  key ← argv !! 1%nat; v ← argv !! 2%nat;
  match num v with None => bad kInvalidInt "incrby" | Some n => good (IncrbyCmd key n) end.

(** The options of SET, from the fourth argument on. *)
Fixpoint set_options (key value target : bytes) (condition : SetCondition) (sec : Z) (opts : list bytes) : Init :=
  match opts with
  | [] => good (SetCmd key value target condition sec)
  | opt :: opts =>
      if same_word opt "xx" then set_options key value target kXX sec opts
      else if same_word opt "nx" then set_options key value target kNX sec opts
      else if same_word opt "vx" then
        match opts with
        | [] => bad kSyntaxErr ""
        | target :: opts => set_options key value target kVX sec opts
        end
      else if same_word opt "ex" || same_word opt "px" then
        let condition := if bool_decide (condition = kNONE) then kEXORPX else condition in
        match opts with
        | [] => bad kSyntaxErr ""
        | v :: opts =>
            match num v with
            | None => bad kInvalidInt ""
            | Some sec =>
                if sec <=? 0 then bad kErrOther "invalid expire time in set" else
                set_options key value target condition
                  (if same_word opt "px" then Z.quot sec 1000 else sec) opts
            end
        end
      else bad kSyntaxErr ""
  end.

Definition SetCmd_DoInitial (argv : list bytes) : Init :=
  key ← argv !! 1%nat; value ← argv !! 2%nat;
  set_options key value [] kNONE 0 (drop 3 argv).

(** The pairs of MSET and MSETNX, from the second argument on. *)
Fixpoint key_values (args : list bytes) : option (list KeyValue) :=
  match args with
  | [] => Some []
  | key :: args =>
      match args with
      | [] => None
      | value :: args => kvs ← key_values args; Some (mkKeyValue key value :: kvs)
      end
  end.
Definition pairs_DoInitial (name : string) (make : list KeyValue → KvCmd) (argv : list bytes) : Init :=
  if zlen argv mod 2 =? 0 then bad kWrongNum name else
  kvs ← key_values (drop 1 argv); good (make kvs).

(** The types that commands name. *)
Definition type_word (s : bytes) : option DataType :=
  if same_word s "string" then Some kStrings
  else if same_word s "zset" then Some kZSets
  else if same_word s "set" then Some kSets
  else if same_word s "list" then Some kLists
  else if same_word s "hash" then Some kHashes
  else None.

Definition KeysCmd_DoInitial (argv : list bytes) : Init :=
  pattern ← argv !! 1%nat;
  if zlen argv =? 3 then
    opt ← argv !! 2%nat;
    match type_word opt with Some type => good (KeysCmd pattern type) | None => bad kSyntaxErr "" end
  else if zlen argv >? 3 then bad kSyntaxErr ""
  else good (KeysCmd pattern kAll).

(** COUNT and LIMIT must be positive. *)
Definition kv_scan_options (word : string) (make : bytes → Z → KvCmd) : list bytes → Init :=
  scan_options word (λ n, n <=? 0) (λ p n, good (make p n)) (str "*") 10.

Definition ScanCmd_DoInitial (argv : list bytes) : Init :=
  c ← argv !! 1%nat;
  need_num c (λ cursor, kv_scan_options "count" (ScanCmd cursor) (drop 2 argv)).

Definition ScanxCmd_DoInitial (argv : list bytes) : Init :=
  t ← argv !! 1%nat;
  match type_word t with
  | None => bad kInvalidDbType ""
  | Some type =>
      start_key ← argv !! 2%nat;
      kv_scan_options "count" (ScanxCmd type start_key) (drop 3 argv)
  end.

(** PKSCANRANGE and PKRSCANRANGE; in classic mode every hash tag is consistent. *)
Definition range_DoInitial (make : DataType → bool → bytes → bytes → bytes → Z → KvCmd) (argv : list bytes) : Init :=
  t ← argv !! 1%nat;
  let with_value := same_word t "string_with_value" in
  match (if with_value then Some kStrings else type_word t) with
  | None => bad kInvalidDbType ""
  | Some type =>
      key_start ← argv !! 2%nat; key_end ← argv !! 3%nat;
      kv_scan_options "limit" (make type with_value key_start key_end) (drop 4 argv)
  end.

Definition PKSetexAtCmd_DoInitial (argv : list bytes) : Init :=
  key ← argv !! 1%nat; value ← argv !! 3%nat; t ← argv !! 2%nat;
  need_num t (λ time_stamp, if time_stamp >=? 2 ^ 31 - 1 then bad kInvalidInt ""
                            else good (PKSetexAtCmd key value time_stamp)).

Definition IncrbyfloatCmd_DoInitial (argv : list bytes) : Init :=
  key ← argv !! 1%nat; value ← argv !! 2%nat;
  if string2d value then good (IncrbyfloatCmd key value) else bad kInvalidFloat "".
Definition GetrangeCmd_DoInitial : list bytes → Init := key_nums GetrangeCmd.

(** The commands with these forms. *)
Definition GetCmd_DoInitial : list bytes → Init := key_only GetCmd.
Definition DelCmd_DoInitial : list bytes → Init := all_keys DelCmd.
Definition IncrCmd_DoInitial : list bytes → Init := key_only IncrCmd.
Definition DecrCmd_DoInitial : list bytes → Init := key_only DecrCmd.
Definition DecrbyCmd_DoInitial : list bytes → Init := key_num DecrbyCmd.
Definition GetsetCmd_DoInitial : list bytes → Init := key_value GetsetCmd.
Definition AppendCmd_DoInitial : list bytes → Init := key_value AppendCmd.
Definition MgetCmd_DoInitial : list bytes → Init := all_keys MgetCmd.
Definition SetnxCmd_DoInitial : list bytes → Init := key_value SetnxCmd.
Definition SetexCmd_DoInitial : list bytes → Init := key_num_value SetexCmd.
Definition PsetexCmd_DoInitial : list bytes → Init := key_num_value PsetexCmd.
Definition DelvxCmd_DoInitial : list bytes → Init := key_value DelvxCmd.
Definition MsetCmd_DoInitial : list bytes → Init := pairs_DoInitial "mset" MsetCmd.
Definition MsetnxCmd_DoInitial : list bytes → Init := pairs_DoInitial "msetnx" MsetnxCmd.
Definition SetrangeCmd_DoInitial : list bytes → Init := key_num_value SetrangeCmd.
Definition StrlenCmd_DoInitial : list bytes → Init := key_only StrlenCmd.
Definition ExistsCmd_DoInitial : list bytes → Init := all_keys ExistsCmd.
Definition ExpireCmd_DoInitial : list bytes → Init := key_num ExpireCmd.
Definition PexpireCmd_DoInitial : list bytes → Init := key_num PexpireCmd.
Definition ExpireatCmd_DoInitial : list bytes → Init := key_num ExpireatCmd.
Definition PexpireatCmd_DoInitial : list bytes → Init := key_num PexpireatCmd.
Definition TtlCmd_DoInitial : list bytes → Init := key_only TtlCmd.
Definition PttlCmd_DoInitial : list bytes → Init := key_only PttlCmd.
Definition PersistCmd_DoInitial : list bytes → Init := key_only PersistCmd.
Definition TypeCmd_DoInitial : list bytes → Init := key_only TypeCmd.
Definition PKScanRangeCmd_DoInitial : list bytes → Init := range_DoInitial PKScanRangeCmd.
Definition PKRScanRangeCmd_DoInitial : list bytes → Init := range_DoInitial PKRScanRangeCmd.

(** ** The table *)

Abbreviation KvEntry := (Entry KvCmd).

Definition kvReadSingle : Z := Z.lor (Z.lor kCmdFlagsRead kCmdFlagsSinglePartition) kCmdFlagsKv.
Definition kvReadMulti : Z := Z.lor (Z.lor kCmdFlagsRead kCmdFlagsMultiPartition) kCmdFlagsKv.
Definition kvWriteSingle : Z := Z.lor (Z.lor kCmdFlagsWrite kCmdFlagsSinglePartition) kCmdFlagsKv.
Definition kvWriteMulti : Z := Z.lor (Z.lor kCmdFlagsWrite kCmdFlagsMultiPartition) kCmdFlagsKv.

Definition KvTable : list KvEntry := [
  entry "set" (-3) kvWriteSingle SetCmd_DoInitial;
  entry "get" 2 kvReadSingle GetCmd_DoInitial;
  entry "del" (-2) kvWriteMulti DelCmd_DoInitial;
  entry "incr" 2 kvWriteSingle IncrCmd_DoInitial;
  entry "incrby" 3 kvWriteSingle IncrbyCmd_DoInitial;
  entry "incrbyfloat" 3 kvWriteSingle IncrbyfloatCmd_DoInitial;
  entry "decr" 2 kvWriteSingle DecrCmd_DoInitial;
  entry "decrby" 3 kvWriteSingle DecrbyCmd_DoInitial;
  entry "getset" 3 kvWriteSingle GetsetCmd_DoInitial;
  entry "append" 3 kvWriteSingle AppendCmd_DoInitial;
  entry "mget" (-2) kvReadMulti MgetCmd_DoInitial;
  entry "keys" (-2) kvReadMulti KeysCmd_DoInitial;
  entry "setnx" 3 kvWriteSingle SetnxCmd_DoInitial;
  entry "setex" 4 kvWriteSingle SetexCmd_DoInitial;
  entry "psetex" 4 kvWriteSingle PsetexCmd_DoInitial;
  entry "delvx" 3 kvWriteSingle DelvxCmd_DoInitial;
  entry "mset" (-3) kvWriteMulti MsetCmd_DoInitial;
  entry "msetnx" (-3) kvWriteMulti MsetnxCmd_DoInitial;
  entry "getrange" 4 kvReadSingle GetrangeCmd_DoInitial;
  entry "setrange" 4 kvWriteSingle SetrangeCmd_DoInitial;
  entry "strlen" 2 kvReadSingle StrlenCmd_DoInitial;
  entry "exists" (-2) kvReadMulti ExistsCmd_DoInitial;
  entry "expire" 3 kvWriteSingle ExpireCmd_DoInitial;
  entry "pexpire" 3 kvWriteSingle PexpireCmd_DoInitial;
  entry "expireat" 3 kvWriteSingle ExpireatCmd_DoInitial;
  entry "pexpireat" 3 kvWriteSingle PexpireatCmd_DoInitial;
  entry "ttl" 2 kvReadSingle TtlCmd_DoInitial;
  entry "pttl" 2 kvReadSingle PttlCmd_DoInitial;
  entry "persist" 2 kvWriteSingle PersistCmd_DoInitial;
  entry "type" 2 kvReadSingle TypeCmd_DoInitial;
  entry "scan" (-2) kvReadMulti ScanCmd_DoInitial;
  entry "scanx" (-3) kvReadMulti ScanxCmd_DoInitial;
  entry "pksetexat" 4 kvWriteSingle PKSetexAtCmd_DoInitial;
  entry "pkscanrange" (-4) kvReadSingle PKScanRangeCmd_DoInitial;
  entry "pkrscanrange" (-4) kvReadSingle PKRScanRangeCmd_DoInitial ].
End Initial.

(** ** Running *)

(** [Cmd::current_key]: what a write command locks; the base class answers an empty
    text. *)
Definition current_key (c : KvCmd) : list bytes :=
  match c with
  | SetCmd k _ _ _ _ | GetCmd k | IncrCmd k | IncrbyCmd k _ | IncrbyfloatCmd k _ | DecrCmd k | DecrbyCmd k _
  | GetsetCmd k _ | AppendCmd k _ | SetnxCmd k _ | SetexCmd k _ _ | PsetexCmd k _ _ | DelvxCmd k _
  | GetrangeCmd k _ _ | SetrangeCmd k _ _ | StrlenCmd k | ExpireCmd k _ | PexpireCmd k _ | ExpireatCmd k _
  | PexpireatCmd k _ | TtlCmd k | PttlCmd k | PersistCmd k | TypeCmd k | PKSetexAtCmd k _ _
  | PKScanRangeCmd _ _ k _ _ _ | PKRScanRangeCmd _ _ k _ _ _ => [k]
  | DelCmd ks | MgetCmd ks | ExistsCmd ks => ks
  | MsetCmd kvs => kv_key <$> kvs
  | KeysCmd _ _ | MsetnxCmd _ | ScanCmd _ _ _ | ScanxCmd _ _ _ _ => [[]]
  end.

Section Do.
Context {N : NumString} {RS DB : Type} {RO : RocksStatus RS} {BW : Blackwidow RS DB}.
(** [max_client_response_size]. *)
Context (limit : Z).

(** The loop of KEYS; [None]: out of fuel, which only a scan that never ends can cause. *)
Fixpoint keys_loop (fuel : nat) (type : DataType) (pattern : bytes) (now : Z) (db : DB)
    (cursor total : Z) (raw : bytes) : option CmdRes :=
  match fuel with
  | O => None
  | S fuel =>
      let '(cursor, keys) := bw_Scan (RS := RS) type cursor pattern PIKA_SCAN_STEP_LENGTH now db in
      let raw := raw_keys keys raw in
      if zlen raw >=? limit then Some too_large else
      let total := total + zlen keys in
      if negb (cursor =? 0) then keys_loop fuel type pattern now db cursor total raw
      else Some (AppendStringRaw raw (AppendArrayLen total res_new))
  end.

(** The loop of SCAN, which takes [left] keys in steps. *)
Fixpoint scan_loop (fuel : nat) (pattern : bytes) (now : Z) (db : DB) (left cursor total : Z) (raw : bytes) :
    option CmdRes :=
  match fuel with
  | O => None
  | S fuel =>
      let batch_count := if left <? PIKA_SCAN_STEP_LENGTH then left else PIKA_SCAN_STEP_LENGTH in
      let left := if left >? PIKA_SCAN_STEP_LENGTH then left - PIKA_SCAN_STEP_LENGTH else 0 in
      let '(cursor, keys) := bw_Scan (RS := RS) kAll cursor pattern batch_count now db in
      let raw := raw_keys keys raw in
      if zlen raw >=? limit then Some too_large else
      let total := total + zlen keys in
      if negb (cursor =? 0) && negb (left =? 0) then scan_loop fuel pattern now db left cursor total raw
      else Some (AppendStringRaw raw (AppendArrayLen total
             (AppendString (ll2string cursor) (AppendArrayLen 2 res_new))))
  end.

(** TTL and PTTL: the first type, in this order, that has the key; an entry that the
    engine does not give counts as 0. *)
Fixpoint ttl_at (m : list (DataType * Z)) (t : DataType) : Z :=
  match m with
  | [] => 0
  | (t', n) :: m => if bool_decide (t' = t) then n else ttl_at m t
  end.
Fixpoint ttl_first (scale : Z → Z) (order : list DataType) (m : list (DataType * Z)) : Z :=
  match order with
  | [] => -2
  | t :: order => if negb (ttl_at m t =? -2) then scale (ttl_at m t) else ttl_first scale order m
  end.
Definition ttl_reply (scale : Z → Z) (order : list DataType) (msg : string) (m : list (DataType * Z)) : CmdRes :=
  if existsb (λ e, e.2 =? -3) m then internal msg else integer (ttl_first scale order m).
Definition to_msec (n : Z) : Z := if n =? -1 then -1 else n * 1000.

Definition range_reply (type : DataType) (with_value : bool) (x : RS * list bytes * list KeyValue * bytes) : CmdRes :=
  let '(s, keys, kvs, next_key) := x in
  if rs_ok s then
    let r := AppendString next_key (AppendArrayLen 2 res_new) in
    if bool_decide (type = kStrings) then
      append_strings (kvs ≫= λ kv, if with_value then [kv_key kv; kv_value kv] else [kv_key kv])
        (AppendArrayLen (if with_value then 2 * zlen kvs else zlen kvs) r)
    else append_strings keys (AppendArrayLen (zlen keys) r)
  else err s.

(** *** [Do] *)

Definition SetCmd_Do (key value target : bytes) (condition : SetCondition) (sec : Z) (now : Z) (db : DB) : option (CmdRes * DB) :=
  let '(s, res, db) :=
    match condition with
    | kXX => bw_Setxx key value 1 sec now db
    | kNX => bw_Setnx key value 1 (Some sec) now db
    | kVX => bw_Setvx key target value 0 sec now db
    | kEXORPX => let '(s, db) := bw_Setex key value sec now db in (s, 1, db)
    | kNONE => let '(s, db) := bw_Set key value now db in (s, 1, db)
    end in
  Some (if rs_ok s || rs_IsNotFound s then
          if bool_decide (condition = kVX) then integer res
          else if res =? 1 then SetRes kOk [] res_new else AppendArrayLen (-1) res_new
        else err s, db).
Definition GetCmd_Do (key : bytes) (now : Z) (db : DB) : option (CmdRes * DB) :=
  let '(s, value) := bw_Get key now db in
  Some (if rs_ok s then AppendString value res_new
        else if rs_IsNotFound s then AppendStringLen (-1) res_new else err s, db).
Definition DelCmd_Do (keys : list bytes) (now : Z) (db : DB) : option (CmdRes * DB) :=
  let '(count, db) := bw_Del (RS := RS) keys now db in
  Some (if count >=? 0 then integer count else internal "delete error", db).
Definition IncrCmd_Do (key : bytes) (now : Z) (db : DB) : option (CmdRes * DB) :=
  let '(s, n, db) := bw_Incrby key 1 now db in Some (counter_reply (rs_ok s) "Corruption: Value is not a integer" s n, db).
Definition IncrbyCmd_Do (key : bytes) (by_ : Z) (now : Z) (db : DB) : option (CmdRes * DB) :=
  let '(s, n, db) := bw_Incrby key by_ now db in Some (counter_reply (rs_ok s) "Corruption: Value is not a integer" s n, db).
Definition IncrbyfloatCmd_Do (key value : bytes) (now : Z) (db : DB) : option (CmdRes * DB) :=
  let '(s, v, db) := bw_Incrbyfloat key value now db in Some (float_reply "Corruption: Value is not a vaild float" s v, db).
Definition DecrCmd_Do (key : bytes) (now : Z) (db : DB) : option (CmdRes * DB) :=
  let '(s, n, db) := bw_Decrby key 1 now db in Some (counter_reply (rs_ok s) "Corruption: Value is not a integer" s n, db).
Definition DecrbyCmd_Do (key : bytes) (by_ : Z) (now : Z) (db : DB) : option (CmdRes * DB) :=
  let '(s, n, db) := bw_Decrby key by_ now db in Some (counter_reply (rs_ok s) "Corruption: Value is not a integer" s n, db).
Definition GetsetCmd_Do (key new_value : bytes) (now : Z) (db : DB) : option (CmdRes * DB) :=
  let '(s, old, db) := bw_GetSet key new_value now db in
  Some (if rs_ok s then
          if bool_decide (old = []) then AppendContent (str "$-1") res_new else AppendString old res_new
        else err s, db).
Definition AppendCmd_Do (key value : bytes) (now : Z) (db : DB) : option (CmdRes * DB) :=
  let '(s, n, db) := bw_Append key value now db in Some (found_or_err s n, db).
Definition MgetCmd_Do (keys : list bytes) (now : Z) (db : DB) : option (CmdRes * DB) :=
  let '(s, vss) := bw_MGet keys now db in Some (if rs_ok s then mget_reply vss else err s, db).
Definition KeysCmd_Do (fuel : nat) (pattern : bytes) (type : DataType) (now : Z) (db : DB) : option (CmdRes * DB) :=
  r ← keys_loop fuel type pattern now db 0 0 []; Some (r, db).
Definition SetnxCmd_Do (key value : bytes) (now : Z) (db : DB) : option (CmdRes * DB) :=
  let '(s, n, db) := bw_Setnx key value 0 None now db in Some (integer_or_err s n, db).
Definition SetexCmd_Do (key : bytes) (sec : Z) (value : bytes) (now : Z) (db : DB) : option (CmdRes * DB) :=
  let '(s, db) := bw_Setex key value sec now db in Some (ok_or_err s, db).
Definition PsetexCmd_Do (key : bytes) (usec : Z) (value : bytes) (now : Z) (db : DB) : option (CmdRes * DB) :=
  let '(s, db) := bw_Setex key value (Z.quot usec 1000) now db in Some (ok_or_err s, db).
Definition DelvxCmd_Do (key value : bytes) (now : Z) (db : DB) : option (CmdRes * DB) :=
  let '(s, n, db) := bw_Delvx key value 0 now db in Some (found_or_err s n, db).
Definition MsetCmd_Do (kvs : list KeyValue) (now : Z) (db : DB) : option (CmdRes * DB) :=
  let '(s, db) := bw_MSet kvs now db in Some (ok_or_err s, db).
Definition MsetnxCmd_Do (kvs : list KeyValue) (now : Z) (db : DB) : option (CmdRes * DB) :=
  let '(s, n, db) := bw_MSetnx kvs 0 now db in Some (integer_or_err s n, db).
Definition GetrangeCmd_Do (key : bytes) (start_ end_ : Z) (now : Z) (db : DB) : option (CmdRes * DB) :=
  let '(s, v) := bw_Getrange key start_ end_ now db in
  Some (if rs_ok s || rs_IsNotFound s then AppendString v res_new else err s, db).
Definition SetrangeCmd_Do (key : bytes) (offset : Z) (value : bytes) (now : Z) (db : DB) : option (CmdRes * DB) :=
  let '(s, n, db) := bw_Setrange key offset value now db in Some (integer_or_err s n, db).
Definition StrlenCmd_Do (key : bytes) (now : Z) (db : DB) : option (CmdRes * DB) :=
  let '(s, n) := bw_Strlen key now db in Some (found_or_err s n, db).
Definition ExistsCmd_Do (keys : list bytes) (now : Z) (db : DB) : option (CmdRes * DB) :=
  Some (count_or_err (bw_Exists (RS := RS) keys now db) "exists internal error", db).
Definition ExpireCmd_Do (key : bytes) (sec : Z) (now : Z) (db : DB) : option (CmdRes * DB) :=
  let '(n, db) := bw_Expire (RS := RS) key sec now db in Some (count_or_err n "expire internal error", db).
Definition PexpireCmd_Do (key : bytes) (msec : Z) (now : Z) (db : DB) : option (CmdRes * DB) :=
  let '(n, db) := bw_Expire (RS := RS) key (Z.quot msec 1000) now db in
  Some (count_or_err n "expire internal error", db).
Definition ExpireatCmd_Do (key : bytes) (t : Z) (now : Z) (db : DB) : option (CmdRes * DB) :=
  let '(n, db) := bw_Expireat (RS := RS) key t now db in Some (count_or_err n "expireat internal error", db).
Definition PexpireatCmd_Do (key : bytes) (t : Z) (now : Z) (db : DB) : option (CmdRes * DB) :=
  let '(n, db) := bw_Expireat (RS := RS) key (Z.quot t 1000) now db in
  Some (count_or_err n "pexpireat internal error", db).
Definition TtlCmd_Do (key : bytes) (now : Z) (db : DB) : option (CmdRes * DB) :=
  Some (ttl_reply id [kStrings; kHashes; kLists; kZSets; kSets] "ttl internal error"
          (bw_TTL (RS := RS) key now db), db).
Definition PttlCmd_Do (key : bytes) (now : Z) (db : DB) : option (CmdRes * DB) :=
  Some (ttl_reply to_msec [kStrings; kHashes; kLists; kSets; kZSets] "ttl internal error"
          (bw_TTL (RS := RS) key now db), db).
Definition PersistCmd_Do (key : bytes) (now : Z) (db : DB) : option (CmdRes * DB) :=
  let '(n, db) := bw_Persist (RS := RS) key now db in Some (count_or_err n "persist internal error", db).
Definition TypeCmd_Do (key : bytes) (now : Z) (db : DB) : option (CmdRes * DB) :=
  let '(s, t) := bw_Type key now db in
  Some (if rs_ok s then AppendContent (str "+" ++ t) res_new else err s, db).
Definition ScanCmd_Do (cursor : Z) (pattern : bytes) (count : Z) (now : Z) (db : DB) : option (CmdRes * DB) :=
  r ← scan_loop (S (Z.to_nat (count / PIKA_SCAN_STEP_LENGTH))) pattern now db count cursor 0 [];
  Some (r, db).
Definition ScanxCmd_Do (type : DataType) (start_key pattern : bytes) (count : Z) (now : Z) (db : DB) : option (CmdRes * DB) :=
  let '(s, keys, next_key) := bw_Scanx type start_key pattern count now db in
  Some (if rs_ok s then
          append_strings keys (AppendArrayLen (zlen keys) (AppendString next_key (AppendArrayLen 2 res_new)))
        else err s, db).
Definition PKSetexAtCmd_Do (key value : bytes) (t : Z) (now : Z) (db : DB) : option (CmdRes * DB) :=
  let '(s, db) := bw_PKSetexAt key value t now db in Some (ok_or_err s, db).
Definition PKScanRangeCmd_Do (type : DataType) (with_value : bool) (a b pattern : bytes) (limit : Z) (now : Z) (db : DB) : option (CmdRes * DB) :=
  Some (range_reply type with_value (bw_PKScanRange type a b pattern limit now db), db).
Definition PKRScanRangeCmd_Do (type : DataType) (with_value : bool) (a b pattern : bytes) (limit : Z) (now : Z) (db : DB) : option (CmdRes * DB) :=
  Some (range_reply type with_value (bw_PKRScanRange type a b pattern limit now db), db).

(** The reply and the database; [fuel] is for KEYS. *)
Definition Do (fuel : nat) (c : KvCmd) (now : Z) (db : DB) : option (CmdRes * DB) :=
  match c with
  | SetCmd key value target condition sec => SetCmd_Do key value target condition sec now db
  | GetCmd key => GetCmd_Do key now db
  | DelCmd keys => DelCmd_Do keys now db
  | IncrCmd key => IncrCmd_Do key now db
  | IncrbyCmd key by_ => IncrbyCmd_Do key by_ now db
  | IncrbyfloatCmd key value => IncrbyfloatCmd_Do key value now db
  | DecrCmd key => DecrCmd_Do key now db
  | DecrbyCmd key by_ => DecrbyCmd_Do key by_ now db
  | GetsetCmd key new_value => GetsetCmd_Do key new_value now db
  | AppendCmd key value => AppendCmd_Do key value now db
  | MgetCmd keys => MgetCmd_Do keys now db
  | KeysCmd pattern type => KeysCmd_Do fuel pattern type now db
  | SetnxCmd key value => SetnxCmd_Do key value now db
  | SetexCmd key sec value => SetexCmd_Do key sec value now db
  | PsetexCmd key usec value => PsetexCmd_Do key usec value now db
  | DelvxCmd key value => DelvxCmd_Do key value now db
  | MsetCmd kvs => MsetCmd_Do kvs now db
  | MsetnxCmd kvs => MsetnxCmd_Do kvs now db
  | GetrangeCmd key start_ end_ => GetrangeCmd_Do key start_ end_ now db
  | SetrangeCmd key offset value => SetrangeCmd_Do key offset value now db
  | StrlenCmd key => StrlenCmd_Do key now db
  | ExistsCmd keys => ExistsCmd_Do keys now db
  | ExpireCmd key sec => ExpireCmd_Do key sec now db
  | PexpireCmd key msec => PexpireCmd_Do key msec now db
  | ExpireatCmd key t => ExpireatCmd_Do key t now db
  | PexpireatCmd key t => PexpireatCmd_Do key t now db
  | TtlCmd key => TtlCmd_Do key now db
  | PttlCmd key => PttlCmd_Do key now db
  | PersistCmd key => PersistCmd_Do key now db
  | TypeCmd key => TypeCmd_Do key now db
  | ScanCmd cursor pattern count => ScanCmd_Do cursor pattern count now db
  | ScanxCmd type start_key pattern count => ScanxCmd_Do type start_key pattern count now db
  | PKSetexAtCmd key value t => PKSetexAtCmd_Do key value t now db
  | PKScanRangeCmd type with_value a b pattern limit => PKScanRangeCmd_Do type with_value a b pattern limit now db
  | PKRScanRangeCmd type with_value a b pattern limit => PKRScanRangeCmd_Do type with_value a b pattern limit now db
  end.
End Do.

(** ** The log *)

Section Log.
Context {N : NumString}.

(** A request text with [n] in its first line. *)
Definition counted_text (n : Z) (parts : list bytes) : bytes :=
  foldl (λ content v, RedisAppendContent (RedisAppendLen content (zlen v) (str "$")) v)
    (RedisAppendLen [] n (str "*")) parts.

(** [int32_t time_stamp = time(nullptr) + sec_]. *)
Definition at_text (now sec : Z) : bytes := ll2string (s32 (now + sec)).
Definition pksetexat_text (key value : bytes) (now sec : Z) : bytes :=
  counted_text 4 [str "pksetexat"; key; at_text now sec; value].
Definition expireat_text (n : Z) (key : bytes) (expireat : Z) : bytes :=
  counted_text n [str "expireat"; key; ll2string expireat].

Definition SetCmd_ToBinlog (argv : list bytes) (key value : bytes) (condition : SetCondition) (sec now : Z) : bytes :=
  if bool_decide (condition = kEXORPX) then pksetexat_text key value now sec else request_text argv.
Definition SetnxCmd_ToBinlog (key value : bytes) : bytes := counted_text 3 [str "setnx"; key; value].
Definition SetexCmd_ToBinlog (key : bytes) (sec : Z) (value : bytes) (now : Z) : bytes :=
  pksetexat_text key value now sec.
Definition PsetexCmd_ToBinlog (key : bytes) (usec : Z) (value : bytes) (now : Z) : bytes :=
  pksetexat_text key value now (Z.quot usec 1000).
Definition ExpireCmd_ToBinlog (key : bytes) (sec now : Z) : bytes := expireat_text 3 key (now + sec).
Definition PexpireCmd_ToBinlog (argv : list bytes) (key : bytes) (msec now : Z) : bytes :=
  expireat_text (zlen argv) key (now + Z.quot msec 1000).
Definition PexpireatCmd_ToBinlog (argv : list bytes) (key : bytes) (time_stamp_ms : Z) : bytes :=
  expireat_text (zlen argv) key (Z.quot time_stamp_ms 1000).

(** The content of the command's log item, for its arguments [argv] and the clock. *)
Definition binlog_text (argv : list bytes) (c : KvCmd) (now : Z) : bytes :=
  match c with
  | SetCmd key value _ condition sec => SetCmd_ToBinlog argv key value condition sec now
  | SetexCmd key sec value => SetexCmd_ToBinlog key sec value now
  | PsetexCmd key usec value => PsetexCmd_ToBinlog key usec value now
  | SetnxCmd key value => SetnxCmd_ToBinlog key value
  | ExpireCmd key sec => ExpireCmd_ToBinlog key sec now
  | PexpireCmd key msec => PexpireCmd_ToBinlog argv key msec now
  | PexpireatCmd key t => PexpireatCmd_ToBinlog argv key t
  | _ => request_text argv
  end.

#[export] Instance kv_family {SN : StringNum} {FT : FloatText} : CmdFamily KvCmd := {
  family_table := KvTable; family_key := current_key; family_text := binlog_text }.
End Log.

#[export] Instance kv_run {N : NumString} {RL : ReplyLimits} {RS DB : Type} {RO : RocksStatus RS}
  {BW : Blackwidow RS DB} : CmdRun KvCmd DB := Do (RS := RS) raw_limit scan_fuel.

(** The definitions of the commands, for proofs by cases. *)
Create HintDb kv_init.
#[export] Hint Unfold key_only key_value key_num key_num_value key_nums all_keys kv_scan_options pairs_DoInitial range_DoInitial
  SetCmd_DoInitial GetCmd_DoInitial DelCmd_DoInitial IncrCmd_DoInitial IncrbyCmd_DoInitial IncrbyfloatCmd_DoInitial DecrCmd_DoInitial DecrbyCmd_DoInitial GetsetCmd_DoInitial AppendCmd_DoInitial MgetCmd_DoInitial KeysCmd_DoInitial SetnxCmd_DoInitial SetexCmd_DoInitial PsetexCmd_DoInitial DelvxCmd_DoInitial MsetCmd_DoInitial MsetnxCmd_DoInitial GetrangeCmd_DoInitial SetrangeCmd_DoInitial StrlenCmd_DoInitial ExistsCmd_DoInitial ExpireCmd_DoInitial PexpireCmd_DoInitial ExpireatCmd_DoInitial PexpireatCmd_DoInitial TtlCmd_DoInitial PttlCmd_DoInitial PersistCmd_DoInitial TypeCmd_DoInitial ScanCmd_DoInitial ScanxCmd_DoInitial PKSetexAtCmd_DoInitial PKScanRangeCmd_DoInitial PKRScanRangeCmd_DoInitial : kv_init.
Create HintDb kv_do.
#[export] Hint Unfold SetCmd_Do GetCmd_Do DelCmd_Do IncrCmd_Do IncrbyCmd_Do IncrbyfloatCmd_Do DecrCmd_Do DecrbyCmd_Do GetsetCmd_Do AppendCmd_Do MgetCmd_Do KeysCmd_Do SetnxCmd_Do SetexCmd_Do PsetexCmd_Do DelvxCmd_Do MsetCmd_Do MsetnxCmd_Do GetrangeCmd_Do SetrangeCmd_Do StrlenCmd_Do ExistsCmd_Do ExpireCmd_Do PexpireCmd_Do ExpireatCmd_Do PexpireatCmd_Do TtlCmd_Do PttlCmd_Do PersistCmd_Do TypeCmd_Do ScanCmd_Do ScanxCmd_Do PKSetexAtCmd_Do PKScanRangeCmd_Do PKRScanRangeCmd_Do : kv_do.
