(* ===== verification/KvFacts.v ===== *)
(** * Key-value commands: what they guarantee

    No command reads an argument that is not there; every reply is one of the protocol;
    SET takes exactly the texts of its options; and the log item of a command is read
    back as that command, with its expiry made absolute. *)

From S2P Require Import Prelude Define Env Transverter Command StableLog CmdRes Blackwidow CmdArgs CmdReply CmdFamily KvCmd.
From stdpp Require Import base list strings pretty gmap.
From Stdlib Require Import ZArith Lia Init.Byte.
#[local] Open Scope string_scope.
#[local] Open Scope list_scope.
#[local] Open Scope Z_scope.

(** ** Arguments *)

#[export] Instance kv_reading : Reading KvCmd := λ c,
  match c with
  | GetCmd _ | MgetCmd _ | KeysCmd _ _ | GetrangeCmd _ _ _ | StrlenCmd _ | ExistsCmd _ | TtlCmd _ | PttlCmd _ | TypeCmd _
  | ScanCmd _ _ _ | ScanxCmd _ _ _ _ | PKScanRangeCmd _ _ _ _ _ _ | PKRScanRangeCmd _ _ _ _ _ _ => true
  | _ => false
  end.

(** PEXPIRE and PEXPIREAT, whose log text counts the arguments, have three. *)
Definition three_args (argv : list bytes) (c : KvCmd) : Prop :=
  match c with PexpireCmd _ _ | PexpireatCmd _ _ => zlen argv = 3 | _ => True end.
Definition kv_initial_ok (name : string) (flag : Z) (argv : list bytes) (c : KvCmd) : Prop :=
  three_args argv c ∧ read_only name flag argv c.

Section Arguments.
Context {SN : StringNum} {FT : FloatText}.
Context (U : Prop) (G : KvCmd → Prop).

Lemma set_options_outcome opts : (∀ k v t c s, G (SetCmd k v t c s)) → ∀ key value target c sec,
  outcome U G (set_options key value target c sec opts).
Proof.
  intros HG. induction opts as [[|x l] IH] using by_length; intros key value target c sec; [by apply outcome_good|].
  cbn [set_options]. repeat (case_match; try by apply outcome_bad); subst; apply IH; cbn; lia.
Qed.

Lemma key_values_even args : zlen args mod 2 = 0 → ∃ kvs, key_values args = Some kvs.
Proof.
  induction args as [[|x [|y l]] IH] using by_length; intros H; [by eexists|done|].
  destruct (IH l) as [kvs Hk]; [cbn; lia| |].
  { rewrite !zlen_cons in H. replace (1 + (1 + zlen l)) with (zlen l + 1 * 2) in H by lia.
    by rewrite Z.mod_add in H. }
  cbn [key_values]. rewrite Hk. by eexists.
Qed.

Lemma pairs_outcome name make argv : CheckArg (-3) argv = true → flatb (str name) = true → (∀ kvs, G (make kvs)) →
  outcome U G (pairs_DoInitial name make argv).
Proof.
  intros H Hn HG. apply CheckArg_least in H; [|lia]. unfold pairs_DoInitial.
  destruct (Z.eqb_spec (zlen argv mod 2) 0) as [|Hm]; [by apply outcome_bad|].
  destruct (key_values_even (drop 1 argv)) as [kvs ->]; [|by apply outcome_good].
  destruct argv as [|x argv]; [done|]. rewrite zlen_cons in Hm. cbn [drop].
  rewrite drop_0. Z.to_euclidean_division_equations. lia.
Qed.
End Arguments.

Lemma kv_table_ok {SN : StringNum} {FT : FloatText} : table_ok (λ _ _, False) kv_initial_ok KvTable.
Proof.
  unfold table_ok, KvTable. repeat (apply Forall_cons; split); try done;
    (split; [split; reflexivity|intros argv H]); cbn [entry e_name e_wrong e_arity e_init] in *;
    first [by apply pairs_outcome | arity; autounfold with kv_init;
      repeat first [by apply outcome_good | by apply set_options_outcome | outcome_step]].
Qed.

Lemma kv_table_laws {SN : StringNum} {FT : FloatText} U : table_ok U read_only KvTable.
Proof.
  eapply Forall_impl; [exact kv_table_ok|]. intros e [Hn Hi]. split; [exact Hn|].
  intros argv Ha. specialize (Hi argv Ha). destruct (e_init e argv) as [[r|c]|]; [done|apply Hi|done].
Qed.

(** ** The options of SET *)

Section SetOptions.
Context {SN : StringNum}.

Inductive SetOpt := ONX | OXX | OVX (target : bytes) | OEX (sec : Z) | OPX (msec : Z).

(** The arguments that an option is written with. *)
Inductive written : SetOpt → list bytes → Prop :=
  | written_nx w : same_word w "nx" = true → written ONX [w]
  | written_xx w : same_word w "xx" = true → written OXX [w]
  | written_vx w t : same_word w "vx" = true → written (OVX t) [w; t]
  | written_ex w v n : same_word w "ex" = true → num v = Some n → 0 < n → written (OEX n) [w; v]
  | written_px w v n : same_word w "px" = true → num v = Some n → 0 < n → written (OPX n) [w; v].

(** What an option does to the target, the condition and the expiry. *)
Definition apply_opt (x : bytes * SetCondition * Z) (o : SetOpt) : bytes * SetCondition * Z :=
  let '(t, c, s) := x in
  let timed := if bool_decide (c = kNONE) then kEXORPX else c in
  match o with
  | ONX => (t, kNX, s)
  | OXX => (t, kXX, s)
  | OVX t => (t, kVX, s)
  | OEX n => (t, timed, n)
  | OPX n => (t, timed, Z.quot n 1000)
  end.

Lemma same_word_one w a b : str a ≠ str b → same_word w a = true → same_word w b = false.
Proof.
  unfold same_word. intros Hab Ha. apply bool_decide_eq_true in Ha. apply bool_decide_eq_false.
  congruence.
Qed.

(** The word is this option's and no other's. *)
Ltac one_word H :=
  repeat match goal with |- context [same_word ?w ?b] =>
    match type of H with same_word w ?a = true =>
      first [constr_eq a b; rewrite H | rewrite (same_word_one w a b) by (done || discriminate)]
    end
  end.

Lemma set_options_reads key value os l : Forall2 written os l → ∀ t c s,
  set_options key value t c s (concat l) =
    let '(t, c, s) := foldl apply_opt (t, c, s) os in good (SetCmd key value t c s).
Proof.
  induction 1 as [|o ws os l Hw _ IH]; intros t c s; [done|]. cbn [concat foldl].
  destruct Hw as [w H|w H|w u H|w v n H Hv Hn|w v n H Hv Hn]; cbn [app set_options];
    one_word H; cbn [orb]; rewrite ?Hv; try (rewrite (proj2 (Z.leb_gt n 0)) by done); by rewrite IH.
Qed.

Lemma set_options_written key value opts : ∀ t c s r,
  set_options key value t c s opts = good r → ∃ os l, Forall2 written os l ∧ opts = concat l.
Proof.
  induction opts as [[|w opts] IH] using by_length; intros t c s r H.
  { by exists [], []. }
  assert (∀ o ws rest t c s, w :: opts = ws ++ rest → written o ws → set_options key value t c s rest = good r →
    ∃ os l, Forall2 written os l ∧ w :: opts = concat l) as Hcons.
  { intros o ws rest t' c' s' E Hw Hr. destruct (IH rest) with t' c' s' r as (os & l & Hf & ->); [|done|].
    - rewrite E, length_app. destruct Hw; cbn; lia.
    - exists (o :: os), (ws :: l). split; [by constructor|done]. }
  cbn [set_options] in H.
  destruct (same_word w "xx") eqn:E1; [eapply (Hcons OXX [w]); [done|by constructor|done]|].
  destruct (same_word w "nx") eqn:E2; [eapply (Hcons ONX [w]); [done|by constructor|done]|].
  destruct (same_word w "vx") eqn:E3.
  { destruct opts as [|u opts]; [done|]. eapply (Hcons (OVX u) [w; u]); [done|by constructor|done]. }
  destruct (same_word w "ex" || same_word w "px") eqn:E4; [|done].
  destruct opts as [|v opts]; [done|]. destruct (num v) as [n|] eqn:Ev; [|done].
  destruct (Z.leb_spec n 0) as [|Hn]; [done|].
  destruct (same_word w "px") eqn:E5.
  - eapply (Hcons (OPX n) [w; v]); [done|by constructor|done].
  - rewrite orb_false_r in E4. eapply (Hcons (OEX n) [w; v]); [done|by constructor|done].
Qed.

(** SET reads exactly the texts of its options: the arguments after the value are
    accepted if and only if they are options written one after the other, and then the
    command is what the options, taken in order, make of it. *)
Theorem set_options_spec key value opts r :
  set_options key value [] kNONE 0 opts = good r ↔
  ∃ os l, Forall2 written os l ∧ opts = concat l ∧
    r = let '(t, c, s) := foldl apply_opt ([], kNONE, 0) os in SetCmd key value t c s.
Proof.
  split.
  - intros H. destruct (set_options_written _ _ _ _ _ _ _ H) as (os & l & Hf & ->). exists os, l.
    split; [done|]. split; [done|]. rewrite (set_options_reads key value os l Hf) in H.
    destruct (foldl _ _ _) as [[t c] s]. by injection H as <-.
  - intros (os & l & Hf & -> & ->). rewrite (set_options_reads key value os l Hf).
    by destruct (foldl _ _ _) as [[t c] s].
Qed.
End SetOptions.

(** ** Replies *)

Section Replies.
Context {N : NumString} {NL : NumStringLaws} {SN : StringNum} {FT : FloatText}.
Context {RS DB : Type} {RO : RocksStatus RS} {BW : Blackwidow RS DB}.
(** The texts of numbers, of the engine's statuses and of its type names have no line
    ends. *)
Context (num_flat : ∀ n, flat (ll2string n)) (status_flat : ∀ s : RS, flat (rs_ToString s))
  (type_flat : ∀ key now (db : DB), flat (bw_Type (RS := RS) key now db).2).

Lemma keys_loop_reply limit fuel type pattern now (db : DB) : ∀ cursor total raw keys r,
  raw = concat (bulk <$> keys) → total = zlen keys →
  keys_loop (RS := RS) limit fuel type pattern now db cursor total raw = Some r → good_reply r.
Proof.
  induction fuel as [|fuel IH]; intros cursor total raw keys r -> -> H; [done|]. cbn [keys_loop] in H.
  destruct (bw_Scan type cursor pattern PIKA_SCAN_STEP_LENGTH now db) as [c ks].
  destruct (_ >=? limit); [injection H as <-; by apply internal_reply|].
  rewrite raw_keys_text in H. rewrite <- zlen_app in H.
  assert (concat (bulk <$> keys) ++ concat (bulk <$> ks) = concat (bulk <$> (keys ++ ks))) as E
    by (by rewrite fmap_app, concat_app).
  rewrite E in H. destruct (c =? 0); cbn [negb] in H; [|by apply (IH _ _ _ (keys ++ ks)) in H].
  injection H as <-. unfold good_reply, message, AppendStringRaw, append_message. cbn [ret_ message_].
  rewrite AppendArrayLen_message. cbn [message_ res_new app]. rewrite <- !app_assoc. apply bulk_array.
Qed.

Lemma scan_loop_reply limit fuel pattern now (db : DB) : ∀ left cursor total raw keys r,
  raw = concat (bulk <$> keys) → total = zlen keys →
  scan_loop (RS := RS) limit fuel pattern now db left cursor total raw = Some r → good_reply r.
Proof.
  induction fuel as [|fuel IH]; intros left cursor total raw keys r -> -> H; [done|]. cbn [scan_loop] in H.
  destruct (bw_Scan _ _ _ _ _ _) as [c ks].
  destruct (_ >=? limit); [injection H as <-; by apply internal_reply|].
  rewrite raw_keys_text in H. rewrite <- zlen_app in H.
  assert (concat (bulk <$> keys) ++ concat (bulk <$> ks) = concat (bulk <$> (keys ++ ks))) as E
    by (by rewrite fmap_app, concat_app).
  rewrite E in H. destruct (negb _ && negb _); [by apply (IH _ _ _ _ (keys ++ ks)) in H|].
  injection H as <-. unfold good_reply, message, AppendStringRaw, append_message. cbn [ret_ message_].
  rewrite AppendArrayLen_message, AppendString_message, AppendArrayLen_message. cbn [message_ res_new app].
  rewrite <- !app_assoc. by apply pair_array.
Qed.

Lemma range_reply_ok type w (x : RS * list bytes * list KeyValue * bytes) : good_reply (range_reply type w x).
Proof.
  destruct x as [[[s keys] kvs] next]. unfold range_reply. destruct (rs_ok s); [|by apply err_reply].
  case_bool_decide; [|by apply scanned_reply]. apply scanned_reply.
  induction kvs as [|kv kvs IH]; [by destruct w|]. cbn [mbind list_bind]. rewrite zlen_app, zlen_cons, <- IH.
  destruct w; unfold zlen; cbn; lia.
Qed.

Lemma Do_reply limit fuel c now (db : DB) r db' :
  Do (RS := RS) limit fuel c now db = Some (r, db') → good_reply r.
Proof.
  intros H. destruct c; cbn [Do] in H; autounfold with kv_do in H;
    repeat match type of H with
    | context [let '(_, _) := ?x in _] => destruct x eqn:?
    | context [match ?x with kNONE => _ | _ => _ end] => destruct x
    end;
    try (injection H as <- <-);
    unfold count_or_err, found_or_err, integer_or_err, ok_or_err, ttl_reply;
    repeat case_match; subst;
    auto using err_reply, int_reply, text_reply, null_reply, null_array_reply, counter_reply_ok, float_reply_ok,
      mget_reply_ok, range_reply_ok, scanned_reply, null_content_reply;
    try (by apply code_reply); try (by apply internal_reply).
  - destruct (keys_loop _ _ _ _ _ _ _ _ _) as [r0|] eqn:Hk; [|done]. injection H as <- <-.
    by apply (keys_loop_reply _ _ _ _ _ _ _ _ _ [] r0) in Hk.
  - match goal with H : bw_Type ?k now ?d = (_, ?t) |- _ => pose proof (type_flat k now d) as Ht; rewrite H in Ht end.
    by apply content_reply.
  - destruct (scan_loop _ _ _ _ _ _ _ _ _) as [r0|] eqn:Hk; [|done]. injection H as <- <-.
    by apply (scan_loop_reply _ _ _ _ _ _ _ _ _ [] r0) in Hk.
Qed.

(** Every command ends. *)
Lemma scan_loop_returns limit pattern now (db : DB) fuel : ∀ left cursor total raw,
  left ≤ PIKA_SCAN_STEP_LENGTH * Z.of_nat fuel → (0 < fuel)%nat →
  scan_loop (RS := RS) limit fuel pattern now db left cursor total raw ≠ None.
Proof.
  unfold PIKA_SCAN_STEP_LENGTH. induction fuel as [|fuel IH]; intros left cursor total raw Hl Hf; [lia|].
  cbn [scan_loop]. destruct (bw_Scan _ _ _ _ _ _) as [next keys]. destruct (_ >=? _); [done|].
  destruct (negb (next =? 0)); cbn [andb]; [|done]. unfold PIKA_SCAN_STEP_LENGTH.
  destruct (left >? 1000) eqn:Hg; [|done]. destruct (negb _); [|done]. apply IH; lia.
Qed.

(** The scan of KEYS comes to its end, the cursor 0, in [n] steps. *)
Fixpoint scan_ends (n : nat) (type : DataType) (pattern : bytes) (now : Z) (db : DB) (cursor : Z) : bool :=
  match n with
  | O => false
  | S n =>
      let next := (bw_Scan (RS := RS) type cursor pattern PIKA_SCAN_STEP_LENGTH now db).1 in
      (next =? 0) || scan_ends n type pattern now db next
  end.

Lemma keys_loop_returns limit type pattern now (db : DB) n : ∀ cursor total raw,
  scan_ends n type pattern now db cursor = true →
  keys_loop (RS := RS) limit n type pattern now db cursor total raw ≠ None.
Proof.
  induction n as [|n IH]; intros cursor total raw H; [done|]. cbn [scan_ends keys_loop] in *.
  destruct (bw_Scan _ _ _ _ _ _) as [next keys]. cbn [fst] in H. destruct (_ >=? _); [done|].
  destruct (next =? 0) eqn:Hn; cbn [negb orb] in *; [done|]. by apply IH.
Qed.

(** SCAN ends in the number of steps that its count allows, KEYS as soon as the engine's
    scan has come to its end. *)
Lemma Do_returns limit fuel c now (db : DB) :
  (∀ pattern type, c = KeysCmd pattern type → scan_ends fuel type pattern now db 0 = true) →
  Do (RS := RS) limit fuel c now db ≠ None.
Proof.
  intros Hk. destruct c; cbn [Do]; autounfold with kv_do; try (by repeat case_match).
  - destruct (keys_loop _ _ _ _ _ _ _ _ _) eqn:E; [done|]. by apply keys_loop_returns in E; [|apply Hk].
  - destruct (scan_loop _ _ _ _ _ _ _ _ _) eqn:E; [done|]. apply scan_loop_returns in E; [done| |lia].
    unfold PIKA_SCAN_STEP_LENGTH. pose proof (Z.div_mod count 1000). pose proof (Z.mod_pos_bound count 1000). lia.
Qed.

#[export] Instance kv_keeping {RL : ReplyLimits} : Keeping KvCmd DB.
Proof.
  intros c now db r db' Hr H. unfold cmd_Do, kv_run in H. destruct c; try done; cbn [Do] in H; autounfold with kv_do in H;
    by same_database H.
Qed.

#[export] Instance kv_returning {RL : ReplyLimits} : Returning KvCmd DB := {
  returns c now db := ∀ pattern type, c = KeysCmd pattern type → scan_ends scan_fuel type pattern now db 0 = true;
  law_returns c now db H := Do_returns raw_limit scan_fuel c now db H }.
End Replies.

(** ** The log *)

Section Replay.
Context {N : NumString} {NL : NumStringLaws} {SN : StringNum} {SL : StringNumLaws}.
Context {RS DB : Type} {RO : RocksStatus RS} {BW : Blackwidow RS DB}.
Context {FT : FloatText} {RL : ReplyLimits}.
(** The parser of requests, a separate library, reads back what [request_text] writes. *)
Context (parse : bytes → option (list bytes))
        (parse_text : ∀ argv, argv ≠ [] → parse (request_text argv) = Some argv).

(** The command that is in the log for [c]: an expiry is the moment it is due. *)
Definition kv_logged (c : KvCmd) (now : Z) : KvCmd :=
  match c with
  | SetCmd key value _ kEXORPX sec => PKSetexAtCmd key value (s32 (now + sec))
  | SetexCmd key sec value => PKSetexAtCmd key value (s32 (now + sec))
  | PsetexCmd key usec value => PKSetexAtCmd key value (s32 (now + Z.quot usec 1000))
  | ExpireCmd key sec => ExpireatCmd key (now + sec)
  | PexpireCmd key msec => ExpireatCmd key (now + Z.quot msec 1000)
  | PexpireatCmd key t => ExpireatCmd key (Z.quot t 1000)
  | c => c
  end.

(** The numbers in the log item can be read back. *)
Definition kv_times_fit (c : KvCmd) (now : Z) : Prop :=
  match kv_logged c now with
  | PKSetexAtCmd _ _ t => t < 2 ^ 31 - 1
  | ExpireatCmd _ t => - 2 ^ 63 ≤ t < 2 ^ 63
  | _ => True
  end.

Lemma counted_request n parts : n = zlen parts → counted_text n parts = request_text parts.
Proof. by intros ->. Qed.

Lemma num_text z : - 2 ^ 63 ≤ z < 2 ^ 63 → num (ll2string z) = Some z.
Proof.
  intros Hz. rewrite law_ll2string by done. unfold num, str.
  rewrite String.string_of_list_byte_of_string. by apply law_string2l.
Qed.

Lemma s32_range z : - 2 ^ 31 ≤ s32 z < 2 ^ 31.
Proof. unfold s32. pose proof (Z.mod_pos_bound (z + 2 ^ 31) (2 ^ 32)). lia. Qed.

(** The requests that the log writes for other commands. *)
Lemma pksetexat_initial key value t : - 2 ^ 63 ≤ t < 2 ^ 31 - 1 →
  DoInitial (entry "pksetexat" 4 kvWriteSingle PKSetexAtCmd_DoInitial) [str "pksetexat"; key; ll2string t; value]
    = Some (inr (PKSetexAtCmd key value t)).
Proof.
  intros Ht. change (PKSetexAtCmd_DoInitial [str "pksetexat"; key; ll2string t; value] = Some (inr (PKSetexAtCmd key value t))).
  unfold PKSetexAtCmd_DoInitial. cbn [lookup list_lookup mbind option_bind]. unfold need_num.
  rewrite num_text by lia. by replace (t >=? 2 ^ 31 - 1) with false by lia.
Qed.
Lemma expireat_initial key t : - 2 ^ 63 ≤ t < 2 ^ 63 →
  DoInitial (entry "expireat" 3 kvWriteSingle (key_num ExpireatCmd)) [str "expireat"; key; ll2string t]
    = Some (inr (ExpireatCmd key t)).
Proof.
  intros Ht. change (key_num ExpireatCmd [str "expireat"; key; ll2string t] = Some (inr (ExpireatCmd key t))).
  unfold key_num. cbn [lookup list_lookup mbind option_bind]. unfold need_num. by rewrite num_text.
Qed.

(** The item of an accepted command is the text of a request for its logged form, and
    that request is logged as the same text again. *)
Lemma logged_request e argv c now :
  head argv ≫= find_entry KvTable = Some e → DoInitial e argv = Some (inr c) → kv_times_fit c now →
  ∃ argv' e', head argv' ≫= find_entry KvTable = Some e' ∧ DoInitial e' argv' = Some (inr (kv_logged c now)) ∧
    binlog_text argv c now = request_text argv' ∧ ∀ t, binlog_text argv' (kv_logged c now) t = request_text argv'.
Proof.
  intros He Hi Hfit.
  assert (three_args argv c) as H3.
  { destruct (head argv) as [name|]; [|done]. apply find_entry_in in He.
    pose proof (table_outcome _ _ _ _ argv kv_table_ok He) as Ho. rewrite Hi in Ho. apply Ho. }
  assert (∀ key value sec, s32 (now + sec) < 2 ^ 31 - 1 → ∃ argv' e', head argv' ≫= find_entry KvTable = Some e' ∧
    DoInitial e' argv' = Some (inr (PKSetexAtCmd key value (s32 (now + sec)))) ∧
    pksetexat_text key value now sec = request_text argv' ∧ request_text argv' = request_text argv') as Hset.
  { intros key value sec Hs. eexists [_; _; _; _], _. split; [|split; [apply pksetexat_initial|]].
    - reflexivity.
    - pose proof (s32_range (now + sec)). lia.
    - split; [|done]. unfold pksetexat_text, at_text. by rewrite counted_request. }
  assert (∀ key t n, n = 3 → - 2 ^ 63 ≤ t < 2 ^ 63 → ∃ argv' e', head argv' ≫= find_entry KvTable = Some e' ∧
    DoInitial e' argv' = Some (inr (ExpireatCmd key t)) ∧
    expireat_text n key t = request_text argv' ∧ request_text argv' = request_text argv') as Hexp.
  { intros key t n -> Ht. eexists [_; _; _], _. split; [|split; [by apply expireat_initial|]].
    - reflexivity.
    - split; [|done]. unfold expireat_text. by rewrite counted_request. }
  unfold kv_times_fit in Hfit.
  assert (∀ c', kv_logged c now = c' → (∀ a t, binlog_text a c' t = request_text a) → binlog_text argv c now = request_text argv →
    c' = c → ∃ argv' e', head argv' ≫= find_entry KvTable = Some e' ∧ DoInitial e' argv' = Some (inr (kv_logged c now)) ∧
    binlog_text argv c now = request_text argv' ∧ ∀ t, binlog_text argv' (kv_logged c now) t = request_text argv') as Hraw.
  { intros c' Hl Ha Hb ->. exists argv, e. rewrite Hl. auto. }
  destruct c; try (by eapply Hraw); cbn [kv_logged binlog_text three_args] in *.
  - destruct condition; try (by eapply Hraw). destruct (Hset key value sec Hfit) as (a & e' & H1 & H2 & H4 & _). by exists a, e'.
  - exists [str "setnx"; key; value]. eexists. split; [reflexivity|]. split; [reflexivity|]. split; [by apply counted_request|].
    intros _. by apply counted_request.
  - destruct (Hset key value sec Hfit) as (a & e' & H1 & H2 & H4 & _). by exists a, e'.
  - destruct (Hset key value _ Hfit) as (a & e' & H1 & H2 & H4 & _). by exists a, e'.
  - destruct (Hexp key _ 3 eq_refl Hfit) as (a & e' & H1 & H2 & H4 & _). by exists a, e'.
  - destruct (Hexp key _ _ H3 Hfit) as (a & e' & H1 & H2 & H4 & _). by exists a, e'.
  - destruct (Hexp key _ _ H3 Hfit) as (a & e' & H1 & H2 & H4 & _). by exists a, e'.
Qed.

#[export] Instance kv_logs : Logged KvCmd := { logged := kv_logged; times_fit := kv_times_fit }.
#[export] Instance kv_logged_laws : LoggedLaws KvCmd.
Proof.
  split; [exact (table_names _ _ _ kv_table_ok)|]. intros e argv c now He Hi Hfit. exact (logged_request e argv c now He Hi Hfit).
Qed.

Lemma replay_pksetexat key value t now db : - 2 ^ 63 ≤ t < 2 ^ 31 - 1 →
  replay (C := KvCmd) parse (counted_text 4 [str "pksetexat"; key; ll2string t; value]) now db =
    Do (RS := RS) raw_limit scan_fuel (PKSetexAtCmd key value t) now db.
Proof.
  intros Ht. rewrite counted_request by done.
  change (Do (RS := RS) raw_limit scan_fuel (PKSetexAtCmd key value t) now db) with (cmd_Do (PKSetexAtCmd key value t) now db).
  eapply replay_request; [done|reflexivity|by apply pksetexat_initial].
Qed.

(** The key, the value and the seconds of the commands that set a key with an expiry. *)
Definition expiring (c : KvCmd) : option (bytes * bytes * Z) :=
  match c with
  | SetCmd key value _ kEXORPX sec => Some (key, value, sec)
  | SetexCmd key sec value => Some (key, value, sec)
  | PsetexCmd key usec value => Some (key, value, Z.quot usec 1000)
  | _ => None
  end.

Lemma expiring_text argv c key value sec now : expiring c = Some (key, value, sec) →
  binlog_text argv c now = pksetexat_text key value now sec.
Proof. destruct c; try done; [destruct condition; try done| |]; by intros [= <- <- <-]. Qed.

Lemma expiring_Do c key value sec now db : expiring c = Some (key, value, sec) →
  snd <$> Do (RS := RS) raw_limit scan_fuel c now db = Some (bw_Setex (RS := RS) key value sec now db).2.
Proof.
  destruct c; try done; [destruct condition; try done| |]; intros [= <- <- <-]; cbn [Do]; autounfold with kv_do;
    by destruct (bw_Setex _ _ _ _ _).
Qed.


(** An expiry that is due after 2038 is not the same: the log carries the moment
    modulo 2^32, a negative number, and the slave sets a key that is long due. *)
Theorem far_expiry_wraps argv c key value sec now now' db :
  expiring c = Some (key, value, sec) → 2 ^ 31 ≤ now + sec < 2 ^ 32 →
  now + sec - 2 ^ 32 < 0 ∧
  replay (C := KvCmd) parse (binlog_text argv c now) now' db =
    Do (RS := RS) raw_limit scan_fuel (PKSetexAtCmd key value (now + sec - 2 ^ 32)) now' db.
Proof.
  intros Hc Hr. split; [lia|]. rewrite (expiring_text _ _ _ _ _ _ Hc). unfold pksetexat_text, at_text.
  replace (s32 (now + sec)) with (now + sec - 2 ^ 32).
  - apply replay_pksetexat. lia.
  - unfold s32. rewrite <- (Z.mod_unique (now + sec + 2 ^ 31) (2 ^ 32) 1 (now + sec - 2 ^ 31)); lia.
Qed.
End Replay.
