(* ===== verification/HashCmd.v ===== *)
(** * Hash commands (src/pika_hash.cc, src/include/pika_hash.h) *)

From S2P Require Import Prelude Define Env Transverter Command StableLog CmdRes Blackwidow CmdArgs CmdReply CmdFamily.
From stdpp Require Import base list strings pretty gmap.
From Stdlib Require Import ZArith Lia Init.Byte.
#[local] Open Scope string_scope.
#[local] Open Scope list_scope.
#[local] Open Scope Z_scope.

Inductive HashCmd :=
  | HDelCmd (key : bytes) (fields : list bytes)
  | HGetCmd (key field : bytes)
  | HGetallCmd (key : bytes)
  | HSetCmd (key field value : bytes)
  | HExistsCmd (key field : bytes)
  | HIncrbyCmd (key field : bytes) (by_ : Z)
  | HIncrbyfloatCmd (key field by_ : bytes)
  | HKeysCmd (key : bytes)
  | HLenCmd (key : bytes)
  | HMgetCmd (key : bytes) (fields : list bytes)
  | HMsetCmd (key : bytes) (fvs : list (bytes * bytes))
  | HSetnxCmd (key field value : bytes)
  | HStrlenCmd (key field : bytes)
  | HValsCmd (key : bytes)
  | HScanCmd (key : bytes) (cursor : Z) (pattern : bytes) (count : Z)
  | HScanxCmd (key start_field pattern : bytes) (count : Z)
  | PKHScanRangeCmd (key field_start field_end pattern : bytes) (limit : Z)
  | PKHRScanRangeCmd (key field_start field_end pattern : bytes) (limit : Z).

(** ** Arguments *)

Section Initial.
Context {SN : StringNum}.
Abbreviation Init := (option (CmdRes + HashCmd)).

Definition HDelCmd_DoInitial : list bytes → Init := key_list HDelCmd.
Definition HSetCmd_DoInitial : list bytes → Init := key_two HSetCmd.
Definition HGetCmd_DoInitial : list bytes → Init := key_value HGetCmd.
Definition HGetallCmd_DoInitial : list bytes → Init := key_only HGetallCmd.
Definition HExistsCmd_DoInitial : list bytes → Init := key_value HExistsCmd.
(** A number with a space in it is refused. *)
Definition HIncrbyCmd_DoInitial (argv : list bytes) : Init :=
  key ← argv !! 1%nat; field ← argv !! 2%nat; v ← argv !! 3%nat;
  if bool_decide (x20 ∈ v) then bad kInvalidInt "" else need_num v (λ by_, good (HIncrbyCmd key field by_)).
Definition HIncrbyfloatCmd_DoInitial : list bytes → Init := key_two HIncrbyfloatCmd.
Definition HKeysCmd_DoInitial : list bytes → Init := key_only HKeysCmd.
Definition HLenCmd_DoInitial : list bytes → Init := key_only HLenCmd.
Definition HMgetCmd_DoInitial : list bytes → Init := key_list HMgetCmd.

(** The pairs of HMSET, from the third argument on. *)
Fixpoint field_values (args : list bytes) : option (list (bytes * bytes)) :=
  match args with
  | [] => Some []
  | field :: args =>
      match args with
      | [] => None
      | value :: args => fvs ← field_values args; Some ((field, value) :: fvs)
      end
  end.
Definition HMsetCmd_DoInitial (argv : list bytes) : Init :=
  key ← argv !! 1%nat;
  if negb (zlen argv mod 2 =? 0) then bad kWrongNum "hmset" else
  fvs ← field_values (drop 2 argv); good (HMsetCmd key fvs).

Definition HSetnxCmd_DoInitial : list bytes → Init := key_two HSetnxCmd.
Definition HStrlenCmd_DoInitial : list bytes → Init := key_value HStrlenCmd.
Definition HValsCmd_DoInitial : list bytes → Init := key_only HValsCmd.

(** A count must be a number, and not negative in the end. *)
Definition count_options (make : bytes → Z → HashCmd) : list bytes → Init :=
  scan_options "count" (λ _, false) (λ p n, if n <? 0 then bad kSyntaxErr "" else good (make p n)) (str "*") 10.
Definition HScanCmd_DoInitial (argv : list bytes) : Init :=
  key ← argv !! 1%nat; c ← argv !! 2%nat;
  need_num c (λ cursor, count_options (HScanCmd key cursor) (drop 3 argv)).
Definition HScanxCmd_DoInitial (argv : list bytes) : Init :=
  key ← argv !! 1%nat; start_field ← argv !! 2%nat; count_options (HScanxCmd key start_field) (drop 3 argv).
(** PKHSCANRANGE and PKHRSCANRANGE: a limit must be positive. *)
Definition hash_range_DoInitial (make : bytes → bytes → bytes → bytes → Z → HashCmd) (argv : list bytes) : Init :=
  key ← argv !! 1%nat; a ← argv !! 2%nat; b ← argv !! 3%nat;
  scan_options "limit" (λ n, n <=? 0) (λ p n, good (make key a b p n)) (str "*") 10 (drop 4 argv).
Definition PKHScanRangeCmd_DoInitial : list bytes → Init := hash_range_DoInitial PKHScanRangeCmd.
Definition PKHRScanRangeCmd_DoInitial : list bytes → Init := hash_range_DoInitial PKHRScanRangeCmd.

Definition kCmdFlagsHash : Z := 4.
Definition hashRead : Z := Z.lor (Z.lor kCmdFlagsRead kCmdFlagsSinglePartition) kCmdFlagsHash.
Definition hashWrite : Z := Z.lor (Z.lor kCmdFlagsWrite kCmdFlagsSinglePartition) kCmdFlagsHash.

Definition HashTable : list (Entry HashCmd) := [
  entry "hdel" (-3) hashWrite HDelCmd_DoInitial;
  entry "hset" 4 hashWrite HSetCmd_DoInitial;
  entry "hget" 3 hashRead HGetCmd_DoInitial;
  entry "hgetall" 2 hashRead HGetallCmd_DoInitial;
  entry "hexists" 3 hashRead HExistsCmd_DoInitial;
  entry "hincrby" 4 hashWrite HIncrbyCmd_DoInitial;
  entry "hincrbyfloat" 4 hashWrite HIncrbyfloatCmd_DoInitial;
  entry "hkeys" 2 hashRead HKeysCmd_DoInitial;
  entry "hlen" 2 hashRead HLenCmd_DoInitial;
  entry "hmget" (-3) hashRead HMgetCmd_DoInitial;
  entry "hmset" (-4) hashWrite HMsetCmd_DoInitial;
  entry "hsetnx" 4 hashWrite HSetnxCmd_DoInitial;
  entry "hstrlen" 3 hashRead HStrlenCmd_DoInitial;
  entry "hvals" 2 hashRead HValsCmd_DoInitial;
  entry "hscan" (-3) hashRead HScanCmd_DoInitial;
  mkEntry "hscanx" (-3) hashRead "hscan" HScanxCmd_DoInitial;
  entry "pkhscanrange" (-4) hashRead PKHScanRangeCmd_DoInitial;
  entry "pkhrscanrange" (-4) hashRead PKHRScanRangeCmd_DoInitial ].
End Initial.

(** Every hash command has one key. *)
Definition hash_key (c : HashCmd) : list bytes :=
  match c with
  | HDelCmd k _ | HGetCmd k _ | HGetallCmd k | HSetCmd k _ _ | HExistsCmd k _ | HIncrbyCmd k _ _
  | HIncrbyfloatCmd k _ _ | HKeysCmd k | HLenCmd k | HMgetCmd k _ | HMsetCmd k _ | HSetnxCmd k _ _
  | HStrlenCmd k _ | HValsCmd k | HScanCmd k _ _ _ | HScanxCmd k _ _ _ | PKHScanRangeCmd k _ _ _ _
  | PKHRScanRangeCmd k _ _ _ _ => [k]
  end.

#[export] Instance hash_family {N : NumString} {SN : StringNum} : CmdFamily HashCmd := {
  family_table := HashTable; family_key := hash_key; family_text argv _ _ := request_text argv }.

(** ** Running *)

Section Do.
Context {N : NumString} {RS DB : Type} {RO : RocksStatus RS} {H : Hashes RS DB}.
Context (limit : Z).
Implicit Types (key field value : bytes) (now : Z) (db : DB).

Definition HDelCmd_Do key (fields : list bytes) now db : option (CmdRes * DB) :=
  let '(s, n, db) := bw_HDel (RS := RS) key fields now db in Some (found_or_err s n, db).
Definition HSetCmd_Do key field value now db : option (CmdRes * DB) :=
  let '(s, n, db) := bw_HSet (RS := RS) key field value now db in Some (if rs_ok s then colon n else err s, db).
Definition HGetCmd_Do key field now db : option (CmdRes * DB) :=
  let '(s, v) := bw_HGet (RS := RS) key field now db in Some (value_reply s v, db).

(** The loop of HGETALL: the texts and their number, or the reply for one that is too
    large; a scan that fails forgets what there was. *)
Fixpoint hgetall_loop (fuel : nat) key now db (cursor total : Z) (raw : bytes) : option CmdRes :=
  match fuel with
  | O => None
  | S fuel =>
      let '(s, fvs, next_cursor) := bw_HScan (RS := RS) key cursor (str "*") PIKA_SCAN_STEP_LENGTH now db in
      if negb (rs_ok s) then Some (found_reply s (AppendStringRaw [] (AppendArrayLen (0 * 2) res_new))) else
      let raw := raw_keys (pair_texts fvs) raw in
      if zlen raw >=? limit then Some too_large else
      let total := total + zlen fvs in
      if negb (next_cursor =? 0) then hgetall_loop fuel key now db next_cursor total raw
      else Some (found_reply s (AppendStringRaw raw (AppendArrayLen (total * 2) res_new)))
  end.
Definition HGetallCmd_Do (fuel : nat) key now db : option (CmdRes * DB) :=
  r ← hgetall_loop fuel key now db 0 0 []; Some (r, db).

Definition HExistsCmd_Do key field now db : option (CmdRes * DB) :=
  let s := bw_HExists (RS := RS) key field now db in
  Some (if rs_ok s then AppendContent (str ":1") res_new
        else if rs_IsNotFound s then AppendContent (str ":0") res_new else err s, db).
Definition HIncrbyCmd_Do key field (by_ : Z) now db : option (CmdRes * DB) :=
  let '(s, n, db) := bw_HIncrby (RS := RS) key field by_ now db in
  Some (counter_reply (rs_ok s || rs_IsNotFound s) "Corruption: hash value is not an integer" s n, db).
Definition HIncrbyfloatCmd_Do key field (by_ : bytes) now db : option (CmdRes * DB) :=
  let '(s, v, db) := bw_HIncrbyfloat (RS := RS) key field by_ now db in
  Some (float_reply "Corruption: value is not a vaild float" s v, db).
Definition HKeysCmd_Do key now db : option (CmdRes * DB) :=
  let '(s, l) := bw_HKeys (RS := RS) key now db in Some (list_reply s l, db).
Definition HLenCmd_Do key now db : option (CmdRes * DB) :=
  let '(s, n) := bw_HLen (RS := RS) key now db in
  Some (if rs_ok s || rs_IsNotFound s then integer n else internal "something wrong in hlen", db).
Definition HMgetCmd_Do key (fields : list bytes) now db : option (CmdRes * DB) :=
  let '(s, vss) := bw_HMGet key fields now db in Some (found_reply s (mget_reply vss), db).
Definition HMsetCmd_Do key (fvs : list (bytes * bytes)) now db : option (CmdRes * DB) :=
  let '(s, db) := bw_HMSet (RS := RS) key fvs now db in Some (ok_or_err s, db).
Definition HSetnxCmd_Do key field value now db : option (CmdRes * DB) :=
  let '(s, n, db) := bw_HSetnx (RS := RS) key field value now db in Some (if rs_ok s then colon n else err s, db).
Definition HStrlenCmd_Do key field now db : option (CmdRes * DB) :=
  let '(s, n) := bw_HStrlen (RS := RS) key field now db in
  Some (if rs_ok s || rs_IsNotFound s then integer n else internal "something wrong in hstrlen", db).
Definition HValsCmd_Do key now db : option (CmdRes * DB) :=
  let '(s, l) := bw_HVals (RS := RS) key now db in Some (list_reply s l, db).
Definition HScanCmd_Do key (cursor : Z) (pattern : bytes) (count : Z) now db : option (CmdRes * DB) :=
  let '(s, fvs, next_cursor) := bw_HScan (RS := RS) key cursor pattern count now db in
  Some (found_reply s (pairs_reply fvs (cursor_head next_cursor)), db).
Definition HScanxCmd_Do key (start_field pattern : bytes) (count : Z) now db : option (CmdRes * DB) :=
  let '(s, fvs, next_field) := bw_HScanx (RS := RS) key start_field pattern count now db in
  Some (found_reply s (pairs_reply fvs (text_head next_field)), db).
Definition PKHScanRangeCmd_Do key (a b pattern : bytes) (limit : Z) now db : option (CmdRes * DB) :=
  let '(s, fvs, next_field) := bw_PKHScanRange (RS := RS) key a b pattern limit now db in
  Some (found_reply s (pairs_reply fvs (text_head next_field)), db).
Definition PKHRScanRangeCmd_Do key (a b pattern : bytes) (limit : Z) now db : option (CmdRes * DB) :=
  let '(s, fvs, next_field) := bw_PKHRScanRange (RS := RS) key a b pattern limit now db in
  Some (found_reply s (pairs_reply fvs (text_head next_field)), db).

Definition hash_Do (fuel : nat) (c : HashCmd) now db : option (CmdRes * DB) :=
  match c with
  | HDelCmd key fields => HDelCmd_Do key fields now db
  | HGetCmd key field => HGetCmd_Do key field now db
  | HGetallCmd key => HGetallCmd_Do fuel key now db
  | HSetCmd key field value => HSetCmd_Do key field value now db
  | HExistsCmd key field => HExistsCmd_Do key field now db
  | HIncrbyCmd key field by_ => HIncrbyCmd_Do key field by_ now db
  | HIncrbyfloatCmd key field by_ => HIncrbyfloatCmd_Do key field by_ now db
  | HKeysCmd key => HKeysCmd_Do key now db
  | HLenCmd key => HLenCmd_Do key now db
  | HMgetCmd key fields => HMgetCmd_Do key fields now db
  | HMsetCmd key fvs => HMsetCmd_Do key fvs now db
  | HSetnxCmd key field value => HSetnxCmd_Do key field value now db
  | HStrlenCmd key field => HStrlenCmd_Do key field now db
  | HValsCmd key => HValsCmd_Do key now db
  | HScanCmd key cursor pattern count => HScanCmd_Do key cursor pattern count now db
  | HScanxCmd key start_field pattern count => HScanxCmd_Do key start_field pattern count now db
  | PKHScanRangeCmd key a b pattern limit => PKHScanRangeCmd_Do key a b pattern limit now db
  | PKHRScanRangeCmd key a b pattern limit => PKHRScanRangeCmd_Do key a b pattern limit now db
  end.
End Do.

#[export] Instance hash_run {N : NumString} {RL : ReplyLimits} {RS DB : Type} {RO : RocksStatus RS}
  {H : Hashes RS DB} : CmdRun HashCmd DB := hash_Do (RS := RS) raw_limit scan_fuel.

(** The definitions, for proofs by cases. *)
#[export] Hint Unfold HDelCmd_DoInitial HSetCmd_DoInitial HGetCmd_DoInitial HGetallCmd_DoInitial
  HExistsCmd_DoInitial HIncrbyCmd_DoInitial HIncrbyfloatCmd_DoInitial HKeysCmd_DoInitial
  HLenCmd_DoInitial HMgetCmd_DoInitial HSetnxCmd_DoInitial HStrlenCmd_DoInitial HValsCmd_DoInitial
  count_options HScanCmd_DoInitial HScanxCmd_DoInitial hash_range_DoInitial
  PKHScanRangeCmd_DoInitial PKHRScanRangeCmd_DoInitial : family_init.
#[export] Hint Unfold HDelCmd_Do HSetCmd_Do HGetCmd_Do HGetallCmd_Do HExistsCmd_Do HIncrbyCmd_Do
  HIncrbyfloatCmd_Do HKeysCmd_Do HLenCmd_Do HMgetCmd_Do HMsetCmd_Do HSetnxCmd_Do HStrlenCmd_Do
  HValsCmd_Do HScanCmd_Do HScanxCmd_Do PKHScanRangeCmd_Do PKHRScanRangeCmd_Do : family_do.
