(* ===== verification/ListCmd.v ===== *)
(** * List commands (src/pika_list.cc, src/include/pika_list.h) *)

From S2P Require Import Prelude Define Env Transverter Command StableLog CmdRes Blackwidow CmdArgs CmdReply CmdFamily.
From stdpp Require Import base list strings pretty gmap.
From Stdlib Require Import ZArith Lia Init.Byte.
#[local] Open Scope string_scope.
#[local] Open Scope list_scope.
#[local] Open Scope Z_scope.

Inductive ListCmd :=
  | LIndexCmd (key : bytes) (index : Z)
  | LInsertCmd (key : bytes) (dir : BeforeOrAfter) (pivot value : bytes)
  | LLenCmd (key : bytes)
  | LPopCmd (key : bytes)
  | LPushCmd (key : bytes) (values : list bytes)
  | LPushxCmd (key value : bytes)
  | LRangeCmd (key : bytes) (left_ right_ : Z)
  | LRemCmd (key : bytes) (count : Z) (value : bytes)
  | LSetCmd (key : bytes) (index : Z) (value : bytes)
  | LTrimCmd (key : bytes) (start stop : Z)
  | RPopCmd (key : bytes)
  | RPopLPushCmd (source receiver : bytes)
  | RPushCmd (key : bytes) (values : list bytes)
  | RPushxCmd (key value : bytes).

(** ** Arguments *)

Section Initial.
Context {SN : StringNum}.
Abbreviation Init := (option (CmdRes + ListCmd)).

Definition LIndexCmd_DoInitial : list bytes → Init := key_num LIndexCmd.
Definition LInsertCmd_DoInitial (argv : list bytes) : Init :=
  key ← argv !! 1%nat; dir ← argv !! 2%nat;
  match (if same_word dir "before" then Some Before else if same_word dir "after" then Some After else None) with
  | None => bad kSyntaxErr ""
  | Some dir => pivot ← argv !! 3%nat; value ← argv !! 4%nat; good (LInsertCmd key dir pivot value)
  end.
Definition LLenCmd_DoInitial : list bytes → Init := key_only LLenCmd.
Definition LPushCmd_DoInitial : list bytes → Init := key_list LPushCmd.
Definition LPopCmd_DoInitial : list bytes → Init := key_only LPopCmd.
Definition LPushxCmd_DoInitial : list bytes → Init := key_value LPushxCmd.
Definition LRangeCmd_DoInitial : list bytes → Init := key_nums LRangeCmd.
Definition LRemCmd_DoInitial : list bytes → Init := key_num_value LRemCmd.
Definition LSetCmd_DoInitial : list bytes → Init := key_num_value LSetCmd.
Definition LTrimCmd_DoInitial : list bytes → Init := key_nums LTrimCmd.
Definition RPopCmd_DoInitial : list bytes → Init := key_only RPopCmd.
(** In classic mode the hash tags of the keys are consistent. *)
Definition RPopLPushCmd_DoInitial : list bytes → Init := key_value RPopLPushCmd.
Definition RPushCmd_DoInitial : list bytes → Init := key_list RPushCmd.
Definition RPushxCmd_DoInitial : list bytes → Init := key_value RPushxCmd.

Definition kCmdFlagsList : Z := 6.
Definition listRead : Z := Z.lor (Z.lor kCmdFlagsRead kCmdFlagsSinglePartition) kCmdFlagsList.
Definition listWrite : Z := Z.lor (Z.lor kCmdFlagsWrite kCmdFlagsSinglePartition) kCmdFlagsList.

Definition ListTable : list (Entry ListCmd) := [
  entry "lindex" 3 listRead LIndexCmd_DoInitial;
  entry "linsert" 5 listWrite LInsertCmd_DoInitial;
  entry "llen" 2 listRead LLenCmd_DoInitial;
  entry "lpop" 2 listWrite LPopCmd_DoInitial;
  entry "lpush" (-3) listWrite LPushCmd_DoInitial;
  entry "lpushx" 3 listWrite LPushxCmd_DoInitial;
  entry "lrange" 4 listRead LRangeCmd_DoInitial;
  entry "lrem" 4 listWrite LRemCmd_DoInitial;
  entry "lset" 4 listWrite LSetCmd_DoInitial;
  mkEntry "ltrim" 4 listWrite "lset" LTrimCmd_DoInitial;
  entry "rpop" 2 listWrite RPopCmd_DoInitial;
  entry "rpoplpush" 3 listWrite RPopLPushCmd_DoInitial;
  entry "rpush" (-3) listWrite RPushCmd_DoInitial;
  entry "rpushx" 3 listWrite RPushxCmd_DoInitial ].
End Initial.

(** RPOPLPUSH locks the list it takes from only. *)
Definition list_key (c : ListCmd) : list bytes :=
  match c with
  | LIndexCmd k _ | LInsertCmd k _ _ _ | LLenCmd k | LPopCmd k | LPushCmd k _ | LPushxCmd k _ | LRangeCmd k _ _
  | LRemCmd k _ _ | LSetCmd k _ _ | LTrimCmd k _ _ | RPopCmd k | RPopLPushCmd k _ | RPushCmd k _ | RPushxCmd k _ => [k]
  end.

#[export] Instance list_family {N : NumString} {SN : StringNum} : CmdFamily ListCmd := {
  family_table := ListTable; family_key := list_key; family_text argv _ _ := request_text argv }.

(** ** Running *)

Section Do.
Context {N : NumString} {RS DB : Type} {RO : RocksStatus RS} {H : Lists RS DB}.
Implicit Types (key value : bytes) (now : Z) (db : DB).

Definition LIndexCmd_Do key (index : Z) now db : option (CmdRes * DB) :=
  let '(s, v) := bw_LIndex (RS := RS) key index now db in Some (value_or_len_reply s v, db).
Definition LInsertCmd_Do key (dir : BeforeOrAfter) (pivot : bytes) value now db : option (CmdRes * DB) :=
  let '(s, n, db) := bw_LInsert (RS := RS) key dir pivot value now db in Some (found_or_err s n, db).
(** A length is a [uint64_t], written as an [int64_t]. *)
Definition LLenCmd_Do key now db : option (CmdRes * DB) :=
  let '(s, n) := bw_LLen (RS := RS) key now db in Some (found_or_err s (s64 n), db).
Definition LPushCmd_Do key (values : list bytes) now db : option (CmdRes * DB) :=
  let '(s, n, db) := bw_LPush (RS := RS) key values now db in Some (integer_or_err s (s64 n), db).
Definition LPopCmd_Do key now db : option (CmdRes * DB) :=
  let '(s, v, db) := bw_LPop (RS := RS) key now db in Some (value_or_len_reply s v, db).
Definition LPushxCmd_Do key value now db : option (CmdRes * DB) :=
  let '(s, n, db) := bw_LPushx (RS := RS) key value now db in Some (found_or_err s (s64 n), db).
Definition LRangeCmd_Do key (left_ right_ : Z) now db : option (CmdRes * DB) :=
  let '(s, l) := bw_LRange (RS := RS) key left_ right_ now db in
  Some (if rs_ok s then strings_reply l res_new
        else if rs_IsNotFound s then AppendArrayLen 0 res_new else err s, db).
Definition LRemCmd_Do key (count : Z) value now db : option (CmdRes * DB) :=
  let '(s, n, db) := bw_LRem (RS := RS) key count value now db in Some (found_or_err s (s64 n), db).
Definition LSetCmd_Do key (index : Z) value now db : option (CmdRes * DB) :=
  let '(s, db) := bw_LSet (RS := RS) key index value now db in
  Some (if rs_ok s then SetRes kOk [] res_new
        else if rs_IsNotFound s then SetRes kNotFound [] res_new
        else if rs_IsCorruption s && bool_decide (rs_ToString s = str "Corruption: index out of range")
        then SetRes kOutOfRange [] res_new
        else err s, db).
Definition LTrimCmd_Do key (start stop : Z) now db : option (CmdRes * DB) :=
  let '(s, db) := bw_LTrim (RS := RS) key start stop now db in Some (found_reply s (SetRes kOk [] res_new), db).
Definition RPopCmd_Do key now db : option (CmdRes * DB) :=
  let '(s, v, db) := bw_RPop (RS := RS) key now db in Some (value_or_len_reply s v, db).
Definition RPopLPushCmd_Do (source receiver : bytes) now db : option (CmdRes * DB) :=
  let '(s, v, db) := bw_RPoplpush (RS := RS) source receiver now db in Some (value_or_len_reply s v, db).
Definition RPushCmd_Do key (values : list bytes) now db : option (CmdRes * DB) :=
  let '(s, n, db) := bw_RPush (RS := RS) key values now db in Some (integer_or_err s (s64 n), db).
Definition RPushxCmd_Do key value now db : option (CmdRes * DB) :=
  let '(s, n, db) := bw_RPushx (RS := RS) key value now db in Some (found_or_err s (s64 n), db).

#[export] Instance list_run : CmdRun ListCmd DB := λ c now db,
  match c with
  | LIndexCmd key index => LIndexCmd_Do key index now db
  | LInsertCmd key dir pivot value => LInsertCmd_Do key dir pivot value now db
  | LLenCmd key => LLenCmd_Do key now db
  | LPopCmd key => LPopCmd_Do key now db
  | LPushCmd key values => LPushCmd_Do key values now db
  | LPushxCmd key value => LPushxCmd_Do key value now db
  | LRangeCmd key left_ right_ => LRangeCmd_Do key left_ right_ now db
  | LRemCmd key count value => LRemCmd_Do key count value now db
  | LSetCmd key index value => LSetCmd_Do key index value now db
  | LTrimCmd key start stop => LTrimCmd_Do key start stop now db
  | RPopCmd key => RPopCmd_Do key now db
  | RPopLPushCmd source receiver => RPopLPushCmd_Do source receiver now db
  | RPushCmd key values => RPushCmd_Do key values now db
  | RPushxCmd key value => RPushxCmd_Do key value now db
  end.
End Do.

(** The definitions, for proofs by cases. *)
#[export] Hint Unfold LIndexCmd_DoInitial LInsertCmd_DoInitial LLenCmd_DoInitial LPushCmd_DoInitial
  LPopCmd_DoInitial LPushxCmd_DoInitial LRangeCmd_DoInitial LRemCmd_DoInitial LSetCmd_DoInitial
  LTrimCmd_DoInitial RPopCmd_DoInitial RPopLPushCmd_DoInitial RPushCmd_DoInitial RPushxCmd_DoInitial
  : family_init.
#[export] Hint Unfold LIndexCmd_Do LInsertCmd_Do LLenCmd_Do LPushCmd_Do LPopCmd_Do LPushxCmd_Do
  LRangeCmd_Do LRemCmd_Do LSetCmd_Do LTrimCmd_Do RPopCmd_Do RPopLPushCmd_Do RPushCmd_Do RPushxCmd_Do
  : family_do.
