(* ===== verification/SetsCmd.v ===== *)
(** * Set commands (src/pika_set.cc, src/include/pika_set.h) *)

From S2P Require Import Prelude Define Env Transverter Command StableLog CmdRes Blackwidow CmdArgs CmdReply CmdFamily.
From stdpp Require Import base list strings pretty gmap.
From Stdlib Require Import ZArith Lia Init.Byte.
#[local] Open Scope string_scope.
#[local] Open Scope list_scope.
#[local] Open Scope Z_scope.

Inductive SetsCmd :=
  | SAddCmd (key : bytes) (members : list bytes)
  | SPopCmd (key : bytes)
  | SCardCmd (key : bytes)
  | SMembersCmd (key : bytes)
  | SScanCmd (key : bytes) (cursor : Z) (pattern : bytes) (count : Z)
  | SRemCmd (key : bytes) (members : list bytes)
  | SUnionCmd (keys : list bytes)
  | SUnionstoreCmd (dest_key : bytes) (keys : list bytes)
  | SInterCmd (keys : list bytes)
  | SInterstoreCmd (dest_key : bytes) (keys : list bytes)
  | SIsmemberCmd (key member : bytes)
  | SDiffCmd (keys : list bytes)
  | SDiffstoreCmd (dest_key : bytes) (keys : list bytes)
  | SMoveCmd (src_key dest_key member : bytes)
  | SRandmemberCmd (key : bytes) (count : Z) (reply_arr : bool).

(** ** Arguments *)

Section Initial.
Context {SN : StringNum}.
Abbreviation Init := (option (CmdRes + SetsCmd)).

Definition SAddCmd_DoInitial : list bytes → Init := key_list SAddCmd.
Definition SPopCmd_DoInitial : list bytes → Init := key_only SPopCmd.
Definition SCardCmd_DoInitial : list bytes → Init := key_only SCardCmd.
Definition SMembersCmd_DoInitial : list bytes → Init := key_only SMembersCmd.
(** A cursor that is no number is a wrong number of arguments. *)
Definition SScanCmd_DoInitial (argv : list bytes) : Init :=
  key ← argv !! 1%nat; c ← argv !! 2%nat;
  match num c with
  | None => bad kWrongNum "sscan"
  | Some cursor =>
      scan_options "count" (λ _, false)
        (λ p n, if n <? 0 then bad kSyntaxErr "" else good (SScanCmd key cursor p n)) (str "*") 10 (drop 3 argv)
  end.
Definition SRemCmd_DoInitial : list bytes → Init := key_list SRemCmd.
Definition SUnionCmd_DoInitial : list bytes → Init := all_keys SUnionCmd.
Definition SUnionstoreCmd_DoInitial : list bytes → Init := key_list SUnionstoreCmd.
Definition SInterCmd_DoInitial : list bytes → Init := all_keys SInterCmd.
Definition SInterstoreCmd_DoInitial : list bytes → Init := key_list SInterstoreCmd.
Definition SIsmemberCmd_DoInitial : list bytes → Init := key_value SIsmemberCmd.
Definition SDiffCmd_DoInitial : list bytes → Init := all_keys SDiffCmd.
Definition SDiffstoreCmd_DoInitial : list bytes → Init := key_list SDiffstoreCmd.
Definition SMoveCmd_DoInitial : list bytes → Init := key_two SMoveCmd.
Definition SRandmemberCmd_DoInitial (argv : list bytes) : Init :=
  key ← argv !! 1%nat;
  if zlen argv >? 3 then bad kWrongNum "srandmember"
  else if zlen argv =? 3 then v ← argv !! 2%nat; need_num v (λ count, good (SRandmemberCmd key count true))
  else good (SRandmemberCmd key 1 false).

Definition kCmdFlagsSet : Z := 8.
Definition setRead : Z := Z.lor (Z.lor kCmdFlagsRead kCmdFlagsSinglePartition) kCmdFlagsSet.
Definition setWrite : Z := Z.lor (Z.lor kCmdFlagsWrite kCmdFlagsSinglePartition) kCmdFlagsSet.
Definition setReadMulti : Z := Z.lor (Z.lor kCmdFlagsRead kCmdFlagsMultiPartition) kCmdFlagsSet.
Definition setWriteMulti : Z := Z.lor (Z.lor kCmdFlagsWrite kCmdFlagsMultiPartition) kCmdFlagsSet.

Definition SetTable : list (Entry SetsCmd) := [
  entry "sadd" (-3) setWrite SAddCmd_DoInitial;
  entry "spop" 2 setWrite SPopCmd_DoInitial;
  entry "scard" 2 setRead SCardCmd_DoInitial;
  entry "smembers" 2 setRead SMembersCmd_DoInitial;
  entry "sscan" (-3) setRead SScanCmd_DoInitial;
  mkEntry "srem" (-3) setWrite "smembers" SRemCmd_DoInitial;
  entry "sunion" (-2) setReadMulti SUnionCmd_DoInitial;
  entry "sunionstore" (-3) setWriteMulti SUnionstoreCmd_DoInitial;
  entry "sinter" (-2) setReadMulti SInterCmd_DoInitial;
  entry "sinterstore" (-3) setWriteMulti SInterstoreCmd_DoInitial;
  entry "sismember" 3 setRead SIsmemberCmd_DoInitial;
  entry "sdiff" (-2) setReadMulti SDiffCmd_DoInitial;
  entry "sdiffstore" (-3) setWriteMulti SDiffstoreCmd_DoInitial;
  entry "smove" 4 setWriteMulti SMoveCmd_DoInitial;
  entry "srandmember" (-2) setRead SRandmemberCmd_DoInitial ].
End Initial.

(** The commands on several sets have the key of the base class, an empty text. *)
Definition set_key (c : SetsCmd) : list bytes :=
  match c with
  | SAddCmd k _ | SPopCmd k | SCardCmd k | SMembersCmd k | SScanCmd k _ _ _ | SRemCmd k _ | SIsmemberCmd k _
  | SRandmemberCmd k _ _ => [k]
  | SUnionCmd _ | SUnionstoreCmd _ _ | SInterCmd _ | SInterstoreCmd _ _ | SDiffCmd _ | SDiffstoreCmd _ _
  | SMoveCmd _ _ _ => [[]]
  end.

#[export] Instance set_family {N : NumString} {SN : StringNum} : CmdFamily SetsCmd := {
  family_table := SetTable; family_key := set_key; family_text argv _ _ := request_text argv }.

(** ** Running *)

Section Do.
Context {N : NumString} {RS DB : Type} {RO : RocksStatus RS} {H : Sets RS DB}.
Implicit Types (key member : bytes) (keys : list bytes) (now : Z) (db : DB).

Definition SAddCmd_Do key (members : list bytes) now db : option (CmdRes * DB) :=
  let '(s, n, db) := bw_SAdd (RS := RS) key members now db in Some (if negb (rs_ok s) then err s else integer n, db).
Definition SPopCmd_Do key now db : option (CmdRes * DB) :=
  let '(s, member, db) := bw_SPop (RS := RS) key now db in Some (value_reply s member, db).
Definition SCardCmd_Do key now db : option (CmdRes * DB) :=
  let '(s, n) := bw_SCard (RS := RS) key now db in
  Some (if rs_ok s || rs_IsNotFound s then integer n else internal "scard error", db).
Definition SMembersCmd_Do key now db : option (CmdRes * DB) :=
  let '(s, l) := bw_SMembers (RS := RS) key now db in Some (list_reply s l, db).
Definition SScanCmd_Do key (cursor : Z) (pattern : bytes) (count : Z) now db : option (CmdRes * DB) :=
  let '(s, l, next_cursor) := bw_SScan (RS := RS) key cursor pattern count now db in
  Some (found_reply s (strings_reply l (cursor_head next_cursor)), db).
(** The status is ignored. *)
Definition SRemCmd_Do key (members : list bytes) now db : option (CmdRes * DB) :=
  let '(s, n, db) := bw_SRem (RS := RS) key members now db in Some (integer n, db).
Definition SUnionCmd_Do keys now db : option (CmdRes * DB) :=
  Some (strings_reply (bw_SUnion (RS := RS) keys now db).2 res_new, db).
Definition SUnionstoreCmd_Do (dest_key : bytes) keys now db : option (CmdRes * DB) :=
  let '(s, n, db) := bw_SUnionstore (RS := RS) dest_key keys now db in Some (integer_or_err s n, db).
Definition SInterCmd_Do keys now db : option (CmdRes * DB) :=
  Some (strings_reply (bw_SInter (RS := RS) keys now db).2 res_new, db).
Definition SInterstoreCmd_Do (dest_key : bytes) keys now db : option (CmdRes * DB) :=
  let '(s, n, db) := bw_SInterstore (RS := RS) dest_key keys now db in Some (integer_or_err s n, db).
Definition SIsmemberCmd_Do key member now db : option (CmdRes * DB) :=
  Some (AppendContent (if negb ((bw_SIsmember (RS := RS) key member now db).2 =? 0) then str ":1" else str ":0") res_new, db).
Definition SDiffCmd_Do keys now db : option (CmdRes * DB) :=
  Some (strings_reply (bw_SDiff (RS := RS) keys now db).2 res_new, db).
Definition SDiffstoreCmd_Do (dest_key : bytes) keys now db : option (CmdRes * DB) :=
  let '(s, n, db) := bw_SDiffstore (RS := RS) dest_key keys now db in Some (integer_or_err s n, db).
Definition SMoveCmd_Do (src_key dest_key : bytes) member now db : option (CmdRes * DB) :=
  let '(s, n, db) := bw_SMove (RS := RS) src_key dest_key member now db in Some (found_or_err s n, db).
Definition SRandmemberCmd_Do key (count : Z) (reply_arr : bool) now db : option (CmdRes * DB) :=
  let '(s, l, db) := bw_SRandmember (RS := RS) key count now db in
  Some (found_reply s (match l with
                       | m :: _ => if reply_arr then strings_reply l res_new else AppendString m res_new
                       | [] => strings_reply l res_new
                       end), db).

#[export] Instance set_run : CmdRun SetsCmd DB := λ c now db,
  match c with
  | SAddCmd key members => SAddCmd_Do key members now db
  | SPopCmd key => SPopCmd_Do key now db
  | SCardCmd key => SCardCmd_Do key now db
  | SMembersCmd key => SMembersCmd_Do key now db
  | SScanCmd key cursor pattern count => SScanCmd_Do key cursor pattern count now db
  | SRemCmd key members => SRemCmd_Do key members now db
  | SUnionCmd keys => SUnionCmd_Do keys now db
  | SUnionstoreCmd dest_key keys => SUnionstoreCmd_Do dest_key keys now db
  | SInterCmd keys => SInterCmd_Do keys now db
  | SInterstoreCmd dest_key keys => SInterstoreCmd_Do dest_key keys now db
  | SIsmemberCmd key member => SIsmemberCmd_Do key member now db
  | SDiffCmd keys => SDiffCmd_Do keys now db
  | SDiffstoreCmd dest_key keys => SDiffstoreCmd_Do dest_key keys now db
  | SMoveCmd src_key dest_key member => SMoveCmd_Do src_key dest_key member now db
  | SRandmemberCmd key count reply_arr => SRandmemberCmd_Do key count reply_arr now db
  end.
End Do.

(** The definitions, for proofs by cases. *)
#[export] Hint Unfold SAddCmd_DoInitial SPopCmd_DoInitial SCardCmd_DoInitial SMembersCmd_DoInitial
  SScanCmd_DoInitial SRemCmd_DoInitial SUnionCmd_DoInitial SUnionstoreCmd_DoInitial
  SInterCmd_DoInitial SInterstoreCmd_DoInitial SIsmemberCmd_DoInitial SDiffCmd_DoInitial
  SDiffstoreCmd_DoInitial SMoveCmd_DoInitial SRandmemberCmd_DoInitial : family_init.
#[export] Hint Unfold SAddCmd_Do SPopCmd_Do SCardCmd_Do SMembersCmd_Do SScanCmd_Do SRemCmd_Do
  SUnionCmd_Do SUnionstoreCmd_Do SInterCmd_Do SInterstoreCmd_Do SIsmemberCmd_Do SDiffCmd_Do
  SDiffstoreCmd_Do SMoveCmd_Do SRandmemberCmd_Do : family_do.
