(* ===== verification/ZsetCmd.v ===== *)
(** * Sorted-set commands (src/pika_zset.cc, src/include/pika_zset.h)

    Scores are values of a type [D], the floating-point numbers, of which only what the
    code asks is known.  Offsets and counts are [int64_t]: a sum that does not fit is
    undefined in C++ and is [None] here, as is an access outside of a vector. *)

From S2P Require Import Prelude Define Env Transverter Command StableLog CmdRes Blackwidow CmdArgs CmdReply CmdFamily.
From stdpp Require Import base list strings pretty gmap.
From Stdlib Require Import ZArith Lia Init.Byte.
#[local] Open Scope string_scope.
#[local] Open Scope list_scope.
#[local] Open Scope Z_scope.

(** The value of a text for which [slash::string2d] succeeds, the text of a value, the
    bounds, equality, the weight 1, and [slash::string2ll]. *)
Class Scores (D : Type) := {
  score_of : bytes → D;
  d2string : D → bytes;
  ZSET_SCORE_MIN : D;
  ZSET_SCORE_MAX : D;
  score_eqb : D → D → bool;
  score_one : D;
  string2ll : bytes → option Z }.

Inductive ZsetCmd (D : Type) :=
  | ZAddCmd (key : bytes) (score_members : list (D * bytes))
  | ZCardCmd (key : bytes)
  | ZScanCmd (key : bytes) (cursor : Z) (pattern : bytes) (count : Z)
  | ZIncrbyCmd (key member : bytes) (by_ : D)
  | ZRangeCmd (key : bytes) (start stop : Z) (is_ws : bool)
  | ZRevrangeCmd (key : bytes) (start stop : Z) (is_ws : bool)
  | ZRangebyscoreCmd (key : bytes) (min_score max_score : D) (left_close right_close with_scores : bool) (offset count : Z)
  | ZRevrangebyscoreCmd (key : bytes) (min_score max_score : D) (left_close right_close with_scores : bool) (offset count : Z)
  | ZCountCmd (key : bytes) (min_score max_score : D) (left_close right_close : bool)
  | ZRemCmd (key : bytes) (members : list bytes)
  | ZUnionstoreCmd (dest_key : bytes) (keys : list bytes) (weights : list D) (aggregate : AGGREGATE)
  | ZInterstoreCmd (dest_key : bytes) (keys : list bytes) (weights : list D) (aggregate : AGGREGATE)
  | ZRankCmd (key member : bytes)
  | ZRevrankCmd (key member : bytes)
  | ZScoreCmd (key member : bytes)
  | ZRangebylexCmd (key min_member max_member : bytes) (left_close right_close : bool) (offset count : Z)
  | ZRevrangebylexCmd (key min_member max_member : bytes) (left_close right_close : bool) (offset count : Z)
  | ZLexcountCmd (key min_member max_member : bytes) (left_close right_close : bool)
  | ZRemrangebyrankCmd (key : bytes) (start_rank stop_rank : Z)
  | ZRemrangebyscoreCmd (key : bytes) (min_score max_score : D) (left_close right_close : bool)
  | ZRemrangebylexCmd (key min_member max_member : bytes) (left_close right_close : bool)
  | ZPopmaxCmd (key : bytes) (count : Z)
  | ZPopminCmd (key : bytes) (count : Z).

Section Commands.
Context {D : Type} {SC : Scores D}.

(** ** Arguments *)

Section Initial.
Context {SN : StringNum} {FT : FloatText}.
Abbreviation Cmd := (ZsetCmd D).
Abbreviation Init := (option (CmdRes + ZsetCmd D)).

Definition zset_string2d (s : bytes) : option D :=
  if bool_decide (s = str "-inf") then Some ZSET_SCORE_MIN
  else if bool_decide (s = str "+inf") then Some ZSET_SCORE_MAX
  else if bool_decide (s = str "inf") then Some ZSET_SCORE_MAX
  else if string2d s then Some (score_of s) else None.

(** The pairs of ZADD. *)
Fixpoint zadd_members (key : bytes) (args : list bytes) (acc : list (D * bytes)) : Init :=
  match args with
  | [] => good (ZAddCmd D key acc)
  | s :: args =>
      match zset_string2d s with
      | None => bad kInvalidFloat ""
      | Some score =>
          match args with
          | [] => None
          | m :: args => zadd_members key args (acc ++ [(score, m)])
          end
      end
  end.
Definition ZAddCmd_DoInitial (argv : list bytes) : Init :=
  if zlen argv mod 2 =? 1 then bad kSyntaxErr "" else
  key ← argv !! 1%nat; zadd_members key (drop 2 argv) [].

Definition ZCardCmd_DoInitial : list bytes → Init := key_only (ZCardCmd D).
Definition ZScanCmd_DoInitial (argv : list bytes) : Init :=
  key ← argv !! 1%nat; c ← argv !! 2%nat;
  match num c with
  | None => bad kWrongNum "zscan"
  | Some cursor =>
      scan_options "count" (λ _, false)
        (λ p n, if n <? 0 then bad kSyntaxErr "" else good (ZScanCmd D key cursor p n)) (str "*") 10 (drop 3 argv)
  end.
Definition ZIncrbyCmd_DoInitial (argv : list bytes) : Init :=
  key ← argv !! 1%nat; v ← argv !! 2%nat;
  match zset_string2d v with
  | None => bad kInvalidFloat ""
  | Some by_ => member ← argv !! 3%nat; good (ZIncrbyCmd D key member by_)
  end.

(** [ZsetRangeParentCmd]. *)
Definition range_parent (make : bytes → Z → Z → bool → Cmd) (argv : list bytes) : Init :=
  match (if zlen argv =? 5 then w ← argv !! 4%nat; Some (same_word w "withscores") else Some false) with
  | None => None
  | Some is_ws =>
      if negb is_ws && negb (zlen argv =? 4) then bad kSyntaxErr "" else
      key_nums (λ key start stop, make key start stop is_ws) argv
  end.
Definition ZRangeCmd_DoInitial : list bytes → Init := range_parent (ZRangeCmd D).
Definition ZRevrangeCmd_DoInitial : list bytes → Init := range_parent (ZRevrangeCmd D).

(** A bound: whether it is closed, and its value. *)
Definition score_bound (s : bytes) : option (bool * D) :=
  let '(close, s) := match s with x28 :: s => (false, s) | _ => (true, s) end in
  score ← (if bool_decide (s = str "-inf") then Some ZSET_SCORE_MIN
           else if bool_decide (s = str "inf") || bool_decide (s = str "+inf") then Some ZSET_SCORE_MAX
           else zset_string2d s);
  Some (close, score).
(** [None] for -1. *)
Definition DoScoreStrRange (begin_score end_score : bytes) : option (bool * bool * D * D) :=
  '(left_close, min_score) ← score_bound begin_score;
  '(right_close, max_score) ← score_bound end_score;
  Some (left_close, right_close, min_score, max_score).

(** The options WITHSCORES and LIMIT. *)
Fixpoint score_options (make : bool → Z → Z → Cmd) (with_scores : bool) (offset count : Z) (opts : list bytes) : Init :=
  match opts with
  | [] => good (make with_scores offset count)
  | opt :: opts =>
      if same_word opt "withscores" then score_options make true offset count opts
      else if same_word opt "limit" then
        match opts with
        | o :: c :: opts =>
            need_num o (λ offset, need_num c (λ count, score_options make with_scores offset count opts))
        | _ => bad kSyntaxErr ""
        end
      else bad kSyntaxErr ""
  end.
(** [ZsetRangebyscoreParentCmd]. *)
Definition byscore_parent (make : bytes → D → D → bool → bool → bool → Z → Z → Cmd) (argv : list bytes) : Init :=
  key ← argv !! 1%nat; a ← argv !! 2%nat; b ← argv !! 3%nat;
  match DoScoreStrRange a b with
  | None => bad kErrOther "min or max is not a float"
  | Some (left_close, right_close, min_score, max_score) =>
      score_options (make key min_score max_score left_close right_close) false 0 (-1) (drop 4 argv)
  end.
Definition ZRangebyscoreCmd_DoInitial : list bytes → Init := byscore_parent (ZRangebyscoreCmd D).
(** The bounds are given in the opposite order. *)
Definition ZRevrangebyscoreCmd_DoInitial : list bytes → Init :=
  byscore_parent (λ key min_score max_score left_close right_close,
    ZRevrangebyscoreCmd D key max_score min_score right_close left_close).

Definition score_range (make : bytes → D → D → bool → bool → Cmd) (argv : list bytes) : Init :=
  key ← argv !! 1%nat; a ← argv !! 2%nat; b ← argv !! 3%nat;
  match DoScoreStrRange a b with
  | None => bad kErrOther "min or max is not a float"
  | Some (left_close, right_close, min_score, max_score) => good (make key min_score max_score left_close right_close)
  end.
Definition ZCountCmd_DoInitial : list bytes → Init := score_range (ZCountCmd D).
Definition ZRemCmd_DoInitial : list bytes → Init := key_list (ZRemCmd D).

(** The options of ZUNIONSTORE and ZINTERSTORE; [left_] weights are still to be read. *)
Fixpoint ui_options (make : list D → AGGREGATE → Cmd) (num_keys left_ : nat) (weights : list D) (aggregate : AGGREGATE)
    (opts : list bytes) : Init :=
  match opts with
  | [] => good (make weights aggregate)
  | opt :: opts =>
      match left_ with
      | S left_ =>
          match zset_string2d opt with
          | None => bad kErrOther "weight value is not a float"
          | Some weight => ui_options make num_keys left_ (<[num_keys - S left_ := weight]> weights)%nat aggregate opts
          end
      | O =>
          if same_word opt "weights" then
            if (length opts <? num_keys)%nat then bad kSyntaxErr ""
            else ui_options make num_keys num_keys weights aggregate opts
          else if same_word opt "aggregate" then
            match opts with
            | [] => bad kSyntaxErr ""
            | a :: opts =>
                if same_word a "sum" then ui_options make num_keys 0 weights SUM opts
                else if same_word a "min" then ui_options make num_keys 0 weights MIN opts
                else if same_word a "max" then ui_options make num_keys 0 weights MAX opts
                else bad kSyntaxErr ""
            end
          else bad kSyntaxErr ""
      end
  end.
(** [ZsetUIstoreParentCmd]; [num_keys_ + 3] must fit. *)
Definition ui_parent (make : bytes → list bytes → list D → AGGREGATE → Cmd) (argv : list bytes) : Init :=
  dest_key ← argv !! 1%nat; v ← argv !! 2%nat;
  need_num v (λ num_keys,
    if num_keys <? 1 then bad kErrOther "at least 1 input key is needed for ZUNIONSTORE/ZINTERSTORE"
    else if num_keys + 3 >=? 2 ^ 63 then None
    else if zlen argv <? num_keys + 3 then bad kSyntaxErr ""
    else
      let n := Z.to_nat num_keys in
      ui_options (make dest_key (take n (drop 3 argv))) n 0 (replicate n score_one) SUM (drop (3 + n) argv)).
Definition ZUnionstoreCmd_DoInitial : list bytes → Init := ui_parent (ZUnionstoreCmd D).
Definition ZInterstoreCmd_DoInitial : list bytes → Init := ui_parent (ZInterstoreCmd D).

Definition ZRankCmd_DoInitial : list bytes → Init := key_value (ZRankCmd D).
Definition ZRevrankCmd_DoInitial : list bytes → Init := key_value (ZRevrankCmd D).
Definition ZScoreCmd_DoInitial : list bytes → Init := key_value (ZScoreCmd D).

(** A bound of members: whether it is closed, and the member, or "-" and "+". *)
Definition member_bound (s : bytes) : option (bool * bytes) :=
  if bool_decide (s = str "-") || bool_decide (s = str "+") then Some (true, s) else
  match s with
  | x28 :: s => Some (false, s)
  | x5b :: s => Some (true, s)
  | _ => None
  end.
Definition DoMemberRange (raw_min raw_max : bytes) : option (bool * bool * bytes * bytes) :=
  '(left_close, min_member) ← member_bound raw_min;
  '(right_close, max_member) ← member_bound raw_max;
  Some (left_close, right_close, min_member, max_member).

(** [ZsetRangebylexParentCmd]. *)
Definition bylex_parent (make : bytes → bytes → bytes → bool → bool → Z → Z → Cmd) (argv : list bytes) : Init :=
  key ← argv !! 1%nat; a ← argv !! 2%nat; b ← argv !! 3%nat;
  match DoMemberRange a b with
  | None => bad kErrOther "min or max not valid string range item"
  | Some (left_close, right_close, min_member, max_member) =>
      let make := make key min_member max_member left_close right_close in
      if zlen argv =? 4 then good (make 0 (-1))
      else if negb (zlen argv =? 7) then bad kSyntaxErr ""
      else
        w ← argv !! 4%nat;
        if negb (same_word w "limit") then bad kSyntaxErr "" else
        o ← argv !! 5%nat; need_num o (λ offset,
        c ← argv !! 6%nat; need_num c (λ count, good (make offset count)))
  end.
Definition ZRangebylexCmd_DoInitial : list bytes → Init := bylex_parent (ZRangebylexCmd D).
Definition ZRevrangebylexCmd_DoInitial : list bytes → Init :=
  bylex_parent (λ key min_member max_member left_close right_close,
    ZRevrangebylexCmd D key max_member min_member right_close left_close).
Definition member_range (make : bytes → bytes → bytes → bool → bool → Cmd) (argv : list bytes) : Init :=
  key ← argv !! 1%nat; a ← argv !! 2%nat; b ← argv !! 3%nat;
  match DoMemberRange a b with
  | None => bad kErrOther "min or max not valid string range item"
  | Some (left_close, right_close, min_member, max_member) => good (make key min_member max_member left_close right_close)
  end.
Definition ZLexcountCmd_DoInitial : list bytes → Init := member_range (ZLexcountCmd D).
Definition ZRemrangebyrankCmd_DoInitial : list bytes → Init := key_nums (ZRemrangebyrankCmd D).
Definition ZRemrangebyscoreCmd_DoInitial : list bytes → Init := score_range (ZRemrangebyscoreCmd D).
Definition ZRemrangebylexCmd_DoInitial : list bytes → Init := member_range (ZRemrangebylexCmd D).
Definition pop_DoInitial (make : bytes → Z → Cmd) (argv : list bytes) : Init :=
  key ← argv !! 1%nat;
  if zlen argv =? 2 then good (make key 1) else
  v ← argv !! 2%nat;
  match string2ll v with None => bad kInvalidInt "" | Some count => good (make key count) end.
Definition ZPopmaxCmd_DoInitial : list bytes → Init := pop_DoInitial (ZPopmaxCmd D).
Definition ZPopminCmd_DoInitial : list bytes → Init := pop_DoInitial (ZPopminCmd D).

Definition kCmdFlagsZset : Z := 10.
Definition zsetRead : Z := Z.lor (Z.lor kCmdFlagsRead kCmdFlagsSinglePartition) kCmdFlagsZset.
Definition zsetWrite : Z := Z.lor (Z.lor kCmdFlagsWrite kCmdFlagsSinglePartition) kCmdFlagsZset.
Definition zsetWriteMulti : Z := Z.lor (Z.lor kCmdFlagsWrite kCmdFlagsMultiPartition) kCmdFlagsZset.

Definition ZsetTable : list (Entry Cmd) := [
  entry "zadd" (-4) zsetWrite ZAddCmd_DoInitial;
  entry "zcard" 2 zsetRead ZCardCmd_DoInitial;
  entry "zscan" (-3) zsetRead ZScanCmd_DoInitial;
  entry "zincrby" 4 zsetWrite ZIncrbyCmd_DoInitial;
  entry "zrange" (-4) zsetRead ZRangeCmd_DoInitial;
  entry "zrevrange" (-4) zsetRead ZRevrangeCmd_DoInitial;
  entry "zrangebyscore" (-4) zsetRead ZRangebyscoreCmd_DoInitial;
  entry "zrevrangebyscore" (-4) zsetRead ZRevrangebyscoreCmd_DoInitial;
  entry "zcount" 4 zsetRead ZCountCmd_DoInitial;
  entry "zrem" (-3) zsetWrite ZRemCmd_DoInitial;
  entry "zunionstore" (-4) zsetWriteMulti ZUnionstoreCmd_DoInitial;
  entry "zinterstore" (-4) zsetWriteMulti ZInterstoreCmd_DoInitial;
  entry "zrank" 3 zsetRead ZRankCmd_DoInitial;
  entry "zrevrank" 3 zsetRead ZRevrankCmd_DoInitial;
  entry "zscore" 3 zsetRead ZScoreCmd_DoInitial;
  entry "zrangebylex" (-4) zsetRead ZRangebylexCmd_DoInitial;
  entry "zrevrangebylex" (-4) zsetRead ZRevrangebylexCmd_DoInitial;
  entry "zlexcount" 4 zsetRead ZLexcountCmd_DoInitial;
  entry "zremrangebyrank" 4 zsetWrite ZRemrangebyrankCmd_DoInitial;
  entry "zremrangebyscore" 4 zsetWrite ZRemrangebyscoreCmd_DoInitial;
  entry "zremrangebylex" 4 zsetWrite ZRemrangebylexCmd_DoInitial;
  entry "zpopmax" (-2) zsetWrite ZPopmaxCmd_DoInitial;
  entry "zpopmin" (-2) zsetWrite ZPopminCmd_DoInitial ].
End Initial.

(** ZUNIONSTORE and ZINTERSTORE have the key of the base class, an empty text. *)
Definition zset_key (c : ZsetCmd D) : list bytes :=
  match c with
  | ZAddCmd _ k _ | ZCardCmd _ k | ZScanCmd _ k _ _ _ | ZIncrbyCmd _ k _ _ | ZRangeCmd _ k _ _ _ | ZRevrangeCmd _ k _ _ _
  | ZRangebyscoreCmd _ k _ _ _ _ _ _ _ | ZRevrangebyscoreCmd _ k _ _ _ _ _ _ _ | ZCountCmd _ k _ _ _ _ | ZRemCmd _ k _
  | ZRankCmd _ k _ | ZRevrankCmd _ k _ | ZScoreCmd _ k _ | ZRangebylexCmd _ k _ _ _ _ _ _ | ZRevrangebylexCmd _ k _ _ _ _ _ _
  | ZLexcountCmd _ k _ _ _ _ | ZRemrangebyrankCmd _ k _ _ | ZRemrangebyscoreCmd _ k _ _ _ _ | ZRemrangebylexCmd _ k _ _ _ _
  | ZPopmaxCmd _ k _ | ZPopminCmd _ k _ => [k]
  | ZUnionstoreCmd _ _ _ _ _ | ZInterstoreCmd _ _ _ _ _ => [[]]
  end.

#[export] Instance zset_family {N : NumString} {SN : StringNum} {FT : FloatText} : CmdFamily (ZsetCmd D) := {
  family_table := ZsetTable; family_key := zset_key; family_text argv _ _ := request_text argv }.

(** ** Running *)

Section Do.
Context {N : NumString} {RS DB : Type} {RO : RocksStatus RS} {H : ZSets D RS DB}.
Implicit Types (key : bytes) (now : Z) (db : DB).

Definition zset_d2string (value : D) : bytes :=
  if score_eqb value ZSET_SCORE_MIN then str "-inf"
  else if score_eqb value ZSET_SCORE_MAX then str "inf" else d2string value.

(** The members, with or without their scores. *)
Definition member_texts (with_scores : bool) (l : list (D * bytes)) : list bytes :=
  l ≫= λ sm, if with_scores then [sm.2; zset_d2string sm.1] else [sm.2].
Definition members_reply (with_scores : bool) (l : list (D * bytes)) (r : CmdRes) : CmdRes :=
  append_strings (member_texts with_scores l) (AppendArrayLen (if with_scores then zlen l * 2 else zlen l) r).

(** [FitLimit]: the count and the offset. *)
Definition FitLimit (count offset size : Z) : option (Z * Z) :=
  let count := if count >=? 0 then count else size in
  let offset := if (offset >=? 0) && (offset <? size) then offset else size in
  if offset + count >=? 2 ^ 63 then None else
  Some (if offset + count <? size then count else size - offset, offset).
(** The elements at the given positions. *)
Definition elements_at {A} (l : list A) (positions : list Z) : option (list A) :=
  mapM (λ i, if i <? 0 then None else l !! Z.to_nat i) positions.
(** [index] from [offset] up to [offset + count]. *)
Definition limited {A} (count offset : Z) (l : list A) : option (list A) :=
  '(count, offset) ← FitLimit count offset (zlen l); elements_at l (seqZ offset count).
(** [index] from [size - 1 - offset] down. *)
Definition limited_rev {A} (count offset : Z) (l : list A) : option (list A) :=
  '(count, offset) ← FitLimit count offset (zlen l);
  elements_at l ((λ k, s64 (u64 (u64 (zlen l - 1) - offset)) - k) <$> seqZ 0 count).

Definition score_reply (s : RS) (score : D) (missing : CmdRes) : CmdRes :=
  if rs_ok s then AppendString (zset_d2string score) res_new else missing.
Definition empty_score_range (min_score max_score : D) : bool :=
  score_eqb min_score ZSET_SCORE_MAX || score_eqb max_score ZSET_SCORE_MIN.
Definition empty_member_range (min_member max_member : bytes) : bool :=
  bool_decide (min_member = str "+") || bool_decide (max_member = str "-").

Definition ZAddCmd_Do key (score_members : list (D * bytes)) now db : option (CmdRes * DB) :=
  let '(s, n, db) := bw_ZAdd (RS := RS) key score_members now db in Some (integer_or_err s n, db).
Definition ZCardCmd_Do key now db : option (CmdRes * DB) :=
  let '(s, n) := bw_ZCard (D := D) (RS := RS) key now db in
  Some (if rs_ok s || rs_IsNotFound s then integer n else internal "zcard error", db).
Definition ZScanCmd_Do key (cursor : Z) (pattern : bytes) (count : Z) now db : option (CmdRes * DB) :=
  let '(s, l, next_cursor) := bw_ZScan (D := D) (RS := RS) key cursor pattern count now db in
  Some (found_reply s (members_reply true l (cursor_head next_cursor)), db).
Definition ZIncrbyCmd_Do key (member : bytes) (by_ : D) now db : option (CmdRes * DB) :=
  let '(s, score, db) := bw_ZIncrby (RS := RS) key member by_ now db in Some (score_reply s score (err s), db).
Definition ZRangeCmd_Do key (start stop : Z) (is_ws : bool) now db : option (CmdRes * DB) :=
  let '(s, l) := bw_ZRange (D := D) (RS := RS) key start stop now db in
  Some (found_reply s (members_reply is_ws l res_new), db).
Definition ZRevrangeCmd_Do key (start stop : Z) (is_ws : bool) now db : option (CmdRes * DB) :=
  let '(s, l) := bw_ZRevrange (D := D) (RS := RS) key start stop now db in
  Some (found_reply s (members_reply is_ws l res_new), db).

(** A page of what the engine found. *)
Definition byscore_reply (s : RS) (l : list (D * bytes)) (with_scores : bool) (offset count : Z) : option CmdRes :=
  if negb (rs_ok s) && negb (rs_IsNotFound s) then Some (err s) else
  l ← limited count offset l; Some (members_reply with_scores l res_new).
Definition ZRangebyscoreCmd_Do key (min_score max_score : D) (left_close right_close with_scores : bool) (offset count : Z)
    now db : option (CmdRes * DB) :=
  if empty_score_range min_score max_score then Some (AppendContent (str "*0") res_new, db) else
  let '(s, l) := bw_ZRangebyscore (RS := RS) key min_score max_score left_close right_close now db in
  r ← byscore_reply s l with_scores offset count; Some (r, db).
Definition ZRevrangebyscoreCmd_Do key (min_score max_score : D) (left_close right_close with_scores : bool) (offset count : Z)
    now db : option (CmdRes * DB) :=
  if empty_score_range min_score max_score then Some (AppendContent (str "*0") res_new, db) else
  let '(s, l) := bw_ZRevrangebyscore (RS := RS) key min_score max_score left_close right_close now db in
  r ← byscore_reply s l with_scores offset count; Some (r, db).
(** An empty range is answered with an empty array. *)
Definition ZCountCmd_Do key (min_score max_score : D) (left_close right_close : bool) now db : option (CmdRes * DB) :=
  if empty_score_range min_score max_score then Some (AppendContent (str "*0") res_new, db) else
  let '(s, n) := bw_ZCount (RS := RS) key min_score max_score left_close right_close now db in
  Some (found_or_err s n, db).
Definition ZRemCmd_Do key (members : list bytes) now db : option (CmdRes * DB) :=
  let '(s, n, db) := bw_ZRem (D := D) (RS := RS) key members now db in Some (found_or_err s n, db).
Definition ZUnionstoreCmd_Do (dest_key : bytes) (keys : list bytes) (weights : list D) (aggregate : AGGREGATE)
    now db : option (CmdRes * DB) :=
  let '(s, n, db) := bw_ZUnionstore (RS := RS) dest_key keys weights aggregate now db in Some (integer_or_err s n, db).
Definition ZInterstoreCmd_Do (dest_key : bytes) (keys : list bytes) (weights : list D) (aggregate : AGGREGATE)
    now db : option (CmdRes * DB) :=
  let '(s, n, db) := bw_ZInterstore (RS := RS) dest_key keys weights aggregate now db in Some (integer_or_err s n, db).

Definition rank_reply (s : RS) (rank : Z) : CmdRes :=
  if rs_ok s then integer rank else if rs_IsNotFound s then AppendContent (str "$-1") res_new else err s.
Definition ZRankCmd_Do key (member : bytes) now db : option (CmdRes * DB) :=
  let '(s, n) := bw_ZRank (D := D) (RS := RS) key member now db in Some (rank_reply s n, db).
Definition ZRevrankCmd_Do key (member : bytes) now db : option (CmdRes * DB) :=
  let '(s, n) := bw_ZRevrank (D := D) (RS := RS) key member now db in Some (rank_reply s n, db).
Definition ZScoreCmd_Do key (member : bytes) now db : option (CmdRes * DB) :=
  let '(s, score) := bw_ZScore (D := D) (RS := RS) key member now db in
  Some (score_reply s score (if rs_IsNotFound s then AppendContent (str "$-1") res_new else err s), db).

Definition bylex_reply (s : RS) (l : list bytes) (page : list bytes → option (list bytes)) : option CmdRes :=
  if negb (rs_ok s) && negb (rs_IsNotFound s) then Some (err s) else
  l ← page l; Some (strings_reply l res_new).
Definition ZRangebylexCmd_Do key (min_member max_member : bytes) (left_close right_close : bool) (offset count : Z)
    now db : option (CmdRes * DB) :=
  if empty_member_range min_member max_member then Some (AppendContent (str "*0") res_new, db) else
  let '(s, l) := bw_ZRangebylex (D := D) (RS := RS) key min_member max_member left_close right_close now db in
  r ← bylex_reply s l (limited count offset); Some (r, db).
Definition ZRevrangebylexCmd_Do key (min_member max_member : bytes) (left_close right_close : bool) (offset count : Z)
    now db : option (CmdRes * DB) :=
  if empty_member_range min_member max_member then Some (AppendContent (str "*0") res_new, db) else
  let '(s, l) := bw_ZRangebylex (D := D) (RS := RS) key min_member max_member left_close right_close now db in
  r ← bylex_reply s l (limited_rev count offset); Some (r, db).
Definition ZLexcountCmd_Do key (min_member max_member : bytes) (left_close right_close : bool) now db : option (CmdRes * DB) :=
  if empty_member_range min_member max_member then Some (AppendContent (str ":0") res_new, db) else
  let '(s, n) := bw_ZLexcount (D := D) (RS := RS) key min_member max_member left_close right_close now db in
  Some (found_or_err s n, db).
Definition ZRemrangebyrankCmd_Do key (start_rank stop_rank : Z) now db : option (CmdRes * DB) :=
  let '(s, n, db) := bw_ZRemrangebyrank (D := D) (RS := RS) key start_rank stop_rank now db in Some (found_or_err s n, db).
Definition ZRemrangebyscoreCmd_Do key (min_score max_score : D) (left_close right_close : bool) now db : option (CmdRes * DB) :=
  if empty_score_range min_score max_score then Some (AppendContent (str ":0") res_new, db) else
  let '(s, n, db) := bw_ZRemrangebyscore (RS := RS) key min_score max_score left_close right_close now db in
  Some (found_or_err s n, db).
(** An empty range is answered with an empty array. *)
Definition ZRemrangebylexCmd_Do key (min_member max_member : bytes) (left_close right_close : bool) now db : option (CmdRes * DB) :=
  if empty_member_range min_member max_member then Some (AppendContent (str "*0") res_new, db) else
  let '(s, n, db) := bw_ZRemrangebylex (D := D) (RS := RS) key min_member max_member left_close right_close now db in
  Some (found_or_err s n, db).
Definition ZPopmaxCmd_Do key (count : Z) now db : option (CmdRes * DB) :=
  let '(s, l, db) := bw_ZPopMax (D := D) (RS := RS) key count now db in
  Some (found_reply s (members_reply true l res_new), db).
Definition ZPopminCmd_Do key (count : Z) now db : option (CmdRes * DB) :=
  let '(s, l, db) := bw_ZPopMin (D := D) (RS := RS) key count now db in
  Some (found_reply s (members_reply true l res_new), db).

#[export] Instance zset_run : CmdRun (ZsetCmd D) DB := λ c now db,
  match c with
  | ZAddCmd _ key l => ZAddCmd_Do key l now db
  | ZCardCmd _ key => ZCardCmd_Do key now db
  | ZScanCmd _ key cursor pattern count => ZScanCmd_Do key cursor pattern count now db
  | ZIncrbyCmd _ key member by_ => ZIncrbyCmd_Do key member by_ now db
  | ZRangeCmd _ key start stop is_ws => ZRangeCmd_Do key start stop is_ws now db
  | ZRevrangeCmd _ key start stop is_ws => ZRevrangeCmd_Do key start stop is_ws now db
  | ZRangebyscoreCmd _ key a b l r w offset count => ZRangebyscoreCmd_Do key a b l r w offset count now db
  | ZRevrangebyscoreCmd _ key a b l r w offset count => ZRevrangebyscoreCmd_Do key a b l r w offset count now db
  | ZCountCmd _ key a b l r => ZCountCmd_Do key a b l r now db
  | ZRemCmd _ key members => ZRemCmd_Do key members now db
  | ZUnionstoreCmd _ dest_key keys weights aggregate => ZUnionstoreCmd_Do dest_key keys weights aggregate now db
  | ZInterstoreCmd _ dest_key keys weights aggregate => ZInterstoreCmd_Do dest_key keys weights aggregate now db
  | ZRankCmd _ key member => ZRankCmd_Do key member now db
  | ZRevrankCmd _ key member => ZRevrankCmd_Do key member now db
  | ZScoreCmd _ key member => ZScoreCmd_Do key member now db
  | ZRangebylexCmd _ key a b l r offset count => ZRangebylexCmd_Do key a b l r offset count now db
  | ZRevrangebylexCmd _ key a b l r offset count => ZRevrangebylexCmd_Do key a b l r offset count now db
  | ZLexcountCmd _ key a b l r => ZLexcountCmd_Do key a b l r now db
  | ZRemrangebyrankCmd _ key start stop => ZRemrangebyrankCmd_Do key start stop now db
  | ZRemrangebyscoreCmd _ key a b l r => ZRemrangebyscoreCmd_Do key a b l r now db
  | ZRemrangebylexCmd _ key a b l r => ZRemrangebylexCmd_Do key a b l r now db
  | ZPopmaxCmd _ key count => ZPopmaxCmd_Do key count now db
  | ZPopminCmd _ key count => ZPopminCmd_Do key count now db
  end.
End Do.
End Commands.

(** The definitions, for proofs by cases. *)
#[export] Hint Unfold ZCardCmd_DoInitial ZScanCmd_DoInitial ZIncrbyCmd_DoInitial ZRangeCmd_DoInitial
  ZRevrangeCmd_DoInitial byscore_parent ZRangebyscoreCmd_DoInitial ZRevrangebyscoreCmd_DoInitial
  score_range ZCountCmd_DoInitial ZRemCmd_DoInitial ZUnionstoreCmd_DoInitial
  ZInterstoreCmd_DoInitial ZRankCmd_DoInitial ZRevrankCmd_DoInitial ZScoreCmd_DoInitial bylex_parent
  ZRangebylexCmd_DoInitial ZRevrangebylexCmd_DoInitial member_range ZLexcountCmd_DoInitial
  ZRemrangebyrankCmd_DoInitial ZRemrangebyscoreCmd_DoInitial ZRemrangebylexCmd_DoInitial
  pop_DoInitial ZPopmaxCmd_DoInitial ZPopminCmd_DoInitial : family_init.
#[export] Hint Unfold score_reply ZAddCmd_Do ZCardCmd_Do ZScanCmd_Do ZIncrbyCmd_Do ZRangeCmd_Do
  ZRevrangeCmd_Do ZRangebyscoreCmd_Do ZRevrangebyscoreCmd_Do ZCountCmd_Do ZRemCmd_Do
  ZUnionstoreCmd_Do ZInterstoreCmd_Do rank_reply ZRankCmd_Do ZRevrankCmd_Do ZScoreCmd_Do
  ZRangebylexCmd_Do ZRevrangebylexCmd_Do ZLexcountCmd_Do ZRemrangebyrankCmd_Do
  ZRemrangebyscoreCmd_Do ZRemrangebylexCmd_Do ZPopmaxCmd_Do ZPopminCmd_Do : family_do.
