(* ===== verification/ZsetPages.v ===== *)
(** * The pages of sorted-set ranges

    LIMIT takes a page of what the engine found: a prefix of a suffix.  The sums of the
    code stay within [int64_t] for the counts and lengths of practice; for a count near its
    end they do not, and the page is undefined. *)

From S2P Require Import Prelude Define Env Transverter CmdRes Blackwidow CmdArgs CmdReply CmdFamily ZsetCmd.
From stdpp Require Import base list strings pretty gmap.
From Stdlib Require Import ZArith Lia Init.Byte.
#[local] Open Scope list_scope.
#[local] Open Scope Z_scope.

(** The reference: at most [count] elements from [offset] on; a negative count is all of
    them, a negative offset none. *)
Definition page {A} (count offset : Z) (l : list A) : list A :=
  if offset <? 0 then [] else
  let rest := drop (Z.to_nat offset) l in
  if count <? 0 then rest else take (Z.to_nat count) rest.

Section Pages.
Context {A : Type}.
Implicit Types l : list A.

Lemma elements_by l (f : Z → Z) n (k : list A) :
  length k = n → (∀ i x, (i < n)%nat → k !! i = Some x → 0 ≤ f (Z.of_nat i) ∧ l !! Z.to_nat (f (Z.of_nat i)) = Some x) →
  elements_at l (f <$> seqZ 0 (Z.of_nat n)) = Some k.
Proof.
  intros Hk H. apply mapM_Some_2. apply Forall2_same_length_lookup_2.
  { rewrite length_fmap, length_seqZ. lia. }
  intros i p x Hp Hx. apply list_lookup_fmap_Some in Hp as (z & -> & Hz).
  apply lookup_seqZ in Hz as [-> Hi]. rewrite Z.add_0_l.
  destruct (H i x) as [H0 Hl]; [lia|done|]. replace (f (Z.of_nat i) <? 0) with false by lia. done.
Qed.

(** What [FitLimit] makes of a count and an offset. *)
Lemma FitLimit_page count offset l : zlen l < 2 ^ 62 → count + zlen l < 2 ^ 63 →
  ∃ c o, FitLimit count offset (zlen l) = Some (Z.of_nat c, Z.of_nat o) ∧ (o + c ≤ length l)%nat ∧
    ∀ k : list A, length k = length l → page count offset k = take c (drop o k).
Proof.
  intros Hl Hc. unfold FitLimit. assert (0 ≤ zlen l) as H0 by (unfold zlen; lia).
  set (cz := if count >=? 0 then count else zlen l).
  set (oz := if (offset >=? 0) && (offset <? zlen l) then offset else zlen l).
  assert (0 ≤ oz ≤ zlen l ∧ 0 ≤ cz ∧ oz + cz < 2 ^ 63) as (Ho & Hcz & Hfit).
  { unfold oz, cz. destruct (count >=? 0) eqn:E1, ((offset >=? 0) && (offset <? zlen l)) eqn:E2; lia. }
  replace (oz + cz >=? 2 ^ 63) with false by lia.
  set (nz := if oz + cz <? zlen l then cz else zlen l - oz).
  assert (0 ≤ nz ∧ oz + nz ≤ zlen l ∧ (oz + cz < zlen l → nz = cz) ∧ (zlen l ≤ oz + cz → nz = zlen l - oz)) as (Hn0 & Hn & Hn1 & Hn2).
  { unfold nz. destruct (oz + cz <? zlen l) eqn:E; lia. }
  exists (Z.to_nat nz), (Z.to_nat oz). rewrite !Z2Nat.id by lia. split_and!; [done|unfold zlen in *; lia|].
  intros k Hk. assert (zlen k = zlen l) as Hz by (unfold zlen; lia).
  unfold page. destruct (offset <? 0) eqn:E0.
  { assert (oz = zlen l) as -> by (unfold oz; replace (offset >=? 0) with false by lia; done).
    rewrite drop_ge by (unfold zlen in *; lia). by rewrite take_nil. }
  assert ((offset < zlen l ∧ oz = offset) ∨ (zlen l ≤ offset ∧ oz = zlen l)) as [[Ho1 ->]|[Ho1 ->]].
  { unfold oz. replace (offset >=? 0) with true by lia. destruct (offset <? zlen l) eqn:E; cbn [andb]; lia. }
  2:{ rewrite !drop_ge by (unfold zlen in *; lia). rewrite !take_nil. by destruct (count <? 0). }
  destruct (count <? 0) eqn:Ec.
  - assert (cz = zlen l) as Hcl by (unfold cz; replace (count >=? 0) with false by lia; done).
    rewrite take_ge; [done|]. rewrite length_drop. rewrite Hn2 by lia. unfold zlen in *. lia.
  - assert (cz = count) as -> by (unfold cz; replace (count >=? 0) with true by lia; done).
    destruct (decide (offset + count < zlen l)); [by rewrite Hn1|].
    rewrite Hn2 by lia. rewrite !take_ge; [done| |]; rewrite length_drop; unfold zlen in *; lia.
Qed.

Lemma limited_run count offset l : zlen l < 2 ^ 62 → count + zlen l < 2 ^ 63 →
  limited count offset l = Some (page count offset l).
Proof.
  intros Hl Hc. unfold limited. destruct (FitLimit_page count offset l Hl Hc) as (c & o & -> & Hn & Hp).
  cbn [mbind option_bind]. rewrite Hp by done.
  replace (seqZ (Z.of_nat o) (Z.of_nat c)) with ((λ i, Z.of_nat o + i) <$> seqZ 0 (Z.of_nat c))
    by (rewrite fmap_add_seqZ; f_equal; lia).
  apply elements_by; [rewrite length_take, length_drop; lia|].
  intros i x Hi Hx. split; [lia|]. apply lookup_take_Some in Hx as [Hx _]. rewrite lookup_drop in Hx.
  rewrite <- Hx. f_equal. lia.
Qed.

Lemma limited_rev_run count offset l : zlen l < 2 ^ 62 → count + zlen l < 2 ^ 63 →
  limited_rev count offset l = Some (page count offset (reverse l)).
Proof.
  intros Hl Hc. unfold limited_rev. destruct (FitLimit_page count offset l Hl Hc) as (c & o & -> & Hn & Hp).
  cbn [mbind option_bind]. rewrite Hp by (by rewrite length_reverse).
  apply (elements_by l (λ k, s64 (u64 (u64 (zlen l - 1) - Z.of_nat o)) - k)).
  { rewrite length_take, length_drop, length_reverse. lia. }
  intros i x Hi Hx. apply lookup_take_Some in Hx as [Hx _]. rewrite lookup_drop in Hx.
  assert (o + i < length l)%nat as Hlt by lia. rewrite reverse_lookup in Hx by done.
  assert (s64 (u64 (u64 (zlen l - 1) - Z.of_nat o)) = zlen l - 1 - Z.of_nat o) as ->.
  { unfold zlen in *. rewrite (u64_small (_ - 1)) by lia. rewrite u64_small by lia. apply s64_small. lia. }
  unfold zlen in *. split; [lia|]. rewrite <- Hx. f_equal. lia.
Qed.

(** The page of LIMIT is a prefix of a suffix: of the members in their order for
    ZRANGEBYSCORE, ZREVRANGEBYSCORE and ZRANGEBYLEX, of the members in the opposite order
    for ZREVRANGEBYLEX.  No access is out of bounds and no sum overflows, for results of
    fewer than 2^62 members and counts that stay below 2^63 with their number. *)
Theorem limit_is_page count offset l : zlen l < 2 ^ 62 → count + zlen l < 2 ^ 63 →
  limited count offset l = Some (page count offset l) ∧
  limited_rev count offset l = Some (page count offset (reverse l)).
Proof. intros Hl Hc. split; [by apply limited_run|by apply limited_rev_run]. Qed.


Lemma limit_none offset count l : 0 < offset < zlen l → 0 ≤ count → 2 ^ 63 ≤ offset + count →
  limited count offset l = None ∧ limited_rev count offset l = None.
Proof.
  intros Ho H0 Hc. unfold limited, limited_rev, FitLimit.
  replace ((offset >=? 0) && (offset <? zlen l)) with true by lia.
  replace (count >=? 0) with true by lia. by replace (offset + count >=? 2 ^ 63) with true by lia.
Qed.
End Pages.

Section Commands.
Context {D : Type} {SC : Scores D} {N : NumString} {RS DB : Type} {RO : RocksStatus RS} {H : ZSets D RS DB}.

(** A count near the end of [int64_t] makes the sum of offset and count overflow
    although the result has members enough: ZRANGEBYSCORE and ZREVRANGEBYLEX with
    LIMIT 1 9223372036854775807 are undefined on every range of two members or more. *)
Theorem huge_limit_undefined key a b l r w m m' offset count now (db : DB) (s s' : RS) sms ms :
  empty_score_range a b = false → bw_ZRangebyscore (RS := RS) key a b l r now db = (s, sms) → rs_ok s = true →
  empty_member_range m m' = false → bw_ZRangebylex (D := D) (RS := RS) key m m' l r now db = (s', ms) → rs_ok s' = true →
  0 < offset < zlen sms → 0 < offset < zlen ms → 0 ≤ count → 2 ^ 63 ≤ offset + count →
  ZRangebyscoreCmd_Do (RS := RS) key a b l r w offset count now db = None ∧
  ZRevrangebylexCmd_Do (D := D) (RS := RS) key m m' l r offset count now db = None.
Proof.
  intros He Hs Hok He' Hs' Hok' Ho Ho' H0 Hc. unfold ZRangebyscoreCmd_Do, ZRevrangebylexCmd_Do, byscore_reply, bylex_reply.
  rewrite He, Hs, Hok, He', Hs', Hok'. cbn [negb andb].
  destruct (limit_none offset count sms Ho H0 Hc) as [-> _]. destruct (limit_none offset count ms Ho' H0 Hc) as [_ ->]. done.
Qed.
End Commands.
