(* ===== verification/BitCmd.v ===== *)
(** * Bit and HyperLogLog commands (src/pika_bit.cc, src/pika_hyperloglog.cc) *)

From S2P Require Import Prelude Define Env Transverter Command StableLog CmdRes Blackwidow CmdArgs CmdReply CmdFamily.
From stdpp Require Import base list strings pretty gmap.
From Stdlib Require Import ZArith Lia Init.Byte.
#[local] Open Scope string_scope.
#[local] Open Scope list_scope.
#[local] Open Scope Z_scope.

Definition kMaxBitOpInputKey : Z := 12800.
Definition kMaxBitOpInputBit : Z := 21.

(** BITPOS: [range] is the start and the end, as far as they are given. *)
Inductive BitCmd :=
  | BitGetCmd (key : bytes) (bit_offset : Z)
  | BitSetCmd (key : bytes) (bit_offset on_ : Z)
  | BitCountCmd (key : bytes) (count_all : bool) (start_offset end_offset : Z)
  | BitPosCmd (key : bytes) (bit_val : Z) (range : option (Z * option Z))
  | BitOpCmd (op : BitOpType) (dest_key : bytes) (src_keys : list bytes).

Inductive HllCmd :=
  | PfAddCmd (key : bytes) (values : list bytes)
  | PfCountCmd (keys : list bytes)
  | PfMergeCmd (keys : list bytes).

(** ** Arguments *)

Section Initial.
Context {SN : StringNum}.
Abbreviation Init := (option (CmdRes + BitCmd)).

(** [n & ~1]. *)
Definition not_a_bit (n : Z) : bool := negb (Z.land n (Z.lnot 1) =? 0).

Definition BitSetCmd_DoInitial (argv : list bytes) : Init :=
  key ← argv !! 1%nat; o ← argv !! 2%nat;
  match num o with
  | None => bad kInvalidBitOffsetInt ""
  | Some bit_offset =>
      v ← argv !! 3%nat;
      match num v with
      | None => bad kInvalidBitInt ""
      | Some on_ =>
          if bit_offset <? 0 then bad kInvalidBitOffsetInt ""
          else if Z.shiftr bit_offset kMaxBitOpInputBit >? 0 then bad kInvalidBitOffsetInt ""
          else if not_a_bit on_ then bad kInvalidBitInt ""
          else good (BitSetCmd key bit_offset on_)
      end
  end.
Definition BitGetCmd_DoInitial (argv : list bytes) : Init :=
  key ← argv !! 1%nat; o ← argv !! 2%nat;
  match num o with
  | None => bad kInvalidBitOffsetInt ""
  | Some bit_offset => if bit_offset <? 0 then bad kInvalidBitOffsetInt "" else good (BitGetCmd key bit_offset)
  end.
Definition BitCountCmd_DoInitial (argv : list bytes) : Init :=
  key ← argv !! 1%nat;
  if zlen argv =? 4 then
    a ← argv !! 2%nat; need_num a (λ start_offset,
    b ← argv !! 3%nat; need_num b (λ end_offset, good (BitCountCmd key false start_offset end_offset)))
  else if zlen argv =? 2 then good (BitCountCmd key true (-1) (-1))
  else bad kSyntaxErr "bitcount".
Definition BitPosCmd_DoInitial (argv : list bytes) : Init :=
  key ← argv !! 1%nat; v ← argv !! 2%nat;
  need_num v (λ bit_val,
    if not_a_bit bit_val then bad kInvalidBitPosArgument ""
    else if zlen argv =? 3 then good (BitPosCmd key bit_val None)
    else if zlen argv =? 4 then
      a ← argv !! 3%nat; need_num a (λ start_offset, good (BitPosCmd key bit_val (Some (start_offset, None))))
    else if zlen argv =? 5 then
      a ← argv !! 3%nat; need_num a (λ start_offset,
      b ← argv !! 4%nat; need_num b (λ end_offset, good (BitPosCmd key bit_val (Some (start_offset, Some end_offset)))))
    else bad kSyntaxErr "bitpos").

Definition bit_word (s : bytes) : option BitOpType :=
  if same_word s "not" then Some kBitOpNot
  else if same_word s "and" then Some kBitOpAnd
  else if same_word s "or" then Some kBitOpOr
  else if same_word s "xor" then Some kBitOpXor
  else None.
(** The keys are copied as C texts: up to their first NUL. *)
Definition BitOpCmd_DoInitial (argv : list bytes) : Init :=
  op_str ← argv !! 1%nat;
  match bit_word op_str with
  | None => bad kSyntaxErr "bitop"
  | Some op =>
      if bool_decide (op = kBitOpNot) && negb (zlen argv =? 4) then bad kWrongBitOpNotNum "bitop"
      else if negb (bool_decide (op = kBitOpNot)) && (zlen argv <? 4) then bad kWrongNum "bitop"
      else if zlen argv >=? kMaxBitOpInputKey then bad kWrongNum "bitop"
      else dest_key ← argv !! 2%nat; good (BitOpCmd op (c_text dest_key) (c_text <$> drop 3 argv))
  end.

Definition PfAddCmd_DoInitial : list bytes → option (CmdRes + HllCmd) := key_list PfAddCmd.
Definition PfCountCmd_DoInitial : list bytes → option (CmdRes + HllCmd) := all_keys PfCountCmd.
Definition PfMergeCmd_DoInitial : list bytes → option (CmdRes + HllCmd) := all_keys PfMergeCmd.

Definition kCmdFlagsBit : Z := 12.
Definition kCmdFlagsHyperLogLog : Z := 14.
Definition BitTable : list (Entry BitCmd) := [
  entry "setbit" 4 (Z.lor (Z.lor kCmdFlagsWrite kCmdFlagsSinglePartition) kCmdFlagsBit) BitSetCmd_DoInitial;
  entry "getbit" 3 (Z.lor (Z.lor kCmdFlagsRead kCmdFlagsSinglePartition) kCmdFlagsBit) BitGetCmd_DoInitial;
  entry "bitcount" (-2) (Z.lor (Z.lor kCmdFlagsRead kCmdFlagsSinglePartition) kCmdFlagsBit) BitCountCmd_DoInitial;
  entry "bitpos" (-3) (Z.lor (Z.lor kCmdFlagsRead kCmdFlagsSinglePartition) kCmdFlagsBit) BitPosCmd_DoInitial;
  entry "bitop" (-3) (Z.lor (Z.lor kCmdFlagsWrite kCmdFlagsMultiPartition) kCmdFlagsBit) BitOpCmd_DoInitial ].
Definition HllTable : list (Entry HllCmd) := [
  entry "pfadd" (-2) (Z.lor (Z.lor kCmdFlagsWrite kCmdFlagsSinglePartition) kCmdFlagsHyperLogLog) PfAddCmd_DoInitial;
  entry "pfcount" (-2) (Z.lor (Z.lor kCmdFlagsRead kCmdFlagsMultiPartition) kCmdFlagsHyperLogLog) PfCountCmd_DoInitial;
  entry "pfmerge" (-3) (Z.lor (Z.lor kCmdFlagsWrite kCmdFlagsMultiPartition) kCmdFlagsHyperLogLog) PfMergeCmd_DoInitial ].
End Initial.

Definition bit_key (c : BitCmd) : list bytes :=
  match c with
  | BitGetCmd k _ | BitSetCmd k _ _ | BitCountCmd k _ _ _ | BitPosCmd k _ _ => [k]
  | BitOpCmd _ _ _ => [[]]
  end.
Definition hll_key (c : HllCmd) : list bytes :=
  match c with PfAddCmd k _ => [k] | PfCountCmd _ | PfMergeCmd _ => [[]] end.

#[export] Instance bit_family {N : NumString} {SN : StringNum} : CmdFamily BitCmd := {
  family_table := BitTable; family_key := bit_key; family_text argv _ _ := request_text argv }.
#[export] Instance hll_family {N : NumString} {SN : StringNum} : CmdFamily HllCmd := {
  family_table := HllTable; family_key := hll_key; family_text argv _ _ := request_text argv }.

(** ** Running *)

Section Do.
Context {N : NumString} {RS DB : Type} {RO : RocksStatus RS} {B : Bits RS DB} {HL : HyperLogLogs RS DB}.
Implicit Types (key : bytes) (now : Z) (db : DB).

Definition BitSetCmd_Do key (bit_offset on_ : Z) now db : option (CmdRes * DB) :=
  let '(s, n, db) := bw_SetBit (RS := RS) key bit_offset on_ now db in Some (integer_or_err s n, db).
Definition BitGetCmd_Do key (bit_offset : Z) now db : option (CmdRes * DB) :=
  let '(s, n) := bw_GetBit (RS := RS) key bit_offset now db in Some (integer_or_err s n, db).
Definition BitCountCmd_Do key (count_all : bool) (start_offset end_offset : Z) now db : option (CmdRes * DB) :=
  let '(s, n) := bw_BitCount (RS := RS) key start_offset end_offset (negb count_all) now db in
  Some (found_or_err s n, db).
(** [(int)pos]. *)
Definition BitPosCmd_Do key (bit_val : Z) (range : option (Z * option Z)) now db : option (CmdRes * DB) :=
  let '(s, pos) := bw_BitPos (RS := RS) key bit_val range now db in Some (integer_or_err s (s32 pos), db).
Definition BitOpCmd_Do (op : BitOpType) (dest_key : bytes) (src_keys : list bytes) now db : option (CmdRes * DB) :=
  let '(s, n, db) := bw_BitOp (RS := RS) op dest_key src_keys now db in Some (integer_or_err s n, db).

#[export] Instance bit_run : CmdRun BitCmd DB := λ c now db,
  match c with
  | BitGetCmd key bit_offset => BitGetCmd_Do key bit_offset now db
  | BitSetCmd key bit_offset on_ => BitSetCmd_Do key bit_offset on_ now db
  | BitCountCmd key count_all start_offset end_offset => BitCountCmd_Do key count_all start_offset end_offset now db
  | BitPosCmd key bit_val range => BitPosCmd_Do key bit_val range now db
  | BitOpCmd op dest_key src_keys => BitOpCmd_Do op dest_key src_keys now db
  end.

Definition PfAddCmd_Do key (values : list bytes) now db : option (CmdRes * DB) :=
  let '(s, update, db) := bw_PfAdd (RS := RS) key values now db in
  Some (if rs_ok s && update then integer 1 else if rs_ok s && negb update then integer 0 else err s, db).
Definition PfCountCmd_Do (keys : list bytes) now db : option (CmdRes * DB) :=
  let '(s, n) := bw_PfCount (RS := RS) keys now db in Some (integer_or_err s n, db).
Definition PfMergeCmd_Do (keys : list bytes) now db : option (CmdRes * DB) :=
  let '(s, db) := bw_PfMerge (RS := RS) keys now db in Some (ok_or_err s, db).

#[export] Instance hll_run : CmdRun HllCmd DB := λ c now db,
  match c with
  | PfAddCmd key values => PfAddCmd_Do key values now db
  | PfCountCmd keys => PfCountCmd_Do keys now db
  | PfMergeCmd keys => PfMergeCmd_Do keys now db
  end.
End Do.

(** The definitions, for proofs by cases. *)
#[export] Hint Unfold BitSetCmd_DoInitial BitGetCmd_DoInitial BitCountCmd_DoInitial
  BitPosCmd_DoInitial BitOpCmd_DoInitial PfAddCmd_DoInitial PfCountCmd_DoInitial
  PfMergeCmd_DoInitial : family_init.
#[export] Hint Unfold BitSetCmd_Do BitGetCmd_Do BitCountCmd_Do BitPosCmd_Do BitOpCmd_Do PfAddCmd_Do
  PfCountCmd_Do PfMergeCmd_Do : family_do.
