(* ===== verification/FamilyFacts.v ===== *)
(** * The families of commands: what they guarantee

    Arguments are read within bounds, with one exception: ZUNIONSTORE and ZINTERSTORE
    with a number of keys whose sum with 3 overflows.  Every reply is one of the protocol. *)

From S2P Require Import Prelude Define Env Transverter Command StableLog CmdRes Blackwidow CmdArgs CmdReply CmdFamily.
From S2P Require Import KvCmd HashCmd ListCmd SetsCmd ZsetCmd ZsetPages BitCmd.
From stdpp Require Import base list strings pretty gmap.
From Stdlib Require Import ZArith Lia Init.Byte.
#[local] Open Scope string_scope.
#[local] Open Scope list_scope.
#[local] Open Scope Z_scope.

(** The number of keys that overflows. *)
Definition num_keys_overflow {SN : StringNum} (name : string) (argv : list bytes) : Prop :=
  name ∈ ["zunionstore"; "zinterstore"] ∧ 4 ≤ zlen argv ∧ ∃ v n, argv !! 2%nat = Some v ∧ num v = Some n ∧ 2 ^ 63 - 3 ≤ n.

(** A command that is made; the writers that are not flagged are no readers. *)
Ltac made := apply outcome_good; first [done | intros _ []; set_solver].
Ltac table_entries tac :=
  unfold table_ok; repeat (apply Forall_cons; split); try done;
  (split; [split; reflexivity|intros argv H]); cbn [entry e_name e_wrong e_arity e_init] in *; tac.

#[export] Instance hash_reading : Reading HashCmd := λ c,
  match c with
  | HGetCmd _ _ | HGetallCmd _ | HExistsCmd _ _ | HKeysCmd _ | HLenCmd _ | HMgetCmd _ _ | HStrlenCmd _ _ | HValsCmd _
  | HScanCmd _ _ _ _ | HScanxCmd _ _ _ _ | PKHScanRangeCmd _ _ _ _ _ | PKHRScanRangeCmd _ _ _ _ _ => true
  | _ => false
  end.
#[export] Instance list_reading : Reading ListCmd := λ c,
  match c with LIndexCmd _ _ | LLenCmd _ | LRangeCmd _ _ _ => true | _ => false end.
#[export] Instance set_reading : Reading SetsCmd := λ c,
  match c with
  | SCardCmd _ | SMembersCmd _ | SScanCmd _ _ _ _ | SUnionCmd _ | SInterCmd _ | SIsmemberCmd _ _ | SDiffCmd _ => true
  | _ => false
  end.
#[export] Instance zset_reading {D} : Reading (ZsetCmd D) := λ c,
  match c with
  | ZCardCmd _ _ | ZScanCmd _ _ _ _ _ | ZRangeCmd _ _ _ _ _ | ZRevrangeCmd _ _ _ _ _ | ZRangebyscoreCmd _ _ _ _ _ _ _ _ _
  | ZRevrangebyscoreCmd _ _ _ _ _ _ _ _ _ | ZCountCmd _ _ _ _ _ _ | ZRankCmd _ _ _ | ZRevrankCmd _ _ _ | ZScoreCmd _ _ _
  | ZRangebylexCmd _ _ _ _ _ _ _ _ | ZRevrangebylexCmd _ _ _ _ _ _ _ _ | ZLexcountCmd _ _ _ _ _ _ => true
  | _ => false
  end.
#[export] Instance bit_reading : Reading BitCmd := λ c,
  match c with BitGetCmd _ _ | BitCountCmd _ _ _ _ | BitPosCmd _ _ _ => true | _ => false end.
#[export] Instance hll_reading : Reading HllCmd := λ c, match c with PfCountCmd _ => true | _ => false end.

Ltac plain_entry := arity; autounfold with family_init cmd_init; repeat first [made | outcome_step].

(** ** Arguments *)

Section Arguments.
Context {SN : StringNum}.

Lemma field_values_even args : zlen args mod 2 = 0 → ∃ fvs, field_values args = Some fvs.
Proof.
  induction args as [[|x [|y l]] IH] using by_length; intros H; [by eexists|done|].
  destruct (IH l) as [fvs Hk]; [cbn; lia| |].
  { rewrite !zlen_cons in H. replace (1 + (1 + zlen l)) with (zlen l + 1 * 2) in H by lia.
    by rewrite Z.mod_add in H. }
  cbn [field_values]. rewrite Hk. by eexists.
Qed.
Lemma hmset_outcome U (G : HashCmd → Prop) argv : CheckArg (-4) argv = true → (∀ k l, G (HMsetCmd k l)) →
  outcome U G (HMsetCmd_DoInitial argv).
Proof.
  intros H HG. apply CheckArg_least in H; [|lia]. unfold HMsetCmd_DoInitial. outcome_step.
  destruct (Z.eqb_spec (zlen argv mod 2) 0) as [Hm|]; cbn [negb]; [|by apply outcome_bad].
  destruct (field_values_even (drop 2 argv)) as [fvs ->]; [|by apply outcome_good].
  destruct argv as [|x [|y argv]]; [done|done|]. rewrite !zlen_cons in Hm. cbn [drop]. rewrite drop_0.
  replace (1 + (1 + zlen argv)) with (zlen argv + 1 * 2) in Hm by lia. by rewrite Z.mod_add in Hm.
Qed.

Lemma hash_table_ok U : table_ok U read_only HashTable.
Proof.
  table_entries ltac:(first [by apply hmset_outcome
    | plain_entry]).
Qed.

Lemma list_table_ok U : table_ok U read_only ListTable.
Proof. table_entries plain_entry. Qed.

Lemma set_table_ok U : table_ok U read_only SetTable.
Proof. table_entries plain_entry. Qed.

Lemma bit_table_ok U : table_ok U read_only BitTable.
Proof. table_entries plain_entry. Qed.
Lemma hll_table_ok U : table_ok U read_only HllTable.
Proof. table_entries plain_entry. Qed.

Context {D : Type} {SC : Scores D} {FT : FloatText} (G : ZsetCmd D → Prop).

Lemma zadd_members_outcome U key args : (∀ l, G (ZAddCmd D key l)) → zlen args mod 2 = 0 → ∀ acc, outcome U G (zadd_members key args acc).
Proof.
  intros HG. induction args as [[|x [|y l]] IH] using by_length; intros H acc; [by apply outcome_good|done|]. cbn [zadd_members].
  case_match; [|by apply outcome_bad]. apply IH; [cbn; lia|].
  rewrite !zlen_cons in H. replace (1 + (1 + zlen l)) with (zlen l + 1 * 2) in H by lia. by rewrite Z.mod_add in H.
Qed.
Lemma zadd_outcome U argv : CheckArg (-4) argv = true → (∀ k l, G (ZAddCmd D k l)) → outcome U G (ZAddCmd_DoInitial argv).
Proof.
  intros H HG. apply CheckArg_least in H; [|lia]. unfold ZAddCmd_DoInitial.
  destruct (Z.eqb_spec (zlen argv mod 2) 1) as [|Hm]; [by apply outcome_bad|]. outcome_step.
  apply zadd_members_outcome; [done|]. destruct argv as [|x [|y argv]]; [done|done|]. rewrite !zlen_cons in Hm. cbn [drop]. rewrite drop_0.
  Z.to_euclidean_division_equations. lia.
Qed.
Lemma score_options_outcome U make opts : (∀ w o c, G (make w o c)) → ∀ w o c, outcome U G (score_options make w o c opts).
Proof.
  intros HG. induction opts as [[|x l] IH] using by_length; intros w o c; [by apply outcome_good|]. cbn [score_options].
  case_match; [apply IH; cbn; lia|]. case_match; [|by apply outcome_bad].
  destruct l as [|a [|b l]]; [by apply outcome_bad|by apply outcome_bad|].
  do 2 (apply outcome_need_num; intros ? ?). apply IH. cbn. lia.
Qed.
Lemma ui_options_outcome U make k opts : (∀ w a, G (make w a)) → ∀ l w a, outcome U G (ui_options make k l w a opts).
Proof.
  intros HG. induction opts as [[|x opts] IH] using by_length; intros l w a; [by apply outcome_good|]. cbn [ui_options].
  destruct l as [|l]; [|case_match; [apply IH; cbn; lia|by apply outcome_bad]].
  repeat (case_match; try by apply outcome_bad); subst; apply IH; cbn; lia.
Qed.

(** A number of keys that does not overflow is checked against the arguments. *)
Lemma ui_outcome name make argv : name ∈ ["zunionstore"; "zinterstore"] → CheckArg (-4) argv = true →
  (∀ d k w a, G (make d k w a)) → outcome (num_keys_overflow name argv) G (ui_parent make argv).
Proof.
  intros Hname H HG. apply CheckArg_least in H; [|lia]. unfold ui_parent. outcome_step.
  destruct (lookup_lt_is_Some_2 argv 2) as [w Hw]; [unfold zlen in H; lia|]. rewrite Hw. cbn [mbind option_bind].
  apply outcome_need_num. intros n Hn. repeat (case_match; try by apply outcome_bad).
  - split; [done|]. split; [lia|]. exists w, n. split_and!; [done|done|lia].
  - by apply ui_options_outcome.
Qed.

Lemma range_parent_outcome U make argv : CheckArg (-4) argv = true → (∀ k a b w, G (make k a b w)) →
  outcome U G (range_parent make argv).
Proof.
  intros H HG. arity. unfold range_parent.
  assert (∃ b, (if zlen argv =? 5 then w ← argv !! 4%nat; Some (same_word w "withscores") else Some false) = Some b) as [b ->].
  { destruct (Z.eqb_spec (zlen argv) 5); [|by eexists].
    destruct (lookup_lt_is_Some_2 argv 4) as [w ->]; [unfold zlen in *; lia|by eexists]. }
  case_match; [by apply outcome_bad|]. autounfold with cmd_init. repeat first [made | outcome_step].
Qed.

End Arguments.

Lemma zset_table_ok {SN : StringNum} {D} {SC : Scores D} {FT : FloatText} : table_ok num_keys_overflow read_only (ZsetTable (D := D)).
Proof.
  table_entries ltac:(first [by apply zadd_outcome | by apply range_parent_outcome | apply ui_outcome; [set_solver|done|done]
    | arity; autounfold with family_init cmd_init;
      repeat first [made | by apply score_options_outcome | outcome_step]]).
Qed.

(** ** Replies *)

Section Replies.
Context {N : NumString} {NL : NumStringLaws} {SN : StringNum} {RL : ReplyLimits}.
Context {RS DB : Type} {RO : RocksStatus RS}.
Context (num_flat : ∀ n, flat (ll2string n)) (status_flat : ∀ s : RS, flat (rs_ToString s)).

(** The cases of a reply. *)
Ltac reply_cases :=
  repeat match goal with
  | |- context [let '(_, _) := ?x in _] => destruct x eqn:?
  | H : context [let '(_, _) := ?x in _] |- _ => destruct x eqn:?
  end.
Ltac replies :=
  repeat case_match;
  auto using err_reply, int_reply, text_reply, null_reply, null_array_reply, counter_reply_ok, float_reply_ok,
    mget_reply_ok, null_content_reply, found_or_err_ok, integer_or_err_ok, ok_or_err_ok, value_reply_ok,
    value_or_len_reply_ok, list_reply_ok, strings_reply_ok, found_reply_ok, colon_ok, empty_array_ok;
  try (by apply code_reply); try (by apply internal_reply); try (by apply (colon_digit_ok "1")); try (by apply (colon_digit_ok "0")).

Lemma headed_ok (s : RS) n l : good_reply (found_reply s (strings_reply l (cursor_head n))).
Proof. apply found_reply_ok; [done|]. rewrite cursor_head_eq by done. by apply headed_strings_ok. Qed.
Lemma headed_pairs (s : RS) n l : good_reply (found_reply s (pairs_reply l (cursor_head n))).
Proof. rewrite pairs_reply_eq. apply headed_ok. Qed.
Lemma text_headed_pairs (s : RS) t l : good_reply (found_reply s (pairs_reply l (text_head t))).
Proof. apply found_reply_ok; [done|]. by apply headed_pairs_ok. Qed.

Context {HH : Hashes RS DB}.

Lemma hgetall_reply fuel key now (db : DB) : ∀ cursor total raw l r,
  raw = concat (bulk <$> l) → 2 * total = zlen l →
  hgetall_loop (RS := RS) raw_limit fuel key now db cursor total raw = Some r → good_reply r.
Proof.
  induction fuel as [|fuel IH]; intros cursor total raw l r -> Hl Hr; [done|]. cbn [hgetall_loop] in Hr.
  destruct (bw_HScan _ _ _ _ _ _) as [[s fvs] c]. destruct (rs_ok s) eqn:Hs; cbn [negb] in Hr.
  2:{ injection Hr as <-. apply found_reply_ok; [done|].
      unfold good_reply, message, AppendStringRaw, append_message. cbn [ret_ message_ AppendArrayLen append_message res_new].
      rewrite app_nil_r. exact (strings_reply_ok []). }
  destruct (_ >=? raw_limit); [injection Hr as <-; by apply internal_reply|].
  rewrite raw_keys_text in Hr.
  assert (concat (bulk <$> l) ++ concat (bulk <$> pair_texts fvs) = concat (bulk <$> (l ++ pair_texts fvs))) as E
    by (by rewrite fmap_app, concat_app).
  assert (2 * (total + zlen fvs) = zlen (l ++ pair_texts fvs)) as E2 by (rewrite zlen_app, pair_texts_length; lia).
  rewrite E in Hr. destruct (c =? 0); cbn [negb] in Hr; [|by apply (IH _ _ _ (l ++ pair_texts fvs)) in Hr].
  injection Hr as <-. apply found_reply_ok; [done|]. unfold good_reply, message, AppendStringRaw, append_message. cbn [ret_ message_].
  rewrite AppendArrayLen_message. cbn [message_ res_new app]. rewrite <- !app_assoc, Z.mul_comm, E2. apply bulk_array.
Qed.

Lemma hash_reply (c : HashCmd) now (db : DB) r db' : cmd_Do c now db = Some (r, db') → good_reply r.
Proof.
  intros Hr. destruct c; unfold cmd_Do, hash_run, hash_Do in Hr; autounfold with family_do in Hr; reply_cases;
    try (injection Hr as <- <-); replies; auto using headed_pairs, text_headed_pairs.
  destruct (hgetall_loop _ _ _ _ _ _ _ _) as [r0|] eqn:E; [|done]. injection Hr as <- <-.
  by apply (hgetall_reply _ _ _ _ _ _ _ [] r0) in E.
Qed.

Context {LL : Lists RS DB}.
Lemma list_cmd_reply (c : ListCmd) now (db : DB) r db' : cmd_Do c now db = Some (r, db') → good_reply r.
Proof.
  intros Hr. destruct c; unfold cmd_Do, list_run in Hr; autounfold with family_do in Hr; reply_cases; injection Hr as <- <-; replies.
  - exact (strings_reply_ok []).
  - apply found_reply_ok; [done|]. by apply code_reply.
Qed.

Context {SS : Sets RS DB}.
Lemma set_cmd_reply (c : SetsCmd) now (db : DB) r db' : cmd_Do c now db = Some (r, db') → good_reply r.
Proof.
  intros Hr. destruct c; unfold cmd_Do, set_run in Hr; autounfold with family_do in Hr; reply_cases; injection Hr as <- <-; replies;
    auto using headed_ok.
Qed.

Context {BB : Bits RS DB} {PP : HyperLogLogs RS DB}.
Lemma bit_reply (c : BitCmd) now (db : DB) r db' : cmd_Do c now db = Some (r, db') → good_reply r.
Proof.
  intros Hr. destruct c; unfold cmd_Do, bit_run in Hr; autounfold with family_do in Hr;
    reply_cases; injection Hr as <- <-; replies.
Qed.
Lemma hll_reply (c : HllCmd) now (db : DB) r db' : cmd_Do c now db = Some (r, db') → good_reply r.
Proof.
  intros Hr. destruct c; unfold cmd_Do, hll_run in Hr; autounfold with family_do in Hr;
    reply_cases; injection Hr as <- <-; replies.
Qed.

Context {D : Type} {SC : Scores D} {FT : FloatText} {ZZ : ZSets D RS DB}.
Lemma member_texts_length w (l : list (D * bytes)) : zlen (member_texts w l) = if w then zlen l * 2 else zlen l.
Proof.
  unfold member_texts. induction l as [|[a b] l IH]; [by destruct w|]. rewrite bind_cons, zlen_app, IH, (zlen_cons _ l).
  destruct w; unfold zlen; cbn [length fst snd]; lia.
Qed.
Lemma members_reply_eq w (l : list (D * bytes)) r : members_reply w l r = strings_reply (member_texts w l) r.
Proof. unfold members_reply, strings_reply. by rewrite member_texts_length. Qed.
Lemma members_reply_ok w (l : list (D * bytes)) : good_reply (members_reply w l res_new).
Proof. rewrite members_reply_eq. apply strings_reply_ok. Qed.
Lemma headed_members (s : RS) n w (l : list (D * bytes)) : good_reply (found_reply s (members_reply w l (cursor_head n))).
Proof. rewrite members_reply_eq. apply headed_ok. Qed.
Lemma byscore_reply_ok (s : RS) (l : list (D * bytes)) w o c r : byscore_reply s l w o c = Some r → good_reply r.
Proof.
  unfold byscore_reply. destruct (_ && _); [intros [= <-]; by apply err_reply|].
  destruct (limited _ _ _); [intros [= <-]; apply members_reply_ok|done].
Qed.
Lemma bylex_reply_ok (s : RS) l f r : bylex_reply s l f = Some r → good_reply r.
Proof.
  unfold bylex_reply. destruct (_ && _); [intros [= <-]; by apply err_reply|].
  destruct (f _); [intros [= <-]; by apply strings_reply_ok|done].
Qed.
Lemma some_bind_reply {B} (x : option CmdRes) (d : B) r d' : (x ≫= λ r, Some (r, d)) = Some (r, d') → x = Some r.
Proof. destruct x; [|done]. by intros [= <- <-]. Qed.

Lemma zset_reply (c : ZsetCmd D) now (db : DB) r db' : cmd_Do c now db = Some (r, db') → good_reply r.
Proof.
  intros Hr. destruct c; unfold cmd_Do, zset_run in Hr; autounfold with family_do in Hr;
    repeat match type of Hr with context [if ?b then Some (AppendContent _ _, _) else _] => destruct b end; reply_cases;
    try (apply some_bind_reply in Hr); eauto using byscore_reply_ok, bylex_reply_ok;
    injection Hr as <- <-; replies; auto using headed_members, members_reply_ok, found_reply_ok.
Qed.
End Replies.

(** ** Every command ends *)

Section Returns.
Context {N : NumString} {SN : StringNum} {RL : ReplyLimits}.
Context {RS DB : Type} {RO : RocksStatus RS}.

Context {HH : Hashes RS DB}.
(** The scan of HGETALL fails or comes to its end, the cursor 0, in [n] steps. *)
Fixpoint hscan_ends (n : nat) (key : bytes) (now : Z) (db : DB) (cursor : Z) : bool :=
  match n with
  | O => false
  | S n =>
      let '(s, _, next) := bw_HScan (RS := RS) key cursor (str "*") PIKA_SCAN_STEP_LENGTH now db in
      negb (rs_ok s) || (next =? 0) || hscan_ends n key now db next
  end.
Lemma hgetall_returns n key now (db : DB) : ∀ cursor total raw, hscan_ends n key now db cursor = true →
  hgetall_loop (RS := RS) raw_limit n key now db cursor total raw ≠ None.
Proof.
  induction n as [|n IH]; intros cursor total raw H; [done|]. cbn [hscan_ends hgetall_loop] in *.
  destruct (bw_HScan _ _ _ _ _ _) as [[s fvs] next]. destruct (rs_ok s); cbn [negb orb] in *; [|done].
  destruct (_ >=? _); [done|]. destruct (next =? 0); cbn [negb orb] in *; [done|by apply IH].
Qed.
#[export] Instance hash_returning : Returning HashCmd DB.
Proof.
  refine {| returns c now db := ∀ key, c = HGetallCmd key → hscan_ends scan_fuel key now db 0 = true |}.
  intros c now db H. destruct c; unfold cmd_Do, hash_run, hash_Do; autounfold with family_do; try (by repeat case_match).
  destruct (hgetall_loop _ _ _ _ _ _ _ _) eqn:E; [done|]. by apply hgetall_returns in E; [|apply H].
Defined.

Context {LL : Lists RS DB} {SS : Sets RS DB} {BB : Bits RS DB} {PP : HyperLogLogs RS DB}.
#[export] Instance list_returning : Returning ListCmd DB.
Proof.
  refine {| returns _ _ _ := True |}. intros c now db _.
  destruct c; unfold cmd_Do, list_run; autounfold with family_do; by repeat case_match.
Defined.
#[export] Instance set_returning : Returning SetsCmd DB.
Proof.
  refine {| returns _ _ _ := True |}. intros c now db _.
  destruct c; unfold cmd_Do, set_run; autounfold with family_do; by repeat case_match.
Defined.
#[export] Instance bit_returning : Returning BitCmd DB.
Proof.
  refine {| returns _ _ _ := True |}. intros c now db _.
  destruct c; unfold cmd_Do, bit_run; autounfold with family_do; by repeat case_match.
Defined.
#[export] Instance hll_returning : Returning HllCmd DB.
Proof.
  refine {| returns _ _ _ := True |}. intros c now db _.
  destruct c; unfold cmd_Do, hll_run; autounfold with family_do; by repeat case_match.
Defined.

Context {D : Type} {SC : Scores D} {FT : FloatText} {ZZ : ZSets D RS DB}.
(** The ranges with LIMIT return if count and number of members stay in bounds. *)
Definition small_page {A} (count : Z) (l : list A) : Prop := zlen l < 2 ^ 62 ∧ count + zlen l < 2 ^ 63.
Definition zset_returns (c : ZsetCmd D) (now : Z) (db : DB) : Prop :=
  match c with
  | ZRangebyscoreCmd _ key a b l r _ _ count => small_page count (bw_ZRangebyscore (RS := RS) key a b l r now db).2
  | ZRevrangebyscoreCmd _ key a b l r _ _ count => small_page count (bw_ZRevrangebyscore (RS := RS) key a b l r now db).2
  | ZRangebylexCmd _ key a b l r _ count | ZRevrangebylexCmd _ key a b l r _ count =>
      small_page count (bw_ZRangebylex (D := D) (RS := RS) key a b l r now db).2
  | _ => True
  end.
#[export] Instance zset_returning : Returning (ZsetCmd D) DB.
Proof.
  refine {| returns := zset_returns |}. intros c now db H.
  destruct c; cbn [zset_returns] in H; unfold cmd_Do, zset_run; autounfold with family_do; try (by repeat case_match).
  all: case_match; [done|]; destruct H as [H1 H2].
  - destruct (bw_ZRangebyscore _ _ _ _ _ _ _) as [s ms]. unfold byscore_reply. destruct (_ && _); [done|].
    by rewrite limited_run.
  - destruct (bw_ZRevrangebyscore _ _ _ _ _ _ _) as [s ms]. unfold byscore_reply. destruct (_ && _); [done|].
    by rewrite limited_run.
  - destruct (bw_ZRangebylex _ _ _ _ _ _ _) as [s ms]. unfold bylex_reply. destruct (_ && _); [done|].
    by rewrite limited_run.
  - destruct (bw_ZRangebylex _ _ _ _ _ _ _) as [s ms]. unfold bylex_reply. destruct (_ && _); [done|].
    by rewrite limited_rev_run.
Defined.
End Returns.

(** ** Reading *)

Section Keeps.
Context {N : NumString} {SN : StringNum} {RL : ReplyLimits}.
Context {RS DB : Type} {RO : RocksStatus RS}.
Context {HH : Hashes RS DB} {LL : Lists RS DB} {SS : Sets RS DB} {BB : Bits RS DB} {PP : HyperLogLogs RS DB}.
Context {D : Type} {SC : Scores D} {FT : FloatText} {ZZ : ZSets D RS DB}.

Ltac keeps := intros c now db r db' Hr H; destruct c; try done;
  unfold cmd_Do, hash_run, hash_Do, list_run, set_run, bit_run, hll_run, zset_run in H; autounfold with family_do in H; by same_database H.
#[export] Instance hash_keeping : Keeping HashCmd DB.
Proof. keeps. Qed.
#[export] Instance list_keeping : Keeping ListCmd DB.
Proof. keeps. Qed.
#[export] Instance set_keeping : Keeping SetsCmd DB.
Proof. keeps. Qed.
#[export] Instance bit_keeping : Keeping BitCmd DB.
Proof. keeps. Qed.
#[export] Instance hll_keeping : Keeping HllCmd DB.
Proof. keeps. Qed.
#[export] Instance zset_keeping : Keeping (ZsetCmd D) DB.
Proof. keeps. Qed.
End Keeps.
