(* ===== verification/GeoCmd.v ===== *)
(** * Geo commands (src/pika_geo.cc, src/include/pika_geo.h)

    Positions are members of a sorted set whose score is the number of their cell.  A
    [double] member that the code leaves unset is [None], and a command that uses it, or
    converts a number that does not fit, has the result [None]. *)

From S2P Require Import Prelude Define Env Transverter Command StableLog CmdRes Blackwidow CmdArgs CmdReply CmdFamily.
From S2P Require Import Geohash Float64 GeoCoord ZsetCmd.
From stdpp Require Import base list strings pretty gmap.
From Stdlib Require Import ZArith Lia Init.Byte.
#[local] Open Scope string_scope.
#[local] Open Scope list_scope.
#[local] Open Scope Z_scope.

Inductive Sort := Unsort | Asc | Desc.
Record GeoPoint := mkPoint { gp_member : bytes; gp_longitude : double; gp_latitude : double }.
Record NeighborPoint := mkNeighbor { np_member : bytes; np_score : double; np_distance : double }.
Record GeoRange := mkGeoRange {
  rg_longitude : option double; rg_latitude : option double; rg_distance : option double; rg_unit : bytes;
  withdist : bool; withhash : bool; withcoord : bool; option_num : Z; rg_count : bool; count_limit : Z;
  rg_store : bool; rg_storedist : bool; storekey : bytes; rg_sort : Sort }.

Inductive GeoCmd :=
  | GeoAddCmd (key : bytes) (pos : list GeoPoint)
  | GeoPosCmd (key : bytes) (members : list bytes)
  | GeoDistCmd (key first_pos second_pos unit_ : bytes)
  | GeoHashCmd (key : bytes) (members : list bytes)
  | GeoRadiusCmd (key : bytes) (range : GeoRange)
  | GeoRadiusByMemberCmd (key member : bytes) (range : GeoRange).

(** [std::sort]: the order of equal elements is not specified. *)
Class StdSort := { std_sort {A} (lt : A → A → bool) : list A → list A }.

Section Geo.
Context {SC : Scores double} {FT : FloatText} {SN : StringNum}.
Abbreviation Init := (option (CmdRes + GeoCmd)).

(** ** Arguments *)

(** [slash::string2d], and its result. *)
Definition geo_double (s : bytes) : option double := if string2d s then Some (score_of s) else None.

Fixpoint geo_points (key : bytes) (args : list bytes) (acc : list GeoPoint) : Init :=
  match args with
  | [] => good (GeoAddCmd key acc)
  | lon :: args =>
      match geo_double lon with
      | None => bad kInvalidFloat ""
      | Some longitude =>
          match args with
          | [] => None
          | lat :: args =>
              match geo_double lat with
              | None => bad kInvalidFloat ""
              | Some latitude =>
                  match args with
                  | [] => None
                  | member :: args => geo_points key args (acc ++ [mkPoint member longitude latitude])
                  end
              end
          end
      end
  end.
Definition GeoAddCmd_DoInitial (argv : list bytes) : Init :=
  if negb ((zlen argv - 2) mod 3 =? 0) then bad kWrongNum "geoadd" else
  key ← argv !! 1%nat; geo_points key (drop 2 argv) [].

Definition GeoPosCmd_DoInitial : list bytes → Init := key_list GeoPosCmd.
Definition GeoHashCmd_DoInitial : list bytes → Init := key_list GeoHashCmd.

Definition check_unit (u : bytes) : bool :=
  bool_decide (u = str "m") || bool_decide (u = str "km") || bool_decide (u = str "ft") || bool_decide (u = str "mi").
Definition bad_unit : Init := bad kErrOther "unsupported unit provided. please use m, km, ft, mi".
Definition GeoDistCmd_DoInitial (argv : list bytes) : Init :=
  if zlen argv <? 4 then bad kWrongNum "geodist"
  else if zlen argv >? 5 then bad kSyntaxErr ""
  else
    key ← argv !! 1%nat; first_pos ← argv !! 2%nat; second_pos ← argv !! 3%nat;
    unit_ ← (if zlen argv =? 5 then argv !! 4%nat else Some (str "m"));
    if negb (check_unit unit_) then bad_unit else good (GeoDistCmd key first_pos second_pos unit_).

(** *** GEORADIUS and GEORADIUSBYMEMBER *)

Definition digit (c : byte) : option Z :=
  let n := Z.of_N (Byte.to_N c) in if (48 <=? n) && (n <=? 57) then Some (n - 48) else None.
(** [std::stoi] of a text of digits; it throws if there is none or the number is no [int]. *)
Definition stoi (s : bytes) : option Z :=
  match s with
  | [] => None
  | _ => n ← foldl (λ acc c, a ← acc; d ← digit c; Some (a * 10 + d)) (Some 0) s; if n <? 2 ^ 31 then Some n else None
  end.

(** The range after [Clear]. *)
Definition range_new (longitude latitude distance : option double) (u : bytes) : GeoRange :=
  mkGeoRange longitude latitude distance u false false false 0 false 0 false false [] Unsort.

Definition set_withdist (r : GeoRange) : GeoRange :=
  mkGeoRange (rg_longitude r) (rg_latitude r) (rg_distance r) (rg_unit r) true (withhash r) (withcoord r) (option_num r + 1)
    (rg_count r) (count_limit r) (rg_store r) (rg_storedist r) (storekey r) (rg_sort r).
Definition set_withhash (r : GeoRange) : GeoRange :=
  mkGeoRange (rg_longitude r) (rg_latitude r) (rg_distance r) (rg_unit r) (withdist r) true (withcoord r) (option_num r + 1)
    (rg_count r) (count_limit r) (rg_store r) (rg_storedist r) (storekey r) (rg_sort r).
Definition set_withcoord (r : GeoRange) : GeoRange :=
  mkGeoRange (rg_longitude r) (rg_latitude r) (rg_distance r) (rg_unit r) (withdist r) (withhash r) true (option_num r + 1)
    (rg_count r) (count_limit r) (rg_store r) (rg_storedist r) (storekey r) (rg_sort r).
Definition set_count (n : Z) (r : GeoRange) : GeoRange :=
  mkGeoRange (rg_longitude r) (rg_latitude r) (rg_distance r) (rg_unit r) (withdist r) (withhash r) (withcoord r) (option_num r)
    true n (rg_store r) (rg_storedist r) (storekey r) (rg_sort r).
Definition set_store (k : bytes) (r : GeoRange) : GeoRange :=
  mkGeoRange (rg_longitude r) (rg_latitude r) (rg_distance r) (rg_unit r) (withdist r) (withhash r) (withcoord r) (option_num r)
    (rg_count r) (count_limit r) true (rg_storedist r) k (rg_sort r).
Definition set_storedist (k : bytes) (r : GeoRange) : GeoRange :=
  mkGeoRange (rg_longitude r) (rg_latitude r) (rg_distance r) (rg_unit r) (withdist r) (withhash r) (withcoord r) (option_num r)
    (rg_count r) (count_limit r) (rg_store r) true k (rg_sort r).
Definition set_sort (o : Sort) (r : GeoRange) : GeoRange :=
  mkGeoRange (rg_longitude r) (rg_latitude r) (rg_distance r) (rg_unit r) (withdist r) (withhash r) (withcoord r) (option_num r)
    (rg_count r) (count_limit r) (rg_store r) (rg_storedist r) (storekey r) o.
Definition set_position (longitude latitude : double) (r : GeoRange) : GeoRange :=
  mkGeoRange (Some longitude) (Some latitude) (rg_distance r) (rg_unit r) (withdist r) (withhash r) (withcoord r) (option_num r)
    (rg_count r) (count_limit r) (rg_store r) (rg_storedist r) (storekey r) (rg_sort r).

(** The options, and the check that follows them. *)
Definition finish_range (make : GeoRange → GeoCmd) (r : GeoRange) : Init :=
  if rg_store r && (withdist r || withcoord r || withhash r)
  then bad kErrOther "STORE option in GEORADIUS is not compatible with WITHDIST, WITHHASH and WITHCOORDS options"
  else good (make r).
Fixpoint radius_options (make : GeoRange → GeoCmd) (r : GeoRange) (opts : list bytes) : Init :=
  match opts with
  | [] => finish_range make r
  | opt :: opts =>
      if same_word opt "withdist" then radius_options make (set_withdist r) opts
      else if same_word opt "withhash" then radius_options make (set_withhash r) opts
      else if same_word opt "withcoord" then radius_options make (set_withcoord r) opts
      else if same_word opt "count" then
        match opts with
        | [] => bad kSyntaxErr ""
        | str_count :: opts =>
            if negb (forallb (λ c, bool_decide (is_Some (digit c))) str_count)
            then bad kErrOther "value is not an integer or out of range"
            else match stoi str_count with None => None | Some n => radius_options make (set_count n r) opts end
        end
      else if same_word opt "store" then
        match opts with [] => bad kSyntaxErr "" | k :: opts => radius_options make (set_store k r) opts end
      else if same_word opt "storedist" then
        match opts with [] => bad kSyntaxErr "" | k :: opts => radius_options make (set_storedist k r) opts end
      else if same_word opt "asc" then radius_options make (set_sort Asc r) opts
      else if same_word opt "desc" then radius_options make (set_sort Desc r) opts
      else bad kSyntaxErr ""
  end.

(** A number that is none leaves the member unset. *)
Definition GeoRadiusCmd_DoInitial (argv : list bytes) : Init :=
  key ← argv !! 1%nat; lon ← argv !! 2%nat; lat ← argv !! 3%nat; dist ← argv !! 4%nat; u ← argv !! 5%nat;
  if negb (check_unit u) then bad_unit else
  radius_options (GeoRadiusCmd key) (range_new (geo_double lon) (geo_double lat) (geo_double dist) u) (drop 6 argv).
Definition GeoRadiusByMemberCmd_DoInitial (argv : list bytes) : Init :=
  key ← argv !! 1%nat; member ← argv !! 2%nat; dist ← argv !! 3%nat; u ← argv !! 4%nat;
  if negb (check_unit u) then bad_unit else
  radius_options (GeoRadiusByMemberCmd key member) (range_new None None (geo_double dist) u) (drop 5 argv).

Definition kCmdFlagsGeo : Z := 16.
Definition geoRead : Z := Z.lor (Z.lor kCmdFlagsRead kCmdFlagsSinglePartition) kCmdFlagsGeo.
Definition geoReadMulti : Z := Z.lor (Z.lor kCmdFlagsRead kCmdFlagsMultiPartition) kCmdFlagsGeo.
Definition geoWrite : Z := Z.lor (Z.lor kCmdFlagsWrite kCmdFlagsSinglePartition) kCmdFlagsGeo.

Definition GeoTable : list (Entry GeoCmd) := [
  entry "geoadd" (-5) geoWrite GeoAddCmd_DoInitial;
  entry "geopos" (-2) geoRead GeoPosCmd_DoInitial;
  entry "geodist" (-4) geoRead GeoDistCmd_DoInitial;
  entry "geohash" (-2) geoRead GeoHashCmd_DoInitial;
  entry "georadius" (-6) geoReadMulti GeoRadiusCmd_DoInitial;
  mkEntry "georadiusbymember" (-5) geoReadMulti "georadius" GeoRadiusByMemberCmd_DoInitial ].

(** GEORADIUS and GEORADIUSBYMEMBER have the key of the base class, an empty text. *)
Definition geo_key (c : GeoCmd) : list bytes :=
  match c with
  | GeoAddCmd k _ | GeoPosCmd k _ | GeoDistCmd k _ _ _ | GeoHashCmd k _ => [k]
  | GeoRadiusCmd _ _ | GeoRadiusByMemberCmd _ _ _ => [[]]
  end.

#[export] Instance geo_family {N : NumString} : CmdFamily GeoCmd := {
  family_table := GeoTable; family_key := geo_key; family_text argv _ _ := request_text argv }.

(** ** Running *)

Section Do.
Context {N : NumString} {ML : MathLib} {SS : StdSort} {RS DB : Type} {RO : RocksStatus RS} {H : ZSets double RS DB}.
Implicit Types (key : bytes) (now : Z) (db : DB).

(** The cell of a score. *)
Definition score_cell (score : double) : option GeoHashBits :=
  b ← d_to_u64 score; Some (mkHash b GEO_STEP_MAX).
Definition score_position (score : double) : option (double * double) :=
  h ← score_cell score; geohashDecodeToLongLatWGS84 h.

(** The score of a position: the number of its cell, through its decimal text. *)
Definition point_score (p : GeoPoint) : option (double * bytes) :=
  h ← geohashEncodeWGS84 (gp_longitude p) (gp_latitude p) GEO_STEP_MAX;
  score ← geo_double (to_string (geohashAlign52Bits h)); Some (score, gp_member p).
Definition GeoAddCmd_Do key (pos : list GeoPoint) now db : option (CmdRes * DB) :=
  score_members ← mapM point_score pos;
  let '(s, n, db) := bw_ZAdd (RS := RS) key score_members now db in Some (integer_or_err s n, db).

(** The members of a key one after the other; an error does not stop the loop. *)
Definition each_member key (f : double → CmdRes → option CmdRes) now db (r : option CmdRes) (member : bytes) : option CmdRes :=
  r ← r;
  let '(s, score) := bw_ZScore (RS := RS) key member now db in
  if rs_ok s then f score r
  else if rs_IsNotFound s then Some (AppendStringLen (-1) r) else Some (SetRes kErrOther (rs_ToString s) r).
Definition append_position (xy : double * double) (r : CmdRes) : CmdRes :=
  AppendString (d2string xy.2) (AppendString (d2string xy.1) (AppendArrayLen 2 r)).
Definition GeoPosCmd_Do key (members : list bytes) now db : option (CmdRes * DB) :=
  r ← foldl (each_member key (λ score r, xy ← score_position score; Some (append_position xy r)) now db)
        (Some (AppendArrayLen (zlen members) res_new)) members;
  Some (r, db).

Definition length_converter (meters : double) (u : bytes) : double :=
  if bool_decide (u = str "m") then meters
  else if bool_decide (u = str "km") then ddiv meters (d_of_Z 1000)
  else if bool_decide (u = str "ft") then ddiv meters (dec 3048 4)
  else if bool_decide (u = str "mi") then ddiv meters (dec 160934 2)
  else d_of_Z (-1).
Definition GeoDistCmd_Do key (first_pos second_pos u : bytes) now db : option (CmdRes * DB) :=
  let '(s, first_score) := bw_ZScore (RS := RS) key first_pos now db in
  if negb (rs_ok s) then Some (if rs_IsNotFound s then AppendStringLen (-1) res_new else err s, db) else
  first_xy ← score_position first_score;
  let '(s, second_score) := bw_ZScore (RS := RS) key second_pos now db in
  if negb (rs_ok s) then Some (if rs_IsNotFound s then AppendStringLen (-1) res_new else err s, db) else
  second_xy ← score_position second_score;
  let distance := geohashGetDistance first_xy.1 first_xy.2 second_xy.1 second_xy.2 in
  Some (AppendString (fixed4 (length_converter distance u)) res_new, db).

(** The text of GEOHASH: a cell of the ranges [±180] and [±90].  The count of the last
    shift is -3, which is undefined; processors of this family take it modulo 64. *)
Definition geoalphabet : list byte := str "0123456789bcdefghjkmnpqrstuvwxyz".
Definition geohash_char (h : GeoHashBits) (i : Z) : byte :=
  let idx := Z.land (Z.shiftr (bits h) ((52 - (i + 1) * 5) mod 64)) 0x1f in
  default x00 (geoalphabet !! Z.to_nat idx).
Definition geohash_text (xy : double * double) : option bytes :=
  h ← geohashEncode (mkRange (d_of_Z (-180)) (d_of_Z 180)) (mkRange (d_of_Z (-90)) (d_of_Z 90)) xy.1 xy.2 26;
  Some (geohash_char h <$> seqZ 0 11).
Definition GeoHashCmd_Do key (members : list bytes) now db : option (CmdRes * DB) :=
  r ← foldl (each_member key (λ score r, xy ← score_position score; text ← geohash_text xy; Some (AppendString text r)) now db)
        (Some (AppendArrayLen (zlen members) res_new)) members;
  Some (r, db).

(** *** [GetAllNeighbors] *)

Definition to_meters (distance : double) (u : bytes) : double :=
  if bool_decide (u = str "m") then distance
  else if bool_decide (u = str "km") then dmul distance (d_of_Z 1000)
  else if bool_decide (u = str "ft") then dmul distance (dec 3048 4)
  else if bool_decide (u = str "mi") then dmul distance (dec 160934 2)
  else d_of_Z (-1).

(** A range of scores: the members with the cells of their scores; [inl None]: a score that
    is no cell. *)
Definition cell_range key now db (min max : Z) : option RS + list ((double * bytes) * Z) :=
  let '(s, l) := bw_ZRangebyscore (RS := RS) key (d_of_Z min) (d_of_Z max) true true now db in
  if negb (rs_ok s) && negb (rs_IsNotFound s) then inl (Some s) else
  match mapM (λ sm : double * bytes, b ← d_to_u64 sm.1; Some (sm, b)) l with
  | None => inl None
  | Some l => inr l
  end.
Definition within (longitude latitude distance : double) (b : Z) : option double :=
  xy ← geohashDecodeToLongLatWGS84 (mkHash b GEO_STEP_MAX);
  geohashGetDistanceIfInRadiusWGS84 longitude latitude xy.1 xy.2 distance.
Definition neighbor_point (x : (double * bytes) * Z * double) : NeighborPoint :=
  mkNeighbor x.1.1.2 x.1.1.1 x.2.

Definition sort_points (o : Sort) (l : list NeighborPoint) : list NeighborPoint :=
  match o with
  | Unsort => l
  | Asc => std_sort (λ a b, dltb (np_distance a) (np_distance b)) l
  | Desc => std_sort (λ a b, dgtb (np_distance a) (np_distance b)) l
  end.
(** How many points are returned. *)
Definition points_limit (r : GeoRange) (n : Z) : Z :=
  if rg_count r then (if n <? count_limit r then n else count_limit r) else n.

Definition stored_score (range : GeoRange) (p : NeighborPoint) : double * bytes :=
  (if rg_store range then np_score p else length_converter (np_distance p) (rg_unit range), np_member p).

(** The reply for one point. *)
Definition append_point (range : GeoRange) (longitude latitude : double) (r : CmdRes) (p : NeighborPoint) : option CmdRes :=
  let r := if option_num range =? 0 then r else AppendArrayLen (option_num range + 1) r in
  let r := AppendString (np_member p) r in
  r ← (if withdist range then
         xy ← score_position (np_score p);
         Some (AppendString (fixed4 (length_converter (geohashGetDistance longitude latitude xy.1 xy.2) (rg_unit range))) r)
       else Some r);
  r ← (if withhash range then n ← d_to_s64 (np_score p); Some (AppendInteger n r) else Some r);
  if withcoord range then xy ← score_position (np_score p); Some (append_position xy r) else Some r.
Definition points_reply (range : GeoRange) (longitude latitude : double) (limit : Z) (l : list NeighborPoint) : option CmdRes :=
  foldl (λ r p, r ← r; append_point range longitude latitude r p) (Some (AppendArrayLen limit res_new)) l.

Definition GetAllNeighbors key (range : GeoRange) now db : option (CmdRes * DB) :=
  longitude ← rg_longitude range; latitude ← rg_latitude range; distance ← rg_distance range;
  let distance := to_meters distance (rg_unit range) in
  '(hash, neighbors) ← geohashGetAreasByRadiusWGS84 longitude latitude distance;
  match search (cell_range key now db) (within longitude latitude distance) hash neighbors with
  | inl None => None
  | inl (Some s) => Some (err s, db)
  | inr found =>
      let result := neighbor_point <$> found in
      let limit := points_limit range (zlen result) in
      let points := take (Z.to_nat limit) (sort_points (rg_sort range) result) in
      if rg_store range || rg_storedist range then
        let '(s, _, db) := bw_ZAdd (RS := RS) (storekey range) (stored_score range <$> points) now db in
        Some (if rs_ok s then AppendInteger limit res_new else err s, db)
      else r ← points_reply range longitude latitude limit points; Some (r, db)
  end.
Definition GeoRadiusCmd_Do key (range : GeoRange) now db : option (CmdRes * DB) := GetAllNeighbors key range now db.
(** Only a member that is found sets the position. *)
Definition GeoRadiusByMemberCmd_Do key (member : bytes) (range : GeoRange) now db : option (CmdRes * DB) :=
  let '(s, score) := bw_ZScore (RS := RS) key member now db in
  if rs_ok s then
    xy ← score_position score; GetAllNeighbors key (set_position xy.1 xy.2 range) now db
  else GetAllNeighbors key range now db.

#[export] Instance geo_run : CmdRun GeoCmd DB := λ c,
  match c with
  | GeoAddCmd key pos => GeoAddCmd_Do key pos
  | GeoPosCmd key members => GeoPosCmd_Do key members
  | GeoDistCmd key first_pos second_pos u => GeoDistCmd_Do key first_pos second_pos u
  | GeoHashCmd key members => GeoHashCmd_Do key members
  | GeoRadiusCmd key range => GeoRadiusCmd_Do key range
  | GeoRadiusByMemberCmd key member range => GeoRadiusByMemberCmd_Do key member range
  end.
End Do.
End Geo.

#[export] Hint Unfold GeoAddCmd_DoInitial GeoPosCmd_DoInitial GeoDistCmd_DoInitial GeoHashCmd_DoInitial GeoRadiusCmd_DoInitial
  GeoRadiusByMemberCmd_DoInitial bad_unit : family_init.
#[export] Hint Unfold GeoAddCmd_Do GeoPosCmd_Do GeoDistCmd_Do GeoHashCmd_Do GeoRadiusCmd_Do GeoRadiusByMemberCmd_Do : family_do.
