(* ===== verification/GeoFacts.v ===== *)
(** * Geo commands: what they guarantee

    Arguments are read within bounds but for a COUNT that is no [int].  The replies are of
    the protocol if the engine fails on no member and no option of GEORADIUS is repeated. *)

From S2P Require Import Prelude Define Env Transverter Command StableLog CmdRes Blackwidow CmdArgs CmdReply CmdFamily.
From S2P Require Import Geohash Float64 GeoCoord ZsetCmd FamilyFacts GeoCmd.
From stdpp Require Import base list strings pretty gmap.
From Stdlib Require Import ZArith Lia Init.Byte.
#[local] Open Scope string_scope.
#[local] Open Scope list_scope.
#[local] Open Scope Z_scope.

Definition digits (s : bytes) : bool := forallb (λ c, bool_decide (is_Some (digit c))) s.
(** A COUNT of digits, none or too many. *)
Definition bad_count (name : string) (argv : list bytes) : Prop :=
  name ∈ ["georadius"; "georadiusbymember"] ∧
  ∃ i opt v, argv !! i = Some opt ∧ same_word opt "count" = true ∧ argv !! S i = Some v ∧ digits v = true ∧ stoi v = None.

#[export] Instance geo_reading : Reading GeoCmd := λ c,
  match c with
  | GeoAddCmd _ _ => false
  | GeoRadiusCmd _ range | GeoRadiusByMemberCmd _ _ range => negb (rg_store range || rg_storedist range)
  | _ => true
  end.

(** ** Arguments *)

Section Arguments.
Context {SC : Scores double} {FT : FloatText} {SN : StringNum}.

Lemma geo_points_outcome U (G : GeoCmd → Prop) key args : (∀ l, G (GeoAddCmd key l)) → zlen args mod 3 = 0 → ∀ acc,
  outcome U G (geo_points key args acc).
Proof.
  intros HG. induction args as [[|x [|y [|z l]]] IH] using by_length; intros H acc; [by apply outcome_good|done|done|].
  cbn [geo_points]. repeat (case_match; [|by apply outcome_bad]). apply IH; [cbn; lia|].
  rewrite !zlen_cons in H. replace (1 + (1 + (1 + zlen l))) with (zlen l + 1 * 3) in H by lia. by rewrite Z.mod_add in H.
Qed.
Lemma geoadd_outcome U (G : GeoCmd → Prop) argv : CheckArg (-5) argv = true → (∀ k l, G (GeoAddCmd k l)) →
  outcome U G (GeoAddCmd_DoInitial argv).
Proof.
  intros H HG. apply CheckArg_least in H; [|lia]. unfold GeoAddCmd_DoInitial.
  destruct (Z.eqb_spec ((zlen argv - 2) mod 3) 0) as [Hm|]; cbn [negb]; [|by apply outcome_bad]. outcome_step.
  apply geo_points_outcome; [done|]. destruct argv as [|x [|y argv]]; [done|done|]. rewrite !zlen_cons in Hm. cbn [drop]. rewrite drop_0.
  by replace (1 + (1 + zlen argv) - 2) with (zlen argv) in Hm by lia.
Qed.
Lemma geodist_outcome U (G : GeoCmd → Prop) argv : CheckArg (-4) argv = true → (∀ k a b u, G (GeoDistCmd k a b u)) →
  outcome U G (GeoDistCmd_DoInitial argv).
Proof.
  intros H HG. arity. unfold GeoDistCmd_DoInitial. do 2 (case_match; [by apply outcome_bad|]). do 3 outcome_step.
  assert (∃ u, (if zlen argv =? 5 then argv !! 4%nat else Some (str "m")) = Some u) as [u ->].
  { destruct (Z.eqb_spec (zlen argv) 5); [|by eexists]. apply lookup_lt_is_Some_2. unfold zlen in *. lia. }
  cbn [mbind option_bind]. unfold bad_unit. repeat first [made | outcome_step].
Qed.

(** The options, as a suffix of the arguments. *)
Lemma radius_outcome (U : Prop) (G : GeoCmd → Prop) make (argv : list bytes) : (∀ r, G (make r)) →
  (∀ i opt v, argv !! i = Some opt → same_word opt "count" = true → argv !! S i = Some v → digits v = true → stoi v = None → U) →
  ∀ opts i r, drop i argv = opts → outcome U G (radius_options make r opts).
Proof.
  intros HG HU opts. induction opts as [[|opt opts] IH] using by_length; intros i r Hd.
  { cbn [radius_options]. unfold finish_range. case_match; [by apply outcome_bad|by apply outcome_good]. }
  assert (argv !! i = Some opt ∧ drop (S i) argv = opts) as [Ho Hs].
  { pose proof (f_equal (λ l, l !! 0%nat) Hd) as H1. pose proof (f_equal (drop 1) Hd) as H2.
    rewrite lookup_drop in H1. rewrite drop_drop in H2. cbn [lookup list_lookup drop] in H1, H2. rewrite drop_0 in H2.
    rewrite Nat.add_0_r in H1. rewrite Nat.add_1_r in H2. done. }
  assert (∀ v l, opts = v :: l → argv !! S i = Some v ∧ drop (S (S i)) argv = l) as Hv.
  { intros v l ->. pose proof (f_equal (λ l, l !! 0%nat) Hs) as H1. pose proof (f_equal (drop 1) Hs) as H2.
    rewrite lookup_drop in H1. rewrite drop_drop in H2. cbn [lookup list_lookup drop] in H1, H2. rewrite drop_0 in H2.
    rewrite Nat.add_0_r in H1. rewrite Nat.add_1_r in H2. done. }
  cbn [radius_options].
  repeat (case_match; try by (apply outcome_bad; [done|done|reflexivity])).
  all: try (apply (IH opts ltac:(cbn; lia) (S i)); done).
  all: subst; destruct (Hv _ _ eq_refl) as [Hv1 Hv2].
  all: try (eapply IH; [cbn; lia|exact Hv2]).
  apply (HU i opt l); [done|done|done| |done]. by apply negb_false_iff in H4.
Qed.
Lemma bad_count_case (name : string) argv : name ∈ ["georadius"; "georadiusbymember"] →
  ∀ i opt v, argv !! i = Some opt → same_word opt "count" = true → argv !! S i = Some v → digits v = true → stoi v = None →
  bad_count name argv.
Proof. intros Hn i opt v H1 H2 H3 H4 H5. split; [done|]. by exists i, opt, v. Qed.

Lemma geo_table_ok : table_ok bad_count read_only GeoTable.
Proof.
  table_entries ltac:(first [by apply geoadd_outcome | by apply geodist_outcome
    | arity; autounfold with family_init cmd_init; repeat first [made
        | eapply radius_outcome; [intros ? _ []; set_solver|apply bad_count_case; set_solver|done] | outcome_step]]).
Qed.
End Arguments.

(** A COUNT that is read is an [int]. *)
Lemma stoi_bounds s n : stoi s = Some n → 0 ≤ n < 2 ^ 31.
Proof.
  unfold stoi. destruct s as [|c s]; [done|]. intros (m & Hm & H)%bind_Some.
  assert (∀ (l : bytes) acc m, (∀ a, acc = Some a → 0 ≤ a) →
    foldl (λ acc c, a ← acc; d ← digit c; Some (a * 10 + d)) acc l = Some m → 0 ≤ m) as G.
  { induction l as [|x l IH]; intros acc k Ha Hk; [by apply Ha|]. cbn [foldl] in Hk. apply IH in Hk; [done|].
    intros a (b & Hb & (d & Hd & [= <-])%bind_Some)%bind_Some. apply Ha in Hb. unfold digit in Hd. case_match; [|done].
    injection Hd as <-. lia. }
  apply G in Hm; [|by intros a [= <-]]. case_match; [|done]. injection H as <-. lia.
Qed.

(** ** Replies *)

(** [r'] is [r] with [n] more replies, the elements of an array. *)
Definition adds `{NumString} (n : Z) (r r' : CmdRes) : Prop :=
  ret_ r' = ret_ r ∧ ∃ l, zlen l = n ∧ Forall is_reply l ∧ message_ r' = message_ r ++ concat l.

Section Replies.
Context {N : NumString} {NL : NumStringLaws}.
Context (num_flat : ∀ n, flat (ll2string n)).

Lemma adds_none r : adds 0 r r.
Proof. split; [done|]. exists []. split; [done|]. split; [constructor|by rewrite app_nil_r]. Qed.
Lemma adds_app m n r1 r2 r3 : adds m r1 r2 → adds n r2 r3 → adds (m + n) r1 r3.
Proof.
  intros [E1 (l1 & <- & F1 & M1)] [E2 (l2 & <- & F2 & M2)]. split; [congruence|]. exists (l1 ++ l2).
  split; [apply zlen_app|]. split; [by apply Forall_app|]. by rewrite M2, M1, concat_app, app_assoc.
Qed.
Lemma adds_one r r' b : ret_ r' = ret_ r → is_reply b → message_ r' = message_ r ++ b → adds 1 r r'.
Proof. intros E H M. split; [done|]. exists [b]. split; [done|]. split; [by constructor|]. cbn [concat]. by rewrite app_nil_r. Qed.
Lemma adds_string s r : adds 1 r (AppendString s r).
Proof. apply (adds_one _ _ (bulk s)); [done|apply reply_bulk|apply AppendString_message]. Qed.
Lemma adds_integer n r : adds 1 r (AppendInteger n r).
Proof.
  apply (adds_one _ _ (str ":" ++ ll2string n ++ kNewLine)); [done| |done].
  apply (reply_line x3a); [reflexivity|apply num_flat].
Qed.
Lemma adds_null r : adds 1 r (AppendStringLen (-1) r).
Proof.
  apply (adds_one _ _ (str "$" ++ ll2string (-1) ++ kNewLine)); [done| |done]. rewrite law_ll2string by lia. apply reply_nil.
Qed.
Lemma adds_array n r r' : adds n (AppendArrayLen n r) r' → adds 1 r r'.
Proof.
  intros [E (l & <- & F & M)]. apply (adds_one _ _ (str "*" ++ ll2string (zlen l) ++ kNewLine ++ concat l)).
  - done.
  - by apply reply_array.
  - rewrite M, AppendArrayLen_message. by rewrite <- !app_assoc.
Qed.
Lemma array_reply n r : adds n (AppendArrayLen n res_new) r → good_reply r.
Proof.
  intros [E (l & Hl & F & M)]%adds_array. destruct l as [|b [|c l]]; try done; [|unfold zlen in Hl; cbn in Hl; lia].
  unfold good_reply, message. rewrite E, M. cbn [ret_ message_ res_new concat app]. rewrite app_nil_r.
  by apply Forall_cons_1 in F as [F _].
Qed.
Lemma adds_foldl {A} (f : CmdRes → A → option CmdRes) (P : A → Prop) :
  (∀ r x r', P x → f r x = Some r' → adds 1 r r') → ∀ l r r', Forall P l →
  foldl (λ r x, r ← r; f r x) (Some r) l = Some r' → adds (zlen l) r r'.
Proof.
  intros Hf. induction l as [|x l IH]; intros r r' HP H; [injection H as <-; apply adds_none|].
  apply Forall_cons_1 in HP as [Hx HP]. rewrite zlen_cons. cbn [foldl mbind option_bind] in H.
  destruct (f r x) as [r1|] eqn:E.
  - apply (adds_app 1 (zlen l) r r1); [by apply Hf in E|by apply IH].
  - exfalso. clear -H. induction l as [|y l IH]; [done|]. by apply IH.
Qed.
End Replies.

(** ** The search *)

Section SearchErrors.
Context {Member Distance E : Type} (range : Z → Z → E + list (Member * Z)) (within : Z → option Distance).

(** An error of the search is one of the ranges; what is found is in one of them. *)
Lemma search_loop_error cells : ∀ i last e, search_loop range within i last cells = inl e → ∃ lo hi, range lo hi = inl e.
Proof.
  induction cells as [|c cells IH]; intros i last e; [done|]. cbn [search_loop].
  destruct (HASHISZERO c); [apply IH|]. destruct (_ && _); [apply IH|].
  destruct (range _ _) as [e'|ms] eqn:Er; [intros [= ->]; by eexists _, _|].
  destruct (search_loop _ _ _ _ cells) as [e'|l] eqn:El; [intros [= ->]; by eapply IH|done].
Qed.
Lemma search_loop_found cells m v d : ∀ i last l, search_loop range within i last cells = inr l → (m, v, d) ∈ l →
  ∃ lo hi ms, range lo hi = inr ms ∧ (m, v) ∈ ms.
Proof.
  induction cells as [|c cells IH]; intros i last l.
  { intros [= <-] H. by apply not_elem_of_nil in H. }
  cbn [search_loop]. destruct (HASHISZERO c); [apply IH|]. destruct (_ && _); [apply IH|].
  destruct (range _ _) as [e'|ms] eqn:Er; [done|].
  destruct (search_loop _ _ _ _ cells) as [e'|l'] eqn:El; [done|]. intros [= <-] [Hin|Hin]%elem_of_app; [|by eapply IH].
  apply list_elem_of_omap in Hin as ([m' v'] & Hin & Hd). unfold in_radius in Hd.
  apply fmap_Some in Hd as (d' & _ & [= -> -> ->]). by eexists _, _, _.
Qed.
End SearchErrors.

(** The law of [std::sort] that is used. *)
Class StdSortLaws {SS : StdSort} : Prop := { law_sort {A} (lt : A → A → bool) l : std_sort lt l ≡ₚ l }.

(** Each option with a value in the reply was given once, and the count is none or is not
    negative. *)
Definition flag (b : bool) : Z := if b then 1 else 0.
Definition well_counted (range : GeoRange) : Prop :=
  option_num range = flag (withdist range) + flag (withhash range) + flag (withcoord range) ∧
  (rg_count range = true → 0 ≤ count_limit range).

Section Running.
Context {N : NumString} {NL : NumStringLaws} {SC : Scores double} {FT : FloatText} {ML : MathLib} {SS : StdSort} {SL : StdSortLaws}.
Context {RS DB : Type} {RO : RocksStatus RS} {H : ZSets double RS DB}.
Context (num_flat : ∀ n, flat (ll2string n)) (status_flat : ∀ s : RS, flat (rs_ToString s)).
Implicit Types (now : Z) (db : DB) (range : GeoRange).

Lemma adds_position xy r : adds 1 r (append_position xy r).
Proof.
  apply (adds_array 2). apply (adds_app 1 1 _ (AppendString (d2string xy.1) (AppendArrayLen 2 r))); apply adds_string.
Qed.

(** The engine answers for each of the members. *)
Definition members_answer (key : bytes) (members : list bytes) now db : Prop :=
  Forall (λ m, let s := (bw_ZScore (RS := RS) key m now db).1 in rs_ok s || rs_IsNotFound s = true) members.
Lemma each_member_reply key f now db members r :
  (∀ score r r', f score r = Some r' → adds 1 r r') → members_answer key members now db →
  foldl (each_member (RS := RS) key f now db) (Some (AppendArrayLen (zlen members) res_new)) members = Some r → good_reply r.
Proof.
  intros Hf Hm Hr. apply (array_reply (zlen members)). eapply adds_foldl; [|exact Hm|exact Hr].
  intros r1 m r2 Ha He. cbn beta in He, Ha. destruct (bw_ZScore key m now db) as [s score]. cbn [fst] in Ha.
  destruct (rs_ok s); [by apply Hf in He|]. cbn [orb] in Ha. rewrite Ha in He. injection He as <-. by apply adds_null.
Qed.

Lemma append_point_adds range lon lat r p r' : well_counted range → append_point range lon lat r p = Some r' → adds 1 r r'.
Proof.
  intros [Ho _] Hr. unfold append_point in Hr.
  set (r0 := if option_num range =? 0 then r else AppendArrayLen (option_num range + 1) r) in Hr.
  apply bind_Some in Hr as (r1 & H1 & Hr). apply bind_Some in Hr as (r2 & H2 & Hr).
  assert (adds 1 r0 (AppendString (np_member p) r0)) as A0 by apply adds_string.
  assert (adds (flag (withdist range)) (AppendString (np_member p) r0) r1) as A1.
  { destruct (withdist range); [|injection H1 as <-; apply adds_none].
    apply bind_Some in H1 as (xy & _ & [= <-]). apply adds_string. }
  assert (adds (flag (withhash range)) r1 r2) as A2.
  { destruct (withhash range); [|injection H2 as <-; apply adds_none].
    apply bind_Some in H2 as (n & _ & [= <-]). by apply adds_integer. }
  assert (adds (flag (withcoord range)) r2 r') as A3.
  { destruct (withcoord range); [|injection Hr as <-; apply adds_none].
    apply bind_Some in Hr as (xy & _ & [= <-]). apply adds_position. }
  pose proof (adds_app _ _ _ _ _ (adds_app _ _ _ _ _ (adds_app _ _ _ _ _ A0 A1) A2) A3) as A. subst r0. clear A0 A1 A2 A3.
  destruct (Z.eqb_spec (option_num range) 0) as [E|E].
  - by replace (1 + _ + _ + _) with 1 in A by lia.
  - apply (adds_array (option_num range + 1)). rewrite Ho at 1.
    by replace (1 + _ + _ + _) with (flag (withdist range) + flag (withhash range) + flag (withcoord range) + 1) in A by lia.
Qed.

Lemma points_limit_bounds range n : well_counted range → 0 ≤ n → 0 ≤ points_limit range n ≤ n.
Proof. intros [_ Hc] Hn. unfold points_limit. destruct (rg_count range); [specialize (Hc eq_refl)|lia]. case_match; lia. Qed.
Lemma sort_points_length o l : length (sort_points o l) = length l.
Proof. destruct o; [done| |]; unfold sort_points; by rewrite law_sort. Qed.

Lemma neighbors_reply key range now db r db' : well_counted range →
  GetAllNeighbors (RS := RS) key range now db = Some (r, db') → good_reply r.
Proof.
  intros Hw Hr. unfold GetAllNeighbors in Hr.
  do 3 (apply bind_Some in Hr as (? & _ & Hr)). apply bind_Some in Hr as ([hash nb] & _ & Hr).
  destruct (search _ _ _ _) as [[s|]|found]; [injection Hr as <- _; by apply err_reply|done|].
  destruct (_ || _).
  - destruct (bw_ZAdd _ _ _ _) as [[s n] db2]. injection Hr as <- _.
    destruct (rs_ok s); [by apply int_reply|by apply err_reply].
  - apply bind_Some in Hr as (r1 & H1 & [= <- _]). unfold points_reply in H1.
    set (result := neighbor_point <$> found) in H1. pose proof (points_limit_bounds range (zlen result) Hw (zlen_nonneg _)) as Hb.
    set (limit := points_limit range (zlen result)) in H1, Hb. apply (array_reply limit).
    assert (zlen (take (Z.to_nat limit) (sort_points (rg_sort range) result)) = limit) as E.
    { unfold zlen in *. rewrite length_take, sort_points_length. lia. }
    rewrite <- E at 1. eapply adds_foldl; [|apply Forall_true|exact H1]; [|exact (λ _, I)].
    intros r0 p r2 _ Hp. by eapply append_point_adds.
Qed.

(** When a geo command has one reply of the protocol. *)
Definition geo_replies (c : GeoCmd) now db : Prop :=
  match c with
  | GeoPosCmd key members | GeoHashCmd key members => members_answer key members now db
  | GeoRadiusCmd _ range | GeoRadiusByMemberCmd _ _ range => well_counted range
  | _ => True
  end.
#[export] Instance geo_replying : Replying GeoCmd DB.
Proof.
  refine {| replies := geo_replies |}.
  intros c now db r db' Hc Hr. destruct c as [key pos|key ms|key a b u|key ms|key range|key m range];
    unfold cmd_Do, geo_run in Hr; autounfold with family_do in Hr.
  - apply bind_Some in Hr as (sms & _ & Hr). destruct (bw_ZAdd _ _ _ _) as [[s n] db2]. injection Hr as <- _.
    by apply integer_or_err_ok.
  - apply bind_Some in Hr as (r0 & Hr & [= <- _]). eapply each_member_reply; [|exact Hc|exact Hr].
    intros ? ? ? (xy & _ & [= <-])%bind_Some. apply adds_position.
  - destruct (bw_ZScore key a now db) as [s x]. destruct (rs_ok s); cbn [negb] in Hr;
      [|injection Hr as <- _; case_match; [by apply null_reply|by apply err_reply]].
    apply bind_Some in Hr as (xy & _ & Hr). destruct (bw_ZScore key b now db) as [s' x']. destruct (rs_ok s'); cbn [negb] in Hr;
      [|injection Hr as <- _; case_match; [by apply null_reply|by apply err_reply]].
    apply bind_Some in Hr as (xy' & _ & [= <- _]). apply text_reply.
  - apply bind_Some in Hr as (r0 & Hr & [= <- _]). eapply each_member_reply; [|exact Hc|exact Hr].
    intros ? ? ? (xy & _ & (t & _ & [= <-])%bind_Some)%bind_Some. apply adds_string.
  - by eapply neighbors_reply.
  - destruct (bw_ZScore key m now db) as [s x]. destruct (rs_ok s); [|by eapply neighbors_reply].
    apply bind_Some in Hr as (xy & _ & Hr). by eapply neighbors_reply in Hr.
Defined.
End Running.

(** ** Reading, and the end of the commands *)

Section Returns.
Context {N : NumString} {SC : Scores double} {FT : FloatText} {ML : MathLib} {SS : StdSort} {SL : StdSortLaws}.
Context {RS DB : Type} {RO : RocksStatus RS} {H : ZSets double RS DB}.
Implicit Types (now : Z) (db : DB) (range : GeoRange).

Lemma neighbors_keep key range now db r db' : rg_store range || rg_storedist range = false →
  GetAllNeighbors (RS := RS) key range now db = Some (r, db') → db' = db.
Proof.
  intros Hs Hr. unfold GetAllNeighbors in Hr. do 3 (apply bind_Some in Hr as (? & _ & Hr)).
  apply bind_Some in Hr as ([hash nb] & _ & Hr).
  destruct (search _ _ _ _) as [[s|]|found]; [by injection Hr|done|]. rewrite Hs in Hr.
  by apply bind_Some in Hr as (r1 & _ & [= _ <-]).
Qed.
(** With STORE or STOREDIST the points are added to a sorted set. *)
Lemma neighbors_store key range now db r db' : rg_store range || rg_storedist range = true →
  GetAllNeighbors (RS := RS) key range now db = Some (r, db') →
  (res_ok r = false ∧ db' = db) ∨ ∃ points, db' = (bw_ZAdd (RS := RS) (storekey range) points now db).2.
Proof.
  intros Hs Hr. unfold GetAllNeighbors in Hr. do 3 (apply bind_Some in Hr as (? & _ & Hr)).
  apply bind_Some in Hr as ([hash nb] & _ & Hr).
  destruct (search _ _ _ _) as [[s|]|found]; [injection Hr as <- <-; by left|done|]. rewrite Hs in Hr. right.
  match type of Hr with context [bw_ZAdd _ ?l _ _] => exists l end.
  destruct (bw_ZAdd _ _ _ _) as [[s n] db2]. by injection Hr as _ <-.
Qed.
(** The options of a command that looks for neighbours. *)
Definition radius_range (c : GeoCmd) : option GeoRange :=
  match c with GeoRadiusCmd _ range | GeoRadiusByMemberCmd _ _ range => Some range | _ => None end.
Lemma radius_store c range now db r db' : radius_range c = Some range → rg_store range || rg_storedist range = true →
  cmd_Do c now db = Some (r, db') →
  (res_ok r = false ∧ db' = db) ∨ ∃ points, db' = (bw_ZAdd (RS := RS) (storekey range) points now db).2.
Proof.
  intros Hc Hs Hr. destruct c as [key pos|key ms|key a b u|key ms|key rg|key m rg]; try done; injection Hc as ->;
    unfold cmd_Do, geo_run in Hr; autounfold with family_do in Hr; [by eapply neighbors_store|].
  destruct (bw_ZScore key m now db) as [s x]. destruct (rs_ok s); [|by eapply neighbors_store].
  apply bind_Some in Hr as (xy & _ & Hr). by eapply neighbors_store in Hr.
Qed.

#[export] Instance geo_keeping : Keeping GeoCmd DB.
Proof.
  intros c now db r db' Hc Hr. destruct c as [key pos|key ms|key a b u|key ms|key range|key m range]; try done;
    unfold cmd_Do, geo_run in Hr; autounfold with family_do in Hr.
  1, 3: by apply bind_Some in Hr as (r0 & Hr & [= _ <-]).
  - destruct (bw_ZScore key a now db) as [s x]. destruct (negb _); [by injection Hr|].
    apply bind_Some in Hr as (xy & _ & Hr). destruct (bw_ZScore key b now db) as [s' x']. destruct (negb _); [by injection Hr|].
    by apply bind_Some in Hr as (xy' & _ & [= _ <-]).
  - apply negb_true_iff in Hc. by eapply neighbors_keep.
  - apply negb_true_iff in Hc. destruct (bw_ZScore key m now db) as [s x]. destruct (rs_ok s); [|by eapply neighbors_keep].
    apply bind_Some in Hr as (xy & _ & Hr). by eapply neighbors_keep in Hr.
Qed.

(** A score that is a cell, and a number that WITHHASH can write. *)
Definition good_score (score : double) : Prop := is_Some (d_to_u64 score) ∧ is_Some (d_to_s64 score).
(** The scores the engine has for members, and in a range of cells, are good. *)
Definition member_scores key (members : list bytes) now db : Prop :=
  ∀ m s score, m ∈ members → bw_ZScore (RS := RS) key m now db = (s, score) → rs_ok s = true → good_score score.
Definition range_scores key now db : Prop :=
  ∀ lo hi s l, bw_ZRangebyscore (RS := RS) key (d_of_Z lo) (d_of_Z hi) true true now db = (s, l) →
    rs_ok s || rs_IsNotFound s = true → Forall (λ sm : double * bytes, good_score sm.1) l.
(** A radius that is not negative, around a position within the limits. *)
Definition range_ready range : Prop :=
  ∃ longitude latitude distance, rg_longitude range = Some longitude ∧ rg_latitude range = Some latitude ∧
    rg_distance range = Some distance ∧
    d_valid (to_meters distance (rg_unit range)) = true ∧ negative (to_meters distance (rg_unit range)) = false ∧
    ∀ s, 1 ≤ s ≤ 26 → is_Some (geohashEncodeWGS84 longitude latitude s).

Lemma score_position_some score : good_score score → is_Some (score_position score).
Proof. intros [[b Hb] _]. unfold score_position, score_cell. rewrite Hb. cbn [mbind option_bind]. apply position_some. Qed.
Lemma cell_range_ends key now db lo hi : range_scores key now db → cell_range (RS := RS) key now db lo hi ≠ inl None.
Proof.
  intros Hs. unfold cell_range. destruct (bw_ZRangebyscore _ _ _ _ _ _ _) as [s l] eqn:E.
  destruct (negb (rs_ok s) && negb (rs_IsNotFound s)) eqn:Eb; [done|].
  rewrite <- negb_orb in Eb. apply negb_false_iff in Eb. specialize (Hs lo hi s l E Eb).
  case_match eqn:Hm; [done|]. exfalso. apply eq_None_not_Some in Hm. apply Hm, mapM_is_Some. eapply Forall_impl; [exact Hs|].
  intros sm [[b Hb] _]. exists (sm, b). cbn beta. by rewrite Hb.
Qed.
Lemma cell_range_scores key now db lo hi ms sm b : range_scores key now db → cell_range (RS := RS) key now db lo hi = inr ms →
  (sm, b) ∈ ms → good_score sm.1.
Proof.
  intros Hs. unfold cell_range. destruct (bw_ZRangebyscore _ _ _ _ _ _ _) as [s l] eqn:E.
  destruct (negb (rs_ok s) && negb (rs_IsNotFound s)) eqn:Eb; [done|].
  rewrite <- negb_orb in Eb. apply negb_false_iff in Eb. specialize (Hs lo hi s l E Eb).
  case_match eqn:Hm; [|done]. intros [= ->] Hin. apply mapM_Some in Hm. rewrite Forall_forall in Hs.
  apply list_elem_of_lookup in Hin as [i Hi]. destruct (Forall2_lookup_r _ _ _ _ _ Hm Hi) as (x & Hx & Hb).
  apply bind_Some in Hb as (b' & _ & [= <- <-]). apply Hs. by apply list_elem_of_lookup_2 in Hx.
Qed.

Lemma append_point_some range lon lat r p : good_score (np_score p) → is_Some (append_point range lon lat r p).
Proof.
  intros Hg. destruct (score_position_some _ Hg) as [xy Hxy]. destruct Hg as [_ [n Hn]]. unfold append_point.
  rewrite Hxy, Hn. cbn [mbind option_bind].
  destruct (withdist range), (withhash range), (withcoord range); cbn [mbind option_bind]; by eexists.
Qed.
Lemma points_reply_some range lon lat limit l : Forall (λ p, good_score (np_score p)) l →
  is_Some (points_reply range lon lat limit l).
Proof.
  intros Hl. unfold points_reply. generalize (AppendArrayLen limit res_new). induction Hl as [|p l Hp Hl IH]; intros r; [by eexists|].
  cbn [foldl mbind option_bind]. destruct (append_point_some range lon lat r p Hp) as [r' ->]. apply IH.
Qed.
Lemma sort_points_elem o l p : p ∈ sort_points o l ↔ p ∈ l.
Proof. destruct o; [done| |]; unfold sort_points; by rewrite law_sort. Qed.

Lemma neighbors_return key range now db : range_ready range → range_scores key now db →
  GetAllNeighbors (RS := RS) key range now db ≠ None.
Proof.
  intros (lon & lat & d & Hlon & Hlat & Hd & Hv & Hn & He) Hs. unfold GetAllNeighbors. rewrite Hlon, Hlat, Hd.
  cbn [mbind option_bind]. destruct (areas_some lon lat _ Hv Hn He) as [[hash nb] ->]. cbn [mbind option_bind].
  destruct (search _ _ _ _) as [[s|]|found] eqn:Ef; [done| |].
  { by apply search_loop_error in Ef as (lo & hi & Ef%cell_range_ends). }
  destruct (_ || _); [by destruct (bw_ZAdd _ _ _ _) as [[? ?] ?]|]. cbv zeta.
  match goal with |- (points_reply ?a ?b ?c ?d ?l ≫= _) ≠ None => destruct (points_reply_some a b c d l) as [r ->]; [|done] end.
  apply Forall_forall. intros p Hp%subseteq_take%sort_points_elem.
  apply list_elem_of_fmap in Hp as ([[sm b] x] & -> & Hp).
  destruct (search_loop_found _ _ _ _ _ _ _ _ _ Ef Hp) as (lo & hi & ms & Hms & Hin). by eapply cell_range_scores.
Qed.

Definition member_ends (f : double → option bytes) key (members : list bytes) now db : Prop :=
  ∀ m s score, m ∈ members → bw_ZScore (RS := RS) key m now db = (s, score) → rs_ok s = true → is_Some (f score).
(** When a geo command is sure to end. *)
Definition geo_returns (c : GeoCmd) now db : Prop :=
  match c with
  | GeoAddCmd _ pos => Forall (λ p, is_Some (point_score p)) pos
  | GeoPosCmd key members => member_scores key members now db
  | GeoDistCmd key a b _ => member_scores key [a; b] now db
  | GeoHashCmd key members => member_scores key members now db ∧
      member_ends (λ score, xy ← score_position score; geohash_text xy) key members now db
  | GeoRadiusCmd key range => range_ready range ∧ range_scores key now db
  | GeoRadiusByMemberCmd key m range => range_scores key now db ∧ ∃ s score xy,
      bw_ZScore (RS := RS) key m now db = (s, score) ∧ rs_ok s = true ∧ score_position score = Some xy ∧
      range_ready (set_position xy.1 xy.2 range)
  end.

Lemma each_member_some key f now db members :
  (∀ m s score r, m ∈ members → bw_ZScore (RS := RS) key m now db = (s, score) → rs_ok s = true → is_Some (f score r)) →
  ∀ r, is_Some (foldl (each_member (RS := RS) key f now db) (Some r) members).
Proof.
  induction members as [|m ms IH]; intros Hf r; [by eexists|]. cbn [foldl]. unfold each_member at 2. cbn [mbind option_bind].
  assert (∀ r, is_Some (foldl (each_member (RS := RS) key f now db) (Some r) ms)) as IH'.
  { apply IH. intros m' s score r' Hm'. apply Hf. by right. }
  destruct (bw_ZScore key m now db) as [s score] eqn:E. destruct (rs_ok s) eqn:Es; [|case_match; apply IH'].
  destruct (Hf m s score r (list_elem_of_here _ _) E Es) as [r' ->]. apply IH'.
Qed.

#[export] Instance geo_returning : Returning GeoCmd DB.
Proof.
  refine {| returns := geo_returns |}. intros c now db Hc.
  destruct c as [key pos|key ms|key a b u|key ms|key range|key m range]; cbn [geo_returns] in Hc;
    unfold cmd_Do, geo_run; autounfold with family_do.
  - destruct (mapM_is_Some_2 point_score pos Hc) as [sms ->]. cbn [mbind option_bind]. by destruct (bw_ZAdd _ _ _ _) as [[? ?] ?].
  - match goal with |- (foldl (each_member _ ?f _ _) (Some ?r) _ ≫= _) ≠ None =>
      destruct (each_member_some key f now db ms) with r as [r' ->]; [|done] end.
    intros m s score r Hm Hz Hs. destruct (score_position_some score) as [xy ->]; [by eapply Hc|by eexists].
  - destruct (bw_ZScore key a now db) as [s x] eqn:Ea. destruct (rs_ok s) eqn:Es; cbn [negb]; [|done].
    destruct (score_position_some x) as [xy ->]; [eapply Hc; [left|done|done]|]. cbn [mbind option_bind].
    destruct (bw_ZScore key b now db) as [s' x'] eqn:Eb. destruct (rs_ok s') eqn:Es'; cbn [negb]; [|done].
    destruct (score_position_some x') as [xy' ->]; [eapply Hc; [right; left|done|done]|]. done.
  - destruct Hc as [Hc He]. match goal with |- (foldl (each_member _ ?f _ _) (Some ?r) _ ≫= _) ≠ None =>
      destruct (each_member_some key f now db ms) with r as [r' ->]; [|done] end.
    intros m s score r Hm Hz Hs. pose proof (He m s score Hm Hz Hs) as [t Ht]. cbn beta in Ht.
    destruct (score_position score) as [xy|]; [|done]. cbn [mbind option_bind] in Ht |- *. rewrite Ht. by eexists.
  - destruct Hc as [Hr Hs]. by apply neighbors_return.
  - destruct Hc as (Hs & s & score & xy & -> & -> & -> & Hr). cbn [mbind option_bind]. by apply neighbors_return.
Defined.

Lemma negative_nonzero x : negative x = true → deqb x (d_of_Z 0) = false.
Proof. destruct x as [s|[]| |[] m e]; try done; intros _; by vm_compute. Qed.

(** A radius below zero is not refused: GEORADIUS with such a radius never ends,
    whatever the position is, and however often the loop that estimates the size of the
    cells is run, and with a radius that is not negative it ends. *)
Theorem negative_radius_hangs key (range : GeoRange) now db longitude latitude distance :
  rg_longitude range = Some longitude → rg_latitude range = Some latitude → rg_distance range = Some distance →
  d_valid (to_meters distance (rg_unit range)) = true →
  (negative (to_meters distance (rg_unit range)) = true →
    GeoRadiusCmd_Do (RS := RS) key range now db = None ∧
    ∀ fuel step, estimate_loop fuel (to_meters distance (rg_unit range)) step = None) ∧
  (negative (to_meters distance (rg_unit range)) = false → range_scores key now db →
    (∀ s, 1 ≤ s ≤ 26 → is_Some (geohashEncodeWGS84 longitude latitude s)) →
    GeoRadiusCmd_Do (RS := RS) key range now db ≠ None).
Proof.
  intros Hlon Hlat Hd Hv. split.
  - intros Hn. split; [|intros fuel step; by apply estimate_diverges].
    unfold GeoRadiusCmd_Do, GetAllNeighbors. rewrite Hlon, Hlat, Hd. cbn [mbind option_bind].
    unfold geohashGetAreasByRadiusWGS84, geohashGetAreasByRadius, geohashEstimateStepsByRadius.
    by rewrite (estimate_diverges _ _ _ Hv Hn), negative_nonzero.
  - intros Hn Hs He. apply neighbors_return; [|done]. by exists longitude, latitude, distance.
Qed.
End Returns.
