(* ===== verification/PikaCmd.v ===== *)
(** * All commands on data (the command table of src/pika_command.cc)

    The sum of the families: one table, and what holds of every command in it. *)

From S2P Require Import Prelude Define Env Transverter Command StableLog CmdRes Blackwidow CmdArgs CmdReply CmdFamily.
From S2P Require Import KvCmd KvFacts HashCmd ListCmd SetsCmd ZsetCmd BitCmd FamilyFacts Float64 GeoCoord GeoCmd GeoFacts.
From stdpp Require Import base list strings pretty gmap.
From Stdlib Require Import ZArith Lia Init.Byte.
#[local] Open Scope string_scope.
#[local] Open Scope list_scope.
#[local] Open Scope Z_scope.

(** The parts of the table in their order. *)
Abbreviation PikaCmd := (KvCmd + (HashCmd + (ListCmd + (ZsetCmd double + (SetsCmd + (BitCmd + (HllCmd + GeoCmd)))))))%type.

Section Pika.
Context {N : NumString} {SN : StringNum} {FT : FloatText} {SC : Scores double}.

#[export] Instance pika_family : CmdFamily PikaCmd := _.

(** What SPOP takes and what every other command does is logged as it was requested, but
    for the expiries of the key-value commands. *)
#[local] Instance hash_logs : Logged HashCmd := plain_logged HashCmd.
#[local] Instance list_logs : Logged ListCmd := plain_logged ListCmd.
#[local] Instance set_logs : Logged SetsCmd := plain_logged SetsCmd.
#[local] Instance zset_logs : Logged (ZsetCmd double) := plain_logged (ZsetCmd double).
#[local] Instance bit_logs : Logged BitCmd := plain_logged BitCmd.
#[local] Instance hll_logs : Logged HllCmd := plain_logged HllCmd.
#[local] Instance geo_logs : Logged GeoCmd := plain_logged GeoCmd.
#[export] Instance pika_logs : Logged PikaCmd := _.

Context {NL : NumStringLaws} {SL : StringNumLaws}.

#[export] Instance pika_reading : Reading PikaCmd := _.
(** The arguments on which reading them is undefined, or ends the process. *)
Definition undefined_args (name : string) (argv : list bytes) : Prop := num_keys_overflow name argv ∨ bad_count name argv.

#[export] Instance pika_laws : FamilyLaws PikaCmd undefined_args.
Proof.
  repeat apply sum_laws; first [apply kv_table_laws | apply hash_table_ok | apply list_table_ok
    | apply set_table_ok | apply bit_table_ok | apply hll_table_ok | idtac].
  - apply (table_ok_undefined num_keys_overflow); [by left|apply zset_table_ok].
  - apply (table_ok_undefined bad_count); [by right|apply geo_table_ok].
Qed.

#[export] Instance pika_logged_laws : LoggedLaws PikaCmd.
Proof.
  assert (LoggedLaws KvCmd) as HK by apply kv_logged_laws.
  assert (LoggedLaws HashCmd) as HH by (apply plain_logged_laws; [done|exact (table_names _ _ _ (hash_table_ok (λ _ _, True)))]).
  assert (LoggedLaws ListCmd) as HL by (apply plain_logged_laws; [done|exact (table_names _ _ _ (list_table_ok (λ _ _, True)))]).
  assert (LoggedLaws SetsCmd) as HS by (apply plain_logged_laws; [done|exact (table_names _ _ _ (set_table_ok (λ _ _, True)))]).
  assert (LoggedLaws (ZsetCmd double)) as HZ by (apply plain_logged_laws; [done|exact (table_names _ _ _ zset_table_ok)]).
  assert (LoggedLaws BitCmd) as HB by (apply plain_logged_laws; [done|exact (table_names _ _ _ (bit_table_ok (λ _ _, True)))]).
  assert (LoggedLaws HllCmd) as HP by (apply plain_logged_laws; [done|exact (table_names _ _ _ (hll_table_ok (λ _ _, True)))]).
  assert (LoggedLaws GeoCmd) as HG by (apply plain_logged_laws; [done|exact (table_names _ _ _ geo_table_ok)]).
  repeat (apply sum_logged_laws; [assumption| |reflexivity]). assumption.
Qed.

Context {RL : ReplyLimits} {RS DB : Type} {RO : RocksStatus RS}.
Context {BW : Blackwidow RS DB} {HH : Hashes RS DB} {LL : Lists RS DB} {SS : Sets RS DB} {ZZ : ZSets double RS DB}.
Context {BB : Bits RS DB} {PP : HyperLogLogs RS DB} {ML : MathLib} {SO : StdSort} {SOL : StdSortLaws}.

#[export] Instance pika_run : CmdRun PikaCmd DB := _.
#[export] Instance pika_keeping : Keeping PikaCmd DB := _.
#[export] Instance pika_returning : Returning PikaCmd DB := _.

(** The texts of numbers, of the engine's statuses and of its type names have no line
    ends. *)
Definition flat_texts : Prop :=
  (∀ n, flat (ll2string n)) ∧ (∀ s : RS, flat (rs_ToString s)) ∧
  ∀ key now (db : DB), flat (bw_Type (RS := RS) key now db).2.

Definition sure_replying {A} {R : CmdRun A DB}
    (Hr : ∀ (c : A) now (db : DB) r db', cmd_Do c now db = Some (r, db') → good_reply r) : Replying A DB :=
  {| replies _ _ _ := True; law_reply c now db r db' _ := Hr c now db r db' |}.

Definition pika_replying : flat_texts → Replying PikaCmd DB.
Proof.
  intros Ht. repeat apply sum_replying;
    first [exact (geo_replying (proj1 Ht) (proj1 (proj2 Ht))) | apply sure_replying; destruct Ht as (Hn & Hs & Ht); intros c now db r db';
    first [by apply (Do_reply Hn Hs Ht raw_limit scan_fuel) | by apply (hash_reply Hn Hs) | by apply (list_cmd_reply Hn Hs)
      | by apply (zset_reply Hn Hs) | by apply (set_cmd_reply Hn Hs) | by apply (bit_reply Hn Hs) | by apply (hll_reply Hn Hs)]].
Defined.
End Pika.
