(* ===== verification/ClientConn.v ===== *)
(** * Clients and the execution of commands (src/pika_client_conn.cc, src/pika_command.cc)

    What a connection does with a batch of requests: the command is looked up, the
    client's right to run it is checked, its arguments are read, and it is executed on
    the partition of the connection's table, first on the database and then, if it is a
    write command that succeeded, in the log.  A command is a value of a type [Cmd] with
    the interface [ClientCmd]; the commands of a family implement it. *)

From S2P Require Import Prelude Define Env Binlog BinlogReader Transverter Command SlaveNode.
From S2P Require Import Consensus StableLog Coordinator WriteQueue MasterPartition SlavePartition.
From S2P Require Import ReplicaManager InnerMessage Server ReplServer ReplClient FullSync CmdRes.
From stdpp Require Import base list strings pretty gmap.
From Stdlib Require Import ZArith Lia Init.Byte.
#[local] Open Scope string_scope.
#[local] Open Scope list_scope.
#[local] Open Scope Z_scope.

(** [Proto]: an entry of the command table.  [initial] reads the arguments for a table; its
    last argument is the clock's reading when the command will be written to the log.
    [c_Do] runs the command at a time of the clock. *)
Class ClientCmd (Proto Cmd DB : Type) := {
  get_cmd : bytes → option Proto;
  p_name : Proto → string;
  p_flag : Proto → Z;
  initial : Proto → list bytes → string → Z → option (CmdRes + Cmd);
  c_current_key : Cmd → list bytes;
  c_Do : Cmd → Z → DB → option (CmdRes * DB);
}.

(** [U]: the arguments for which [DoInitial] reads one that is not there. *)
Class ClientCmdLaws (Proto Cmd DB : Type) {CC : ClientCmd Proto Cmd DB} (U : Proto → list bytes → Prop) : Prop := {
  law_initial_err opt p argv t now r :
    get_cmd opt = Some p → initial p argv t now = Some (inl r) → res_ok r = false;
  law_initial_answers opt p argv t now : get_cmd opt = Some p → ¬ U p argv → initial p argv t now ≠ None }.

(** ** The rights of a client *)

Inductive StatType := kNoAuthed | kAdminAuthed | kLimitAuthed.
#[export] Instance StatType_eq_dec : EqDecision StatType.
Proof. solve_decision. Defined.

Record AuthConf := mkAuthConf { userpass : string; requirepass : string; vuser_blacklist : list string }.

Definition AuthStat_Init (a : AuthConf) : StatType :=
  let stat := if bool_decide (userpass a = "") then kLimitAuthed else kNoAuthed in
  if bool_decide (stat = kLimitAuthed) && bool_decide (requirepass a = "") then kAdminAuthed else stat.

Definition kCmdNameAuth : string := "auth".

Definition IsAuthed (a : AuthConf) (stat : StatType) (name : string) (flag : Z) : bool :=
  if bool_decide (name = kCmdNameAuth) then true else
  match stat with
  | kNoAuthed => false
  | kAdminAuthed => true
  | kLimitAuthed =>
      negb (flag_is_admin_require flag || existsb (λ b, bool_decide (b = name)) (vuser_blacklist a))
  end.

(** Whether [message] changes the rights, and the rights. *)
Definition ChecknUpdate (message : string) (stat : StatType) : bool * StatType :=
  if bool_decide (message = "USER") then (true, kLimitAuthed)
  else if bool_decide (message = "ROOT") then (true, kAdminAuthed)
  else (false, stat).

(** The state of a connection. *)
Record ClientConn := mkConn { auth_stat_ : StatType; current_table_ : string; is_pubsub_ : bool }.
Definition ClientConn_new (a : AuthConf) (default_table : string) : ClientConn :=
  mkConn (AuthStat_Init a) default_table false.

Section ClientConn.
Context {FS : Type} {E : SlashEnv FS} {C : FixedCoding} {SN : StringNum} {N : NumString}.
Context {Cmd Conn Resp : Type} {CO : CmdOps Cmd}.
Context {P : Type} {PN : PinkNet P}.
Context {Proto DB : Type} {CC : ClientCmd Proto Cmd DB}.
Context (conf : PikaConf) (auth : AuthConf).
(** [write_binlog] and [slave_read_only] of the configuration, and the text of a status. *)
Context (write_binlog slave_read_only : bool) (status_text : Status → bytes).
Abbreviation World := (@World FS Cmd Conn Resp (ReplNet P)).
Abbreviation Master := (@SyncMasterPartition FS Cmd Conn Resp).
Abbreviation Site := (@Site FS Cmd Conn Resp P DB).
Abbreviation ST := (M Site).

(** ** Execution *)

Definition set_db (db : DB) (pt : Partition DB) : Partition DB :=
  set_dbs (Some db) (Some db) (bak_dir pt) (sync_dir pt) pt.

(** [DoCommand]: the command runs on the open database; without one it aborts.  Locks
    are not modelled here ([KeyLocks]). *)
Definition DoCommand (p : PartitionInfo) (c : Cmd) (now : Z) : ST CmdRes :=
  on_partition p (λ pt,
    match db_ pt with
    | None => None
    | Some db =>
        match c_Do c now db with
        | None => None
        | Some (r, db) => Some (r, set_db db pt)
        end
    end).

(** [DoBinlog]: the result after [r]; the connection and the place of the reply are there
    for every command but the dummy one. *)
Definition DoBinlog (p : PartitionInfo) (flag : Z) (is_dummy : bool) (c : Cmd) (conn : option Conn)
    (resp : option Resp) (r : CmdRes) : ST CmdRes :=
  if res_ok r && flag_is_write flag && write_binlog then
    match conn, resp with
    | Some _, Some _ =>
        let* s := on_world (on_rm (on_master p (ConsensusProposeLog conf c conn resp))) in
        ret (if ok s then r else SetRes kErrOther (status_text s) r)
    | _, _ =>
        if negb is_dummy then ret (SetRes kErrOther [] r) else
        let* s := on_world (on_rm (on_master p (ConsensusProposeLog conf c conn resp))) in
        ret (if ok s then r else SetRes kErrOther (status_text s) r)
    end
  else ret r.

(** [InternalProcessCommand] and [ProcessCommand] at its first stage. *)
Definition InternalProcessCommand (p : PartitionInfo) (flag : Z) (is_dummy : bool) (c : Cmd)
    (conn : option Conn) (resp : option Resp) (now : Z) : ST CmdRes :=
  let* r := DoCommand p c now in
  DoBinlog p flag is_dummy c conn resp r.

(** The table is there: some partition of it is. *)
Definition table_exists (table : string) (s : Site) : bool :=
  existsb (λ p, bool_decide (table_name_ p = table)) (map_to_list (st_partitions s)).*1.

(** [ProcessSinglePartitionCmd] in classic mode, where a table has the partition 0; a table
    that is not there aborts. *)
Definition ProcessSinglePartitionCmd (table : string) (flag : Z) (is_dummy : bool) (c : Cmd)
    (conn : option Conn) (resp : option Resp) (now : Z) : ST CmdRes :=
  let p := mkPartitionInfo table 0 in
  let* s := get in
  match st_partitions s !! p with
  | None =>
      if table_exists table s then ret (SetRes kErrOther (str "Partition not found") res_new) else abort
  | Some _ =>
      let* mp := on_world (on_rm (GetSyncMasterPartitionByName p)) in
      match mp with
      | None => ret (SetRes kErrOther (str "Partition not found") res_new)
      | Some _ => InternalProcessCommand p flag is_dummy c conn resp now
      end
  end.

(** ** A request *)

(** [IsTableBinlogIoError]: the appending of an item to the table's log has failed. *)
Definition master_io_error (table : string) (mp : option Master) : bool :=
  match mp with
  | None => false
  | Some mp => existsb (λ e, match e with EvSetBinlogIoError t => bool_decide (t = table) | _ => false end)
                 (events_ (coordinator_ mp))
  end.
Definition IsTableBinlogIoError (table : string) (s : Site) : bool :=
  negb (table_exists table s)
  || existsb (master_io_error table) (sync_master_partitions_ (w_rm (st_world s))).

(** [PikaServer::readonly] in classic mode. *)
Definition server_readonly (s : Site) : bool :=
  has_role PIKA_ROLE_SLAVE (w_srv (st_world s)) && slave_read_only.

Definition other (msg : string) : CmdRes := SetRes kErrOther (str msg) res_new.

(** The commands that a connection with subscriptions may send. *)
Definition pubsub_commands : list bytes :=
  str <$> ["subscribe"; "unsubscribe"; "ping"; "psubscribe"; "punsubscribe"].

(** [DoCmd], with the clock when the command runs and when it is logged.  The statistics
    and the slow log are in [ServerStat], what the monitor is told in [Monitor]. *)
Definition DoCmd (k : ClientConn) (argv : list bytes) (opt : bytes) (conn : option Conn) (resp : option Resp)
    (now now_log : Z) : ST CmdRes :=
  match get_cmd opt with
  | None => ret (SetRes kErrOther (str "unknown or unsupported command " ++ [x22] ++ opt ++ [x22]) res_new)
  | Some p =>
      let flag := p_flag p in
      if negb (IsAuthed auth (auth_stat_ k) (p_name p) flag) then
        ret (if flag_is_admin_require flag then other "NOAUTH Authentication required."
             else other "Command is in blacklist.")
      else
      match initial p argv (current_table_ k) now_log with
      | None => abort
      | Some (inl r) => ret r
      | Some (inr c) =>
          if is_pubsub_ k && negb (existsb (λ b, bool_decide (b = opt)) pubsub_commands)
          then ret (other "only (P)SUBSCRIBE / (P)UNSUBSCRIBE / PING / QUIT allowed in this context")
          else
          let* s := get in
          if flag_is_write flag && IsTableBinlogIoError (current_table_ k) s
          then ret (other "Writing binlog failed, maybe no space left on device")
          else if flag_is_write flag && bool_decide (c_current_key c = [])
          then ret (other "Internal ERROR")
          else if flag_is_write flag && server_readonly s then ret (other "Server in read-only")
          else ProcessSinglePartitionCmd (current_table_ k) flag false c conn resp now
      end
  end.

(** [ExecRedisCmd] without a consensus level: the reply is written at once.  The name of
    the command is the first argument; without arguments it aborts. *)
Definition ExecRedisCmd (k : ClientConn) (argv : list bytes) (conn : option Conn) (resp : option Resp)
    (now now_log : Z) : ST bytes :=
  match argv with
  | [] => abort
  | opt :: _ => let* r := DoCmd k argv opt conn resp now now_log in ret (message r)
  end.

(** [BatchExecRedisCmd] and [TryWriteResp]: the requests one after the other, the replies
    in their order. *)
Fixpoint BatchExecRedisCmd (k : ClientConn) (argvs : list (list bytes)) (conn : option Conn)
    (resp : option Resp) (clock : nat → Z) : ST (list bytes) :=
  match argvs with
  | [] => ret []
  | argv :: argvs =>
      let* r := ExecRedisCmd k argv conn resp (clock 0%nat) (clock 1%nat) in
      let* rs := BatchExecRedisCmd k argvs conn resp (λ i, clock (S (S i))) in
      ret (r :: rs)
  end.

(** The requests of a batch that are run: up to the first [quit].  A request without
    arguments before it makes the batch void. *)
Fixpoint requests_of (argvs : list (list bytes)) : option (list (list bytes)) :=
  match argvs with
  | [] => Some []
  | [] :: _ => None
  | (name :: args) :: argvs =>
      if bool_decide (name = str "quit") then Some [name :: args]
      else rest ← requests_of argvs; Some ((name :: args) :: rest)
  end.
(** [DoBackgroundTask]; [None]: nothing is run.  In this tree every command is local. *)
Definition DoBackgroundTask (k : ClientConn) (argvs : list (list bytes)) (conn : option Conn)
    (resp : option Resp) (clock : nat → Z) : ST (option (list bytes)) :=
  match argvs, requests_of argvs with
  | [], _ | _, None => ret None
  | _, Some argvs => let* rs := BatchExecRedisCmd k argvs conn resp clock in ret (Some rs)
  end.
End ClientConn.
