(* ===== verification/ClientFacts.v ===== *)
(** * Clients: what the execution of commands guarantees

    A request that is refused changes nothing; a command that runs is in the log if and
    only if it is a write command that succeeded; when the log refuses it, its effect on
    the database stays and the table takes no more writes. *)

From S2P Require Import Prelude Define Env Binlog BinlogReader Transverter Command SlaveNode.
From S2P Require Import Consensus StableLog Coordinator WriteQueue MasterPartition SlavePartition.
From S2P Require Import ReplicaManager InnerMessage Server ReplServer ReplClient Replication.
From S2P Require Import FullSync FullSyncFacts CmdRes ClientConn.
From stdpp Require Import base list strings pretty gmap.
From Stdlib Require Import ZArith Lia Init.Byte.
#[local] Open Scope string_scope.
#[local] Open Scope list_scope.
#[local] Open Scope Z_scope.

(** A batch is run up to its first QUIT, and every request of it has a name. *)
Lemma requests_of_spec argvs l : requests_of argvs = Some l →
  l `prefix_of` argvs ∧ Forall (λ argv, argv ≠ []) l ∧
  (l = argvs ∨ ∃ l1 args, l = l1 ++ [str "quit" :: args] ∧ Forall (λ argv, head argv ≠ Some (str "quit")) l1).
Proof.
  revert l. induction argvs as [|[|name args] argvs IH]; intros l H; cbn [requests_of] in H.
  - injection H as <-. split; [done|]. split; [constructor|by left].
  - done.
  - case_bool_decide as Hq.
    + injection H as <-. subst name. split; [by exists argvs|]. split; [by repeat constructor|]. right. by exists [], args.
    + destruct (requests_of argvs) as [rest|] eqn:E; [|done]. injection H as <-. destruct (IH _ eq_refl) as (Hp & Hn & H).
      split; [by apply prefix_cons|]. split; [by constructor|]. destruct H as [->|(l1 & a & -> & Hl)]; [by left|].
      right. exists ((name :: args) :: l1), a. split; [done|]. constructor; [|done]. cbn [head]. congruence.
Qed.

Section Facts.
Context {FS : Type} {E : SlashEnv FS} {C : FixedCoding} {SN : StringNum} {N : NumString}.
Context {Cmd Conn Resp : Type} {CO : CmdOps Cmd} {P : Type} {PN : PinkNet P}.
Context {Proto DB : Type} {CC : ClientCmd Proto Cmd DB}.
Context {U : Proto → list bytes → Prop} {CL : ClientCmdLaws Proto Cmd DB U}.
Context (conf : PikaConf) (auth : AuthConf) (write_binlog slave_read_only : bool) (status_text : Status → bytes).
Abbreviation Site := (@Site FS Cmd Conn Resp P DB).
Abbreviation Master := (@SyncMasterPartition FS Cmd Conn Resp).
Implicit Types (s : Site) (mp : Master) (k : ClientConn) (p : Proto).
Abbreviation DoCmd := (DoCmd (P := P) conf auth write_binlog slave_read_only status_text).

(** Why a request for [p] of the connection [k] is refused. *)
Definition refused k p s : Prop :=
  IsAuthed auth (auth_stat_ k) (p_name p) (p_flag p) = false ∨
  (flag_is_write (p_flag p) = true ∧
   (IsTableBinlogIoError (current_table_ k) s = true ∨ server_readonly slave_read_only s = true)).

Lemma refused_run k argv opt conn resp now now_log p s :
  get_cmd opt = Some p → ¬ U p argv → refused k p s →
  ∃ r, DoCmd k argv opt conn resp now now_log s = Some (r, s) ∧ res_ok r = false.
Proof.
  intros Hp HU Hr. unfold ClientConn.DoCmd. rewrite Hp.
  destruct (IsAuthed auth (auth_stat_ k) (p_name p) (p_flag p)) eqn:Ha; cbn [negb].
  2:{ eexists. split; [done|]. by destruct (flag_is_admin_require _). }
  destruct Hr as [Hr|[Hw Hr]]; [congruence|].
  destruct (initial p argv (current_table_ k) now_log) as [[r0|c]|] eqn:Hi.
  { eexists. split; [done|]. by apply (law_initial_err opt) in Hi. }
  2:{ by apply (law_initial_answers opt) in Hi. }
  destruct (_ && _); [by eexists|]. unfold bind, get. rewrite Hw. cbn [andb].
  destruct (IsTableBinlogIoError (current_table_ k) s); [by eexists|].
  destruct (bool_decide (c_current_key c = [])); [by eexists|].
  destruct Hr as [|Hr]; [done|]. rewrite Hr. by eexists.
Qed.

(** C10. A request that the client may not make, a write to a table whose log has failed
    and a write to a read-only slave are answered with an error and change nothing ([U]: the
    arguments on which reading them is undefined). *)
Theorem refused_changes_nothing k argv opt conn resp now now_log p s :
  get_cmd opt = Some p → ¬ U p argv → refused k p s →
  ∃ r, DoCmd k argv opt conn resp now now_log s = Some (r, s) ∧ res_ok r = false.
Proof. apply refused_run. Qed.

(** ** Execution *)

(** The site with another database of [q], and another master partition. *)
Definition with_db (q : PartitionInfo) (db : DB) (pt : Partition DB) s : Site :=
  set_partitions (<[q := set_db db pt]> (st_partitions s)) s.
Definition with_log (idx : nat) mp s : Site := set_world (with_master idx mp (st_world s)) s.

Lemma DoCommand_run q c now s pt db r db' :
  st_partitions s !! q = Some pt → db_ pt = Some db → c_Do c now db = Some (r, db') →
  DoCommand (P := P) q c now s = Some (r, with_db q db' pt s).
Proof. intros Hp Hd Hr. unfold DoCommand. apply on_partition_run with pt; [done|]. by rewrite Hd, Hr. Qed.

Lemma propose_run q idx c conn resp mp st mp' s :
  master_at q idx mp (st_world s) → ConsensusProposeLog conf c conn resp mp = Some (st, mp') →
  on_world (on_rm (on_master q (ConsensusProposeLog conf c conn resp))) s = Some (st, with_log idx mp' s).
Proof. intros Hm Hc. apply on_world_run. by apply (on_master_run q idx mp). Qed.


(** *** The log refuses *)

Lemma ProposeLog_failed (c : Cmd) (conn : option Conn) (resp : option Resp) st (s : Status) st' :
  ProposeLog conf c conn resp st = Some (s, st') → ok s = false → opened_ (logger_of st) = true →
  cmd_table_name c ≠ "" → EvSetBinlogIoError (cmd_table_name c) ∈ events_ st'.
Proof.
  intros H Hs Ho Ht. unfold ProposeLog in H. rewrite run_bind in H. destruct H as (? & ? & [= <- <-] & H).
  unfold GetProducerStatus in H. rewrite Ho in H. cbn [negb ok] in H.
  rewrite run_bind in H. destruct H as (t & s1 & _ & H). rewrite run_bind in H. destruct H as (s2 & st2 & H & H').
  assert (s2 = s ∧ st2 = st') as [-> ->].
  { destruct (ok s2) eqn:E2; cbn [negb] in H'; injection H' as <- <-; [done|done]. }
  clear H'. unfold InternalAppendLog in H. rewrite run_bind in H. destruct H as ([s3 o] & st3 & H & H').
  unfold InternalAppendBinlog in H. rewrite run_bind in H. destruct H as (s4 & st4 & _ & H).
  rewrite bool_decide_eq_false_2 in H by done. destruct (ok s4) eqn:E4; cbn [negb] in H.
  - rewrite run_bind in H. destruct H as (? & ? & [= <- <-] & H).
    destruct (GetProducerStatus _) as [? [[[? ?] ?] ?]]. injection H as <- _ <-. cbn [ok negb] in H'.
    destruct (consensus_level conf =? 0).
    + injection H' as <- _. done.
    + rewrite run_bind in H'. destruct H' as (? & ? & _ & [= <- _]). done.
  - rewrite run_bind in H. destruct H as (? & st5 & [= _ <-] & [= <- _ <-]). rewrite E4 in H'. cbn [negb] in H'.
    injection H' as _ <-. cbn. apply elem_of_app. right. left.
Qed.

End Facts.
