(* ===== verification/CmdClient.v ===== *)
(** * The commands of a family in the server

    A command with its arguments, its table and the time at which it is logged is a
    command of the log ([CmdOps]) and of a client ([ClientCmd]), for any family of
    commands that keeps the promises of [CmdFamily].  The items it makes are what the
    replication expects of an item: read back by a slave, they make the same item again. *)

From S2P Require Import Prelude Define Env Binlog BinlogReader Transverter Command SlaveNode.
From S2P Require Import StableLog ReplWorker Replication CmdRes CmdArgs CmdReply CmdFamily ClientConn.
From stdpp Require Import base list strings pretty gmap.
From Stdlib Require Import ZArith Lia Init.Byte.
#[local] Open Scope string_scope.
#[local] Open Scope list_scope.
#[local] Open Scope Z_scope.

Record CmdObject (A : Type) := mkCmdObject { ko_argv : list bytes; ko_cmd : A; ko_table : string; ko_time : Z }.
#[global] Arguments mkCmdObject {A}.
#[global] Arguments ko_argv {A}.
#[global] Arguments ko_cmd {A}.
#[global] Arguments ko_table {A}.
#[global] Arguments ko_time {A}.

(** The parser of requests, a separate library. *)
Class RequestParser := { parse_request_ : bytes → option (list bytes) }.
Class RequestParserLaws {K : RequestParser} {N : NumString} : Prop := {
  law_parse argv : argv ≠ [] → parse_request_ (request_text argv) = Some argv }.

Section Instances.
Context {C : FixedCoding} {N : NumString} {K : RequestParser} {A : Type} {F : CmdFamily A}.

(** A request as a command object for a table. *)
Definition object_initial (e : Entry A) (argv : list bytes) (table : string) (now_log : Z) :
    option (CmdRes + CmdObject A) :=
  match DoInitial e argv with
  | None => None
  | Some (inl r) => Some (inl r)
  | Some (inr c) => Some (inr (mkCmdObject argv c table now_log))
  end.

(** [InitCmd] of a slave: the name, the entry and the arguments. *)
Definition object_parse_cmd (table : string) (text : bytes) : option (CmdObject A) :=
  argv ← parse_request_ text; name ← head argv; e ← log_entry family_table name;
  match object_initial e argv table 0 with Some (inr c) => Some c | _ => None end.

#[export] Instance object_ops : CmdOps (CmdObject A) := {
  ToBinlog c e t l f o := BinlogEncode TypeFirst e t l f o (family_text (ko_argv c) (ko_cmd c) (ko_time c));
  cmd_table_name := ko_table;
  parse_cmd := object_parse_cmd }.

Context {DB : Type} {R : CmdRun A DB}.
#[export] Instance object_client : ClientCmd (Entry A) (CmdObject A) DB := {
  get_cmd := find_entry family_table;
  p_name := e_name;
  p_flag := e_flag;
  initial := object_initial;
  c_current_key c := family_key (ko_cmd c);
  c_Do c := cmd_Do (ko_cmd c) }.

Context {RD : Reading A} {U : string → list bytes → Prop} {FL : FamilyLaws A U}.
#[export] Instance object_client_laws : ClientCmdLaws (Entry A) (CmdObject A) DB (λ e, U (e_name e)).
Proof.
  assert (∀ opt e argv, find_entry family_table opt = Some e →
    outcome (U (e_name e) argv) (read_only (e_name e) (e_flag e) argv) (DoInitial e argv)) as H.
  { intros opt e argv He%find_entry_in. exact (table_outcome _ _ _ _ argv (law_table (C := A)) He). }
  split.
  - intros opt e argv t now r He Hi. apply (H opt e argv) in He. cbn in Hi. unfold object_initial in Hi.
    destruct (DoInitial e argv) as [[r0|c]|]; [|done|done]. injection Hi as <-. by apply refusal_not_ok.
  - intros opt e argv t now He HU. apply (H opt e argv) in He. cbn. unfold object_initial.
    by destruct (DoInitial e argv) as [[r0|c]|].
Qed.
End Instances.

(** ** Items *)

Section Items.
Context {C : FixedCoding} {CL : FixedCodingLaws} {N : NumString} {K : RequestParser} {KL : RequestParserLaws}.
Context {A : Type} {F : CmdFamily A} {L : Logged A} {LL : LoggedLaws A}.

Lemma encode_content e t l f o content :
  zdrop BINLOG_ENCODE_LEN (BinlogEncode TypeFirst e t l f o content) = content.
Proof.
  unfold BinlogEncode, zdrop. rewrite !app_assoc. apply drop_app_length'.
  by rewrite !length_app, !law_put_length.
Qed.

(** What [item_replayable] says of a whole table, for any family. *)
Lemma object_replayable e argv (c : A) now table i :
  head argv ≫= find_entry family_table = Some e → DoInitial e argv = Some (inr c) → times_fit c now → item_ok i →
  replayable (CO := object_ops (A := A)) table
    (ToBinlog (mkCmdObject argv c table now) (exec_time_ i) (term_id_ i) (logic_id_ i) (filenum_ i) (offset_ i)).
Proof.
  intros He Hi Hfit Hok. unfold ToBinlog, object_ops. cbn [ko_argv ko_cmd ko_time].
  destruct (law_logged e argv c now He Hi Hfit) as (a & e' & H1 & H2 & -> & Ht).
  split.
  { intros E. apply (f_equal length) in E. unfold BinlogEncode in E. rewrite !length_app, !law_put_length in E. cbn in E. lia. }
  intros old. eexists _, (mkCmdObject a (logged c now) table 0).
  split; [by apply without_content_encode|]. rewrite encode_content.
  split; [destruct i, Hok as (_ & _ & ? & _); cbn in *; lia|]. split.
  - unfold parse_cmd, object_ops, object_parse_cmd. rewrite law_parse by (intros ->; done).
    cbn [mbind option_bind]. destruct (head a) as [name|]; [|done]. cbn [mbind option_bind] in H1 |- *.
    rewrite (log_entry_found _ _ _ law_names H1).
    cbn [mbind option_bind]. unfold object_initial. by rewrite H2.
  - unfold ToBinlog, object_ops. cbn [ko_argv ko_cmd ko_time]. rewrite Ht. by destruct i.
Qed.
End Items.
