(* ===== verification/PikaFacts.v ===== *)
(** * All commands on data: what they guarantee

    One theorem for the whole table: where the arguments end, what a reply looks like, what
    is left as it was, that every command ends, and what the log says of it. *)

From S2P Require Import Prelude Define Env Transverter Command StableLog CmdRes Blackwidow CmdArgs CmdReply CmdFamily.
From S2P Require Import KvCmd KvFacts HashCmd ListCmd SetsCmd ZsetCmd BitCmd FamilyFacts Float64 GeoCoord GeoCmd GeoFacts PikaCmd.
From S2P Require Import Binlog BinlogReader SlaveNode Consensus Coordinator WriteQueue MasterPartition ReplicaManager Server.
From S2P Require Import ReplServer ReplWorker Replication FullSync ClientConn ClientFacts CmdClient.
From stdpp Require Import base list strings pretty gmap.
From Stdlib Require Import ZArith Lia Init.Byte.
#[local] Open Scope string_scope.
#[local] Open Scope list_scope.
#[local] Open Scope Z_scope.

Section Facts.
Context {N : NumString} {NL : NumStringLaws} {SN : StringNum} {SL : StringNumLaws} {FT : FloatText}.
Context {SC : Scores double} {RL : ReplyLimits} {RS DB : Type} {RO : RocksStatus RS}.
Context {BW : Blackwidow RS DB} {HH : Hashes RS DB} {LL : Lists RS DB} {SS : Sets RS DB} {ZZ : ZSets double RS DB}.
Context {BB : Bits RS DB} {PP : HyperLogLogs RS DB} {ML : MathLib} {SO : StdSort} {SOL : StdSortLaws}.
Implicit Types (e : Entry PikaCmd) (c : PikaCmd).

Lemma pika_outcome e argv : e ∈ family_table →
  outcome (undefined_args (e_name e) argv) (read_only (e_name e) (e_flag e) argv) (DoInitial e argv).
Proof. intros He. exact (table_outcome _ _ _ _ argv (law_table (C := PikaCmd)) He). Qed.

Lemma no_overflow name argv : bool_decide (name ∈ ["zunionstore"; "zinterstore"]) = false → ¬ num_keys_overflow name argv.
Proof. intros H [Hn _]. by apply bool_decide_eq_false in H. Qed.
Lemma no_count name argv : bool_decide (name ∈ ["georadius"; "georadiusbymember"]) = false → ¬ bad_count name argv.
Proof. intros H [Hn _]. by apply bool_decide_eq_false in H. Qed.
Lemma defined_args name argv :
  bool_decide (name ∈ ["zunionstore"; "zinterstore"]) = false → bool_decide (name ∈ ["georadius"; "georadiusbymember"]) = false →
  ¬ undefined_args name argv.
Proof. intros H1 H2 [H|H]; [by eapply no_overflow in H|by eapply no_count in H]. Qed.
Lemma ui_undefined name make argv : num_keys_overflow name argv → ui_parent (D := double) make argv = None.
Proof.
  intros (_ & Hl & v & n & Hv & Hn & Hbig). unfold ui_parent. rewrite Hv.
  destruct (lookup_lt_is_Some_2 argv 1) as [w ->]; [unfold zlen in Hl; lia|]. cbn [mbind option_bind]. unfold need_num. rewrite Hn.
  by rewrite (proj2 (Z.ltb_ge n 1)), (proj2 (Z.geb_le _ _)) by lia.
Qed.
Lemma overflow_table : Forall (λ e, ∀ argv, num_keys_overflow (e_name e) argv → DoInitial e argv = None)
  (family_table (C := PikaCmd)).
Proof.
  repeat (apply Forall_cons; split); try done; intros argv Ho;
    first [by apply no_overflow in Ho | unfold DoInitial, checked; cbn [lift_entry entry e_name e_arity e_wrong e_init]].
  all: replace (CheckArg (-4) argv) with true by (destruct Ho as (_ & Hl & _); unfold CheckArg; lia).
  all: unfold ZUnionstoreCmd_DoInitial, ZInterstoreCmd_DoInitial; by erewrite ui_undefined.
Qed.

(** A COUNT that is no [int], as the first option of GEORADIUS. *)
Definition count_first (argv : list bytes) : Prop :=
  ∃ u opt v, argv !! 5%nat = Some u ∧ check_unit u = true ∧ argv !! 6%nat = Some opt ∧ same_word opt "count" = true ∧
    argv !! 7%nat = Some v ∧ digits v = true ∧ stoi v = None.
Lemma same_words s t u : same_word s t = true → str t ≠ str u → same_word s u = false.
Proof. unfold same_word. intros H%bool_decide_eq_true Hne. apply bool_decide_eq_false. congruence. Qed.
Lemma count_first_undefined argv : count_first argv → GeoRadiusCmd_DoInitial argv = None.
Proof.
  intros (u & opt & v & Hu & Hc & Ho & Hw & Hv & Hd & Hs). unfold GeoRadiusCmd_DoInitial.
  destruct argv as [|a0 [|a1 [|a2 [|a3 [|a4 [|a5 [|a6 [|a7 argv]]]]]]]]; try done. cbn in Hu, Ho, Hv.
  injection Hu as ->. injection Ho as ->. injection Hv as ->. cbn [lookup list_lookup mbind option_bind drop]. rewrite Hc. cbn [negb radius_options].
  rewrite Hw, !(same_words opt "count") by done. unfold digits in Hd. by rewrite Hd, Hs.
Qed.
Lemma count_table : Forall (λ e, ∀ argv, e_name e = "georadius" → count_first argv → DoInitial e argv = None)
  (family_table (C := PikaCmd)).
Proof.
  repeat (apply Forall_cons; split); try done; intros argv Hn Ho; try discriminate Hn.
  unfold DoInitial, checked; cbn [lift_entry entry e_name e_arity e_wrong e_init].
  rewrite count_first_undefined by done. case_match eqn:Hc; [done|]. destruct Ho as (u & opt & v & _ & _ & _ & _ & Hv & _).
  apply lookup_lt_Some in Hv. unfold CheckArg in Hc. unfold zlen in Hc. lia.
Qed.

(** C12. No command reads an argument that is not there or converts one that it may not
    convert, with two exceptions: ZUNIONSTORE and ZINTERSTORE with a number of keys whose sum
    with 3 is past the largest number, and GEORADIUS and GEORADIUSBYMEMBER with a COUNT of
    digits that is empty or too large. *)
Theorem DoInitial_undefined e argv : e ∈ family_table →
  (DoInitial e argv = None → num_keys_overflow (e_name e) argv ∨ bad_count (e_name e) argv) ∧
  (num_keys_overflow (e_name e) argv → DoInitial e argv = None) ∧
  (e_name e = "georadius" → count_first argv → DoInitial e argv = None).
Proof.
  intros He. split; [|split].
  - intros H. pose proof (pika_outcome e argv He) as Ho. by rewrite H in Ho.
  - intros H. pose proof overflow_table as Ht. rewrite Forall_forall in Ht. by apply Ht.
  - intros Hn H. pose proof count_table as Ht. rewrite Forall_forall in Ht. by apply Ht.
Qed.

(** When the reply of a command that runs is one of the protocol: always, but for GEOPOS and
    GEOHASH when the engine fails on a member, and for GEORADIUS with an option twice. *)
Definition answers (c : PikaCmd) (now : Z) (db : DB) : Prop :=
  match c with
  | inr (inr (inr (inr (inr (inr (inr c)))))) => geo_replies (RS := RS) c now db
  | _ => True
  end.

(** C13. Every reply is one of the protocol: the errors about the arguments and the replies
    of the commands that run, whatever bytes the keys, values, members and fields have; for
    GEOPOS and GEOHASH if the engine answers for each member, and for GEORADIUS if no option
    is given twice. *)
Theorem reply_well_formed : flat_texts (RS := RS) (DB := DB) →
  (∀ e argv r, e ∈ family_table → DoInitial e argv = Some (inl r) → is_reply (message r)) ∧
  (∀ c now (db : DB) r db', answers c now db → cmd_Do c now db = Some (r, db') → is_reply (message r)).
Proof.
  intros Ht. split.
  - intros e argv r He H. apply refusal_reply. pose proof (pika_outcome e argv He) as Ho. by rewrite H in Ho.
  - intros c now db r db' Hc. apply (law_reply (Replying := pika_replying Ht)).
    by destruct c as [c|[c|[c|[c|[c|[c|[c|c]]]]]]].
Qed.

(** When a command is sure to end: KEYS and HGETALL if the engine's scan comes to its end,
    the ranges with LIMIT if the numbers are small, all others always. *)
Definition ends (c : PikaCmd) (now : Z) (db : DB) : Prop :=
  match c with
  | inl (KeysCmd pattern type) => scan_ends (RS := RS) scan_fuel type pattern now db 0 = true
  | inr (inl (HGetallCmd key)) => hscan_ends (RS := RS) scan_fuel key now db 0 = true
  | inr (inr (inr (inl c))) => zset_returns (RS := RS) c now db
  | inr (inr (inr (inr (inr (inr (inr c)))))) => geo_returns (RS := RS) c now db
  | _ => True
  end.


(** C8. What is not in the log is not changed: a command whose entry has no write flag,
    SRANDMEMBER, GEORADIUS and GEORADIUSBYMEMBER apart, leaves the database as it is, so that no change is missing on the
    slaves. *)
Theorem reads_keep_database e argv c now (db : DB) r db' :
  e ∈ family_table → flag_is_write (e_flag e) = false → e_name e ∉ unflagged_writers →
  DoInitial e argv = Some (inr c) → cmd_Do c now db = Some (r, db') → db' = db.
Proof.
  intros He Hw Hs Hi. pose proof (pika_outcome e argv He) as Ho. rewrite Hi in Ho.
  by apply law_keeps, Ho.
Qed.


Context {C : FixedCoding} {CL : FixedCodingLaws} {K : RequestParser} {KL : RequestParserLaws}.

(** C6. The item of a command is one that replicates: a slave reads the header that it was
    made with and a command out of its content, and the slave's own log item for that
    command is the same byte for byte. *)
Theorem item_replayable e argv c now table i :
  head argv ≫= find_entry family_table = Some e → DoInitial e argv = Some (inr c) → times_fit c now → item_ok i →
  replayable (CO := object_ops (A := PikaCmd)) table
    (ToBinlog (mkCmdObject argv c table now) (exec_time_ i) (term_id_ i) (logic_id_ i) (filenum_ i) (offset_ i)).
Proof. apply object_replayable. Qed.

(** *** STORE of the geo commands *)

Lemma radius_entries : Forall (λ e, e_name e ∈ ["georadius"; "georadiusbymember"] → flag_is_write (e_flag e) = false)
  (family_table (C := PikaCmd)).
Proof.
  repeat (apply Forall_cons; split); try done; intros Hn;
    first [reflexivity | exfalso; revert Hn; apply (bool_decide_eq_false _); reflexivity].
Qed.

Context {FS : Type} {SE : SlashEnv FS} {Conn Resp : Type} {P : Type} {PN : PinkNet P}.
Context (conf : PikaConf) (write_binlog : bool) (status_text : Status → bytes).

(** GEORADIUS and GEORADIUSBYMEMBER with STORE write a sorted set, but their entries have
    no write flag: the command changes the database and nothing else, so that no item in the
    log carries the change to the slaves. *)
Theorem store_not_logged e argv (c : GeoCmd) range now now_log q table conn resp (s : @Site FS (CmdObject PikaCmd) Conn Resp P DB)
    pt db r db' :
  e ∈ family_table → e_name e ∈ ["georadius"; "georadiusbymember"] →
  radius_range c = Some range → rg_store range || rg_storedist range = true →
  st_partitions s !! q = Some pt → db_ pt = Some db →
  let obj := mkCmdObject argv (inr (inr (inr (inr (inr (inr (inr c))))))) table now_log in
  cmd_Do c now db = Some (r, db') →
  InternalProcessCommand (P := P) conf write_binlog status_text q (e_flag e) false obj conn resp now s = Some (r, with_db q db' pt s) ∧
  st_world (with_db q db' pt s) = st_world s ∧
  ((res_ok r = false ∧ db' = db) ∨ ∃ points, db' = (bw_ZAdd (RS := RS) (storekey range) points now db).2).
Proof.
  intros He Hn Hc Hs Hp Hd obj Hr. split; [|split; [done|by eapply radius_store]].
  assert (c_Do obj now db = Some (r, db')) as Ho.
  { unfold cmd_Do in Hr. cbv [c_Do object_client cmd_Do sum_run obj ko_cmd pika_run]. exact Hr. }
  unfold InternalProcessCommand, bind at 1. rewrite (DoCommand_run q obj now s pt db r db' Hp Hd Ho). unfold DoBinlog.
  pose proof radius_entries as Hf. rewrite Forall_forall in Hf. rewrite (Hf e He Hn), andb_false_r. done.
Qed.
End Facts.
