(* ===== verification/PikaWitness.v ===== *)
(** * The commands on a small engine

    An engine that keeps strings, with their expiry, in an association list, has sorted
    sets of two members, and refuses everything else; the theorems of [KvFacts],
    [PikaFacts] and [ZsetPages] on it. *)

From S2P Require Import Prelude Define Env Transverter Command StableLog BinlogWitness Geohash Float64.
From S2P Require Import GeoCoord CmdRes Blackwidow CmdArgs CmdReply CmdFamily KvCmd KvFacts HashCmd ListCmd.
From S2P Require Import SetsCmd ZsetCmd ZsetPages BitCmd FamilyFacts GeoCmd GeoFacts PikaCmd PikaFacts.
From stdpp Require Import base list strings pretty gmap.
From Stdlib Require Import ZArith Lia Init.Byte Floats.SpecFloat.
#[local] Open Scope string_scope.
#[local] Open Scope list_scope.
#[local] Open Scope Z_scope.

(** A key, its value and the moment it is due, 0 for none. *)
Definition TinyDB : Type := list (bytes * (bytes * Z)).
#[export] Instance tiny_status : RocksStatus bool := {
  rs_ok s := s; rs_IsNotFound _ := false; rs_IsCorruption _ := false; rs_IsInvalidArgument _ := false;
  rs_ToString s := if s then str "OK" else str "IO error: not supported" }.

Definition tiny_del (k : bytes) (db : TinyDB) : TinyDB := filter (λ e, e.1 ≠ k) db.
Definition tiny_put (k v : bytes) (due : Z) (db : TinyDB) : TinyDB := (k, (v, due)) :: tiny_del k db.
Definition tiny_get (k : bytes) (now : Z) (db : TinyDB) : option bytes :=
  match filter (λ e, e.1 = k) db with
  | (_, (v, due)) :: _ => if (due =? 0) || (now <? due) then Some v else None
  | [] => None
  end.
Definition tiny_put_all (kvs : list KeyValue) (db : TinyDB) : TinyDB :=
  foldl (λ db kv, tiny_put (kv_key kv) (kv_value kv) 0 db) db kvs.

#[export] Instance tiny_engine : Blackwidow bool TinyDB := {
  bw_Set k v _ db := (true, tiny_put k v 0 db);
  bw_Setxx _ _ res _ _ db := (false, res, db);
  bw_Setnx k v res _ now db :=
    match tiny_get k now db with Some _ => (true, 0, db) | None => (true, 1, tiny_put k v 0 db) end;
  bw_Setvx _ _ _ res _ _ db := (false, res, db);
  bw_Setex k v ttl now db := (true, tiny_put k v (now + ttl) db);
  bw_PKSetexAt k v t _ db := (true, tiny_put k v t db);
  bw_Get k now db := match tiny_get k now db with Some v => (true, v) | None => (false, []) end;
  bw_Del ks _ db := (zlen ks, foldl (λ db k, tiny_del k db) db ks);
  bw_Incrby _ _ _ db := (false, 0, db);
  bw_Decrby _ _ _ db := (false, 0, db);
  bw_Incrbyfloat _ _ _ db := (false, [], db);
  bw_GetSet _ _ _ db := (false, [], db);
  bw_Append k v now db :=
    let v := default [] (tiny_get k now db) ++ v in (true, zlen v, tiny_put k v 0 db);
  bw_MGet ks now db := (true, (λ k, match tiny_get k now db with Some v => (true, v) | None => (false, []) end) <$> ks);
  bw_Scan _ _ _ _ _ db := (0, fst <$> db);
  bw_Scanx _ _ _ _ _ db := (true, fst <$> db, []);
  bw_PKScanRange _ _ _ _ _ _ _ := (false, [], [], []);
  bw_PKRScanRange _ _ _ _ _ _ _ := (false, [], [], []);
  bw_Delvx _ _ res _ db := (false, res, db);
  bw_MSet kvs _ db := (true, tiny_put_all kvs db);
  bw_MSetnx kvs res now db :=
    if existsb (λ kv, match tiny_get (kv_key kv) now db with Some _ => true | None => false end) kvs
    then (true, 0, db) else (true, 1, tiny_put_all kvs db);
  bw_Getrange _ _ _ _ _ := (false, []);
  bw_Setrange _ _ _ _ db := (false, 0, db);
  bw_Strlen k now db := match tiny_get k now db with Some v => (true, zlen v) | None => (false, 0) end;
  bw_Exists ks now db := zlen (filter (λ k, is_Some (tiny_get k now db)) ks);
  bw_Expire _ _ _ db := (-1, db);
  bw_Expireat _ _ _ db := (-1, db);
  bw_TTL _ _ _ := [];
  bw_Persist _ _ db := (-1, db);
  bw_Type _ _ _ := (true, str "string");
}.

(** *** A parser of requests *)

(** The text up to the first line end, and what follows it. *)
Fixpoint take_line (s : bytes) : option (bytes * bytes) :=
  match s with
  | [] => None
  | c :: s' =>
      match c, s' with
      | x0d, x0a :: rest => Some ([], rest)
      | _, _ => x ← take_line s'; Some (c :: x.1, x.2)
      end
  end.
(** A line of the type [c] with its number. *)
Definition take_number (c : byte) (s : bytes) : option (Z * bytes) :=
  match s with
  | d :: s => if bool_decide (c = d) then x ← take_line s; n ← num x.1; Some (n, x.2) else None
  | [] => None
  end.
Fixpoint take_args (n : nat) (s : bytes) : option (list bytes) :=
  match n with
  | O => if bool_decide (s = []) then Some [] else None
  | S n =>
      x ← take_number x24 s;
      let len := Z.to_nat x.1 in
      if bool_decide (take 2 (drop len x.2) = kNewLine)
      then l ← take_args n (drop 2 (drop len x.2)); Some (take len x.2 :: l)
      else None
  end.
Definition parse_request (s : bytes) : option (list bytes) :=
  x ← take_number x2a s; if 0 <? x.1 then take_args (Z.to_nat x.1) x.2 else None.

Lemma take_line_flat s rest : flat s → take_line (s ++ kNewLine ++ rest) = Some (s, rest).
Proof.
  induction s as [|c s IH]; intros [H1 H2]; [done|].
  assert (c ≠ x0d) as Hc by (intros ->; apply H1; left).
  assert (flat s) as Hs by (split; intros H; [apply H1|apply H2]; by right).
  specialize (IH Hs). change (take_line (c :: (s ++ kNewLine ++ rest)) = Some (c :: s, rest)).
  cbn [take_line]. rewrite IH. by destruct c.
Qed.

Lemma num_pretty n : num (ll2string n) = Some n.
Proof.
  unfold num. change (ll2string n) with (str (pretty n)). unfold str.
  rewrite String.string_of_list_byte_of_string. unfold string2l, digits_num. rewrite digits_z_pretty.
  cbv zeta. by rewrite bool_decide_eq_true_2.
Qed.

Lemma take_number_text c n rest : take_number c (c :: ll2string n ++ kNewLine ++ rest) = Some (n, rest).
Proof.
  unfold take_number. rewrite bool_decide_eq_true_2 by done.
  rewrite take_line_flat by apply flat_digits. cbn [mbind option_bind fst snd].
  by rewrite num_pretty.
Qed.

Lemma request_text_parts argv : ∀ s,
  foldl (λ content v, RedisAppendContent (RedisAppendLen content (zlen v) (str "$")) v) s argv =
    s ++ concat ((λ v, x24 :: ll2string (zlen v) ++ kNewLine ++ v ++ kNewLine) <$> argv).
Proof.
  induction argv as [|v argv IH]; intros s; cbn [foldl]; [by rewrite app_nil_r|].
  rewrite IH. unfold RedisAppendContent, RedisAppendLen. change (str "$") with [x24]. cbn [fmap list_fmap concat].
  rewrite <- !app_assoc. cbn [app]. by rewrite <- !app_assoc.
Qed.

Lemma take_args_text argv :
  take_args (length argv) (concat ((λ v, x24 :: ll2string (zlen v) ++ kNewLine ++ v ++ kNewLine) <$> argv)) = Some argv.
Proof.
  induction argv as [|v argv IH]; [done|]. cbn [length fmap list_fmap concat take_args].
  rewrite <- app_comm_cons, <- !app_assoc.
  rewrite take_number_text.
  cbn [mbind option_bind fst snd]. unfold zlen. rewrite Nat2Z.id, drop_app_length, take_app_length.
  change (take 2 (kNewLine ++ ?l)) with kNewLine. change (drop 2 (kNewLine ++ ?l)) with l.
  rewrite bool_decide_eq_true_2 by done. fold (zlen v) in *. unfold zlen in IH. by rewrite IH.
Qed.

Lemma parse_request_text argv : argv ≠ [] → parse_request (request_text argv) = Some argv.
Proof.
  intros Hne. unfold parse_request, request_text. rewrite request_text_parts. unfold RedisAppendLen at 1.
  change (str "*") with [x2a]. rewrite !app_nil_l, <- !app_assoc. cbn [app].
  rewrite take_number_text. cbn [mbind option_bind fst snd].
  destruct argv as [|a argv]; [done|]. rewrite (proj2 (Z.ltb_lt 0 _)) by (unfold zlen; cbn; lia).
  unfold zlen at 1. rewrite Nat2Z.id. apply take_args_text.
Qed.

#[export] Instance no_float : FloatText := {| string2d _ := false |}.
#[export] Instance tiny_limits : ReplyLimits := {| raw_limit := 1000; scan_fuel := 1 |}.

Lemma flat_pretty n : flat (ll2string n).
Proof. apply flat_digits. Qed.
Lemma tiny_status_flat (s : bool) : flat (rs_ToString s).
Proof. destruct s; by apply flatb_flat. Qed.
Lemma tiny_type_flat key now (db : TinyDB) : flat (bw_Type (RS := bool) key now db).2.
Proof. by apply flatb_flat. Qed.

Lemma set_options_spec_witness :
  set_options (str "k") (str "v") [] kNONE 0 [str "NX"; str "ex"; str "10"] =
    good (SetCmd (str "k") (str "v") [] kNX 10).
Proof.
  apply set_options_spec. exists [ONX; OEX 10], [[str "NX"]; [str "ex"; str "10"]]. split; [|split; reflexivity].
  repeat constructor; reflexivity.
Defined.

(** *** The log *)

Definition args_setex : list bytes := [str "setex"; str "k"; str "100"; str "v"].
Definition setex_cmd : KvCmd := SetexCmd (str "k") 100 (str "v").


(** 20 years from a time in 2020. *)
Definition far_cmd : KvCmd := SetexCmd (str "k") 630720000 (str "v").
Lemma far_expiry_wraps_witness :
  replay (C := KvCmd) parse_request (binlog_text args_setex far_cmd 1600000000) 1600000007 ([] : TinyDB)
  = Do (RS := bool) 1000 1 (PKSetexAtCmd (str "k") (str "v") (- 2064247296)) 1600000007 ([] : TinyDB).
Proof.
  exact (proj2 (far_expiry_wraps parse_request parse_request_text args_setex far_cmd (str "k")
    (str "v") 630720000 1600000000 1600000007 ([] : TinyDB) eq_refl ltac:(lia))).
Defined.

(** * All commands on the small engine

    The engine with the other types: sorted sets of two members that are
    always there, and everything else refused; the theorems of [PikaFacts] and
    [ZsetPages] on it. *)

#[export] Instance tiny_hashes : Hashes bool TinyDB := {
  bw_HDel _ _ _ db := (false, 0, db);
  bw_HSet _ _ _ _ db := (false, 0, db);
  bw_HGet _ _ _ _ := (false, []);
  bw_HScan _ _ _ _ _ _ := (true, [(str "f", str "v")], 0);
  bw_HExists _ _ _ _ := false;
  bw_HIncrby _ _ _ _ db := (false, 0, db);
  bw_HIncrbyfloat _ _ _ _ db := (false, [], db);
  bw_HKeys _ _ _ := (false, []);
  bw_HLen _ _ _ := (false, 0);
  bw_HMGet _ _ _ _ := (false, []);
  bw_HMSet _ _ _ db := (false, db);
  bw_HSetnx _ _ _ _ db := (false, 0, db);
  bw_HStrlen _ _ _ _ := (false, 0);
  bw_HVals _ _ _ := (false, []);
  bw_HScanx _ _ _ _ _ _ := (false, [], []);
  bw_PKHScanRange _ _ _ _ _ _ _ := (false, [], []);
  bw_PKHRScanRange _ _ _ _ _ _ _ := (false, [], []) }.

#[export] Instance tiny_lists : Lists bool TinyDB := {
  bw_LIndex _ _ _ _ := (false, []);
  bw_LInsert _ _ _ _ _ db := (false, 0, db);
  bw_LLen _ _ _ := (false, 0);
  bw_LPush _ _ _ db := (false, 0, db);
  bw_LPop _ _ db := (false, [], db);
  bw_LPushx _ _ _ db := (false, 0, db);
  bw_LRange _ _ _ _ _ := (false, []);
  bw_LRem _ _ _ _ db := (false, 0, db);
  bw_LSet _ _ _ _ db := (false, db);
  bw_LTrim _ _ _ _ db := (false, db);
  bw_RPop _ _ db := (false, [], db);
  bw_RPoplpush _ _ _ db := (false, [], db);
  bw_RPush _ _ _ db := (false, 0, db);
  bw_RPushx _ _ _ db := (false, 0, db) }.

#[export] Instance tiny_sets : Sets bool TinyDB := {
  bw_SAdd _ _ _ db := (false, 0, db);
  bw_SPop _ _ db := (false, [], db);
  bw_SCard _ _ _ := (false, 0);
  bw_SMembers _ _ _ := (false, []);
  bw_SScan _ _ _ _ _ _ := (false, [], 0);
  bw_SRem _ _ _ db := (false, 0, db);
  bw_SUnion _ _ _ := (false, []);
  bw_SUnionstore _ _ _ db := (false, 0, db);
  bw_SInter _ _ _ := (false, []);
  bw_SInterstore _ _ _ db := (false, 0, db);
  bw_SIsmember _ _ _ _ := (false, 0);
  bw_SDiff _ _ _ := (false, []);
  bw_SDiffstore _ _ _ db := (false, 0, db);
  bw_SMove _ _ _ _ db := (false, 0, db);
  bw_SRandmember _ _ _ db := (false, [], db) }.

#[export] Instance tiny_scores : Scores double := {
  score_of s := d_of_Z (default 0 (num s));
  d2string x := ll2string (default 0 (d_to_s64 x));
  ZSET_SCORE_MIN := S754_infinity true;
  ZSET_SCORE_MAX := S754_infinity false;
  score_eqb := deqb;
  score_one := d_of_Z 1;
  string2ll := num }.
Definition two_members : list (double * bytes) := [(d_of_Z 1, str "a"); (d_of_Z 2, str "b")].

#[export] Instance tiny_zsets : ZSets double bool TinyDB := {
  bw_ZAdd key l _ db := (true, zlen l, (key, (str "zset", 0)) :: db);
  bw_ZCard _ _ _ := (true, 2);
  bw_ZScan _ _ _ _ _ _ := (true, two_members, 0);
  bw_ZIncrby _ _ _ _ db := (false, d_of_Z 0, db);
  bw_ZRange _ _ _ _ _ := (true, two_members);
  bw_ZRevrange _ _ _ _ _ := (true, reverse two_members);
  bw_ZRangebyscore _ _ _ _ _ _ _ := (true, two_members);
  bw_ZRevrangebyscore _ _ _ _ _ _ _ := (true, reverse two_members);
  bw_ZCount _ _ _ _ _ _ _ := (true, 2);
  bw_ZRem _ _ _ db := (false, 0, db);
  bw_ZUnionstore _ _ _ _ _ db := (false, 0, db);
  bw_ZInterstore _ _ _ _ _ db := (false, 0, db);
  bw_ZRank _ _ _ _ := (false, 0);
  bw_ZRevrank _ _ _ _ := (false, 0);
  bw_ZScore _ _ _ _ := (true, d_of_Z 1);
  bw_ZRangebylex _ _ _ _ _ _ _ := (true, two_members.*2);
  bw_ZLexcount _ _ _ _ _ _ _ := (true, 2);
  bw_ZRemrangebyrank _ _ _ _ db := (false, 0, db);
  bw_ZRemrangebyscore _ _ _ _ _ _ db := (false, 0, db);
  bw_ZRemrangebylex _ _ _ _ _ _ db := (false, 0, db);
  bw_ZPopMax _ _ _ db := (false, [], db);
  bw_ZPopMin _ _ _ db := (false, [], db) }.

#[export] Instance tiny_bits : Bits bool TinyDB := {
  bw_SetBit _ _ _ _ db := (false, 0, db);
  bw_GetBit _ _ _ _ := (false, 0);
  bw_BitCount _ _ _ _ _ _ := (false, 0);
  bw_BitPos _ _ _ _ _ := (false, 0);
  bw_BitOp _ _ _ _ db := (false, 0, db) }.
#[export] Instance tiny_hlls : HyperLogLogs bool TinyDB := {
  bw_PfAdd _ _ _ db := (false, false, db);
  bw_PfCount _ _ _ := (false, 0);
  bw_PfMerge _ _ db := (false, db) }.

(** An insertion sort, and functions in the place of those of the C library. *)
Fixpoint tiny_insert {A} (lt : A → A → bool) (x : A) (l : list A) : list A :=
  match l with [] => [x] | y :: l => if lt y x then y :: tiny_insert lt x l else x :: y :: l end.
#[export] Instance tiny_sort : StdSort := { std_sort A lt l := foldr (tiny_insert lt) [] l }.
#[export] Instance tiny_sort_laws : StdSortLaws.
Proof.
  split. intros A lt l. cbn. induction l as [|x l IH]; [done|]. cbn [foldr]. rewrite <- IH at 2. clear IH.
  generalize (foldr (tiny_insert lt) [] l). intros k. induction k as [|y k IHk]; [done|]. cbn [tiny_insert].
  destruct (lt y x); [|done]. by rewrite IHk, Permutation_swap.
Qed.
#[export] Instance tiny_math : MathLib := { m_sin x := x; m_cos _ := d_of_Z 1; m_asin x := x; fixed4 _ := str "0.0000" }.

Abbreviation Tiny := PikaCmd.
Definition tiny_table : list (Entry Tiny) := family_table.
Definition set_entry : Entry Tiny := lift_entry inl (entry "set" (-3) kvWriteSingle SetCmd_DoInitial).
Lemma set_entry_in : set_entry ∈ tiny_table.
Proof. left. Qed.

(** ZUNIONSTORE d 9223372036854775805 a. *)
Definition args_union : list bytes := [str "zunionstore"; str "d"; str "9223372036854775805"; str "a"].
Definition union_entry : Entry Tiny :=
  lift_entry inr (lift_entry inr (lift_entry inr (lift_entry inl (entry "zunionstore" (-4) zsetWriteMulti ZUnionstoreCmd_DoInitial)))).
Lemma union_found : find_entry tiny_table (str "zunionstore") = Some union_entry.
Proof. reflexivity. Qed.

Lemma DoInitial_undefined_witness : DoInitial union_entry args_union = None ∧ DoInitial set_entry [] ≠ None.
Proof.
  split.
  - apply (proj1 (proj2 (DoInitial_undefined union_entry args_union (find_entry_in _ _ _ union_found)))).
    split; [left|]. split; [vm_compute; discriminate|]. exists (str "9223372036854775805"), 9223372036854775805.
    split; [reflexivity|]. split; [vm_compute; reflexivity|vm_compute; discriminate].
  - intros H. apply (proj1 (DoInitial_undefined set_entry [] set_entry_in)) in H as [H|H]; [by apply no_overflow in H|].
    by apply no_count in H.
Defined.

Lemma tiny_flat_texts : flat_texts (RS := bool) (DB := TinyDB).
Proof. split; [exact flat_pretty|]. split; [exact tiny_status_flat|exact tiny_type_flat]. Qed.

Definition zrange : Tiny := inr (inr (inr (inl (ZRangeCmd double (str "z") 0 (-1) true)))).
Lemma reply_well_formed_witness : is_reply (message (default res_new (fst <$> cmd_Do zrange 5 ([] : TinyDB)))).
Proof.
  apply (proj2 (reply_well_formed (RS := bool) tiny_flat_texts) zrange 5 ([] : TinyDB) _ ([] : TinyDB)); [exact I|reflexivity].
Defined.

Definition hgetall : Tiny := inr (inl (HGetallCmd (str "h"))).

Definition args_get : list bytes := [str "get"; str "k"].
Definition get_entry : Entry Tiny := lift_entry inl (entry "get" 2 kvReadSingle GetCmd_DoInitial).
Lemma get_found : find_entry tiny_table (str "get") = Some get_entry.
Proof. reflexivity. Qed.
Lemma reads_keep_database_witness : ∃ r, cmd_Do (C := Tiny) (inl (GetCmd (str "k"))) 5 [(str "k", (str "v", 0))] =
  Some (r, [(str "k", (str "v", 0))]).
Proof.
  destruct (cmd_Do (C := Tiny) (inl (GetCmd (str "k"))) 5 [(str "k", (str "v", 0))]) as [[r db]|] eqn:E; [|done].
  exists r. do 2 f_equal. apply (reads_keep_database get_entry args_get (inl (GetCmd (str "k"))) 5 [(str "k", (str "v", 0))] r db).
  - exact (find_entry_in _ _ _ get_found).
  - reflexivity.
  - by apply (bool_decide_eq_false _).
  - reflexivity.
  - exact E.
Defined.

(** *** The log *)

Definition setex_entry : Entry Tiny := lift_entry inl (entry "setex" 4 kvWriteSingle SetexCmd_DoInitial).
Lemma setex_found : head args_setex ≫= find_entry tiny_table = Some setex_entry.
Proof. reflexivity. Qed.
Lemma setex_initial : DoInitial setex_entry args_setex = Some (inr (inl setex_cmd)).
Proof. vm_compute. reflexivity. Qed.


(** *** LIMIT *)

Lemma limit_is_page_witness :
  limited 1 1 two_members = Some [(d_of_Z 2, str "b")] ∧ limited_rev 1 1 two_members = Some [(d_of_Z 1, str "a")].
Proof. apply (limit_is_page 1 1 two_members); vm_compute; reflexivity. Defined.

Lemma huge_limit_undefined_witness :
  ZRangebyscoreCmd_Do (RS := bool) (str "z") (d_of_Z 0) (d_of_Z 9) true true false 1 (2 ^ 63 - 1) 5 ([] : TinyDB) = None ∧
  ZRevrangebylexCmd_Do (D := double) (RS := bool) (str "z") (str "a") (str "c") true true 1 (2 ^ 63 - 1) 5 ([] : TinyDB) = None.
Proof.
  eapply (huge_limit_undefined (RS := bool) (str "z") (d_of_Z 0) (d_of_Z 9) true true false (str "a") (str "c") 1 (2 ^ 63 - 1) 5 ([] : TinyDB));
    first [reflexivity | vm_compute; split; reflexivity | vm_compute; discriminate].
Defined.

(** *** Geo commands *)

Definition near (distance : Z) : GeoRange :=
  range_new (Some (d_of_Z 15)) (Some (d_of_Z 37)) (Some (d_of_Z distance)) (str "m").
Lemma near_encodes s : 1 ≤ s ≤ 26 → is_Some (geohashEncodeWGS84 (d_of_Z 15) (d_of_Z 37) s).
Proof.
  intros Hs. assert (forallb (λ s, bool_decide (is_Some (geohashEncodeWGS84 (d_of_Z 15) (d_of_Z 37) s))) (seqZ 1 26) = true) as H
    by (by vm_compute).
  rewrite forallb_forall in H. eapply bool_decide_eq_true_1, H, list_elem_of_In, elem_of_seqZ. lia.
Qed.
Lemma tiny_range_scores key now (db : TinyDB) : range_scores (RS := bool) key now db.
Proof. intros lo hi s l [= <- <-] _. repeat constructor; vm_compute; by eexists. Qed.

Lemma negative_radius_hangs_witness :
  GeoRadiusCmd_Do (RS := bool) (str "z") (near (-5)) 5 ([] : TinyDB) = None ∧
  GeoRadiusCmd_Do (RS := bool) (str "z") (near 5) 5 ([] : TinyDB) ≠ None.
Proof.
  split.
  - refine (proj1 (proj1 (negative_radius_hangs (RS := bool) (str "z") (near (-5)) 5 ([] : TinyDB) (d_of_Z 15) (d_of_Z 37) (d_of_Z (-5))
      eq_refl eq_refl eq_refl _) _)); by vm_compute.
  - refine (proj2 (negative_radius_hangs (RS := bool) (str "z") (near 5) 5 ([] : TinyDB) (d_of_Z 15) (d_of_Z 37) (d_of_Z 5)
      eq_refl eq_refl eq_refl _) _ (tiny_range_scores _ _ _) near_encodes); by vm_compute.
Defined.
