(* ===== verification/ConfigWitness.v ===== *)
(** * Configurations

    A file as a list of settings, and the theorems about the configuration on small files. *)

From S2P Require Import Prelude Define Env Transverter Command StableLog BinlogWitness CmdRes Blackwidow CmdArgs CmdReply PikaWitness.
From S2P Require Import SlaveNode Consensus Server PikaMeta ConfState Config ConfigCmd ConfigFacts ConfigReload ConfigTables.
From stdpp Require Import base list strings pretty gmap.
From coqutil Require Import Datatypes.RecordSetters.
From Stdlib Require Import ZArith Lia Init.Byte.
Import TriangleBracketNotations.
#[local] Open Scope string_scope.
#[local] Open Scope list_scope.
#[local] Open Scope Z_scope.

Definition ListFile : Type := list (string * bytes).
#[export] Instance list_file : BaseConf ListFile := {
  GetConfStr := text_of;
  GetConfInt n f := text_of n f ≫= num;
  GetConfInt64 n f := text_of n f ≫= num;
  CheckConfExist n f := bool_decide (is_Some (text_of n f));
  SetConfStr n v f := (λ nv, (nv.1, if bool_decide (nv.1 = n) then v else nv.2)) <$> f;
  SetConfInt n v f := (λ nv, (nv.1, if bool_decide (nv.1 = n) then to_string v else nv.2)) <$> f;
  SetConfInt64 n v f := (λ nv, (nv.1, if bool_decide (nv.1 = n) then to_string v else nv.2)) <$> f;
  PushConfItem i f := match i with kComment _ => f | kConf n v => f ++ [(n, v)] end;
  WriteBack f := (1, f) }.
#[export] Instance list_file_laws : BaseConfLaws list_file.
Proof.
  split; try done.
  - intros m n v f. unfold GetConfStr, SetConfStr, list_file, text_of.
    induction f as [|[k t] f IH]; [by destruct (bool_decide (m = n))|]. cbn. destruct (decide (k = m)) as [->|Hk].
    + rewrite (bool_decide_eq_true_2 (m = m)) by done. by destruct (bool_decide (m = n)).
    + by rewrite (bool_decide_eq_false_2 (k = m)) by done.
  - intros m n v f. unfold GetConfStr, PushConfItem, list_file, text_of.
    induction f as [|[k t] f IH]; cbn; [by destruct (bool_decide (n = m))|]. by destruct (bool_decide (k = m)).
  - intros n v f H _. unfold GetConfInt, list_file. unfold GetConfStr, list_file in H. rewrite H. apply num_pretty.
  - intros n v f H _. unfold GetConfInt64, list_file. unfold GetConfStr, list_file in H. rewrite H. apply num_pretty.
  - intros n f H. unfold GetConfInt, list_file. unfold GetConfStr, list_file in H. by rewrite H.
Qed.

Fixpoint split_at (sep : byte) (s : bytes) (word : bytes) : list bytes :=
  match s with
  | [] => [word]
  | c :: s => if bool_decide (c = sep) then word :: split_at sep s [] else split_at sep s (word ++ [c])
  end.
#[export] Instance small_texts : SlashText := {
  StringSplit s sep := split_at sep s [];
  StringConcat l sep := match l with [] => [] | w :: l => w ++ concat ((λ w, sep :: w) <$> l) end;
  StringToLower s := s;
  stringmatch p s := bool_decide (p = s) }.
#[export] Instance any_option : EngineOptions bool unit := { RewriteBlackwidowOptions _ _ _ w := (true, w) }.

(** Renaming in memory, and the message of the tables as the bits of a number. *)
#[export] Instance mem_paths : SlashPaths MemFS := {
  env_create_path fs p := fs;
  env_rename fs a b :=
    match mem_rw fs !! a with
    | Some d => (0, mkMemFS (mem_files fs) (<[b := d]> (delete a (mem_rw fs))) (mem_clock fs))
    | None => (-1, fs)
    end }.
#[export] Instance mem_paths_laws : SlashPathsLaws MemFS.
Proof.
  split; [done|]. intros fs a b fs' d. unfold env_rename, mem_paths, env_rwdata, MemEnv. intros H Hd. rewrite Hd in H.
  injection H as <-. cbn. apply lookup_insert_eq.
Qed.
Fixpoint bits_of (p : positive) : bytes :=
  match p with xI p => x01 :: bits_of p | xO p => x00 :: bits_of p | xH => [] end.
Fixpoint of_bits (s : bytes) : positive :=
  match s with [] => xH | c :: s => if bool_decide (c = x01) then xI (of_bits s) else xO (of_bits s) end.
Lemma of_bits_of p : of_bits (bits_of p) = p.
Proof. induction p as [p IH|p IH|]; cbn; by rewrite ?IH. Qed.
#[export] Instance bits_codec : MetaCodec := {
  SerializeToString ts := Some (bits_of (encode ((λ t, (tbl_name t, partition_num t, partition_ids t)) <$> ts : list (string * Z * list Z))));
  ParseFromArray s := (λ l : list (string * Z * list Z), (λ x, mkTableStruct x.1.1 x.1.2 x.2) <$> l) <$> decode (of_bits s) }.
#[export] Instance bits_codec_laws : MetaCodecLaws.
Proof.
  split. intros ts s [= <-]. unfold ParseFromArray, bits_codec. rewrite of_bits_of, decode_encode. cbn. f_equal.
  induction ts as [|[n k l] ts IH]; [done|]. cbn. by f_equal.
Qed.
Definition no_files : MemFS := mkMemFS ∅ ∅ 0.

(** A configuration before anything is loaded. *)
Definition cfg0 : Conf ListFile :=
  mkConfig [] [] [] 9221 [] 100 0 0 0 [] [] [] 0 0 [] [] 0 0 0 0 0 false 0 [] [] [] [] [] false 8 0 [] EmptyString [] [] [] [] 0 0
    false 0 0 0 0 false 0 0 0 0 0 0 0 0 false false false false 0 0 0 0 [] [] false 0 0 [].
Definition small_file : ListFile := [("port", str "9333"); ("timeout", str "-5"); ("compact-cron", str "nonsense"); ("maxclients", str "10")].
Definition cfg1 : Conf ListFile := default cfg0 ((λ x, x.1.2) <$> Load (inr small_file) cfg0 no_files).

Example Load_within_limits_witness :
  Load (inr small_file) cfg0 no_files = Some (0, cfg1, no_files) ∧ within_limits cfg1 ∧ timeout_ cfg1 = 60 ∧ compact_cron_ cfg1 = [].
Proof.
  assert (Load (inr small_file) cfg0 no_files = Some (0, cfg1, no_files)) as H by (vm_compute; reflexivity).
  split; [exact H|]. split; [exact (proj2 (Load_within_limits _ _ _ _ _ _ H))|split; vm_compute; reflexivity].
Defined.

Definition set1 : option (bytes * Conf ListFile * unit * list ServerCall) :=
  set_item (RS := bool) PIKA_ROLE_SINGLE (str "maxclients") (str "500") cfg1 tt.
Definition cfg2 : Conf ListFile := match set1 with Some (_, c, _, _) => c | None => cfg1 end.

Definition cmds1 : list (Z * bytes * bytes) := [
  (PIKA_ROLE_SINGLE, str "db-sync-speed", str "-1"); (PIKA_ROLE_MASTER, str "sync-window-size", str "100000");
  (PIKA_ROLE_SINGLE, str "compact-interval", str "6/60"); (PIKA_ROLE_SLAVE, str "maxclients", str "7")].
Definition cfg3 : Conf ListFile := default cfg1 (fst <$> run_sets (RS := bool) cmds1 cfg1 tt).
Example ConfigSet_limits_witness : bounded_ok cfg3 ∧ checked_ok cfg3 ∧ db_sync_speed_ cfg3 = 1024 ∧ maxclients_ cfg3 = 7.
Proof.
  assert (Load (inr small_file) cfg0 no_files = Some (0, cfg1, no_files)) as H1 by (vm_compute; reflexivity).
  assert (run_sets (RS := bool) cmds1 cfg1 tt = Some (cfg3, tt)) as H2 by (vm_compute; reflexivity).
  destruct (ConfigSet_limits _ _ _ _ _ _ _ _ _ H1 H2) as [Hb Hc]. split; [exact Hb|]. split; [|split; vm_compute; reflexivity].
  apply Hc. repeat (apply Forall_cons; split; [intros n Hn; vm_compute in Hn; first [discriminate Hn|injection Hn as <-; lia]|]). by apply Forall_nil.
Defined.

Example ConfigSet_wraps_witness : ∃ c',
  set_item (RS := bool) PIKA_ROLE_SINGLE (str "maxclients") (str "4294967296") cfg1 tt = accept [SetDispatchQueueLimit 0] c' tt ∧
  maxclients_ c' = 0.
Proof.
  destruct (ConfigSet_wraps (RS := bool) PIKA_ROLE_SINGLE (str "4294967296") 4294967296 cfg1 tt) as (c' & H & Hm & _).
  - vm_compute. reflexivity.
  - lia.
  - exists c'. split; [exact H|exact Hm].
Defined.

(** A file with every setting, and what is written after the commands. *)
Definition full_file : ListFile := rewritten cfg1.
Definition cfg4 : Conf ListFile := default cfg0 ((λ x, x.1.2) <$> Load (inr full_file) cfg0 no_files).
Definition cfg5 : Conf ListFile := default cfg4 (fst <$> run_sets (RS := bool) cmds1 cfg4 tt).
Definition cfg6 : Conf ListFile := default cfg0 ((λ x, x.1.2) <$> Load (inr (rep_ (ConfigRewrite cfg5).2)) cfg0 no_files).
Lemma cfg5_limits : within_limits cfg5.
Proof.
  split_and!; split; try (vm_compute; first [reflexivity|split; congruence|congruence|intros _; split_and!; congruence]).
  - vm_compute. by eexists _, _.
  - left. vm_compute. reflexivity.
  - right. vm_compute. reflexivity.
  - right. left.
Qed.


(** A table is added and saved, and read when the server starts again. *)
Definition added : option (Status * Conf ListFile * MemFS) := run_op (NewTable "db9" 3) cfg1 no_files.
Definition cfg7 : Conf ListFile := default cfg1 ((λ x, x.1.2) <$> added).
Definition files7 : MemFS := default no_files (snd <$> added).
Example table_changes_saved_witness :
  added = Some (OK, cfg7, files7) ∧ all_tables_wf (table_structs_ cfg7) ∧
  PikaMeta_ParseMeta (path_of cfg7) files7 = Some (inr (table_structs_ cfg7), files7) ∧ length (table_structs_ cfg7) = 9%nat.
Proof.
  assert (added = Some (OK, cfg7, files7)) as H by (vm_compute; reflexivity).
  assert (all_tables_wf (table_structs_ cfg1)) as Hw.
  { split; [|apply (bool_decide_unpack _); vm_compute; exact I].
    vm_compute. repeat (apply Forall_cons; split; [split; repeat constructor; congruence|]). by apply Forall_nil. }
  destruct (table_changes_saved (NewTable "db9" 3) cfg1 no_files OK cfg7 files7 I Hw H) as [Hw7 Hr].
  split; [exact H|]. split; [exact Hw7|]. split; [|vm_compute; reflexivity].
  apply Hr; [reflexivity| |vm_compute; reflexivity]. intros t Ht. vm_compute in Ht. injection Ht as <-. vm_compute. reflexivity.
Defined.
