(* ===== verification/KeyLocks.v ===== *)
(** * Record locks and the order of the log (Cmd::InternalProcessCommand)

    The worker threads run commands at the same time.  [InternalProcessCommand] holds the
    record locks of the command's keys from before it runs on the database until after it
    is in the log, so that the log has the commands of a key in the order in which they
    ran.  The library of the locks is separate: what is used of it is that two threads
    never hold the lock of one key.

    [InternalProcessCommand] is three steps of a thread: it takes the locks, the command
    runs, and, if it succeeded, it is appended; the locks are released with the last.

    A save ([InitBgsaveEngine] of src/pika_partition.cc) can come between any two steps. *)

From S2P Require Import Prelude.
From stdpp Require Import base list gmap relations.
From Stdlib Require Import ZArith Lia Init.Byte.
#[local] Open Scope list_scope.

(** What is known of a command: the keys it locks, its effect, whether it succeeded and
    is written to the log, and the effect of its log entry on a slave. *)
Class LockedCmd (Key Cmd DB : Type) := {
  lock_keys : Cmd → list Key;
  run : Cmd → DB → DB;
  is_logged : Cmd → DB → bool;
  apply_entry : Cmd → DB → DB }.

Section Locks.
Context {Key Cmd DB : Type} {LC : LockedCmd Key Cmd DB}.

(** A thread: idle, in possession of the locks of its command, or with its command run and
    not yet in the log. *)
Inductive Phase := Idle | Locked (c : Cmd) | Ran (c : Cmd).
Definition holds (x : Phase) : option Cmd :=
  match x with Idle => None | Locked c | Ran c => Some c end.

Record Shared := mkShared { sh_db : DB; sh_log : list Cmd; sh_threads : nat → Phase }.
Definition set_thread (t : nat) (x : Phase) (f : nat → Phase) : nat → Phase :=
  λ u, if decide (u = t) then x else f u.

Definition apart (c d : Cmd) : Prop := ∀ k, k ∈ lock_keys c → k ∈ lock_keys d → False.

Inductive lock_step (s : Shared) : Shared → Prop :=
  | step_lock t c :
      sh_threads s t = Idle → (∀ u d, u ≠ t → holds (sh_threads s u) = Some d → apart c d) →
      lock_step s (mkShared (sh_db s) (sh_log s) (set_thread t (Locked c) (sh_threads s)))
  | step_run t c :
      sh_threads s t = Locked c → is_logged c (sh_db s) = true →
      lock_step s (mkShared (run c (sh_db s)) (sh_log s) (set_thread t (Ran c) (sh_threads s)))
  | step_run_only t c :
      sh_threads s t = Locked c → is_logged c (sh_db s) = false →
      lock_step s (mkShared (run c (sh_db s)) (sh_log s) (set_thread t Idle (sh_threads s)))
  | step_log t c :
      sh_threads s t = Ran c →
      lock_step s (mkShared (sh_db s) (sh_log s ++ [c]) (set_thread t Idle (sh_threads s))).

Definition Shared0 (db : DB) : Shared := mkShared db [] (λ _, Idle).
Definition replay_log (log : list Cmd) (db : DB) : DB := foldl (λ db c, apply_entry c db) db log.

Lemma replay_log_app l1 l2 db : replay_log (l1 ++ l2) db = replay_log l2 (replay_log l1 db).
Proof. apply foldl_app. Qed.

(** What the locks are for. *)
Context (entries_commute : ∀ c d db, apart c d → apply_entry c (apply_entry d db) = apply_entry d (apply_entry c db))
  (entry_runs : ∀ c db, is_logged c db = true → apply_entry c db = run c db)
  (failure_keeps : ∀ c db, is_logged c db = false → run c db = db).

(** A command moves in front of those that share no key with it. *)
Lemma move_front c l db : Forall (apart c) l →
  apply_entry c (replay_log l db) = replay_log l (apply_entry c db).
Proof.
  intros H. revert db. induction H as [|d l Hd _ IH]; intros db; [done|].
  cbn [replay_log foldl]. unfold replay_log in IH. rewrite IH. by rewrite entries_commute.
Qed.

(** The threads that have run and not logged, in the order in which they ran, with their
    commands. *)
Record consistent (db0 : DB) (s : Shared) (pending : list (nat * Cmd)) : Prop := {
  c_db : sh_db s = replay_log (sh_log s ++ pending.*2) db0;
  c_pending t c : (t, c) ∈ pending ↔ sh_threads s t = Ran c;
  c_nodup : NoDup pending.*1;
  c_apart t u c d : t ≠ u → holds (sh_threads s t) = Some c → holds (sh_threads s u) = Some d → apart c d }.

Lemma set_thread_eq t x f : set_thread t x f t = x.
Proof. unfold set_thread. by rewrite decide_True. Qed.
Lemma set_thread_ne t u x f : u ≠ t → set_thread t x f u = f u.
Proof. unfold set_thread. intros H. by rewrite decide_False. Qed.

(** A thread that keeps or drops its locks leaves the others apart. *)
Lemma apart_kept f t x : (∀ c, holds x = Some c → holds (f t) = Some c) →
  (∀ t u c d, t ≠ u → holds (f t) = Some c → holds (f u) = Some d → apart c d) →
  ∀ a b c d, a ≠ b → holds (set_thread t x f a) = Some c → holds (set_thread t x f b) = Some d → apart c d.
Proof.
  intros Hx Hf a b c d Hab Ha Hb. apply (Hf a b c d Hab).
  - destruct (decide (a = t)) as [->|Hne]; [rewrite set_thread_eq in Ha; auto|by rewrite set_thread_ne in Ha].
  - destruct (decide (b = t)) as [->|Hne]; [rewrite set_thread_eq in Hb; auto|by rewrite set_thread_ne in Hb].
Qed.

(** The pending threads when [t], which is not one, changes into a phase that is not. *)
Lemma pending_kept f t x (pending : list (nat * Cmd)) :
  (∀ u c, (u, c) ∈ pending ↔ f u = Ran c) → (∀ c, f t ≠ Ran c) → (∀ c, x ≠ Ran c) →
  ∀ u c, (u, c) ∈ pending ↔ set_thread t x f u = Ran c.
Proof.
  intros Hp Ht Hx u c. rewrite Hp. destruct (decide (u = t)) as [->|Hne].
  - rewrite set_thread_eq. split; intros H; [by apply Ht in H|by apply Hx in H].
  - by rewrite set_thread_ne.
Qed.

Lemma step_lock_consistent db0 s pending t c : consistent db0 s pending → sh_threads s t = Idle →
  (∀ u d, u ≠ t → holds (sh_threads s u) = Some d → apart c d) →
  consistent db0 (mkShared (sh_db s) (sh_log s) (set_thread t (Locked c) (sh_threads s))) pending.
Proof.
  intros [Hd Hp Hn Ha] Ht Hc. split; [done| |done|]; cbn [sh_threads].
  - apply pending_kept; [done|by rewrite Ht|done].
  - assert (∀ u d, u ≠ t → holds (sh_threads s u) = Some d → apart d c) as Hc'.
    { intros u d Hu H k H1 H2. by apply (Hc u d Hu H k). }
    intros a b c1 d1 Hab H1 H2.
    destruct (decide (a = t)) as [->|Hat].
    + rewrite set_thread_eq in H1. injection H1 as <-. rewrite set_thread_ne in H2 by done. by apply (Hc b).
    + rewrite set_thread_ne in H1 by done. destruct (decide (b = t)) as [->|Hbt].
      * rewrite set_thread_eq in H2. injection H2 as <-. by apply (Hc' a).
      * rewrite set_thread_ne in H2 by done. by apply (Ha a b).
Qed.

Lemma step_run_consistent db0 s pending t c : consistent db0 s pending → sh_threads s t = Locked c →
  is_logged c (sh_db s) = true →
  consistent db0 (mkShared (run c (sh_db s)) (sh_log s) (set_thread t (Ran c) (sh_threads s))) (pending ++ [(t, c)]).
Proof.
  intros [Hd Hp Hn Ha] Ht Hl.
  assert (t ∉ pending.*1) as Hnew.
  { intros [[u d] [-> Hin]]%list_elem_of_fmap. cbn in *. apply Hp in Hin. congruence. }
  split; cbn [sh_db sh_log sh_threads].
  - rewrite fmap_app, app_assoc, replay_log_app, <- Hd. cbn. by rewrite entry_runs.
  - intros u d. rewrite elem_of_app, list_elem_of_singleton. destruct (decide (u = t)) as [->|Hne].
    + rewrite set_thread_eq. split; [intros [H|H]|intros [= <-]; by right].
      * apply Hp in H. congruence.
      * by injection H as <-.
    + rewrite set_thread_ne, <- Hp by done. split; [intros [H|H]; [done|congruence]|by left].
  - rewrite fmap_app. apply NoDup_app. split; [done|]. split; [|apply NoDup_singleton].
    by intros x Hx ->%list_elem_of_singleton.
  - apply apart_kept; [|done]. cbn. intros d [= <-]. by rewrite Ht.
Qed.

Lemma step_run_only_consistent db0 s pending t c : consistent db0 s pending → sh_threads s t = Locked c →
  is_logged c (sh_db s) = false →
  consistent db0 (mkShared (run c (sh_db s)) (sh_log s) (set_thread t Idle (sh_threads s))) pending.
Proof.
  intros [Hd Hp Hn Ha] Ht Hl. split; cbn [sh_db sh_log sh_threads]; [by rewrite failure_keeps| |done|].
  - apply pending_kept; [done|by rewrite Ht|done].
  - by apply apart_kept.
Qed.

Lemma step_log_consistent db0 s pending t c : consistent db0 s pending → sh_threads s t = Ran c →
  ∃ pending', consistent db0 (mkShared (sh_db s) (sh_log s ++ [c]) (set_thread t Idle (sh_threads s))) pending'.
Proof.
  intros [Hd Hp Hn Ha] Ht. pose proof (proj2 (Hp t c) Ht) as Hin.
  apply list_elem_of_split in Hin as (p1 & p2 & ->).
  rewrite fmap_app, fmap_cons in Hn. cbn [fst] in Hn.
  apply NoDup_app in Hn as (Hn1 & Hn12 & Hn2). apply NoDup_cons in Hn2 as [Hn2' Hn2].
  assert (∀ x, x ∈ p1.*1 → x ≠ t) as Hne1 by (intros x Hx ->; apply (Hn12 t Hx); left).
  assert (Forall (apart c) p1.*2) as Hap.
  { apply Forall_forall. intros d [[u d'] [-> Hin]]%list_elem_of_fmap. cbn.
    apply (Ha t u); [|by rewrite Ht|].
    - intros <-. apply (Hne1 t); [|done]. by apply (list_elem_of_fmap_2 fst) in Hin.
    - rewrite (proj1 (Hp u d')); [done|]. apply elem_of_app. by left. }
  exists (p1 ++ p2). split; cbn [sh_db sh_log sh_threads].
  - rewrite Hd, !fmap_app, fmap_cons. cbn [snd]. rewrite !replay_log_app. cbn [replay_log foldl].
    fold (replay_log p1.*2 (apply_entry c (replay_log (sh_log s) db0))).
    unfold replay_log at 1 3. f_equal. by apply move_front.
  - intros u d. destruct (decide (u = t)) as [->|Hne].
    + rewrite set_thread_eq. split; [|done]. rewrite elem_of_app. intros [H|H]; exfalso.
      * apply (list_elem_of_fmap_2 fst) in H. by apply (Hne1 t).
      * apply (list_elem_of_fmap_2 fst) in H. done.
    + rewrite set_thread_ne, <- Hp by done. rewrite !elem_of_app, elem_of_cons.
      split; [tauto|]. intros [H|[H|H]]; [by left|congruence|by right].
  - rewrite fmap_app. apply NoDup_app. split; [done|]. split; [|done].
    intros x Hx Hx2. apply (Hn12 x Hx). by right.
  - by apply apart_kept.
Qed.

Lemma step_consistent db0 s s' pending : consistent db0 s pending → lock_step s s' →
  ∃ pending', consistent db0 s' pending'.
Proof.
  intros Hc [t c Ht Ha|t c Ht Hl|t c Ht Hl|t c Ht].
  - exists pending. by apply step_lock_consistent.
  - eexists. by apply step_run_consistent.
  - exists pending. by apply step_run_only_consistent.
  - by apply step_log_consistent with pending.
Qed.

Lemma steps_consistent db0 s s' : rtc lock_step s s' → (∃ pending, consistent db0 s pending) →
  ∃ pending, consistent db0 s' pending.
Proof.
  induction 1 as [|s1 s2 s3 Hs _ IH]; [done|]. intros [pending Hc]. apply IH. by apply (step_consistent db0 s1 s2 pending).
Qed.

Lemma Shared0_consistent db0 : consistent db0 (Shared0 db0) [].
Proof. split; cbn; [done| |constructor|done]. intros t c. split; [by intros ?%elem_of_nil|done]. Qed.

(** When no command is between the database and the log, the log gives the database. *)
Lemma consistent_quiescent db0 s s' pending : consistent db0 s pending → rtc lock_step s s' → (∀ t c, sh_threads s' t ≠ Ran c) →
  replay_log (sh_log s') db0 = sh_db s'.
Proof.
  intros W R Hq. destruct (steps_consistent db0 _ s' R) as [pending' [Hd Hp _ _]]; [by exists pending|].
  destruct pending' as [|[t c] pending']; [by rewrite Hd, app_nil_r|]. exfalso. apply (Hq t c), Hp. left.
Qed.
Lemma quiescent_log db0 s : rtc lock_step (Shared0 db0) s → (∀ t c, sh_threads s t ≠ Ran c) →
  replay_log (sh_log s) db0 = sh_db s.
Proof. apply consistent_quiescent with []. apply Shared0_consistent. Qed.

(** *** A snapshot while commands run

    A save takes the offset of the log and the content of the database together, under the
    lock that a command holds only while it is on the database: a command may be on the
    database and not yet in the log. *)

(** What [InitBgsaveEngine] takes: the length of the log and the database. *)
Definition snapshot (s : Shared) : nat * DB := (length (sh_log s), sh_db s).
(** What a slave makes of it with the log from there. *)
Definition from_snapshot (sn : nat * DB) (log : list Cmd) : DB := replay_log (drop sn.1 log) sn.2.

(** The same without the beginning of the log. *)
Definition since (n : nat) (s : Shared) : Shared := mkShared (sh_db s) (drop n (sh_log s)) (sh_threads s).

Lemma since_step n s s' : (n ≤ length (sh_log s))%nat → lock_step s s' →
  (n ≤ length (sh_log s'))%nat ∧ lock_step (since n s) (since n s').
Proof.
  intros Hn [t c Ht Ha|t c Ht Hl|t c Ht Hl|t c Ht]; unfold since; cbn [sh_db sh_log sh_threads].
  - split; [done|]. by apply (step_lock (since n s)).
  - split; [done|]. by apply (step_run (since n s)).
  - split; [done|]. by apply (step_run_only (since n s)).
  - rewrite length_app, drop_app_le by done. split; [lia|]. by apply (step_log (since n s)).
Qed.
Lemma since_steps n s s' : (n ≤ length (sh_log s))%nat → rtc lock_step s s' → rtc lock_step (since n s) (since n s').
Proof.
  intros Hn H. induction H as [|s s1 s' H1 _ IH]; [apply rtc_refl|]. destruct (since_step n _ _ Hn H1) as [Hn1 Hs].
  eapply rtc_l; [exact Hs|by apply IH].
Qed.

(** Commands without common keys that are run a second time change nothing. *)
Lemma replay_again (l : list Cmd) db : (∀ c, c ∈ l → ∀ db, apply_entry c (apply_entry c db) = apply_entry c db) →
  List.ForallOrdPairs apart l → replay_log l (replay_log l db) = replay_log l db.
Proof.
  intros Hi H. revert db. induction H as [|c l Hc _ IH]; intros db; [done|].
  change (replay_log l (apply_entry c (replay_log l (apply_entry c db))) = replay_log l (apply_entry c db)).
  rewrite move_front by done. rewrite (Hi c) by left. apply IH. intros d Hd. apply Hi. by right.
Qed.

Lemma pending_apart db0 s pending : consistent db0 s pending → List.ForallOrdPairs apart pending.*2.
Proof.
  intros [_ Hp Hn Ha].
  assert (∀ t c, (t, c) ∈ pending → holds (sh_threads s t) = Some c) as Hh by (intros t c ->%Hp; done).
  clear Hp. induction pending as [|[t c] pending IH]; [constructor|].
  cbn [fmap list_fmap fst] in Hn. apply NoDup_cons in Hn as [Ht Hn]. constructor.
  - apply Forall_forall. intros d [[u d'] [-> Hin]]%list_elem_of_fmap. cbn [snd].
    apply (Ha t u); [|by apply Hh; left|by apply Hh; right].
    intros <-. apply Ht. by apply (list_elem_of_fmap_2 fst) in Hin.
  - apply IH; [done|]. intros u d Hin. apply Hh. by right.
Qed.

End Locks.
