(* ===== verification/ServerStat.v ===== *)
(** * The slow log, statistics and timed tasks (src/pika_server.cc, src/pika_statistic.cc)

    The log of slow commands with SLOWLOG, the counters of queries and their rates, the
    compactions that the configuration schedules and the deletion of old dumps; and what
    they guarantee. *)

From S2P Require Import Prelude Define Env Transverter Command SlaveNode Consensus StableLog Float64 Server.
From S2P Require Import PikaMeta CmdRes Blackwidow CmdArgs CmdReply ConfState Config.
From stdpp Require Import base list strings pretty gmap.
From Stdlib Require Import ZArith Lia Init.Byte.
#[local] Open Scope string_scope.
#[local] Open Scope list_scope.
#[local] Open Scope Z_scope.

(** ** The slow log *)

Definition SLOWLOG_ENTRY_MAX_ARGC : Z := 32.
Definition SLOWLOG_ENTRY_MAX_STRING : Z := 128.

Record SlowlogEntry := mkSlowlog { se_id : Z; se_start_time : Z; se_duration : Z; se_argv : list bytes }.
(** [slowlog_entry_id_] and [slowlog_list_], the newest first. *)
Record SlowLog := mkSlowLog { slowlog_entry_id_ : Z; slowlog_list_ : list SlowlogEntry }.
Definition SlowLog_new : SlowLog := mkSlowLog 0 [].

Section SlowLog.
Implicit Types (l : SlowLog).

(** [pop_back] until the list is not longer than the configured length, as a [uint32_t]. *)
Definition SlowlogTrim (slowlog_max_len : Z) l : SlowLog :=
  mkSlowLog (slowlog_entry_id_ l) (ztake (u32 slowlog_max_len) (slowlog_list_ l)).
Definition SlowlogReset l : SlowLog := mkSlowLog (slowlog_entry_id_ l) [].
Definition SlowlogLen l : Z := u32 (zlen (slowlog_list_ l)).
(** [number--] runs once more than there are entries; an underflow is undefined. *)
Fixpoint obtain (number : Z) (entries : list SlowlogEntry) : option (list SlowlogEntry) :=
  if number =? - 2 ^ 63 then None else
  if number =? 0 then Some [] else
  match entries with
  | [] => Some []
  | e :: entries => cons e <$> obtain (number - 1) entries
  end.
Definition SlowlogObtain (number : Z) l : option (list SlowlogEntry) := obtain number (slowlog_list_ l).

(** A long argument, and the arguments after the last that is kept. *)
Definition slow_arg (arg : bytes) : bytes :=
  if zlen arg >? SLOWLOG_ENTRY_MAX_STRING
  then ztake SLOWLOG_ENTRY_MAX_STRING arg ++
       str "... (" ++ to_string (zlen arg - SLOWLOG_ENTRY_MAX_STRING) ++ str " more bytes)"
  else arg.
Definition slow_argv (argv : list bytes) : list bytes :=
  let slargc := if zlen argv <? SLOWLOG_ENTRY_MAX_ARGC then zlen argv else SLOWLOG_ENTRY_MAX_ARGC in
  if slargc =? zlen argv then slow_arg <$> argv
  else (slow_arg <$> ztake (slargc - 1) argv) ++
       [str "... (" ++ to_string (zlen argv - slargc + 1) ++ str " more arguments)"].
Definition SlowlogPushEntry (slowlog_max_len : Z) (argv : list bytes) (time duration : Z) l : SlowLog :=
  SlowlogTrim slowlog_max_len
    (mkSlowLog (u64 (slowlog_entry_id_ l + 1))
       (mkSlowlog (s64 (slowlog_entry_id_ l)) time duration (slow_argv argv) :: slowlog_list_ l)).

(** [ProcessSlowlog]: a command that started at [start_us] and ended at [now_us]; the text
    in the error log is not modelled. *)
Definition ProcessSlowlog (slowlog_slower_than slowlog_max_len : Z) (argv : list bytes) (start_us now_us : Z) l : SlowLog :=
  let start_time := s32 (start_us / 1000000) in
  let duration := s64 (now_us - start_us) in
  if duration >? slowlog_slower_than then SlowlogPushEntry slowlog_max_len argv start_time duration l else l.
End SlowLog.

(** *** SLOWLOG *)

Inductive SlowlogCmd := SlowlogGet (number : Z) | SlowlogLength | SlowlogClear.
Definition SlowlogCmd_DoInitial {SN : StringNum} (argv : list bytes) : Init SlowlogCmd :=
  word ← argv !! 1%nat;
  let argc := zlen argv in
  if (argc =? 2) && same_word word "reset" then good SlowlogClear
  else if (argc =? 2) && same_word word "len" then good SlowlogLength
  else if ((argc =? 2) || (argc =? 3)) && same_word word "get" then
    if argc =? 3 then n ← argv !! 2%nat; need_num n (λ number, good (SlowlogGet number)) else good (SlowlogGet 10)
  else bad kErrOther "Unknown SLOWLOG subcommand or wrong # of args. Try GET, RESET, LEN.".
Definition slowlog_entry_reply {N : NumString} (e : SlowlogEntry) (r : CmdRes) : CmdRes :=
  let r := AppendInteger (se_duration e) (AppendInteger (se_start_time e) (AppendInteger (se_id e) (AppendArrayLen 4 r))) in
  strings_reply (se_argv e) r.
Definition SlowlogCmd_Do {N : NumString} (c : SlowlogCmd) (l : SlowLog) : option (CmdRes * SlowLog) :=
  match c with
  | SlowlogClear => Some (SetRes kOk [] res_new, SlowlogReset l)
  | SlowlogLength => Some (integer (SlowlogLen l), l)
  | SlowlogGet number =>
      slowlogs ← SlowlogObtain number l;
      Some (foldl (λ r e, slowlog_entry_reply e r) (AppendArrayLen (zlen slowlogs) res_new) slowlogs, l)
  end.

(** ** Counters *)

Record QpsStatistic := mkQps {
  querynum : Z; write_querynum : Z; last_querynum : Z; last_write_querynum : Z;
  last_sec_querynum : Z; last_sec_write_querynum : Z; last_time_us : Z }.
Definition QpsStatistic_new : QpsStatistic := mkQps 0 0 0 0 0 0 0.
Definition IncreaseQueryNum (is_write : bool) (q : QpsStatistic) : QpsStatistic :=
  mkQps (u64 (querynum q + 1)) (if is_write then u64 (write_querynum q + 1) else write_querynum q)
    (last_querynum q) (last_write_querynum q) (last_sec_querynum q) (last_sec_write_querynum q) (last_time_us q).
(** The queries in a second since the last time; the clock may stand still. *)
Definition per_second (delta delta_time_us : Z) : Z := u64 (delta * 1000000) / delta_time_us.
Definition ResetLastSecQuerynum (now_us : Z) (q : QpsStatistic) : QpsStatistic :=
  let cur_write_query := Z.max (write_querynum q) (last_write_querynum q) in
  let cur_query := Z.max (querynum q) (last_querynum q) in
  let cur_time_us := if now_us <=? last_time_us q then u64 (last_time_us q + 1) else now_us in
  let delta_time_us := u64 (cur_time_us - last_time_us q) in
  mkQps (querynum q) (write_querynum q) cur_query cur_write_query
    (per_second (cur_query - last_querynum q) delta_time_us)
    (per_second (cur_write_query - last_write_querynum q) delta_time_us) cur_time_us.

(** [Statistic]: the counters of the server, of the commands by their index in the table,
    and of the tables by their index. *)
Record Statistic := mkStatistic {
  accumulative_connections : Z; exec_count_table : list Z; server_qps : QpsStatistic; table_stat : list QpsStatistic }.
Definition Statistic_new (commands : nat) : Statistic :=
  mkStatistic 0 (replicate commands 0) QpsStatistic_new (replicate kMaxDbNum QpsStatistic_new).
Definition ResetStat (s : Statistic) : Statistic :=
  let q := server_qps s in
  mkStatistic 0 (exec_count_table s)
    (mkQps 0 (write_querynum q) 0 (last_write_querynum q) (last_sec_querynum q) (last_sec_write_querynum q) (last_time_us q))
    (table_stat s).
Definition incr_accumulative_connections (s : Statistic) : Statistic :=
  mkStatistic (u64 (accumulative_connections s + 1)) (exec_count_table s) (server_qps s) (table_stat s).
(** [None]: a name that is no table. *)
Definition UpdateTableQps (table_name : string) (is_write : bool) (s : Statistic) : option Statistic :=
  idx ← DbIdxFromStr table_name;
  if (idx <? length (table_stat s))%nat
  then Some (mkStatistic (accumulative_connections s) (exec_count_table s) (server_qps s)
               (alter (IncreaseQueryNum is_write) idx (table_stat s)))
  else None.
Definition UpdateQueryNumAndExecCountTable (table_name : string) (cmd_idx : nat) (is_write : bool) (s : Statistic) : option Statistic :=
  let q := server_qps s in
  let q := mkQps (u64 (querynum q + 1)) (write_querynum q) (last_querynum q) (last_write_querynum q)
             (last_sec_querynum q) (last_sec_write_querynum q) (last_time_us q) in
  if (cmd_idx <? length (exec_count_table s))%nat
  then UpdateTableQps table_name is_write
         (mkStatistic (accumulative_connections s) (alter (λ n, u64 (n + 1)) cmd_idx (exec_count_table s)) q (table_stat s))
  else None.
(** The clock is read for the server and for each table. *)
Definition Statistic_ResetLastSecQuerynum (clock : nat → Z) (s : Statistic) : Statistic :=
  mkStatistic (accumulative_connections s) (exec_count_table s) (ResetLastSecQuerynum (clock 0%nat) (server_qps s))
    (imap (λ i q, ResetLastSecQuerynum (clock (S i)) q) (table_stat s)).
Definition ServerTableStat (table_name : string) (s : Statistic) : option QpsStatistic :=
  idx ← DbIdxFromStr table_name; table_stat s !! idx.

(** ** Timed compactions *)

(** [last_check_compact_time_] in seconds and [have_scheduled_crontask_]. *)
Record CompactCron := mkCron { last_check_compact_time_ : Z; have_scheduled_crontask_ : bool }.

(** The share of the disk that is free, in percent, is at least [usage]. *)
Definition enough_space (free_size total_size usage : Z) : bool :=
  let percent := dmul (ddiv (d_of_Z free_size) (d_of_Z total_size)) (d_of_Z 100) in
  dltb (d_of_Z usage) percent || deqb (d_of_Z usage) percent.

(** The hours of [compact-cron]: the hour of the day and the day of the week are in them.
    The second value is that the flag of the last window is cleared. *)
Definition cron_window (have_week : bool) (week start end_ hour wday : Z) : bool * bool :=
  if (start <? end_) && ((hour >=? start) && (hour <? end_)) then (if have_week then week =? wday else true, false)
  else if (start >? end_) && (((hour >=? start) && (hour <? 24)) || ((hour >=? 0) && (hour <? end_))) then (negb have_week, false)
  else (false, true).
(** The text of [compact-cron] is in the form that [compact_cron_ok] checks. *)
Definition parse_cron (cc : bytes) : option (bool * Z * Z * Z * Z) :=
  let have_week := bool_decide (length (filter (λ c, c = slash_) cc) = 2%nat) in
  let first_slash := default 0%nat (find_char slash_ cc) in
  let week_str := if have_week then take first_slash cc else [] in
  let cron := if have_week then drop (S first_slash) cc else cc in
  colon ← find_char dash_ cron; underline ← find_char slash_ cron;
  week ← (if have_week then atoi week_str else Some 0);
  start ← atoi (take colon cron); end_ ← atoi (substr (colon + 1) underline cron);
  usage ← atoi (drop (underline + 1) cron);
  Some (have_week, if have_week then Z.rem week 7 else 0, start, end_, usage).

(** Whether [AutoCompactRange] compacts all tables: [disk] is the free and the whole size,
    [None] if they cannot be read, [now] the time and [hour] and [wday] the local time. *)
Definition AutoCompactRange (disk : option (Z * Z)) (compact_interval compact_cron : bytes) (now hour wday : Z)
    (c : CompactCron) : option (bool * CompactCron) :=
  match disk with
  | None => Some (false, c)
  | Some (free_size, total_size) =>
      if negb (bool_decide (compact_interval = [])) then
        slash ← find_char slash_ compact_interval;
        interval ← atoi (take slash compact_interval); usage ← atoi (drop (slash + 1) compact_interval);
        if (interval * 3600 <? - 2 ^ 31) || (interval * 3600 >=? 2 ^ 31) then None else
        if (last_check_compact_time_ c =? 0) || (now - last_check_compact_time_ c >=? interval * 3600)
        then Some (enough_space free_size total_size usage, mkCron now (have_scheduled_crontask_ c))
        else Some (false, c)
      else if negb (bool_decide (compact_cron = [])) then
        '(have_week, week, start, end_, usage) ← parse_cron compact_cron;
        let '(in_window, cleared) := cron_window have_week week start end_ hour wday in
        let scheduled := have_scheduled_crontask_ c && negb cleared in
        let run := negb scheduled && in_window && enough_space free_size total_size usage in
        Some (run, mkCron (last_check_compact_time_ c) (scheduled || run))
      else Some (false, c)
  end.

(** ** Old dumps *)

(** [strtol] reads the whole text as one number. *)
Definition whole_number (s : bytes) : bool :=
  let digits := (signed_digits s).2 in
  bool_decide (digits ≠ []) && forallb (λ c, bool_decide (is_Some (digit_value c))) digits.
(** A directory that a background save made: the prefix and a date. *)
Definition is_dump (db_sync_prefix name : bytes) : bool :=
  bool_decide (take (length db_sync_prefix) name = db_sync_prefix) && (zlen name =? zlen db_sync_prefix + 8) &&
  whole_number (drop (length db_sync_prefix) name).

(** [mktime] of midnight on a day with the fields [tm_year], [tm_mon] and [tm_mday]; the
    fields are given the year and the month themselves. *)
Definition dump_expired (mktime : Z → Z → Z → Z) (expiry_days : Z) (now : Z * Z * Z) (str_date : bytes) : option bool :=
  let '(now_year, now_month, now_day) := now in
  dump_year ← atoi (substr 0 4 str_date); dump_month ← atoi (substr 4 2 str_date); dump_day ← atoi (substr 6 2 str_date);
  let interval_days := s32 (Z.quot (mktime now_year now_month now_day - mktime dump_year dump_month dump_day) 86400) in
  Some (interval_days >=? expiry_days).
(** The directories that are deleted, of those in [dump_dir]; nothing while a slave is in a
    full synchronisation. [None] of [dump_dir]: it cannot be read. *)
Definition AutoDeleteExpiredDump (mktime : Z → Z → Z → Z) (db_sync_prefix : bytes) (expiry_days : Z) (now : Z * Z * Z)
    (dump_dir : option (list bytes)) (sync_slaves : Z) : option (list bytes) :=
  if expiry_days <=? 0 then Some [] else
  match dump_dir with
  | None => Some []
  | Some names =>
      expired ← mapM (λ name, if is_dump db_sync_prefix name
        then (λ b : bool, if b && (sync_slaves =? 0) then [name] else []) <$>
               dump_expired mktime expiry_days now (drop (length db_sync_prefix) name)
        else Some []) names;
      Some (concat expired)
  end.

(** * The slow log and the timed compactions: what is guaranteed

    The slow log is the newest part of the history of slow commands, of bounded size; the
    times of compactions that the configuration accepts but that never come. *)

(** ** The slow log *)

(** What happens to the slow log; the configured length may change in between. *)
Inductive SlowOp :=
  | OpPush (slowlog_max_len : Z) (argv : list bytes) (time duration : Z)
  | OpTrim (slowlog_max_len : Z) | OpReset.
Definition slow_step (l : SlowLog) (o : SlowOp) : SlowLog :=
  match o with
  | OpPush m argv time duration => SlowlogPushEntry m argv time duration l
  | OpTrim m => SlowlogTrim m l
  | OpReset => SlowlogReset l
  end.
(** The history: every slow command since the last reset, the newest first, and the number
    of the next one. *)
Definition history_step (h : Z * list SlowlogEntry) (o : SlowOp) : Z * list SlowlogEntry :=
  match o with
  | OpPush _ argv time duration => (u64 (h.1 + 1), mkSlowlog (s64 h.1) time duration (slow_argv argv) :: h.2)
  | OpTrim _ => h
  | OpReset => (h.1, [])
  end.
Definition slow_run (ops : list SlowOp) : SlowLog := foldl slow_step SlowLog_new ops.
Definition history (ops : list SlowOp) : list SlowlogEntry := (foldl history_step (0, []) ops).2.
(** The length that the last operation leaves room for. *)
Definition room (o : SlowOp) : option Z :=
  match o with OpPush m _ _ _ | OpTrim m => Some (u32 m) | OpReset => Some 0 end.

Lemma ztake_prefix {A} n (l h : list A) : l `prefix_of` h → ztake n l `prefix_of` h.
Proof. intros H. etrans; [|exact H]. unfold ztake. exists (drop (Z.to_nat n) l). by rewrite take_drop. Qed.
Lemma zlen_ztake_le {A} n (l : list A) : 0 ≤ n → zlen (ztake n l) ≤ n.
Proof. intros H. unfold zlen, ztake. rewrite length_take. lia. Qed.

Lemma slow_argv_length argv : zlen (slow_argv argv) ≤ SLOWLOG_ENTRY_MAX_ARGC.
Proof.
  unfold slow_argv, SLOWLOG_ENTRY_MAX_ARGC. pose proof (zlen_nonneg argv).
  destruct (Z.ltb_spec (zlen argv) 32).
  - rewrite Z.eqb_refl. unfold zlen in *. rewrite length_fmap. lia.
  - destruct (Z.eqb_spec 32 (zlen argv)) as [E|].
    + unfold zlen in *. rewrite length_fmap. lia.
    + rewrite zlen_app. change (zlen [_]) with 1. unfold zlen, ztake in *. rewrite length_fmap, length_take. lia.
Qed.

Definition entry_bounded (e : SlowlogEntry) : Prop := zlen (se_argv e) ≤ SLOWLOG_ENTRY_MAX_ARGC.
Lemma history_bounded ops h : Forall entry_bounded h.2 → Forall entry_bounded (foldl history_step h ops).2.
Proof.
  revert h. induction ops as [|o ops IH]; intros h Hh; [done|]. apply IH. destruct o; cbn; try done.
  constructor; [|done]. apply slow_argv_length.
Qed.
Lemma slow_run_history ops l h : slowlog_entry_id_ l = h.1 → slowlog_list_ l `prefix_of` h.2 →
  slowlog_list_ (foldl slow_step l ops) `prefix_of` (foldl history_step h ops).2.
Proof.
  revert l h. induction ops as [|o ops IH]; intros l h Hi Hp; [done|]. apply IH; destruct o; cbn; try done;
    [by rewrite Hi|apply ztake_prefix; rewrite Hi; by apply prefix_cons|by apply ztake_prefix].
Qed.
Lemma obtain_take number entries : 0 ≤ number → obtain number entries = Some (ztake number entries).
Proof.
  revert number. induction entries as [|e entries IH]; intros number Hn; cbn [obtain];
    (destruct (Z.eqb_spec number (- 2 ^ 63)); [lia|]); (destruct (Z.eqb_spec number 0) as [->|]; [done|]).
  - unfold ztake. by rewrite take_nil.
  - rewrite IH by lia. cbn. f_equal. unfold ztake. by replace (Z.to_nat number) with (S (Z.to_nat (number - 1))) by lia.
Qed.

(** C25. The slow log is the newest part of the history of slow commands since the last reset,
    each with at most 32 arguments; it is not longer than was configured when it changed
    last; and SLOWLOG GET shows as many of its newest entries as it is asked for. *)
Theorem slowlog_is_history ops o number : 0 ≤ number →
  let l := slow_run (ops ++ [o]) in
  slowlog_list_ l `prefix_of` history (ops ++ [o]) ∧ Forall entry_bounded (slowlog_list_ l) ∧
  (∀ m, room o = Some m → zlen (slowlog_list_ l) ≤ m) ∧
  SlowlogObtain number l = Some (ztake number (slowlog_list_ l)).
Proof.
  intros Hn l. assert (slowlog_list_ l `prefix_of` history (ops ++ [o])) as Hp by (by apply slow_run_history).
  split; [done|]. split.
  { destruct Hp as [k Hk]. pose proof (history_bounded (ops ++ [o]) (0, []) ltac:(by apply Forall_nil)) as Hb.
    change (Forall entry_bounded (history (ops ++ [o]))) in Hb. rewrite Hk in Hb. by apply Forall_app in Hb as [Hb _]. }
  split; [|by apply obtain_take].
  intros m Hm. unfold l, slow_run. rewrite foldl_app. cbn [foldl]. destruct o; injection Hm as <-; cbn; [| |done];
    apply zlen_ztake_le; apply u32_range.
Qed.

(** ** Counters *)

(** The rate is of the queries since the last time; the time goes on even if the clock does
    not, so nothing is divided by zero. *)
Lemma reset_time_moves now_us q : 0 ≤ last_time_us q < 2 ^ 64 - 1 → 0 ≤ now_us < 2 ^ 64 →
  last_time_us q < last_time_us (ResetLastSecQuerynum now_us q).
Proof.
  intros Hl Hn. cbn. destruct (Z.leb_spec now_us (last_time_us q)); [|lia]. unfold u64. rewrite Z.mod_small; lia.
Qed.

(** ** Timed compactions *)

Lemma parse_accepted cc : compact_cron_ok cc = Some true → ∃ have_week week start end_ usage,
  parse_cron cc = Some (have_week, week, start, end_, usage) ∧
  0 ≤ start ≤ 23 ∧ 0 ≤ end_ ≤ 23 ∧ 0 ≤ usage ≤ 100 ∧ 0 ≤ week ≤ 6.
Proof.
  unfold compact_cron_ok, parse_cron. cbv zeta.
  set (hw := bool_decide (length (filter (λ c, c = slash_) cc) = 2%nat)).
  set (ws := if hw then take _ cc else []). set (cron := if hw then drop _ cc else cc).
  destruct (find_char dash_ cron) as [colon|]; [|done]. destruct (find_char slash_ cron) as [underline|]; [|done].
  case_match; [done|].
  intros (week & Hw & (start & Hs & (end_ & He & (usage & Hu & [= Hok])%bind_Some)%bind_Some)%bind_Some)%bind_Some.
  exists hw, (if hw then Z.rem week 7 else 0), start, end_, usage. cbn [mbind option_bind].
  apply negb_true_iff in Hok. destruct hw.
  - rewrite Hw. cbn [mbind option_bind]. rewrite Hs. cbn [mbind option_bind]. rewrite He. cbn [mbind option_bind]. rewrite Hu.
    cbn [mbind option_bind]. pose proof (Z.rem_bound_pos week 7). split; [done|]. lia.
  - cbn [mbind option_bind]. rewrite Hs. cbn [mbind option_bind]. rewrite He. cbn [mbind option_bind]. rewrite Hu.
    cbn [mbind option_bind]. split; [done|]. lia.
Qed.

(** The hours of a day at which compactions are due. *)
Definition due (start end_ hour : Z) : Prop := if start <? end_ then start ≤ hour < end_ else hour < end_ ∨ start ≤ hour.

Lemma cron_window_spec have_week week start end_ hour wday in_window cleared : 0 ≤ hour < 24 →
  cron_window have_week week start end_ hour wday = (in_window, cleared) →
  (in_window = true ↔ start ≠ end_ ∧ due start end_ hour ∧ (have_week = true → start < end_ ∧ week = wday)) ∧
  (cleared = true ↔ ¬ (start ≠ end_ ∧ due start end_ hour)).
Proof.
  intros Hh. unfold cron_window, due.
  destruct (Z.ltb_spec start end_); destruct (Z.gtb_spec start end_); try lia;
  destruct (Z.geb_spec hour start); destruct (Z.ltb_spec hour end_); destruct (Z.geb_spec hour 0); destruct (Z.ltb_spec hour 24);
    try lia; cbn [andb orb]; intros [= <- <-]; destruct have_week; destruct (Z.eqb_spec week wday); cbn [negb];
    intuition (congruence || lia).
Qed.

(** What [compact-cron] means: compactions start in the hours from start to end, over
    midnight if the end is before the start, on the day of the week if there is one, once
    in each such period; but an accepted time whose start is its end, or with a day of the
    week and a period over midnight, never comes. *)
Theorem AutoCompactRange_spec cc free total now hour wday c : cc ≠ [] → compact_cron_ok cc = Some true → 0 ≤ hour < 24 →
  ∃ have_week week start end_ usage run c',
    parse_cron cc = Some (have_week, week, start, end_, usage) ∧
    AutoCompactRange (Some (free, total)) [] cc now hour wday c = Some (run, c') ∧
    (run = true ↔ have_scheduled_crontask_ c = false ∧ enough_space free total usage = true ∧ start ≠ end_ ∧
       due start end_ hour ∧ (have_week = true → start < end_ ∧ week = wday)) ∧
    (run = true → have_scheduled_crontask_ c' = true) ∧
    (due start end_ hour → start ≠ end_ → have_scheduled_crontask_ c = true → have_scheduled_crontask_ c' = true) ∧
    (¬ due start end_ hour → have_scheduled_crontask_ c' = false).
Proof.
  intros Hne (hw & week & start & end_ & usage & Hp & Hs & He & Hu & Hw)%parse_accepted Hh.
  destruct (cron_window hw week start end_ hour wday) as [in_window cleared] eqn:E.
  destruct (cron_window_spec hw week start end_ hour wday in_window cleared Hh E) as [Hin Hcl].
  exists hw, week, start, end_, usage. unfold AutoCompactRange.
  rewrite bool_decide_eq_true_2, bool_decide_eq_false_2 by done. cbn [negb]. rewrite Hp. cbn [mbind option_bind]. rewrite E.
  do 2 eexists. split; [done|]. split; [done|]. cbn [have_scheduled_crontask_].
  destruct (have_scheduled_crontask_ c), cleared, in_window, (enough_space free total usage); cbn [andb orb negb]; intuition congruence.
Qed.
