(* ===== verification/DbWorkers.v ===== *)
(** * The database workers of a slave (src/pika_repl_client.cc, src/pika_repl_bgworker.cc)

    A slave that has a command in its log hands it to one of its database workers, by the
    hash of the first argument; every worker runs its commands in the order in which they
    came, and the workers run at the same time.  The commands that two workers run must not
    depend on their order, which holds if a command has no other key than the one it is
    dispatched by.

    The effect of a command on the slave is [apply_entry] of the interface [LockedCmd]; the
    engine runs one command at a time. *)

From S2P Require Import Prelude Define Env Binlog BinlogReader Transverter Command SlaveNode Consensus.
From S2P Require Import StableLog Coordinator WriteQueue MasterPartition SlavePartition ReplicaManager.
From S2P Require Import InnerMessage Server ReplServer ReplClient FullSync CmdRes Blackwidow CmdArgs CmdReply.
From S2P Require Import ClientConn ServerStat KeyLocks.
From stdpp Require Import base list strings pretty gmap relations.
From Stdlib Require Import ZArith Lia Init.Byte.
#[local] Open Scope string_scope.
#[local] Open Scope list_scope.
#[local] Open Scope Z_scope.

(** ** One task *)

Section WriteDB.
Context {FS : Type} {E : SlashEnv FS} {C : FixedCoding} {SN : StringNum} {N : NumString}.
Context {Cmd Conn Resp : Type} {CO : CmdOps Cmd} {P : Type} {PN : PinkNet P}.
Context {Proto DB : Type} {CC : ClientCmd Proto Cmd DB}.
Context (conf : PikaConf) (slowlog_slower_than slowlog_max_len : Z) (argv_of : Cmd → list bytes).
Abbreviation Site := (@Site FS Cmd Conn Resp P DB).
Implicit Types (s : Site) (l : SlowLog).

(** [HandleBGWorkerWriteDB], with the clock when the command runs and before and after it;
    the result of the command is not looked at.  The applied index is for a consensus
    level above 0. *)
Definition HandleBGWorkerWriteDB (p : PartitionInfo) (c : Cmd) (offset : LogOffset) (now start_us now_us : Z) :
    M (Site * SlowLog) unit := λ '(s, l),
  '(_, s) ← DoCommand p c now s;
  let l := if slowlog_slower_than >=? 0
           then ProcessSlowlog slowlog_slower_than slowlog_max_len (argv_of c) start_us now_us l else l in
  if consensus_level conf =? 0 then Some (tt, (s, l)) else
  '(mp, s) ← on_world (on_rm (GetSyncMasterPartitionByName p)) s;
  match mp with
  | None => Some (tt, (s, l))
  | Some _ => '(_, s) ← on_world (on_rm (on_master p (ConsensusUpdateAppliedIndex offset))) s; Some (tt, (s, l))
  end.

(** A command that fails on the slave leaves no trace but in the slow log. *)
Lemma write_db_run p c offset now start_us now_us s l pt db r db' : consensus_level conf = 0 →
  st_partitions s !! p = Some pt → db_ pt = Some db → c_Do c now db = Some (r, db') →
  ∃ l', HandleBGWorkerWriteDB p c offset now start_us now_us (s, l) =
    Some (tt, (set_partitions (<[p := set_db db' pt]> (st_partitions s)) s, l')).
Proof.
  intros Hc Hp Hd Hr. unfold HandleBGWorkerWriteDB, DoCommand, on_partition, bind, get. rewrite Hp, Hd, Hr.
  cbn [mbind option_bind modify ret]. rewrite Hc. by eexists.
Qed.
End WriteDB.

(** ** The workers *)

Section Workers.
Context {Cmd DB : Type} {LC : LockedCmd bytes Cmd DB}.
Context (str_hash : string → Z) (workers : Z) (argv_of : Cmd → list bytes).

(** The worker of a command, and the argument that decides it. *)
Definition worker_of (c : Cmd) : option Z := db_worker str_hash workers (String.string_of_list_byte <$> argv_of c).
Definition dispatch_key (c : Cmd) : option bytes :=
  match argv_of c with [] => None | [name] => Some name | _ :: key :: _ => Some key end.

(** The queues of the workers, and the commands of the log that are not yet handed out. *)
Record WriteTasks := mkTasks { wt_db : DB; wt_queues : gmap Z (list Cmd); wt_log : list Cmd }.
Definition queue (i : Z) (s : WriteTasks) : list Cmd := default [] (wt_queues s !! i).

Inductive write_step (s : WriteTasks) : WriteTasks → Prop :=
  (** [ScheduleWriteDBTask] *)
  | step_schedule c log i :
      wt_log s = c :: log → worker_of c = Some i →
      write_step s (mkTasks (wt_db s) (<[i := queue i s ++ [c]]> (wt_queues s)) log)
  (** [HandleBGWorkerWriteDB] *)
  | step_apply i c rest :
      queue i s = c :: rest →
      write_step s (mkTasks (apply_entry c (wt_db s)) (<[i := rest]> (wt_queues s)) (wt_log s)).

Lemma schedule_to s s' c log i : wt_log s = c :: log → worker_of c = Some i →
  s' = mkTasks (wt_db s) (<[i := queue i s ++ [c]]> (wt_queues s)) log → write_step s s'.
Proof. intros H1 H2 ->. by eapply step_schedule. Qed.
Lemma apply_to s s' i c rest : queue i s = c :: rest →
  s' = mkTasks (apply_entry c (wt_db s)) (<[i := rest]> (wt_queues s)) (wt_log s) → write_step s s'.
Proof. intros H1 ->. by eapply step_apply. Qed.

Definition finished (s : WriteTasks) : Prop := wt_log s = [] ∧ ∀ i, queue i s = [].

(** A command that locks no other key than the one it is dispatched by. *)
Definition routed (c : Cmd) : Prop := argv_of c ≠ [] ∧ ∀ k, k ∈ lock_keys c → dispatch_key c = Some k.

Lemma worker_of_key c : worker_of c = (λ k, GetHashIndex str_hash workers (String.string_of_list_byte k) false) <$> dispatch_key c.
Proof. unfold worker_of, dispatch_key, db_worker. by destruct (argv_of c) as [|a [|b l]]. Qed.
Lemma routed_worker c : routed c → is_Some (worker_of c).
Proof. intros [Hne _]. rewrite worker_of_key. unfold dispatch_key. destruct (argv_of c) as [|a [|b l]]; [done| |]; by eexists. Qed.
Lemma routed_apart c d : routed c → routed d → worker_of c ≠ worker_of d → apart c d.
Proof. intros [_ Hc] [_ Hd] Hw k Hkc Hkd. apply Hw. by rewrite !worker_of_key, (Hc k Hkc), (Hd k Hkd). Qed.

(** The first of the elements that are wanted, and what is around it. *)
Lemma filter_head {A} (P : A → Prop) `{∀ x, Decision (P x)} l x rest : filter P l = x :: rest →
  ∃ l1 l2, l = l1 ++ x :: l2 ∧ Forall (λ y, ¬ P y) l1 ∧ filter P l2 = rest ∧ P x.
Proof.
  induction l as [|y l IH]; [done|]. rewrite filter_cons. case_decide as Hy.
  - intros [= -> <-]. by exists [], l.
  - intros (l1 & l2 & -> & H1 & H2 & H3)%IH. exists (y :: l1), l2. split_and!; [done|by constructor|done|done].
Qed.

(** Some order of the commands that wait: the queues are its parts, and in this order they
    lead to the database of the log. *)
Record waiting (log : list Cmd) (db0 : DB) (s : WriteTasks) (pending : list Cmd) : Prop := {
  w_db : replay_log (pending ++ wt_log s) (wt_db s) = replay_log log db0;
  w_queues i : filter (λ c, worker_of c = Some i) pending = queue i s;
  w_routed : Forall routed (pending ++ wt_log s) }.

Context (entries_commute : ∀ (c d : Cmd) (db : DB), apart c d → apply_entry c (apply_entry d db) = apply_entry d (apply_entry c db)).

Lemma schedule_waiting log db0 s pending c rest i : waiting log db0 s pending → wt_log s = c :: rest → worker_of c = Some i →
  waiting log db0 (mkTasks (wt_db s) (<[i := queue i s ++ [c]]> (wt_queues s)) rest) (pending ++ [c]).
Proof.
  intros [Hd Hq Hr] Hl Hw. rewrite Hl in Hd, Hr. split; cbn [wt_db wt_log].
  - by rewrite <- app_assoc.
  - intros j. unfold queue at 1. cbn [wt_queues]. rewrite filter_app, Hq, filter_cons, filter_nil, Hw.
    destruct (decide (i = j)) as [->|Hne].
    + by rewrite lookup_insert_eq, decide_True.
    + rewrite lookup_insert_ne, decide_False by congruence. apply app_nil_r.
  - by rewrite <- app_assoc.
Qed.

Lemma apply_waiting log db0 s pending i c rest : waiting log db0 s pending → queue i s = c :: rest →
  ∃ p1 p2, pending = p1 ++ c :: p2 ∧
    waiting log db0 (mkTasks (apply_entry c (wt_db s)) (<[i := rest]> (wt_queues s)) (wt_log s)) (p1 ++ p2).
Proof.
  intros [Hd Hq Hr] Hc. pose proof (Hq i) as Hi. rewrite Hc in Hi.
  apply filter_head in Hi as (p1 & p2 & -> & H1 & H2 & Hw). exists p1, p2. split; [done|].
  rewrite <- app_assoc in Hr. apply Forall_app in Hr as [Hr1 Hr]. apply Forall_cons in Hr as [Hrc Hr].
  assert (Forall (apart c) p1) as Hap.
  { apply Forall_forall. intros d Hin. rewrite Forall_forall in H1, Hr1. apply routed_apart; [done|by apply Hr1|].
    rewrite Hw. intros E. by apply (H1 d Hin). }
  assert (filter (λ c, worker_of c = Some i) p1 = []) as Hp1.
  { clear -H1. induction H1 as [|y l Hy _ IH]; [done|]. by rewrite filter_cons, decide_False. }
  split; cbn [wt_db wt_log].
  - rewrite <- Hd, <- !app_assoc, !(replay_log_app p1). cbn [app]. unfold replay_log at 1 3. cbn [foldl]. f_equal.
    symmetry. by apply move_front.
  - intros j. unfold queue. cbn [wt_queues]. specialize (Hq j). rewrite filter_app, filter_cons in Hq.
    rewrite filter_app. destruct (decide (i = j)) as [->|Hne].
    + by rewrite lookup_insert_eq, Hp1, H2.
    + rewrite lookup_insert_ne by done. rewrite decide_False in Hq by congruence. exact Hq.
  - rewrite <- app_assoc. by apply Forall_app.
Qed.

Lemma write_step_waiting log db0 s s' pending : waiting log db0 s pending → write_step s s' → ∃ pending', waiting log db0 s' pending'.
Proof.
  intros W [c rest i Hl Hw|i c rest Hc].
  - eexists. by eapply schedule_waiting.
  - destruct (apply_waiting _ _ _ _ _ _ _ W Hc) as (p1 & p2 & _ & H). by eexists.
Qed.
Lemma write_steps_waiting log db0 s s' : rtc write_step s s' → (∃ pending, waiting log db0 s pending) → ∃ pending, waiting log db0 s' pending.
Proof. induction 1 as [|s1 s2 s3 Hs _ IH]; [done|]. intros [pending W]. apply IH. by eapply write_step_waiting. Qed.

Lemma start_waiting log db0 : Forall routed log → waiting log db0 (mkTasks db0 ∅ log) [].
Proof. intros H. split; [done| |done]. intros i. unfold queue. cbn. by rewrite lookup_empty. Qed.

(** Nothing waits in the end, and until then there is always something to do. *)
Lemma finished_replayed log db0 s pending : waiting log db0 s pending → finished s → wt_db s = replay_log log db0.
Proof.
  intros [Hd Hq Hr] [Hl Hf]. rewrite Hl, app_nil_r in Hd, Hr. destruct pending as [|c pending]; [done|].
  apply Forall_cons in Hr as [[i Hi]%routed_worker _]. specialize (Hq i). rewrite Hf, filter_cons, decide_True in Hq by done. done.
Qed.
Lemma waiting_finishes log db0 n s pending : waiting log db0 s pending → (length pending + 2 * length (wt_log s) ≤ n)%nat →
  ∃ s', rtc write_step s s' ∧ finished s'.
Proof.
  revert s pending. induction n as [|n IH]; intros s pending W Hn.
  - exists s. split; [apply rtc_refl|]. destruct pending; cbn in Hn; [|lia]. destruct (wt_log s) eqn:El; cbn in Hn; [|lia].
    split; [done|]. intros i. by rewrite <- (w_queues _ _ _ _ W i).
  - destruct (wt_log s) as [|c rest] eqn:El.
    + destruct pending as [|c pending].
      { exists s. split; [apply rtc_refl|]. split; [done|]. intros i. by rewrite <- (w_queues _ _ _ _ W i). }
      pose proof (w_routed _ _ _ _ W) as Hr. apply Forall_cons in Hr as [[i Hi]%routed_worker _].
      pose proof (w_queues _ _ _ _ W i) as Hq. rewrite filter_cons, decide_True in Hq by done. symmetry in Hq.
      destruct (apply_waiting _ _ _ _ _ _ _ W Hq) as (p1 & p2 & Hp & W').
      destruct (IH _ _ W') as (s' & Hs & Hf).
      { cbn [wt_log]. rewrite El. apply (f_equal length) in Hp. rewrite length_app in Hp. rewrite length_app. cbn in *. lia. }
      exists s'. split; [|done]. eapply rtc_l; [by eapply step_apply|done].
    + pose proof (w_routed _ _ _ _ W) as Hr. rewrite El in Hr. apply Forall_app in Hr as [_ Hr].
      apply Forall_cons in Hr as [[i Hi]%routed_worker _].
      destruct (IH _ _ (schedule_waiting _ _ _ _ _ _ _ W El Hi)) as (s' & Hs & Hf).
      { cbn [wt_log]. rewrite length_app. cbn in *. lia. }
      exists s'. split; [|done]. eapply rtc_l; [by eapply step_schedule|done].
Qed.

Context (entry_runs : ∀ (c : Cmd) (db : DB), is_logged c db = true → apply_entry c db = run c db)
  (failure_keeps : ∀ (c : Cmd) (db : DB), is_logged c db = false → run c db = db).

End Workers.
#[global] Arguments WriteTasks : clear implicits.
