(* ===== verification/ClientWitness.v ===== *)
(** * Clients and record locks: examples

    Commands that set a number under the locks of [KeyLocks], a run of two key-value
    commands, one of them MSETNX, and a client's commands on the small engine. *)

From S2P Require Import Prelude Define Env Binlog BinlogReader Transverter Command SlaveNode Consensus.
From S2P Require Import StableLog BinlogWitness Coordinator MasterPartition SlavePartition ReplicaManager.
From S2P Require Import Float64 GeoCoord InnerMessage Server ReplServer Replication FullSync.
From S2P Require Import ReplicationWitness CmdRes Blackwidow CmdArgs CmdReply CmdFamily KvCmd ZsetCmd.
From S2P Require Import FamilyFacts GeoCmd GeoFacts PikaCmd ClientConn ClientFacts CmdClient PikaFacts.
From S2P Require Import PikaWitness KeyLocks ServerStat DbWorkers.
From stdpp Require Import base list strings gmap relations pretty.
From Stdlib Require Import ZArith Lia Init.Byte.
#[local] Open Scope string_scope.
#[local] Open Scope list_scope.
#[local] Open Scope Z_scope.

(** Commands that set a number. *)
#[local] Instance put_locked : LockedCmd nat (nat * Z) (gmap nat Z) := {
  lock_keys c := [c.1];
  run c db := <[c.1 := c.2]> db;
  is_logged _ _ := true;
  apply_entry c db := <[c.1 := c.2]> db }.

Lemma put_commute (c d : nat * Z) (db : gmap nat Z) : apart c d →
  apply_entry c (apply_entry d db) = apply_entry d (apply_entry c db).
Proof.
  intros H. apply insert_insert_ne. intros E. apply (H c.1); [left|]. unfold lock_keys, put_locked. rewrite E. left.
Qed.

(** Two threads run commands on two keys and log them in the other order. *)
Definition put_final : Shared := mkShared
  (<[2%nat := 20]> (<[1%nat := 10]> (∅ : gmap nat Z))) [(2%nat, 20); (1%nat, 10)]
  (set_thread 1 Idle (set_thread 2 Idle (set_thread 2 (Ran (2%nat, 20)) (set_thread 1 (Ran (1%nat, 10))
    (set_thread 2 (Locked (2%nat, 20)) (set_thread 1 (Locked (1%nat, 10)) (λ _, Idle))))))).

(** The moment at which both have run and only the second is logged. *)
Definition put_half : Shared := mkShared
  (<[2%nat := 20]> (<[1%nat := 10]> (∅ : gmap nat Z))) [(2%nat, 20)]
  (set_thread 2 Idle (set_thread 2 (Ran (2%nat, 20)) (set_thread 1 (Ran (1%nat, 10))
    (set_thread 2 (Locked (2%nat, 20)) (set_thread 1 (Locked (1%nat, 10)) (λ _, Idle)))))).
Lemma put_half_reached : rtc lock_step (Shared0 ∅) put_half.
Proof.
  eapply rtc_l; [apply (step_lock _ 1 (1%nat, 10)); [done|by intros]|].
  eapply rtc_l; [apply (step_lock _ 2 (2%nat, 20)); [done|]|].
  { intros u d Hu H. cbn in H. unfold set_thread in H. case_decide; [|done]. injection H as <-.
    intros k. unfold lock_keys, put_locked. cbn. intros ->%list_elem_of_singleton Hk%list_elem_of_singleton. done. }
  eapply rtc_l; [by apply (step_run _ 1 (1%nat, 10))|].
  eapply rtc_l; [by apply (step_run _ 2 (2%nat, 20))|].
  eapply rtc_l; [by apply (step_log _ 2 (2%nat, 20))|]. apply rtc_refl.
Qed.
Lemma put_half_on : rtc lock_step put_half put_final.
Proof. apply rtc_once. by apply (step_log put_half 1 (1%nat, 10)). Qed.
Lemma put_reached : rtc lock_step (Shared0 ∅) put_final.
Proof. etrans; [exact put_half_reached|exact put_half_on]. Qed.
Lemma put_quiet t c : sh_threads put_final t ≠ Ran c.
Proof. unfold put_final, set_thread. cbn. repeat case_decide; done. Qed.



(** *** MSETNX *)

(** Key-value write commands on the small engine, at one time of the clock. *)
Definition kv_run (c : KvCmd) (db : TinyDB) : option (CmdRes * TinyDB) := Do (RS := bool) 1000 1 c 5 db.
#[local] Instance kv_locked : LockedCmd bytes KvCmd TinyDB := {
  lock_keys := current_key;
  run c db := default db (snd <$> kv_run c db);
  is_logged c db := match kv_run c db with Some (r, _) => res_ok r | None => false end;
  apply_entry c db := default db (snd <$> kv_run c db) }.

Definition msetnx_ab : KvCmd := MsetnxCmd [mkKeyValue (str "a") (str "2"); mkKeyValue (str "b") (str "2")].
Definition set_a : KvCmd := SetCmd (str "a") (str "1") [] kNONE 0.

(** C16. MSETNX does not lock its keys, only the empty one that commands without keys name:
    two threads that run MSETNX and SET on a common key can leave the log in the other
    order than they ran, and a slave that applies it has another database. *)
Theorem msetnx_unlocked : ∃ s : Shared,
  rtc lock_step (Shared0 ([] : TinyDB)) s ∧ (∀ t c, sh_threads s t ≠ Ran c) ∧
  sh_log s = [set_a; msetnx_ab] ∧ replay_log (sh_log s) ([] : TinyDB) ≠ sh_db s ∧
  tiny_get (str "b") 5 (sh_db s) = Some (str "2") ∧ tiny_get (str "b") 5 (replay_log (sh_log s) []) = None.
Proof.
  eexists. split.
  - eapply rtc_l; [apply (step_lock _ 1 msetnx_ab); [done|by intros]|].
    eapply rtc_l; [apply (step_lock _ 2 set_a); [done|]|].
    { intros u d Hu H. cbn in H. unfold set_thread in H. case_decide; [|done]. injection H as <-.
      intros k. cbn. intros ->%list_elem_of_singleton Hk%list_elem_of_singleton. done. }
    eapply rtc_l; [by apply (step_run _ 1 msetnx_ab)|].
    eapply rtc_l; [by apply (step_run _ 2 set_a)|].
    eapply rtc_l; [by apply (step_log _ 2 set_a)|].
    eapply rtc_l; [by apply (step_log _ 1 msetnx_ab)|]. apply rtc_refl.
  - split; [intros t c; cbn; unfold set_thread; repeat case_decide; done|].
    split; [reflexivity|]. split; [vm_compute; discriminate|]. split; vm_compute; reflexivity.
Qed.

(** *** A snapshot between a command and its log entry *)

Definition append_a : KvCmd := AppendCmd (str "a") (str "x").
Definition append_ran : Shared := mkShared (run append_a []) [] (set_thread 1 (Ran append_a) (set_thread 1 (Locked append_a) (λ _, Idle))).
Definition append_logged : Shared := mkShared (run append_a []) [append_a]
  (set_thread 1 Idle (set_thread 1 (Ran append_a) (set_thread 1 (Locked append_a) (λ _, Idle)))).

(** C18. A save does not wait for the commands that have run and are not in the log yet: its
    content has their effect and its offset is before them, so that a slave that starts
    from it runs them once more, and for APPEND ends with another value than the master. *)
Theorem snapshot_runs_twice : ∃ s1 s2 : Shared,
  rtc lock_step (Shared0 ([] : TinyDB)) s1 ∧ rtc lock_step s1 s2 ∧ (∀ t c, sh_threads s2 t ≠ Ran c) ∧
  sh_log s2 = [append_a] ∧ tiny_get (str "a") 5 (sh_db s2) = Some (str "x") ∧
  tiny_get (str "a") 5 (from_snapshot (snapshot s1) (sh_log s2)) = Some (str "xx").
Proof.
  exists append_ran, append_logged. split.
  { eapply rtc_l; [apply (step_lock _ 1 append_a); [done|by intros]|].
    apply rtc_once. match goal with |- lock_step ?s _ => exact (step_run s 1 append_a eq_refl eq_refl) end. }
  split; [apply rtc_once; by apply (step_log append_ran 1 append_a)|].
  split; [intros t c; unfold append_logged, set_thread; cbn [sh_threads]; repeat case_decide; done|].
  split; [reflexivity|]. split; vm_compute; reflexivity.
Qed.

(** *** The database workers of a slave *)

(** Commands that set a number under a name. *)
#[local] Instance name_locked : LockedCmd bytes (string * Z) (gmap string Z) := {
  lock_keys c := [str c.1];
  run c db := <[c.1 := c.2]> db;
  is_logged _ _ := true;
  apply_entry c db := <[c.1 := c.2]> db }.
Definition name_argv (c : string * Z) : list bytes := [str "set"; str c.1; str (pretty c.2)].
Definition length_hash (s : string) : Z := Z.of_nat (String.length s).

Lemma name_commute (c d : string * Z) (db : gmap string Z) : apart c d →
  apply_entry c (apply_entry d db) = apply_entry d (apply_entry c db).
Proof. intros H. apply insert_insert_ne. intros E. apply (H (str c.1)); [left|]. unfold lock_keys, name_locked. rewrite E. left. Qed.
Lemma name_routed c : routed name_argv c.
Proof. split; [done|]. intros k ->%list_elem_of_singleton. done. Qed.

Definition name_final : Shared := mkShared (<[ "a" := 1 ]> (∅ : gmap string Z)) [("a", 1)]
  (set_thread 1 Idle (set_thread 1 (Ran ("a", 1)) (set_thread 1 (Locked ("a", 1)) (λ _, Idle)))).
Lemma name_reached : rtc lock_step (Shared0 ∅) name_final.
Proof.
  eapply rtc_l; [apply (step_lock _ 1 ("a", 1)); [done|by intros]|].
  eapply rtc_l; [by apply (step_run _ 1 ("a", 1))|].
  eapply rtc_l; [by apply (step_log _ 1 ("a", 1))|]. apply rtc_refl.
Qed.

(** Requests on the small engine, as the slave parses them. *)
#[local] Instance object_locked : LockedCmd bytes (CmdObject PikaCmd) TinyDB := {
  lock_keys c := family_key (ko_cmd c);
  run c db := default db (snd <$> cmd_Do (ko_cmd c) 5 db);
  is_logged c db := match cmd_Do (ko_cmd c) 5 db with Some (r, _) => res_ok r | None => false end;
  apply_entry c db := default db (snd <$> cmd_Do (ko_cmd c) 5 db) }.
Definition mset_object : CmdObject PikaCmd :=
  mkCmdObject [str "mset"; str "aa"; str "1"; str "b"; str "1"] (inl (MsetCmd [mkKeyValue (str "aa") (str "1"); mkKeyValue (str "b") (str "1")])) "db0" 0.
Definition set_b_object : CmdObject PikaCmd :=
  mkCmdObject [str "set"; str "b"; str "2"] (inl (SetCmd (str "b") (str "2") [] kNONE 0)) "db0" 0.

(** The database after both commands, and after both in the other order. *)
Definition new_b : TinyDB := [(str "b", (str "2", 0)); (str "aa", (str "1", 0))].
Definition old_b : TinyDB := apply_entry mset_object (apply_entry set_b_object []).
Definition mset_master : Shared := mkShared new_b [mset_object; set_b_object]
  (set_thread 1 Idle (set_thread 1 (Ran set_b_object) (set_thread 1 (Locked set_b_object)
    (set_thread 1 Idle (set_thread 1 (Ran mset_object) (set_thread 1 (Locked mset_object) (λ _, Idle))))))).
Definition mset_slave (db : TinyDB) (of_aa of_b : list (CmdObject PikaCmd)) (log : list (CmdObject PikaCmd)) :
  WriteTasks (CmdObject PikaCmd) TinyDB := mkTasks db (<[3 := of_b]> (<[2 := of_aa]> ∅)) log.

Lemma mset_master_reached : rtc lock_step (Shared0 ([] : TinyDB)) mset_master.
Proof.
  assert (new_b = run set_b_object (run mset_object [])) as E by (vm_compute; reflexivity). unfold mset_master. rewrite E.
  eapply rtc_l; [apply (step_lock _ 1 mset_object); [done|by intros]|]. cbn [sh_db sh_log sh_threads Shared0].
  eapply rtc_l; [by apply (step_run _ 1 mset_object)|]. cbn [sh_db sh_log sh_threads].
  eapply rtc_l; [by apply (step_log _ 1 mset_object)|]. cbn [sh_db sh_log sh_threads app].
  eapply rtc_l; [apply (step_lock _ 1 set_b_object); [done|]|].
  { intros u d Hu H. cbn in H. unfold set_thread in H. repeat case_decide; done. }
  cbn [sh_db sh_log sh_threads].
  eapply rtc_l; [apply (step_run _ 1 set_b_object); [done|vm_compute; reflexivity]|]. cbn [sh_db sh_log sh_threads].
  apply rtc_once. match goal with |- lock_step ?s _ => exact (step_log s 1 set_b_object eq_refl) end.
Qed.
Lemma mset_slave_runs : rtc (write_step length_hash 4 ko_argv) (mkTasks ([] : TinyDB) ∅ [mset_object; set_b_object]) (mset_slave old_b [] [] []).
Proof.
  eapply rtc_l; [apply (schedule_to _ _ _ _ (mkTasks [] (<[2 := [mset_object]]> ∅) [set_b_object]) mset_object [set_b_object] 2);
    [reflexivity|vm_compute; reflexivity|reflexivity]|].
  eapply rtc_l; [apply (schedule_to _ _ _ _ (mset_slave [] [mset_object] [set_b_object] []) set_b_object [] 3);
    [reflexivity|vm_compute; reflexivity|vm_compute; reflexivity]|].
  eapply rtc_l; [apply (apply_to _ _ _ _ (mset_slave (apply_entry set_b_object []) [mset_object] [] []) 3 set_b_object []);
    [reflexivity|vm_compute; reflexivity]|].
  apply rtc_once. apply (apply_to _ _ _ _ _ 2 mset_object []); [reflexivity|vm_compute; reflexivity].
Qed.
Lemma mset_slave_finished db : finished (mset_slave db [] [] []).
Proof.
  split; [reflexivity|]. intros i. unfold queue, mset_slave. cbn [wt_queues].
  destruct (decide (i = 3)) as [->|H3]; [by rewrite lookup_insert_eq|]. rewrite lookup_insert_ne by done.
  destruct (decide (i = 2)) as [->|H2]; [by rewrite lookup_insert_eq|]. rewrite lookup_insert_ne by done. by rewrite lookup_empty.
Qed.

(** C17. A command of several keys goes to the worker of its first: MSET aa 1 b 1 and then SET
    b 2, which the master runs and logs in this order under the record locks, are run by
    two workers of a slave, and in the other order the slave keeps the old value of b. *)
Theorem mset_reordered : ∃ (m : Shared) (s : WriteTasks _ _),
  rtc lock_step (Shared0 ([] : TinyDB)) m ∧ (∀ t c, sh_threads m t ≠ Ran c) ∧ sh_log m = [mset_object; set_b_object] ∧
  rtc (write_step length_hash 4 ko_argv) (mkTasks ([] : TinyDB) ∅ (sh_log m)) s ∧ finished s ∧
  tiny_get (str "b") 5 (sh_db m) = Some (str "2") ∧ tiny_get (str "b") 5 (wt_db s) = Some (str "1").
Proof.
  exists mset_master, (mset_slave old_b [] [] []). split; [exact mset_master_reached|].
  split; [intros t c; unfold mset_master, set_thread; cbn [sh_threads]; repeat case_decide; done|].
  split; [reflexivity|]. split; [exact mset_slave_runs|]. split; [apply mset_slave_finished|]. split; vm_compute; reflexivity.
Qed.

(** * A client's commands on the small engine

    SET is executed and logged, refused on a read-only slave, and kept by the database
    when the log's file is gone, as instances of the theorems of [ClientFacts] and
    [PikaFacts]. *)

#[export] Instance tiny_parser : RequestParser := {| parse_request_ := parse_request |}.
#[export] Instance tiny_parser_laws : RequestParserLaws.
Proof. split. exact parse_request_text. Qed.

Abbreviation TinyObject := (CmdObject Tiny).
Definition args_set : list bytes := [str "set"; str "k"; str "v"].
Definition set_k : Tiny := inl (SetCmd (str "k") (str "v") [] kNONE 0).
Definition set_object : TinyObject := mkCmdObject args_set set_k "db0" 50.

Lemma set_found : find_entry tiny_table (str "set") = Some set_entry.
Proof. reflexivity. Qed.
Lemma set_initial : DoInitial set_entry args_set = Some (inr set_k).
Proof. vm_compute. reflexivity. Qed.

Lemma item_replayable_witness :
  replayable (CO := object_ops (A := Tiny)) "db0" (ToBinlog set_object 1 2 3 4 5).
Proof.
  refine (item_replayable set_entry args_set set_k 50 "db0" (mkItem 1 2 3 4 5 []) _ _ _ _).
  - exact set_found.
  - exact set_initial.
  - exact I.
  - unfold item_ok. cbn. lia.
Defined.

(** *** A server with one table *)

Abbreviation KvMaster := (SyncMasterPartition (FS := MemFS) (Cmd := TinyObject) (Conn := nat) (Resp := nat)).
Abbreviation KvSite := (@Site MemFS TinyObject nat nat (list (string * Z)) TinyDB).

(** The master of a table on a file system. *)
Definition kv_master_on (fs : MemFS) : KvMaster :=
  mkMaster part0 4 (mkCoord fs LogOffset0 (Context_new "/log/context") 7 "db0" 0
    (mkProgress ∅ ∅) (mkStableLog false "db0" 0 "/log/" log0.2 LogOffset0) MemLog_new []).
Definition kv_site_on (fs : MemFS) (role : Z) : KvSite :=
  mkSite (mkWorld (mkRm (<[0%nat := Some (kv_master_on fs)]> (replicate kMaxDbNum None)) ∅ ∅ false (mkNet ∅ []))
            (set_role role (PikaServer_new "10.0.0.1" 9221 [part0])))
    {[ part0 := mkPartition BgSaveInfo0 (Some []) (Some []) None None None ]}.
Definition kv_part : Partition TinyDB := mkPartition BgSaveInfo0 (Some []) (Some []) None None None.

Lemma kv_site_part fs role : st_partitions (kv_site_on fs role) !! part0 = Some kv_part.
Proof. apply lookup_insert_eq. Qed.
Lemma kv_site_master fs role : master_at part0 0 (kv_master_on fs) (st_world (kv_site_on fs role)).
Proof. repeat split. Qed.

Definition open_auth : AuthConf := mkAuthConf "" "" [].
Definition kv_conn : ClientConn := ClientConn_new open_auth "db0".
Definition no_text (s : Status) : bytes := [].

(** A slave refuses SET. *)
Definition slave_refusal : option (CmdRes * KvSite) :=
  DoCmd conf_async open_auth true true no_text kv_conn args_set (str "set") (Some 1%nat) (Some 2%nat) 40 50
    (kv_site_on log0.1 PIKA_ROLE_SLAVE).
Lemma slave_refusal_answers : match slave_refusal with Some (r, _) => message r | None => [] end
  = message (other "Server in read-only").
Proof. vm_compute. reflexivity. Qed.
Lemma readonly_slave : server_readonly true (kv_site_on log0.1 PIKA_ROLE_SLAVE) = true.
Proof. reflexivity. Qed.

Lemma refused_changes_nothing_witness : ∃ r,
  DoCmd conf_async open_auth true true no_text kv_conn args_set (str "set") (Some 1%nat) (Some 2%nat) 40 50
    (kv_site_on log0.1 PIKA_ROLE_SLAVE) = Some (r, kv_site_on log0.1 PIKA_ROLE_SLAVE) ∧ res_ok r = false.
Proof.
  apply (refused_changes_nothing conf_async open_auth true true no_text kv_conn args_set (str "set") (Some 1%nat)
    (Some 2%nat) 40 50 set_entry (kv_site_on log0.1 PIKA_ROLE_SLAVE)).
  - exact set_found.
  - by apply defined_args.
  - right. split; [reflexivity|]. right. exact readonly_slave.
Defined.

Definition db_set : TinyDB := [(str "k", (str "v", 0))].
Lemma set_object_runs : c_Do set_object 40 ([] : TinyDB) = Some (SetRes kOk [] res_new, db_set).
Proof. reflexivity. Qed.

Definition proposed (fs : MemFS) : option (Status * KvMaster) :=
  ConsensusProposeLog conf_async set_object (Some 1%nat) (Some 2%nat) (kv_master_on fs).
Lemma proposed_answers : fst <$> proposed log0.1 = Some OK.
Proof. vm_compute. reflexivity. Qed.
Lemma proposed_some : is_Some (ConsensusProposeLog conf_async set_object (Some 1%nat) (Some 2%nat) (kv_master_on log0.1)).
Proof. fold (proposed log0.1). pose proof proposed_answers as H. by destruct (proposed log0.1). Qed.


(** The log's file is gone. *)
Definition gone : MemFS := mem_set_files ∅ log0.1.
Lemma gone_refuses : match proposed gone with Some (s, _) => negb (ok s) | None => false end = true.
Proof. vm_compute. reflexivity. Qed.
Lemma gone_proposes : ∃ st mp', ConsensusProposeLog conf_async set_object (Some 1%nat) (Some 2%nat) (kv_master_on gone)
  = Some (st, mp') ∧ ok st = false.
Proof.
  fold (proposed gone). pose proof gone_refuses as H. destruct (proposed gone) as [[st mp']|]; [|done].
  exists st, mp'. split; [done|]. by apply negb_true_iff.
Qed.


(** *** GEORADIUS z 15 37 5 m STORE out *)

Definition args_store : list bytes := [str "georadius"; str "z"; str "15"; str "37"; str "5"; str "m"; str "store"; str "out"].
Definition store_range : GeoRange := set_store (str "out") (near 5).
Definition store_cmd : GeoCmd := GeoRadiusCmd (str "z") store_range.
Definition store_object : TinyObject := mkCmdObject args_store (inr (inr (inr (inr (inr (inr (inr store_cmd))))))) "db0" 50.
Definition radius_entry : Entry Tiny :=
  lift_entry inr (lift_entry inr (lift_entry inr (lift_entry inr (lift_entry inr (lift_entry inr (lift_entry inr
    (entry "georadius" (-6) geoReadMulti GeoRadiusCmd_DoInitial))))))).
Lemma radius_found : find_entry tiny_table (str "georadius") = Some radius_entry.
Proof. reflexivity. Qed.
Definition db_stored : TinyDB := [(str "out", (str "zset", 0))].
Lemma store_runs : cmd_Do store_cmd 40 ([] : TinyDB) = Some (integer 0, db_stored).
Proof. vm_compute. reflexivity. Qed.

Lemma store_not_logged_witness :
  InternalProcessCommand conf_async true no_text part0 geoReadMulti false store_object (Some 1%nat) (Some 2%nat) 40
    (kv_site_on log0.1 PIKA_ROLE_SLAVE) = Some (integer 0, with_db part0 db_stored kv_part (kv_site_on log0.1 PIKA_ROLE_SLAVE)).
Proof.
  refine (proj1 (store_not_logged conf_async true no_text radius_entry args_store store_cmd store_range 40 50 part0 "db0"
    (Some 1%nat) (Some 2%nat) (kv_site_on log0.1 PIKA_ROLE_SLAVE) kv_part [] (integer 0) db_stored _ _ _ _ _ _ _)).
  - exact (find_entry_in _ _ _ radius_found).
  - left.
  - reflexivity.
  - reflexivity.
  - exact (kv_site_part _ _).
  - reflexivity.
  - exact store_runs.
Defined.
