(* ===== verification/SlaveofCmd.v ===== *)
(** * SLAVEOF and DBSLAVEOF (src/pika_admin.cc, src/pika_server.cc)

    The commands that make a server or one of its databases a slave, on the state of the
    process; what a server does at its start with the master that the configuration
    names; and what both lead to. *)

From S2P Require Import Prelude Define Env Binlog BinlogReader Transverter Command SlaveNode Consensus.
From S2P Require Import StableLog Coordinator WriteQueue MasterPartition SlavePartition ReplicaManager Server.
From S2P Require Import PikaMeta ServerFacts CmdRes Blackwidow CmdArgs CmdReply ConfState Config.
From stdpp Require Import base list strings pretty gmap.
From Stdlib Require Import ZArith Lia Init.Byte.
#[local] Open Scope string_scope.
#[local] Open Scope list_scope.
#[local] Open Scope Z_scope.

Definition text (b : bytes) : string := String.string_of_list_byte b.
Definition kLocalhost : string := "127.0.0.1".
(** The address of the master as [SetMaster] leaves it in its argument. *)
Definition master_address (ip : string) (s : PikaServer) : string :=
  if bool_decide (ip = kLocalhost) then host_ s else ip.

(** ** Arguments *)

Record SlaveofCmd := mkSlaveof { so_master_ip : string; so_master_port : Z; so_noone : bool }.
Definition force_refused (argv : list bytes) : bool :=
  match argv !! 3%nat with Some w => negb (same_word w "force") | None => false end.
(** The result, and the server: [force] is remembered there at once. *)
Definition SlaveofCmd_DoInitial {SN : StringNum} (argv : list bytes) (s : PikaServer) : Init SlaveofCmd * PikaServer :=
  if zlen argv >? 4 then (bad kWrongNum "slaveof", s) else
  match argv !! 1%nat, argv !! 2%nat with
  | Some a, Some b =>
      if (zlen argv =? 3) && same_word a "no" && same_word b "one" then (good (mkSlaveof "" 0 true), s)
      else if has_role PIKA_ROLE_MASTER s then (bad kErrOther "already master of others, invalid usage", s)
      else match num b with
      | None => (bad kInvalidInt "", s)
      | Some port =>
          if port <=? 0 then (bad kInvalidInt "", s)
          else if (bool_decide (text a = kLocalhost) || bool_decide (text a = host_ s)) && (port =? srv_port_ s)
          then (bad kErrOther "you fucked up", s)
          else if force_refused argv then (bad kWrongNum "slaveof", s)
          else (good (mkSlaveof (text a) port false), if zlen argv =? 4 then set_force true s else s)
      end
  | _, _ => (None, s)
  end.

Record DbSlaveofCmd := mkDbSlaveof { dso_db_name : string; dso_force : bool; dso_noone : bool; dso_offset : option (Z * Z) }.
(** [exists_]: whether a table exists; a name that no table can have aborts. *)
Definition DbSlaveofCmd_DoInitial {SN : StringNum} (exists_ : string → option bool) (argv : list bytes) (s : PikaServer) : Init DbSlaveofCmd :=
  if negb (Z.lxor (role_ s) PIKA_ROLE_SLAVE =? 0) || negb (MetaSyncDone s) then bad kErrOther "Not currently a slave"
  else if zlen argv >? 4 then bad kWrongNum "dbslaveof"
  else
    db ← argv !! 1%nat; there ← exists_ (text db);
    if negb there then bad kErrOther "Invaild db name"
    else match argv !! 2%nat, argv !! 3%nat with
    | Some a, None => good (mkDbSlaveof (text db) (same_word a "force") false None)
    | Some a, Some b =>
        if same_word a "no" && same_word b "one" then good (mkDbSlaveof (text db) false true None)
        else match num a with
        | None => bad kInvalidInt ""
        | Some filenum =>
            if filenum <? 0 then bad kInvalidInt "" else
            match num b with
            | None => bad kInvalidInt ""
            | Some offset => if offset <? 0 then bad kInvalidInt "" else good (mkDbSlaveof (text db) false false (Some (filenum, offset)))
            end
        end
    | None, _ => good (mkDbSlaveof (text db) false false None)
    end.

Section SlaveofCmd.
Context {FS : Type} {E : SlashEnv FS} {C : FixedCoding} {SN : StringNum}.
Context {Cmd Conn Resp : Type} {CO : CmdOps Cmd} {Net : Type}.
Context (SendRemoveSlaveNode : string → Z → string → Z → string → Net → Status * Net).
Context (SelectLocalIp : string → Z → Net → Status * string).
Context (CloseReplClientConn : string → Z → Net → Net).
Context {F : Type} {BC : BaseConf F}.
(** The text of a status. *)
Context (status_text : Status → bytes).
Abbreviation World := (@World FS Cmd Conn Resp Net).
Abbreviation W := (M World).

(** ** SLAVEOF *)

(** [ip:port], as the configuration keeps it. *)
Definition slaveof_text (ip : string) (port : Z) : bytes := str ip ++ str ":" ++ to_string port.
(** The port is an [int] for the server and an [int64_t] in the command. *)
Definition SlaveofCmd_Do (now : Z) (c : SlaveofCmd) (conf : Conf F) : W (CmdRes * Conf F) :=
  let* s := get_srv in
  if (bool_decide (so_master_ip c = kLocalhost) || bool_decide (master_ip_ s = so_master_ip c))
     && (master_port_ s =? so_master_port c)
  then ret (SetRes kOk [] res_new, conf) else
  RemoveMaster CloseReplClientConn now ;;;
  if so_noone c then ret (SetRes kOk [] res_new, SetSlaveof [] conf) else
  let* s := get_srv in
  let '(sm_ret, s') := SetMaster (so_master_ip c) (s32 (so_master_port c)) s in
  srv_modify (λ _, s') ;;;
  if sm_ret then
    srv_modify (set_first true) ;;;
    ret (SetRes kOk [] res_new, SetSlaveof (slaveof_text (master_address (so_master_ip c) s) (so_master_port c)) conf)
  else ret (SetRes kErrOther (str "Server is not in correct state for slaveof") res_new, conf).

(** [std::stoi], which throws for what is no [int]. *)
Definition stoi_int (s : bytes) : option Z :=
  let '(neg, s) := signed_digits s in
  n ← digits_value s None;
  let n := if neg : bool then - n else n in
  if (- 2 ^ 31 <=? n) && (n <? 2 ^ 31) then Some n else None.
(** The part of [PikaServer::Start] about the master; [None]: the server does not start. *)
Definition start_slaveof (slaveof : bytes) (s : PikaServer) : option PikaServer :=
  if bool_decide (slaveof = []) then Some s else
  let sep := find_char x3a slaveof in
  let master_ip := text (match sep with Some n => take n slaveof | None => slaveof end) in
  master_port ← stoi_int (match sep with Some n => drop (S n) slaveof | None => slaveof end);
  if (bool_decide (master_ip = kLocalhost) || bool_decide (master_ip = host_ s)) && (master_port =? srv_port_ s) then None
  else Some (SetMaster master_ip master_port s).2.

(** ** DBSLAVEOF *)

Definition may_activate (st : ReplState) : bool :=
  bool_decide (st = kNoConnect) || bool_decide (st = kError) || bool_decide (st = kDBNoConnect).
Definition status_reply (s : Status) : CmdRes :=
  if ok s then SetRes kOk [] res_new else SetRes kErrOther (status_text s) res_new.
(** [Logger()->SetProducerStatus]; its status is not looked at. *)
Definition place_producer (p : PartitionInfo) (at_ : option (Z * Z)) : W unit :=
  match at_ with
  | None => ret tt
  | Some (filenum, offset) =>
      let* _ := on_rm (on_master p (on_coord (on_binlog (SetProducerStatus (u32 filenum) offset 0 0)))) in ret tt
  end.
Definition DbSlaveofCmd_Do (now : Z) (c : DbSlaveofCmd) : W CmdRes :=
  let p := mkPartitionInfo (dso_db_name c) 0 in
  let* w := get in
  match GetSyncSlavePartitionByName p (w_rm w) with
  | None => ret (SetRes kErrOther (str "Db not found") res_new)
  | Some sp =>
      let* s :=
        if dso_noone c then on_rm (SendRemoveSlaveNodeRequest SendRemoveSlaveNode (dso_db_name c) 0)
        else if may_activate (State sp) then
          place_producer p (dso_offset c) ;;;
          let* srv := get_srv in
          on_rm (ActivateSyncSlavePartition SelectLocalIp now
            (RmNode_new (master_ip_ srv) (master_port_ srv) (dso_db_name c) 0 0)
            (if dso_force c then kTryDBSync else kTryConnect))
        else ret OK in
      ret (status_reply s)
  end.
End SlaveofCmd.

(** * SLAVEOF: what is guaranteed

    The command never fails once it is accepted; it leaves the server without a master or
    at the beginning of the connection to the one that was named, and the configuration
    says the same, so that a restart finds the same master. *)

(** ** Numbers in the configuration *)

Lemma digit_char x : (x < 10)%N → ∃ c, str (String (pretty_N_char x) EmptyString) = [c] ∧ digit_value c = Some (Z.of_N x) ∧
  (∀ s, skip_spaces (c :: s) = c :: s) ∧ c ≠ x2d ∧ c ≠ x2b.
Proof.
  intros H. assert (x = 0 ∨ x = 1 ∨ x = 2 ∨ x = 3 ∨ x = 4 ∨ x = 5 ∨ x = 6 ∨ x = 7 ∨ x = 8 ∨ x = 9)%N as Hx by lia.
  repeat destruct Hx as [-> | Hx]; [..|subst x]; (eexists; split; [reflexivity|]; split; [reflexivity|]; split; [done|]; done).
Qed.
Lemma str_cons c s : str (String c s) = str (String c EmptyString) ++ str s.
Proof. reflexivity. Qed.

Lemma digits_value_go x s : x ≠ 0%N → digits_value (str (pretty_N_go x s)) None = digits_value (str s) (Some (Z.of_N x)).
Proof.
  revert s. induction (N.lt_wf_0 x) as [x _ IH]; intros s Hx. rewrite pretty_N_go_step by lia.
  destruct (digit_char (x `mod` 10)%N) as (c & Ec & Dc & _); [by apply N.mod_lt|].
  pose proof (N.div_mod x 10 ltac:(lia)) as Hd.
  destruct (decide (x `div` 10 = 0)%N) as [Hz|Hz].
  - rewrite Hz, pretty_N_go_0, str_cons, Ec. cbn [digits_value app]. rewrite Dc. do 2 f_equal. cbn [default]. lia.
  - rewrite IH by (lia || by apply N.div_lt; lia). rewrite str_cons, Ec. cbn [digits_value app]. rewrite Dc.
    do 2 f_equal. cbn [default id]. lia.
Qed.
Lemma pretty_go_starts x s : x ≠ 0%N → ∃ c t, str (pretty_N_go x s) = c :: t ∧ (∀ s, skip_spaces (c :: s) = c :: s) ∧ c ≠ x2d ∧ c ≠ x2b.
Proof.
  revert s. induction (N.lt_wf_0 x) as [x _ IH]; intros s Hx. rewrite pretty_N_go_step by lia.
  destruct (decide (x `div` 10 = 0)%N) as [Hz|Hz].
  - rewrite Hz, pretty_N_go_0, str_cons. destruct (digit_char (x `mod` 10)%N) as (c & Ec & _ & H); [by apply N.mod_lt|].
    rewrite Ec. by exists c, (str s).
  - apply IH; [apply N.div_lt; lia|done].
Qed.
Lemma unsigned_text n : 0 ≤ n → signed_digits (to_string n) = (false, to_string n) ∧ digits_value (to_string n) None = Some n.
Proof.
  intros Hn. destruct n as [|p|p]; [by split| |lia]. change (to_string (Z.pos p)) with (str (pretty (N.pos p))).
  unfold pretty, pretty_N. rewrite decide_False by done. split; [|by rewrite digits_value_go].
  destruct (pretty_go_starts (N.pos p) "") as (c & t & Eq & Hsk & H1 & H2); [done|]. unfold signed_digits. rewrite Eq, Hsk.
  by rewrite !bool_decide_eq_false_2.
Qed.
Lemma stoi_text n : 0 ≤ n → stoi_int (to_string n) = if n <? 2 ^ 31 then Some n else None.
Proof.
  intros Hn. destruct (unsigned_text n Hn) as [Hs Hd]. unfold stoi_int. rewrite Hs, Hd. cbn [mbind option_bind].
  destruct (Z.leb_spec (- 2 ^ 31) n); [done|lia].
Qed.

Lemma find_char_at c (a b : bytes) : c ∉ a → find_char c (a ++ c :: b) = Some (length a).
Proof.
  intros H. unfold find_char. induction a as [|d a IH]; cbn.
  - by rewrite decide_True.
  - apply not_elem_of_cons in H as [H1 H2]. rewrite decide_False by done. specialize (IH H2).
    destruct (list_find _ (a ++ c :: b)) as [[i y]|]; cbn in *; [by injection IH as ->|done].
Qed.
Lemma text_str ip : text (str ip) = ip.
Proof. unfold text, str. apply String.string_of_list_byte_of_string. Qed.

Lemma start_slaveof_text ip port s : x3a ∉ str ip → 0 ≤ port →
  start_slaveof (slaveof_text ip port) s =
    if port <? 2 ^ 31 then
      if (bool_decide (ip = kLocalhost) || bool_decide (ip = host_ s)) && (port =? srv_port_ s) then None
      else Some (SetMaster ip port s).2
    else None.
Proof.
  intros Hip Hp. unfold start_slaveof, slaveof_text. change (str ":") with [x3a]. cbn [app].
  rewrite bool_decide_eq_false_2 by (by destruct (str ip)). rewrite find_char_at by done.
  rewrite take_app_length, text_str.
  replace (drop (S (length (str ip))) (str ip ++ x3a :: to_string port)) with (to_string port)
    by (by rewrite drop_app_ge, Nat.sub_succ_l, Nat.sub_diag by lia).
  rewrite stoi_text by done. by destruct (port <? 2 ^ 31).
Qed.

(** ** The partitions *)

Section SlaveofFacts.
Context {FS : Type} {E : SlashEnv FS} {C : FixedCoding} {SN : StringNum}.
Context {Cmd Conn Resp : Type} {CO : CmdOps Cmd} {Net : Type}.
Context (CloseReplClientConn : string → Z → Net → Net).
Context {F : Type} {BC : BaseConf F}.
Abbreviation World := (@World FS Cmd Conn Resp Net).
Implicit Types (w : World) (s : PikaServer).

Definition disconnected w (p : PartitionInfo) : Prop :=
  ∃ sp, sync_slave_partitions_ (w_rm w) !! p = Some sp ∧ State sp = kNoConnect.

Lemma reset_one p w sp : GetSyncSlavePartitionByName p (w_rm w) = Some sp →
  ∃ w1, on_rm (put_slave_partition p (SetReplState kNoConnect sp)) w = Some (tt, w1) ∧
    sync_slave_partitions_ (w_rm w1) = <[p := SetReplState kNoConnect sp]> (sync_slave_partitions_ (w_rm w)).
Proof. intros H. eexists. split; reflexivity. Qed.

Lemma reset_disconnects ps w w' : reset_repl_states ps w = Some (tt, w') →
  ∀ p, p ∈ ps ∨ disconnected w p → disconnected w' p.
Proof.
  revert w. induction ps as [|q ps IH]; intros w H p Hp.
  - injection H as <-. destruct Hp as [Hp|]; [by apply elem_of_nil in Hp|done].
  - cbn [reset_repl_states] in H. apply run_bind in H as (w0 & w1 & [= <- <-] & H).
    apply run_bind in H as ([] & w2 & H2 & H). destruct (GetSyncSlavePartitionByName q (w_rm w)) as [sp|] eqn:Eq; [|done].
    destruct (reset_one q w sp Eq) as (w3 & H3 & Em). rewrite H3 in H2. injection H2 as ->.
    apply (IH _ H). destruct (decide (p = q)) as [->|Hne].
    + right. exists (SetReplState kNoConnect sp). rewrite Em, lookup_insert_eq. by split.
    + destruct Hp as [[->|Hp]%elem_of_cons|(sq & Hq & Hs)]; [done|by left|]. right. exists sq. rewrite Em, lookup_insert_ne by done. by split.
Qed.
Lemma RemoveMaster_disconnects now w w' : RemoveMaster CloseReplClientConn now w = Some (tt, w') →
  Forall (disconnected w') (partitions_of (w_srv w')).
Proof.
  intros H. destruct (RemoveMaster_srv CloseReplClientConn now w w' H) as [t Es]. unfold RemoveMaster in H.
  apply run_bind in H as ([] & w1 & [= <-] & H). apply run_bind in H as ([] & w2 & [= <-] & H).
  apply run_bind in H as (s & w3 & [= <- <-] & H). apply run_bind in H as ([] & w4 & _ & H).
  apply run_bind in H as ([] & w5 & _ & H). unfold DoSameThingEveryPartition in H.
  apply run_bind in H as (s & w6 & [= <- <-] & H). apply Forall_forall. intros p Hp. eapply reset_disconnects; [exact H|]. left.
  apply (keeps (g := w_srv)) in H. by rewrite <- H.
Qed.

(** ** SLAVEOF *)

(** The server is told to follow the master that it follows; for this test every master at
    this port is the local host. *)
Definition same_master (c : SlaveofCmd) s : bool :=
  (bool_decide (so_master_ip c = kLocalhost) || bool_decide (master_ip_ s = so_master_ip c)) && (master_port_ s =? so_master_port c).

Lemma SetMaster_free ip port s : role_ s = 0 ∨ role_ s = 2 → repl_state_of s = PIKA_REPL_NO_CONNECT →
  SetMaster ip port s = (true, set_repl PIKA_REPL_SHOULD_META_SYNC (set_role (Z.lor (role_ s) PIKA_ROLE_SLAVE)
    (set_master_addr (master_address ip s) port s))).
Proof. intros Hr Hn. unfold SetMaster, master_address. rewrite Hn. by destruct Hr as [-> | ->]. Qed.

Lemma slave_bit_cleared r : 0 ≤ r < 4 →
  (Z.land r (Z.lnot PIKA_ROLE_SLAVE) = 0 ∨ Z.land r (Z.lnot PIKA_ROLE_SLAVE) = 2) ∧
  Z.land (Z.land r (Z.lnot PIKA_ROLE_SLAVE)) PIKA_ROLE_SLAVE = 0 ∧
  Z.land (Z.lor (Z.land r (Z.lnot PIKA_ROLE_SLAVE)) PIKA_ROLE_SLAVE) PIKA_ROLE_SLAVE = 1.
Proof. intros [-> | [-> | [-> | ->]]]%role_cases; cbn; auto. Qed.

(** What is left when there is no master, and what when there is a new one. *)
Definition free_server s : Prop :=
  has_role PIKA_ROLE_SLAVE s = false ∧ repl_state_of s = PIKA_REPL_NO_CONNECT ∧ master_ip_ s = "" ∧ master_port_ s = -1.
Definition connecting_server (ip : string) (port : Z) s : Prop :=
  has_role PIKA_ROLE_SLAVE s = true ∧ repl_state_of s = PIKA_REPL_SHOULD_META_SYNC ∧ master_ip_ s = ip ∧ master_port_ s = port ∧
  first_meta_sync_ s = true.

(** SLAVEOF on every branch. *)
Lemma SlaveofCmd_run now c (conf conf' : Conf F) w r w' : srv_wf (w_srv w) →
  SlaveofCmd_Do CloseReplClientConn now c conf w = Some ((r, conf'), w') →
  r = SetRes kOk [] res_new ∧
  if same_master c (w_srv w) then w' = w ∧ conf' = conf
  else Forall (disconnected w') (partitions_of (w_srv w')) ∧
    if so_noone c then free_server (w_srv w') ∧ slaveof_ conf' = []
    else let ip := master_address (so_master_ip c) (w_srv w) in
      connecting_server ip (s32 (so_master_port c)) (w_srv w') ∧ slaveof_ conf' = slaveof_text ip (so_master_port c).
Proof.
  intros W H. unfold SlaveofCmd_Do in H. apply run_bind in H as (s & w0 & [= <- <-] & H). fold (same_master c (w_srv w)) in H.
  destruct (same_master c (w_srv w)); [by injection H as <- <- <-|].
  apply run_bind in H as ([] & w1 & Hr & H). destruct (RemoveMaster_srv _ _ _ _ Hr) as [t Es].
  pose proof (RemoveMaster_disconnects _ _ _ Hr) as Hd. destruct (slave_bit_cleared _ (srv_role _ W)) as (Hz & Hc & Hl).
  destruct (so_noone c).
  - injection H as <- <- <-. split; [done|]. split; [done|]. split; [|done].
    rewrite Es. unfold free_server, has_role. cbn. by rewrite Hc.
  - apply run_bind in H as (s & w2 & [= <- <-] & H). rewrite SetMaster_free in H by by rewrite Es.
    apply run_bind in H as ([] & w3 & [= <-] & H). apply run_bind in H as ([] & w4 & [= <-] & H). injection H as <- <- <-.
    split; [done|]. split; [done|]. cbn. rewrite Es. unfold master_address, connecting_server, has_role. cbn. by rewrite Hl.
Qed.



(** ** DBSLAVEOF *)

Context (SendRemoveSlaveNode : string → Z → string → Z → string → Net → Status * Net).
Context (SelectLocalIp : string → Z → Net → Status * string).
Context (status_text : Status → bytes).

Definition slaves_of w := sync_slave_partitions_ (w_rm w).
#[local] Instance Keeps_master_lookup p : Keeps (@sync_slave_partitions_ FS Cmd Conn Resp Net) (GetSyncMasterPartitionByName p).
Proof. unfold GetSyncMasterPartitionByName, master_index. destruct (DbIdxFromStr _); apply _. Qed.
#[local] Instance Keeps_master_put p mp : Keeps (@sync_slave_partitions_ FS Cmd Conn Resp Net) (put_master p mp).
Proof. unfold put_master, master_index. apply Keeps_bind; [destruct (DbIdxFromStr _); apply _|]. by intros i r a r' [= _ <-]. Qed.
#[local] Instance Keeps_master_call {A} p (k : M _ A) : Keeps (@sync_slave_partitions_ FS Cmd Conn Resp Net) (on_master p k).
Proof. unfold on_master. apply Keeps_bind; [apply _|]. intros [mp|]; [|apply _]. destruct (k mp) as [[]|]; apply _. Qed.
Lemma place_producer_slaves p at_ w w' : place_producer p at_ w = Some (tt, w') → slaves_of w' = slaves_of w ∧ w_srv w' = w_srv w.
Proof.
  destruct at_ as [[f o]|]; cbn [place_producer]; [|by intros [= <-]]. intros (x & w1 & H & [= <-])%run_bind.
  split; [|by apply (keeps (g := w_srv)) in H]. unfold on_rm, zoom in H.
  destruct (on_master p _ (w_rm w)) as [[y r]|] eqn:Eq; [|done]. injection H as _ <-. unfold slaves_of. cbn.
  by apply (keeps (g := sync_slave_partitions_)) in Eq.
Qed.

Lemma activate_spec p node st now w r w' sp : partition_info_ node = p → slaves_of w !! p = Some sp →
  on_rm (ActivateSyncSlavePartition SelectLocalIp now node st) w = Some (r, w') →
  if bool_decide (State sp = kNoConnect ∨ State sp = kDBNoConnect) then
    let '(s, local_ip) := SelectLocalIp (ip_ node) (Define.port_ node) (net_ (w_rm w)) in
    r = s ∧ slaves_of w' = if ok s then <[p := Activate now node st (SetLocalIp local_ip sp)]> (slaves_of w) else slaves_of w
  else ok r = false ∧ w' = w.
Proof.
  intros <- Hp. unfold on_rm, zoom, ActivateSyncSlavePartition. unfold slaves_of in Hp. cbn. rewrite Hp.
  destruct (bool_decide_reflect (State sp = kNoConnect ∨ State sp = kDBNoConnect)) as [Hs|Hs].
  - replace (negb (bool_decide (State sp = kNoConnect)) && negb (bool_decide (State sp = kDBNoConnect))) with false
      by (by destruct Hs as [-> | ->]).
    destruct (SelectLocalIp _ _ _) as [s local_ip]. destruct (ok s) eqn:Eo; intros [= <- <-]; by split.
  - rewrite !bool_decide_eq_false_2 by tauto. intros [= <- <-]. split; [done|by destruct w].
Qed.

(** What DBSLAVEOF answers for a partition that is not connected: it connects, or the
    answer is an error and nothing changed. *)
Definition connects (now : Z) (c : DbSlaveofCmd) w (r : CmdRes) w' (sp : SyncSlavePartition) : Prop :=
  ∃ st local_ip node, r = status_reply status_text st ∧ ip_ node = master_ip_ (w_srv w) ∧ Define.port_ node = master_port_ (w_srv w) ∧
    slaves_of w' = if ok st
      then <[mkPartitionInfo (dso_db_name c) 0 := Activate now node (if dso_force c then kTryDBSync else kTryConnect) (SetLocalIp local_ip sp)]>
             (slaves_of w)
      else slaves_of w.

(** DBSLAVEOF on a database: without a connection it begins one to the server's master;
    in the error state, which the command lets through, it is always refused, although an
    offset that was given has moved the log by then; in every other state it answers OK
    and does nothing. *)
Theorem dbslaveof_spec now c w r w' sp : dso_noone c = false → slaves_of w !! mkPartitionInfo (dso_db_name c) 0 = Some sp →
  DbSlaveofCmd_Do SendRemoveSlaveNode SelectLocalIp status_text now c w = Some (r, w') →
  if bool_decide (State sp = kNoConnect ∨ State sp = kDBNoConnect) then connects now c w r w' sp
  else if bool_decide (State sp = kError)
  then res_ok r = false ∧ slaves_of w' = slaves_of w ∧ place_producer (mkPartitionInfo (dso_db_name c) 0) (dso_offset c) w = Some (tt, w')
  else r = SetRes kOk [] res_new ∧ w' = w.
Proof.
  intros Hno Hp H. unfold DbSlaveofCmd_Do in H. apply run_bind in H as (w0 & w1 & [= <- <-] & H).
  unfold GetSyncSlavePartitionByName in H. change (sync_slave_partitions_ (w_rm w)) with (slaves_of w) in H. rewrite Hp, Hno in H.
  apply run_bind in H as (s & w2 & H2 & [= <- <-]). unfold may_activate in H2.
  destruct (bool_decide (State sp = kNoConnect) || bool_decide (State sp = kError) || bool_decide (State sp = kDBNoConnect)) eqn:Ea.
  - apply run_bind in H2 as ([] & w3 & Hpl & H2). destruct (place_producer_slaves _ _ _ _ Hpl) as [Hs3 Hv3].
    apply run_bind in H2 as (srv & w4 & [= <- <-] & H2).
    eapply (activate_spec (mkPartitionInfo (dso_db_name c) 0)) in H2; [|done|by rewrite Hs3].
    case_bool_decide.
    + destruct (SelectLocalIp _ _ _) as [s' local_ip]. destruct H2 as [-> Hs2]. eexists s', local_ip, _.
      split; [done|]. split; [|split; [|by rewrite Hs2, Hs3]]; cbn; by rewrite Hv3.
    + destruct H2 as [Hs ->]. rewrite bool_decide_eq_true_2.
      * split; [unfold status_reply; by rewrite Hs|by split].
      * rewrite !orb_true_iff, !bool_decide_eq_true in Ea. tauto.
  - injection H2 as <- <-. rewrite !orb_false_iff, !bool_decide_eq_false in Ea. rewrite !bool_decide_eq_false_2 by tauto. done.
Qed.
End SlaveofFacts.
