(* ===== verification/Table.v ===== *)
(** * Tables (src/pika_table.cc, src/pika_server.cc, src/pika_partition.cc)

    The partitions of a table, the tables of the server by their names, the tasks on
    them, the counting of keys, and what the counts mean. *)

From S2P Require Import Prelude Define Env Binlog BinlogReader Transverter Command SlaveNode Consensus.
From S2P Require Import StableLog Coordinator WriteQueue MasterPartition SlavePartition ReplicaManager.
From S2P Require Import InnerMessage Server ReplServer ReplClient FullSync CmdRes Blackwidow CmdArgs.
From stdpp Require Import base list strings pretty gmap.
From Stdlib Require Import ZArith Lia Init.Byte.
#[local] Open Scope string_scope.
#[local] Open Scope list_scope.
#[local] Open Scope Z_scope.

(** The operations of the storage engine that the administration uses. *)
Class EngineTasks (RS DB : Type) := {
  bw_Compact : DataType → DB → DB;
  bw_GetCurrentTaskType : DB → bytes;
  bw_PKPatternMatchDel (type : DataType) (pattern : bytes) : DB → RS * Z * DB }.

(** ** Counting keys *)

(** [blackwidow::KeyInfo]; all [uint64_t]. *)
Record KeyInfo := mkKeyInfo { keys_ : Z; expires_ : Z; avg_ttl_ : Z; invaild_keys_ : Z }.
Definition KeyInfo0 : KeyInfo := mkKeyInfo 0 0 0 0.
Definition add_info (a b : KeyInfo) : KeyInfo :=
  mkKeyInfo (u64 (keys_ a + keys_ b)) (u64 (expires_ a + expires_ b)) (u64 (avg_ttl_ a + avg_ttl_ b))
    (u64 (invaild_keys_ a + invaild_keys_ b)).

(** [KeyScanInfo], without the text of its time. *)
Record KeyScanInfo := mkKeyScan {
  ks_start_time : Z; ks_duration : Z; ks_key_infos : list KeyInfo; key_scaning_ : bool }.
Definition KeyScanInfo_new : KeyScanInfo := mkKeyScan 0 (-3) (replicate 5 KeyInfo0) false.
(** [InitKeyScan]. *)
Definition InitKeyScan (now : Z) (i : KeyScanInfo) : KeyScanInfo := mkKeyScan now (-1) (ks_key_infos i) (key_scaning_ i).

Section KeyScan.
Context {RS : Type} {RO : RocksStatus RS}.

(** [Partition::GetKeyNum] between the times [start] and [stop]. *)
Definition GetKeyNum (answer : RS * list KeyInfo) (start stop : Z) (i : KeyScanInfo) : (Status * list KeyInfo) * KeyScanInfo :=
  if key_scaning_ i then ((OK, ks_key_infos i), i) else
  let i := InitKeyScan start i in
  let i := mkKeyScan (ks_start_time i) (-2) (ks_key_infos i) true in
  let '(s, key_info) := answer in
  if negb (rs_ok s) then ((Corruption (String.string_of_list_byte (rs_ToString s)), key_info), i)
  else ((OK, key_info), mkKeyScan (ks_start_time i) (s32 (stop - ks_start_time i)) key_info false).

(** ** A table *)

Context {D : Type}.
(** A partition with what the table asks of it: whether it is open, and its key scan. *)
Record TablePart := mkTablePart { tp_part : Partition D; tp_opened : bool; tp_scan : KeyScanInfo }.
Definition set_scan (i : KeyScanInfo) (p : TablePart) : TablePart := mkTablePart (tp_part p) (tp_opened p) i.

(** [partitions_] has an entry for every number; the entry of a partition that is not there
    is null and has the id 0. *)
Record Table := mkTable {
  tb_name : string; tb_num : Z; tb_partitions : list (Z * option TablePart); tb_io_error : bool; tb_scan : KeyScanInfo }.
Definition Table_new (name : string) (num : Z) : Table :=
  mkTable name num (replicate (Z.to_nat num) (0, None)) false KeyScanInfo_new.
Implicit Types (t : Table).
Definition set_parts (l : list (Z * option TablePart)) t : Table := mkTable (tb_name t) (tb_num t) l (tb_io_error t) (tb_scan t).
Definition set_tb_scan (i : KeyScanInfo) t : Table := mkTable (tb_name t) (tb_num t) (tb_partitions t) (tb_io_error t) i.
Definition SetBinlogIoError t : Table := mkTable (tb_name t) (tb_num t) (tb_partitions t) true (tb_scan t).

(** *** Partitions *)

(** The first problem with the numbers [ids], in their order. *)
Fixpoint add_problem (ids : list Z) t : option Status :=
  match ids with
  | [] => None
  | id :: ids =>
      if id >=? tb_num t then Some (Corruption ("partition index out of range[0, " +:+ pretty (u32 (tb_num t - 1)) +:+ "]"))
      else match tb_partitions t !! Z.to_nat id with
           | Some (_, Some _) => Some (Corruption ("partition " +:+ pretty id +:+ " already exist"))
           | _ => add_problem ids t
           end
  end.
(** [open_partition]: the constructor of a partition, which opens its database. *)
Definition AddPartitions (open_partition : Z → TablePart) (ids : list Z) t : Status * Table :=
  match add_problem ids t with
  | Some s => (s, t)
  | None => (OK, set_parts (foldl (λ l id, <[Z.to_nat id := (id, Some (open_partition id))]> l) (tb_partitions t) ids) t)
  end.

(** [None]: a number that has no entry. *)
Fixpoint remove_problem (ids : list Z) t : option (option Status) :=
  match ids with
  | [] => Some None
  | id :: ids =>
      e ← tb_partitions t !! Z.to_nat id;
      match e.2 with
      | None => Some (Some (Corruption ("partition " +:+ pretty id +:+ " not found")))
      | Some _ => remove_problem ids t
      end
  end.
(** The partition is closed and its directory moved away; its entry keeps the id. *)
Definition RemovePartitions (ids : list Z) t : option (Status * Table) :=
  problem ← remove_problem ids t;
  match problem with
  | Some s => Some (s, t)
  | None => Some (OK, set_parts (foldl (λ l id, alter (λ e, (e.1, None)) (Z.to_nat id) l) (tb_partitions t) ids) t)
  end.
Definition GetPartitionIds t : gset Z := list_to_set (tb_partitions t).*1.
(** A number that is too large fails an [assert]. *)
Definition GetPartitionById (id : Z) t : option (option TablePart) := snd <$> tb_partitions t !! Z.to_nat id.
Definition TableIsEmpty t : bool := bool_decide (tb_partitions t = []).
(** [Table::Leave] and [MovetoToTrash], whose rename succeeds or not. *)
Definition Table_Leave (renamed : bool) t : Status :=
  if negb (TableIsEmpty t) then Corruption "Table have partitions!"
  else if renamed then OK else Corruption "Failed to move %s to trash".

(** An operation on every partition; a null one crashes. *)
Definition every_part (f : TablePart → TablePart) t : option Table :=
  l ← mapM (λ e, p ← e.2; Some (e.1, Some (f p))) (tb_partitions t); Some (set_parts l t).

(** The partitions are closed and their directories moved away. *)
Definition LeaveAllPartition t : option Table := set_parts [] <$> every_part (λ p, p) t.

(** *** Key scans *)

(** [KeyScan]: whether a scan is scheduled. *)
Definition KeyScan t : bool * Table :=
  if key_scaning_ (tb_scan t) then (false, t)
  else (true, set_tb_scan (mkKeyScan (ks_start_time (tb_scan t)) (-2) (ks_key_infos (tb_scan t)) true) t).

(** The loop of [RunKeyScan]: the status, the sums, and the partitions; [None]: a null
    partition, or more numbers than there is room for. *)
Fixpoint keyscan_loop (answer : Z → RS * list KeyInfo) (start stop : Z) (parts : list (Z * option TablePart)) (infos : list KeyInfo) :
    option (Status * list KeyInfo * list (Z * option TablePart)) :=
  match parts with
  | [] => Some (OK, infos, [])
  | (id, p) :: parts =>
      p ← p;
      let '((s, tmp), i) := GetKeyNum (answer id) start stop (tp_scan p) in
      let e := (id, Some (set_scan i p)) in
      if negb (ok s) then Some (s, infos, e :: parts)
      else if (length infos <? length tmp)%nat then None
      else '(s, infos, parts) ← keyscan_loop answer start stop parts (zip_with add_info infos tmp ++ drop (length tmp) infos);
           Some (s, infos, e :: parts)
  end.
(** [RunKeyScan], the scheduled task. *)
Definition RunKeyScan (answer : Z → RS * list KeyInfo) (start stop : Z) t : option Table :=
  let i := InitKeyScan start (tb_scan t) in
  '(s, infos, parts) ← keyscan_loop answer start stop (tb_partitions t) (replicate 5 KeyInfo0);
  Some (set_parts parts (set_tb_scan
    (mkKeyScan (ks_start_time i) (s32 (stop - ks_start_time i)) (if ok s then infos else ks_key_infos i) false) t)).
(** The engine's scan is told to stop; a null partition crashes. *)
Definition StopKeyScan t : option Table :=
  t ← every_part (λ p, p) t;
  Some (set_tb_scan (mkKeyScan (ks_start_time (tb_scan t)) (ks_duration (tb_scan t)) (ks_key_infos (tb_scan t)) false) t).

(** *** Tasks *)

Context {ET : EngineTasks RS D}.

Definition on_open (f : D → D) (p : Partition D) : Partition D :=
  set_dbs (f <$> db_ p) (f <$> db_ p) (bak_dir p) (sync_dir p) p.
(** [Partition::Compact] and [Table::Compact]. *)
Definition part_Compact (type : DataType) (p : TablePart) : TablePart :=
  if tp_opened p then mkTablePart (on_open (bw_Compact type) (tp_part p)) (tp_opened p) (tp_scan p) else p.
Definition table_Compact (type : DataType) t : option Table := every_part (part_Compact type) t.
Definition part_BgSave (p : TablePart) : TablePart := mkTablePart (BgSavePartition (tp_part p)).2 (tp_opened p) (tp_scan p).
Definition BgSaveTable t : option Table := every_part part_BgSave t.
End KeyScan.
#[global] Arguments TablePart : clear implicits.
#[global] Arguments Table : clear implicits.

(** ** The tables of the server *)

Inductive TaskType :=
  | kCompactAll | kCompactStrings | kCompactHashes | kCompactSets | kCompactZSets | kCompactList
  | kResetReplState | kPurgeLog | kStartKeyScan | kStopKeyScan | kBgSave.

Section Tables.
Context {RS : Type} {RO : RocksStatus RS} {D : Type} {ET : EngineTasks RS D}.
(** [tables_]: an entry per index. *)
Implicit Types (tables : list (option (Table D))).

(** The table with a name; a name that is not [db0] to [db7] fails an [assert]. *)
Definition GetTable (name : string) tables : option (option (Table D)) := idx ← DbIdxFromStr name; tables !! idx.
Definition IsTableExist (name : string) tables : option bool := (λ t : option (Table D), bool_decide (is_Some t)) <$> GetTable name tables.
Definition IsTablePartitionExist (name : string) (id : Z) tables : option bool :=
  t ← GetTable name tables;
  match t with None => Some false | Some t => (λ p : option (TablePart D), bool_decide (is_Some p)) <$> GetPartitionById id t end.

Definition put_table (name : string) (t : option (Table D)) tables : option (list (option (Table D))) :=
  idx ← DbIdxFromStr name; if (idx <? length tables)%nat then Some (<[idx := t]> tables) else None.
(** [InitTableStruct]: the status of [AddPartitions] is not looked at. *)
Fixpoint InitTableStruct (open_partition : string → Z → TablePart D) (l : list TableStruct) tables : option (list (option (Table D))) :=
  match l with
  | [] => Some tables
  | ts :: l =>
      tables ← put_table (tbl_name ts)
        (Some (AddPartitions (open_partition (tbl_name ts)) (partition_ids ts) (Table_new (tbl_name ts) (Server.partition_num ts))).2) tables;
      InitTableStruct open_partition l tables
  end.
Definition AddTableStruct (name : string) (num : Z) tables : option (Status * list (option (Table D))) :=
  t ← GetTable name tables;
  match t with
  | Some _ => Some (Corruption "table already exist", tables)
  | None => tables ← put_table name (Some (Table_new name num)) tables; Some (OK, tables)
  end.
Definition DelTableStruct (renamed : bool) (name : string) tables : option (Status * list (option (Table D))) :=
  t ← GetTable name tables;
  match t with
  | None => Some (Corruption "table not found", tables)
  | Some t =>
      if negb (TableIsEmpty t) then Some (Corruption "table have partitions", tables) else
      let s := Table_Leave renamed t in
      if ok s then tables ← put_table name None tables; Some (OK, tables) else Some (s, tables)
  end.

(** The questions about all partitions; the first partition that says yes ends them, so a
    null one after it is not seen. *)
Fixpoint any_table (f : Table D → option bool) tables : option bool :=
  match tables with
  | [] => Some false
  | None :: tables => any_table f tables
  | Some t :: tables => b ← f t; if b : bool then Some true else any_table f tables
  end.
Fixpoint any_part (f : TablePart D → option bool) (l : list (Z * option (TablePart D))) : option bool :=
  match l with
  | [] => Some false
  | (_, p) :: l => p ← p; b ← f p; if b : bool then Some true else any_part f l
  end.
Definition IsBgSaving tables : option bool := any_table (λ t, any_part (λ p, Some (bgsaving (bgsave_info_ (tp_part p)))) (tb_partitions t)) tables.
Definition IsKeyScaning tables : option bool := any_table (λ t, Some (key_scaning_ (tb_scan t))) tables.

(** A partition whose database is not open crashes. *)
Definition IsCompacting tables : option bool :=
  any_table (λ t, any_part (λ p, (λ db, negb (same_word (bw_GetCurrentTaskType db) "no")) <$> db_ (tp_part p)) (tb_partitions t)) tables.

(** A task on one table; no case for the two that are about partitions. *)
Definition table_task (type : TaskType) (t : Table D) : option (Table D) :=
  match type with
  | kCompactAll => table_Compact kAll t
  | kCompactStrings => table_Compact kStrings t
  | kCompactHashes => table_Compact kHashes t
  | kCompactSets => table_Compact kSets t
  | kCompactZSets => table_Compact kZSets t
  | kCompactList => table_Compact kLists t
  | kStartKeyScan => Some (KeyScan t).2
  | kStopKeyScan => StopKeyScan t
  | kBgSave => BgSaveTable t
  | kResetReplState | kPurgeLog => Some t
  end.
(** On the tables named, or on all if none is. *)
Definition DoSameThingSpecificTable (type : TaskType) (names : list string) tables : option (list (option (Table D))) :=
  mapM (λ o, match o with
             | None => Some None
             | Some t => if negb (bool_decide (names = [])) && negb (bool_decide (tb_name t ∈ names)) then Some (Some t)
                         else Some <$> table_task type t
             end) tables.
End Tables.

(** * Tables: what is guaranteed

    The numbers of keys that a table reports, and what adding and removing partitions
    leaves. *)

(** ** Key scans *)

Definition info_in_range (i : KeyInfo) : Prop :=
  0 ≤ keys_ i < 2 ^ 64 ∧ 0 ≤ expires_ i < 2 ^ 64 ∧ 0 ≤ avg_ttl_ i < 2 ^ 64 ∧ 0 ≤ invaild_keys_ i < 2 ^ 64.
(** The five structures of a database. *)
Definition infos_ok (l : list KeyInfo) : Prop := length l = 5%nat ∧ Forall info_in_range l.

Lemma add_info_0 i : info_in_range i → add_info KeyInfo0 i = i.
Proof. destruct i. intros (?&?&?&?). unfold add_info, KeyInfo0. cbn in *. by rewrite !u64_small by lia. Qed.
Lemma add_infos_0 l : infos_ok l → zip_with add_info (replicate 5 KeyInfo0) l ++ drop (length l) (replicate 5 KeyInfo0) = l.
Proof.
  intros [Hl Hr]. rewrite Hl. destruct l as [|a [|b [|c [|d [|e [|]]]]]]; try done. cbn.
  repeat apply Forall_cons in Hr as [? Hr]. by rewrite !add_info_0.
Qed.

Section TableFacts.
Context {RS : Type} {RO : RocksStatus RS} {D : Type}.
Implicit Types (t : Table D).

(** A scan: what the engine answers, and when it starts and stops. *)
Definition Scan : Type := (RS * list KeyInfo) * (Z * Z).
Definition scan_step (o : option (Table D)) (a : Scan) : option (Table D) := t ← o; RunKeyScan (λ _, a.1) a.2.1 a.2.2 t.
Definition run_scans (l : list Scan) t : option (Table D) := foldl scan_step (Some t) l.

(** What the numbers are meant to be, but for the first failure, after which they stay. *)
Definition reported_step (s : bool * list KeyInfo) (a : Scan) : bool * list KeyInfo :=
  if s.1 then s else if rs_ok a.1.1 then (false, a.1.2) else (true, s.2).
Definition reported (infos : list KeyInfo) (l : list Scan) : list KeyInfo := (foldl reported_step (false, infos) l).2.

(** A table of one partition, as in classic mode; [s]: whether its scan is stuck, and the
    numbers. *)
Definition one_partition (s : bool * list KeyInfo) t : Prop :=
  ∃ id p, tb_partitions t = [(id, Some p)] ∧ key_scaning_ (tp_scan p) = s.1 ∧ ks_key_infos (tp_scan p) = s.2 ∧
    ks_key_infos (tb_scan t) = s.2 ∧ infos_ok s.2.

Lemma scan_step_spec s t a : one_partition s t → (rs_ok a.1.1 = true → infos_ok a.1.2) →
  ∃ t', scan_step (Some t) a = Some t' ∧ one_partition (reported_step s a) t' ∧ key_scaning_ (tb_scan t') = false.
Proof.
  destruct s as [stuck infos], a as [[st key_info] [start stop]]. intros (id & p & Ep & Hs & Hi & Ht & Hok) Ha. cbn in *.
  unfold RunKeyScan. rewrite Ep. cbn [keyscan_loop mbind option_bind]. unfold GetKeyNum, reported_step. rewrite Hs. cbn [fst snd].
  destruct stuck.
  - rewrite Hi. cbn [ok negb].
    replace (length (replicate 5 KeyInfo0) <? length infos)%nat with false by (symmetry; apply Nat.ltb_ge; by rewrite (proj1 Hok)).
    cbn [keyscan_loop mbind option_bind]. rewrite add_infos_0 by done. eexists. split; [reflexivity|]. split; [|done].
    exists id, (set_scan (tp_scan p) p). by split_and!.
  - destruct (rs_ok st) eqn:Eo; cbn [negb ok].
    + specialize (Ha eq_refl).
      replace (length (replicate 5 KeyInfo0) <? length key_info)%nat with false by (symmetry; apply Nat.ltb_ge; by rewrite (proj1 Ha)).
      cbn [keyscan_loop mbind option_bind]. rewrite add_infos_0 by done. eexists. split; [reflexivity|]. split; [|done].
      eexists id, _. by split_and!.
    + eexists. split; [reflexivity|]. split; [|done]. eexists id, _. by split_and!.
Qed.

(** The numbers of keys that a table reports after any sequence of scans are those of the
    last scan, unless one of them failed, as a scan that is stopped does: then they are
    those from before the first failure for ever, because the partition stays marked as
    being scanned. *)
Theorem scans_reported t infos l : one_partition (false, infos) t → Forall (λ a : Scan, rs_ok a.1.1 = true → infos_ok a.1.2) l →
  ∃ t', run_scans l t = Some t' ∧ ks_key_infos (tb_scan t') = reported infos l.
Proof.
  unfold run_scans, reported. revert infos t. enough (∀ s t, one_partition s t → Forall (λ a : Scan, rs_ok a.1.1 = true → infos_ok a.1.2) l →
    ∃ t', foldl scan_step (Some t) l = Some t' ∧ ks_key_infos (tb_scan t') = (foldl reported_step s l).2) as H by (intros; by apply H).
  induction l as [|a l IH]; intros s t Hp Hl.
  - exists t. split; [done|]. by destruct Hp as (?&?&?&?&?&?&?).
  - apply Forall_cons in Hl as [Ha Hl]. destruct (scan_step_spec s t a Hp Ha) as (t1 & E1 & H1 & _).
    cbn [foldl]. rewrite E1. by apply IH.
Qed.

(** ** Partitions *)

(** A table keeps an entry for every number, and the entries know them. *)
Record table_wf t : Prop := {
  tw_length : length (tb_partitions t) = Z.to_nat (tb_num t);
  tw_ids i id p : tb_partitions t !! i = Some (id, Some p) → id = Z.of_nat i }.
Definition has_partition (id : Z) t : Prop := ∃ p, GetPartitionById id t = Some (Some p).

Lemma Table_new_wf name num : table_wf (Table_new (D := D) name num).
Proof.
  split; unfold Table_new; cbn [tb_partitions tb_num]; [apply length_replicate|].
  intros i id p H. by apply lookup_replicate_1 in H as [H _].
Qed.

Section Added.
Context (open_partition : Z → TablePart D).
Definition placed (l : list (Z * option (TablePart D))) (ids : list Z) :=
  foldl (λ l id, <[Z.to_nat id := (id, Some (open_partition id))]> l) l ids.
Lemma placed_length l ids : length (placed l ids) = length l.
Proof. revert l. induction ids as [|id ids IH]; intros l; [done|]. cbn. fold (placed (<[Z.to_nat id := (id, Some (open_partition id))]> l) ids).
  by rewrite IH, length_insert. Qed.
Lemma placed_lookup l ids j : Forall (λ id, 0 ≤ id < Z.of_nat (length l)) ids → 0 ≤ j →
  placed l ids !! Z.to_nat j = if bool_decide (j ∈ ids) then Some (j, Some (open_partition j)) else l !! Z.to_nat j.
Proof.
  revert l. induction ids as [|id ids IH]; intros l Hl Hj; [done|]. apply Forall_cons in Hl as [Hid Hl].
  cbn. fold (placed (<[Z.to_nat id := (id, Some (open_partition id))]> l) ids). rewrite IH by (by rewrite ?length_insert).
  destruct (decide (j ∈ ids)) as [Hin|Hin].
  - by rewrite !bool_decide_eq_true_2 by (done || by apply elem_of_cons; right).
  - rewrite (bool_decide_eq_false_2 _ Hin). destruct (decide (j = id)) as [->|Hne].
    + rewrite bool_decide_eq_true_2 by left. apply list_lookup_insert_eq. lia.
    + rewrite bool_decide_eq_false_2 by (by intros [?|?]%elem_of_cons). apply list_lookup_insert_ne. lia.
Qed.

Lemma add_problem_none ids t : add_problem ids t = None ↔
  Forall (λ id, id < tb_num t ∧ ∀ i p, tb_partitions t !! Z.to_nat id ≠ Some (i, Some p)) ids.
Proof.
  induction ids as [|id ids IH]; cbn; [by split|]. rewrite Forall_cons, <- IH. destruct (Z.geb_spec id (tb_num t)).
  - split; [done|]. intros [[? _] _]. lia.
  - destruct (tb_partitions t !! Z.to_nat id) as [[i [p|]]|] eqn:El.
    + split; [done|]. intros [[_ H0] _]. by destruct (H0 i p).
    + split; [intros; split; [split; [lia|done]|done]|by intros [_ ?]].
    + split; [intros; split; [split; [lia|done]|done]|by intros [_ ?]].
Qed.

(** AddPartitions adds all of the partitions or, if one is there already or out of
    range, none; the others are as they were, and the table stays well formed. *)
Theorem AddPartitions_spec ids t s t' : table_wf t → Forall (λ id, 0 ≤ id) ids → AddPartitions open_partition ids t = (s, t') →
  table_wf t' ∧ (ok s = false → t' = t) ∧
  (ok s = true ↔ Forall (λ id, id < tb_num t ∧ ¬ has_partition id t) ids) ∧
  (ok s = true → ∀ j, 0 ≤ j → GetPartitionById j t' = if bool_decide (j ∈ ids) then Some (Some (open_partition j)) else GetPartitionById j t).
Proof.
  intros [Hlen Hids] Hpos H. unfold AddPartitions in H.
  assert (add_problem ids t = None ↔ Forall (λ id, id < tb_num t ∧ ¬ has_partition id t) ids) as Hn.
  { rewrite add_problem_none. apply Forall_proper; [|done]. intros id. unfold has_partition, GetPartitionById.
    destruct (tb_partitions t !! Z.to_nat id) as [[i [p|]]|]; cbn.
    - split; intros [Hlt H0]; (split; [done|]); [by destruct (H0 i p)|]. intros i' p' _. apply H0. by exists p.
    - split; intros [Hlt H0]; (split; [done|]); [by intros [? ?]|done].
    - split; intros [Hlt H0]; (split; [done|]); [by intros [? ?]|done]. }
  destruct (add_problem ids t) as [st|] eqn:Ep; injection H as <- <-.
  - assert (ok st = false) as Hok.
    { clear Hn. revert Ep. clear. induction ids as [|id ids IH]; [done|]. cbn. destruct (_ >=? _); [by intros [= <-]|].
      destruct (tb_partitions t !! _) as [[i [p|]]|]; [by intros [= <-]|done|done]. }
    rewrite Hok. split; [by split|]. split; [done|]. split; [split; [done|]|done]. intros Hf. by apply Hn in Hf.
  - assert (Forall (λ id, 0 ≤ id < Z.of_nat (length (tb_partitions t))) ids) as Hr.
    { pose proof (proj1 Hn eq_refl) as Hf. rewrite Forall_forall in *. intros id Hid. specialize (Hf id Hid). specialize (Hpos id Hid). lia. }
    split; [split|split; [done|split; [split; [by rewrite <- Hn|done]|]]].
    + change (length (placed (tb_partitions t) ids) = Z.to_nat (tb_num t)). by rewrite placed_length.
    + intros i id p Hi. change (placed (tb_partitions t) ids !! i = Some (id, Some p)) in Hi.
      rewrite <- (Nat2Z.id i), placed_lookup in Hi by (done || lia). case_bool_decide; [by injection Hi as <- <-|].
      rewrite Nat2Z.id in Hi. by eapply Hids.
    + intros _ j Hj. unfold GetPartitionById. change (tb_partitions (set_parts _ t)) with (placed (tb_partitions t) ids).
      rewrite placed_lookup by done. by case_bool_decide.
Qed.
End Added.
End TableFacts.
