(* ===== verification/FlushCmd.v ===== *)
(** * FLUSHDB and FLUSHALL (src/pika_admin.cc, src/pika_partition.cc, src/pika_command.cc)

    The commands that empty databases, which run on all partitions of a table or of the
    server, and what is guaranteed about their place in the log. *)

From S2P Require Import Prelude Define Env Binlog BinlogReader Transverter Command SlaveNode.
From S2P Require Import Consensus StableLog Coordinator WriteQueue MasterPartition SlavePartition.
From S2P Require Import ReplicaManager InnerMessage Server ReplServer ReplClient Replication.
From S2P Require Import FullSync FullSyncFacts CmdRes Blackwidow CmdArgs ClientConn ClientFacts.
From stdpp Require Import base list strings pretty gmap.
From Stdlib Require Import ZArith Lia Init.Byte.
#[local] Open Scope string_scope.
#[local] Open Scope list_scope.
#[local] Open Scope Z_scope.

(** ** Arguments *)

(** The structure, [None] for all. *)
Definition FlushdbCmd_DoInitial (argv : list bytes) : Init (option string) :=
  match argv !! 1%nat with
  | None => good None
  | Some struct_type =>
      if same_word struct_type "string" then good (Some "strings")
      else if same_word struct_type "hash" then good (Some "hashes")
      else if same_word struct_type "set" then good (Some "sets")
      else if same_word struct_type "zset" then good (Some "zsets")
      else if same_word struct_type "list" then good (Some "lists")
      else bad kInvalidDbType ""
  end.
(** In the log FLUSHALL is a FLUSHDB of every table. *)
Definition flushall_content : bytes :=
  RedisAppendContent (RedisAppendLen (RedisAppendLen [] 1 (str "*")) (zlen (str "flushdb")) (str "$")) (str "flushdb").
Definition FlushallCmd_ToBinlog `{FixedCoding} (exec_time term_id logic_id filenum offset : Z) : bytes :=
  BinlogEncode TypeFirst exec_time term_id logic_id filenum offset flushall_content.
(** Reading it gives the arguments of FLUSHDB. *)
Lemma flushall_is_flushdb `{FixedCoding} a b c d e : FlushallCmd_ToBinlog a b c d e = Cmd_ToBinlog [str "flushdb"] a b c d e.
Proof. reflexivity. Qed.

(** ** A partition *)

Section Flush.
Context {D : Type} (empty_db : D).
(** What is left of a database when the directories outside of its own path are emptied,
    and when the directory of a structure is moved away. *)
Context (only_inside : D → D) (without : string → D → D).

(** What the file system answers: whether the directory is renamed, and whether the
    database opens, without which the process ends. *)
Record FlushIo := mkFlushIo { io_renamed : bool; io_opens : bool }.
Definition install (db : D) (pt : Partition D) : Partition D := set_dbs (Some db) (Some db) (bak_dir pt) (sync_dir pt) pt.
(** Whether anything was done: not while a save is running. *)
Definition FlushDB (io : FlushIo) : M (Partition D) bool :=
  let* pt := get in
  if bgsaving (bgsave_info_ pt) then ret false else
  match db_ pt with
  | None => abort
  | Some _ =>
      massert (io_opens io) ;;;
      modify (install (if io_renamed io then empty_db else only_inside (default empty_db (db_dir pt)))) ;;; ret true
  end.
Definition FlushSubDB (db_name : string) (io : FlushIo) : M (Partition D) bool :=
  let* pt := get in
  if bgsaving (bgsave_info_ pt) then ret false else
  massert (io_opens io) ;;;
  modify (install (let db := default empty_db (db_dir pt) in if io_renamed io then without db_name db else db)) ;;; ret true.
(** [FlushdbCmd::Do], and [FlushallCmd::Do] with [None]; whether it was done is not looked
    at. *)
Definition FlushdbCmd_Do (db_name : option string) (io : FlushIo) : M (Partition D) bool :=
  match db_name with None => FlushDB io | Some db_name => FlushSubDB db_name io end.

(** ** The commands *)

Context {FS : Type} {E : SlashEnv FS} {C : FixedCoding} {SN : StringNum} {N : NumString}.
Context {Cmd Conn Resp : Type} {CO : CmdOps Cmd} {P : Type} {PN : PinkNet P}.
Context (conf : PikaConf) (write_binlog : bool) (status_text : Status → bytes).
Abbreviation Site := (@Site FS Cmd Conn Resp P D).
Abbreviation Master := (@SyncMasterPartition FS Cmd Conn Resp).
Abbreviation ST := (M Site).
Implicit Types (s : Site) (mp : Master).

Definition kCmdFlagsFlush : Z := Z.lor kCmdFlagsWrite kCmdFlagsSuspend.
(** The loop over partitions, in their order; the result goes from one to the next. *)
Fixpoint flush_loop (ps : list PartitionInfo) (db_name : option string) (io : PartitionInfo → FlushIo) (c : Cmd)
    (conn : option Conn) (resp : option Resp) (r : CmdRes) : ST CmdRes :=
  match ps with
  | [] => ret (SetRes kOk [] r)
  | p :: ps =>
      let* found := on_world (on_rm (find_master p)) in
      match found with
      | None => ret (SetRes kErrOther (str "Partition not found") r)
      | Some _ =>
          let* _ := on_partition p (FlushdbCmd_Do db_name (io p)) in
          let* r := DoBinlog conf write_binlog status_text p kCmdFlagsFlush false c conn resp r in
          flush_loop ps db_name io c conn resp r
      end
  end.
(** The tables in the order of the server; [key_scaning]: whether the keys of one are being
    counted. *)
Definition keyscan_running (r : CmdRes) : CmdRes := SetRes kErrOther (str "The keyscan operation is executing, Try again later") r.
Definition ProcessFlushDBCmd (table : string) (key_scaning : string → bool) (db_name : option string) (io : PartitionInfo → FlushIo)
    (c : Cmd) (conn : option Conn) (resp : option Resp) : ST CmdRes :=
  let* s := get in
  let ps := filter (λ p, table_name_ p = table) (partitions_of (w_srv (st_world s))) in
  if bool_decide (ps = []) then ret (SetRes kInvalidTable [] res_new)
  else if key_scaning table then ret (keyscan_running res_new)
  else flush_loop ps db_name io c conn resp res_new.
Definition ProcessFlushAllCmd (key_scaning : string → bool) (io : PartitionInfo → FlushIo)
    (c : Cmd) (conn : option Conn) (resp : option Resp) : ST CmdRes :=
  let* s := get in
  let ps := partitions_of (w_srv (st_world s)) in
  if existsb (λ p, key_scaning (table_name_ p)) ps then ret (keyscan_running res_new)
  else flush_loop ps None io c conn resp res_new.

(** ** What is guaranteed *)

Lemma find_master_run p idx mp (w : @World FS Cmd Conn Resp (ReplNet P)) : master_at p idx mp w → on_rm (find_master p) w = Some (Some mp, w).
Proof.
  intros (_ & H2 & H3). unfold on_rm, zoom, find_master, bind, get. rewrite H2. unfold ret. rewrite H3. by destruct w.
Qed.

(** The partition after it was flushed. *)
Definition flushed (db_name : option string) (io : FlushIo) (pt : Partition D) : Partition D :=
  if bgsaving (bgsave_info_ pt) then pt else
  let db := default empty_db (db_dir pt) in
  install (match db_name with
           | None => if io_renamed io then empty_db else only_inside db
           | Some n => if io_renamed io then without n db else db
           end) pt.
Lemma FlushdbCmd_run db_name io pt : is_Some (db_ pt) → io_opens io = true →
  ∃ b, FlushdbCmd_Do db_name io pt = Some (b, flushed db_name io pt).
Proof.
  intros [db Hd] Ho. unfold FlushdbCmd_Do, FlushDB, FlushSubDB, flushed, bind, get.
  destruct db_name, (bgsaving (bgsave_info_ pt)); try by eexists.
  - unfold massert. rewrite Ho. by eexists.
  - rewrite Hd. unfold massert. rewrite Ho. by eexists.
Qed.


(** A partition that can be flushed. *)
Definition flushable (io : PartitionInfo → FlushIo) s (p : PartitionInfo) : Prop :=
  ∃ pt mp idx, st_partitions s !! p = Some pt ∧ is_Some (db_ pt) ∧ io_opens (io p) = true ∧ master_at p idx mp (st_world s).

(** Once the log of one table has refused the entry, FLUSHALL flushes all tables after it
    without any entry, and answers OK. *)
Theorem flush_unlogged ps db_name io c conn resp r s : res_ok r = false → NoDup ps → Forall (flushable io s) ps →
  ∃ r' s', flush_loop ps db_name io c conn resp r s = Some (r', s') ∧ message r' = rline "+OK" ∧ st_world s' = st_world s ∧
    (∀ p, p ∈ ps → st_partitions s' !! p = flushed db_name (io p) <$> st_partitions s !! p) ∧
    (∀ p, p ∉ ps → st_partitions s' !! p = st_partitions s !! p).
Proof.
  intros Hr Hn. revert s. induction Hn as [|q ps Hq Hn IH]; intros s Hf.
  - eexists _, s. split; [reflexivity|]. split_and!; [done|done|by intros p ?%elem_of_nil|done].
  - apply Forall_cons in Hf as [(pt & mp & idx & Hp & Hd & Ho & Hm) Hf]. destruct (FlushdbCmd_run db_name (io q) pt Hd Ho) as [b Hb].
    pose proof (on_world_run (D := D) _ _ _ _ (find_master_run q idx mp _ Hm)) as Hfm.
    set (s1 := set_partitions (<[q := flushed db_name (io q) pt]> (st_partitions s)) s).
    destruct (IH s1) as (r' & s' & Hrun & Hmsg & Hw & Hin & Hout).
    { apply Forall_forall. intros p Hps. rewrite Forall_forall in Hf. destruct (Hf p Hps) as (pt' & mp' & i' & H1 & H2 & H3 & H4).
      exists pt', mp', i'. cbn. rewrite lookup_insert_ne by (intros ->; done). done. }
    exists r', s'. cbn [flush_loop]. unfold bind at 1. rewrite Hfm.
    unfold bind at 1. rewrite (on_partition_run (D := D) q _ _ pt b (flushed db_name (io q) pt)) by (by destruct s).
    unfold bind at 1, DoBinlog. rewrite Hr. cbn [andb]. split; [by destruct s|]. split; [done|]. split; [by rewrite Hw|]. split.
    + intros p [->|Hps]%elem_of_cons.
      * rewrite (Hout q Hq). cbn. by rewrite lookup_insert_eq, Hp.
      * rewrite (Hin p Hps). cbn. rewrite lookup_insert_ne by (intros ->; done). done.
    + intros p [Hne Hps]%not_elem_of_cons. rewrite (Hout p Hps). cbn. by rewrite lookup_insert_ne.
Qed.
End Flush.
