(* ===== verification/AdminCmd.v ===== *)
(** * Administration commands (src/pika_admin.cc)

    The arguments and the execution of the commands on the server, its connections and its
    tables.  SLAVEOF and DBSLAVEOF ([SlaveofCmd]), FLUSHDB and FLUSHALL ([FlushCmd]),
    CONFIG ([ConfigCmd]), SLOWLOG ([ServerStat]), the text of INFO ([InfoCmd]) and COMMAND
    ([CommandCmd]) have files of their own. *)

From S2P Require Import Prelude Define Env Binlog BinlogReader Transverter Command SlaveNode.
From S2P Require Import Consensus StableLog Coordinator WriteQueue MasterPartition SlavePartition.
From S2P Require Import ReplicaManager InnerMessage Server ReplServer ReplClient FullSync CmdRes Blackwidow CmdArgs CmdReply.
From S2P Require Import ClientConn Float64 PikaMeta ConfState Config ServerStat Table.
From stdpp Require Import base list strings pretty gmap sorting.
From Stdlib Require Import ZArith Lia Init.Byte.
#[local] Open Scope string_scope.
#[local] Open Scope list_scope.
#[local] Open Scope Z_scope.

Definition bstring (b : bytes) : string := String.string_of_list_byte b.
(** [std::string::find] of a text: whether it is in another. *)
Fixpoint contains (needle s : bytes) : bool :=
  bool_decide (take (length needle) s = needle) || match s with [] => false | _ :: s => contains needle s end.

(** ** Arguments *)

Inductive InfoSection :=
  | kInfoErr | kInfoServer | kInfoClients | kInfoStats | kInfoExecCount | kInfoCPU | kInfoReplication | kInfoKeyspace
  | kInfoLog | kInfoData | kInfo | kInfoToplingDB | kInfoAll | kInfoDebug.
#[export] Instance InfoSection_eq_dec : EqDecision InfoSection.
Proof. solve_decision. Defined.

(** The commands with what their [DoInitial] keeps. *)
Inductive AdminCmd :=
  | AuthCmd (pwd : bytes) | BgsaveCmd (tables : list string) | CompactCmd (struct_type : bytes) (tables : list string)
  | PurgelogstoCmd (num : Z) (table : string) | PingCmd (argv : list bytes) | SelectCmd (table_name : string)
  | ClientCmd (operation info : bytes) | ShutdownCmd
  | InfoCmd (section : InfoSection) (rescan off : bool) (keyspace_scan_tables : list string)
  | MonitorCmd | DbsizeCmd | TimeCmd | DelbackupCmd | EchoCmd (body : bytes) | ScandbCmd (type : DataType)
  | PaddingCmd (arg : bytes) | PKPatternMatchDelCmd (type : DataType) (pattern : bytes) | QuitCmd.

(** What the [DoInitial]s read: the tables, [databases] and [default-table], the address of
    the server and of the connection, if there is one. *)
Record AdminEnv (D : Type) := mkAdminEnv {
  ae_tables : list (option (Table D)); ae_databases : Z; ae_default_table : string; ae_host : bytes; ae_ip_port : option bytes }.
Arguments mkAdminEnv {D}.
Arguments ae_tables {D}.
Arguments ae_databases {D}.
Arguments ae_default_table {D}.
Arguments ae_host {D}.
Arguments ae_ip_port {D}.

Section AdminInit.
Context {RS D : Type} {RO : RocksStatus RS} {ET : EngineTasks RS D} {SN : StringNum} {ST : SlashText}.
Implicit Types (env : AdminEnv D).

Definition known_table env (name : string) : option bool := IsTableExist name (ae_tables env).
(** The tables of a list with commas: the first that does not exist is the answer. *)
Fixpoint known_tables env (names : list bytes) (make : list string → Init AdminCmd) : Init AdminCmd :=
  match names with
  | [] => make []
  | n :: names =>
      there ← known_table env (bstring n);
      if there : bool then known_tables env names (λ l, make (bstring n :: l)) else Some (inl (SetRes kInvalidTable n res_new))
  end.

Definition AuthCmd_DoInitial (argv : list bytes) : Init AdminCmd := pwd ← argv !! 1%nat; good (AuthCmd pwd).
Definition BgsaveCmd_DoInitial env (argv : list bytes) : Init AdminCmd :=
  if zlen argv =? 2 then t ← argv !! 1%nat; known_tables env (StringSplit t COMMA) (λ l, good (BgsaveCmd l))
  else good (BgsaveCmd []).
Definition CompactCmd_DoInitial env (argv : list bytes) : Init AdminCmd :=
  if zlen argv >? 3 then bad kWrongNum "compact" else
  scaning ← IsKeyScaning (ae_tables env);
  if scaning : bool then bad kErrOther "The info keyspace operation is executing, Try again later" else
  match argv !! 1%nat, argv !! 2%nat with
  | None, _ => good (CompactCmd (str "all") [])
  | Some type, None => good (CompactCmd type [])
  | Some t, Some type => known_tables env (StringSplit t COMMA) (λ l, good (CompactCmd type l))
  end.
Definition PurgelogstoCmd_DoInitial env (argv : list bytes) : Init AdminCmd :=
  if zlen argv >? 3 then bad kWrongNum "purgelogsto" else
  filename ← argv !! 1%nat;
  if (zlen filename <=? zlen (str kBinlogPrefix)) || negb (bool_decide (take kBinlogPrefixLen filename = str kBinlogPrefix))
  then bad kInvalidParameter "" else
  match num (drop kBinlogPrefixLen filename) with
  | None => bad kInvalidParameter ""
  | Some n =>
      if n <? 0 then bad kInvalidParameter "" else
      let table := match argv !! 2%nat with Some t => bstring t | None => ae_default_table env end in
      there ← known_table env table;
      if there : bool then good (PurgelogstoCmd (u32 n) table) else Some (inl (SetRes kInvalidTable (str table) res_new))
  end.
Definition PingCmd_DoInitial (argv : list bytes) : Init AdminCmd := good (PingCmd argv).
(** The index must be the canonical text of a number. *)
Definition SelectCmd_DoInitial env (argv : list bytes) : Init AdminCmd :=
  a ← argv !! 1%nat; index ← atoi (c_text a);
  if negb (bool_decide (to_string index = a)) then bad kInvalidIndex "select"
  else if (index <? 0) || (index >=? ae_databases env) then bad kInvalidIndex "select DB index is out of range"
  else
    there ← known_table env ("db" +:+ bstring a);
    if there : bool then good (SelectCmd ("db" +:+ bstring a)) else bad kInvalidTable "select".
Definition ClientCmd_DoInitial (argv : list bytes) : Init AdminCmd :=
  operation ← argv !! 1%nat;
  if same_word operation "list" && (zlen argv =? 2) then good (ClientCmd operation [])
  else if same_word operation "list" && (zlen argv =? 5) then
    a ← argv !! 2%nat; b ← argv !! 3%nat; info ← argv !! 4%nat;
    if same_word a "order" && same_word b "by" then good (ClientCmd operation info)
    else bad kErrOther "Syntax error, try CLIENT (LIST [order by [addr|idle])"
  else if same_word operation "kill" && (zlen argv =? 3) then info ← argv !! 2%nat; good (ClientCmd operation info)
  else bad kErrOther "Syntax error, try CLIENT (LIST [order by [addr|idle]| KILL ip:port)".
(** SHUTDOWN is for the local host: an address that contains [127.0.0.1] or the server's. *)
Definition ShutdownCmd_DoInitial env (argv : list bytes) : Init AdminCmd :=
  match ae_ip_port env with
  | None => bad kErrOther "shutdown"
  | Some ip_port =>
      if negb (contains (str "127.0.0.1") ip_port) && negb (contains (ae_host env) ip_port)
      then bad kErrOther "shutdown should be localhost" else good ShutdownCmd
  end.

(** *** INFO *)

Definition section_words : list (string * InfoSection) := [
  ("all", kInfoAll); ("server", kInfoServer); ("clients", kInfoClients); ("stats", kInfoStats);
  ("command_exec_count", kInfoExecCount); ("cpu", kInfoCPU); ("replication", kInfoReplication); ("keyspace", kInfoKeyspace);
  ("data", kInfoData); ("toplingdb", kInfoToplingDB); ("debug", kInfoDebug) ].
Definition section_of (word : bytes) : InfoSection :=
  match find (λ ws, same_word word ws.1) section_words with Some ws => ws.2 | None => kInfoErr end.
(** The error that the third argument leaves, and [rescan_] and [off_]. *)
Definition keyspace_mode (word : bytes) (compacting : bool) : option CmdRes * (bool * bool) :=
  if bool_decide (word = str "1") then
    if compacting then (Some (SetRes kErrOther (str "The compact operation is executing, Try again later") res_new), (false, false))
    else (None, (true, false))
  else if bool_decide (word = str "off") then (None, (false, true))
  else if bool_decide (word = str "0") then (None, (false, false))
  else (Some (SetRes kSyntaxErr [] res_new), (false, false)).
Definition keyspace_DoInitial env (argv : list bytes) : Init AdminCmd :=
  match argv !! 2%nat with
  | None => good (InfoCmd kInfoKeyspace false false [])
  | Some word =>
      compacting ← (if bool_decide (word = str "1") then IsCompacting (ae_tables env) else Some false);
      let '(e, (rescan, off)) := keyspace_mode word compacting in
      let finish l := match e with Some r => Some (inl r) | None => good (InfoCmd kInfoKeyspace rescan off l) end in
      match argv !! 3%nat with
      | None => finish []
      | Some t => known_tables env (StringSplit t COMMA) finish
      end
  end.
Definition InfoCmd_DoInitial env (argv : list bytes) : Init AdminCmd :=
  if zlen argv >? 4 then bad kSyntaxErr "" else
  match argv !! 1%nat with
  | None => good (InfoCmd kInfo false false [])
  | Some word =>
      let section := section_of word in
      if bool_decide (section = kInfoKeyspace) then keyspace_DoInitial env argv
      else if zlen argv =? 2 then good (InfoCmd section false false []) else bad kSyntaxErr ""
  end.

(** *** The others *)

(** The commands without arguments, which compare the number themselves. *)
Definition alone (name : string) (c : AdminCmd) (argv : list bytes) : Init AdminCmd :=
  if zlen argv =? 1 then good c else bad kWrongNum name.
Definition EchoCmd_DoInitial (argv : list bytes) : Init AdminCmd := body ← argv !! 1%nat; good (EchoCmd body).
Definition type_of_word (s : bytes) : option DataType :=
  if same_word s "string" then Some kStrings else if same_word s "hash" then Some kHashes
  else if same_word s "set" then Some kSets else if same_word s "zset" then Some kZSets
  else if same_word s "list" then Some kLists else None.
Definition ScandbCmd_DoInitial (argv : list bytes) : Init AdminCmd :=
  match argv !! 1%nat with
  | None => good (ScandbCmd kAll)
  | Some w => match type_of_word w with Some type => good (ScandbCmd type) | None => bad kInvalidDbType "" end
  end.
Definition PaddingCmd_DoInitial (argv : list bytes) : Init AdminCmd := arg ← argv !! 1%nat; good (PaddingCmd arg).
Definition PKPatternMatchDelCmd_DoInitial (argv : list bytes) : Init AdminCmd :=
  pattern ← argv !! 1%nat; w ← argv !! 2%nat;
  match type_of_word w with
  | Some type => good (PKPatternMatchDelCmd type pattern)
  | None => bad kInvalidDbType "pkpatternmatchdel"
  end.

(** The administration section of the table, but the commands of other files. *)
Definition kCmdFlagsAdmin : Z := 0.
Definition kCmdFlagsLocal : Z := 32.
Definition admin_table env : list (Entry AdminCmd) := [
  entry "auth" 2 kCmdFlagsRead AuthCmd_DoInitial;
  entry "bgsave" (-1) kCmdFlagsSuspend (BgsaveCmd_DoInitial env);
  entry "compact" (-1) kCmdFlagsRead (CompactCmd_DoInitial env);
  entry "purgelogsto" (-2) kCmdFlagsRead (PurgelogstoCmd_DoInitial env);
  entry "ping" 1 kCmdFlagsRead PingCmd_DoInitial;
  entry "select" 2 kCmdFlagsRead (SelectCmd_DoInitial env);
  entry "client" (-2) kCmdFlagsRead ClientCmd_DoInitial;
  entry "shutdown" 1 kCmdFlagsLocal (ShutdownCmd_DoInitial env);
  entry "info" (-1) kCmdFlagsSinglePartition (InfoCmd_DoInitial env);
  entry "monitor" (-1) kCmdFlagsRead (alone "monitor" MonitorCmd);
  entry "dbsize" 1 kCmdFlagsRead (alone "dbsize" DbsizeCmd);
  entry "time" 1 kCmdFlagsRead (alone "time" TimeCmd);
  entry "delbackup" 1 kCmdFlagsRead (alone "delbackup" DelbackupCmd);
  entry "echo" 2 kCmdFlagsRead EchoCmd_DoInitial;
  mkEntry "scandb" (-1) kCmdFlagsRead "echo" ScandbCmd_DoInitial;
  entry "padding" 2 kCmdFlagsWrite PaddingCmd_DoInitial;
  entry "pkpatternmatchdel" 3 kCmdFlagsWrite PKPatternMatchDelCmd_DoInitial;
  entry "quit" 0 kCmdFlagsRead (λ _, good QuitCmd) ].
End AdminInit.

(** ** Execution *)

Record ClientInfo := mkClientInfo { ci_fd : Z; ci_ip_port : bytes; ci_last_interaction : Z }.
(** Calls that only reach other threads or the file system, in order. *)
Inductive AdminCall :=
  | CallExit | CallQuit | CallMonitor | CallKillAll | CallKill (ip_port : bytes) | CallScanDatabase (type : DataType)
  | CallDeleteDir (path : bytes).

(** What the commands act on: the connection, the tables and the calls; and the outside:
    the clock with its error, the clients and whether one is found, the dumps ([None]: they
    cannot be read), the number of slaves in a full synchronisation, and the settings. *)
Record AdminState (D : Type) := mkAdminState {
  as_conn : option ClientConn; as_tables : list (option (Table D)); as_calls : list AdminCall }.
Arguments mkAdminState {D}.
Arguments as_conn {D}.
Arguments as_tables {D}.
Arguments as_calls {D}.
Record AdminIo := mkAdminIo {
  io_time : bytes + Z * Z; io_clients : list ClientInfo; io_kill : bytes → bool; io_dumps : option (list bytes);
  io_sync_slaves : Z; io_table : string; io_prefix : bytes; io_path : bytes }.

Definition byte_lt (a b : byte) : Prop := (Byte.to_N a < Byte.to_N b)%N.
#[export] Instance byte_lt_dec : RelDecision byte_lt.
Proof. unfold RelDecision, byte_lt. intros. apply _. Defined.
(** [std::string]'s order. *)
Fixpoint bytes_ltb (a b : bytes) : bool :=
  match a, b with
  | [], [] => false
  | [], _ :: _ => true
  | _ :: _, [] => false
  | x :: a, y :: b => bool_decide (byte_lt x y) || (bool_decide (x = y) && bytes_ltb a b)
  end.
(** [AddrCompare] and [IdleCompare] as orders that are not strict. *)
Definition addr_le (l r : ClientInfo) : Prop := bytes_ltb (ci_ip_port l) (ci_ip_port r) = false.
Definition idle_le (l r : ClientInfo) : Prop := ci_last_interaction l ≤ ci_last_interaction r.
#[export] Instance addr_le_dec : RelDecision addr_le.
Proof. unfold RelDecision, addr_le. intros. apply _. Defined.
#[export] Instance idle_le_dec : RelDecision idle_le.
Proof. unfold RelDecision, idle_le. intros. apply _. Defined.

Definition ConstructPinginPubSubResp (argv : list bytes) : bytes :=
  if zlen argv >? 2 then str "-ERR wrong number of arguments for ping command" ++ kNewLine
  else str "*2" ++ kNewLine ++ str "$4" ++ kNewLine ++ str "pong" ++ kNewLine ++
    match argv !! 1%nat with
    | Some a => str "$" ++ to_string (zlen a) ++ kNewLine ++ a ++ kNewLine
    | None => str "$0" ++ kNewLine ++ kNewLine
    end.

Section AdminDo.
Context {RS D : Type} {RO : RocksStatus RS} {ET : EngineTasks RS D} {N : NumString}.
Context (auth : AuthConf).
Abbreviation AM := (M (AdminState D)).
Implicit Types (st : AdminState D).

Definition set_conn (k : ClientConn) st : AdminState D := mkAdminState (Some k) (as_tables st) (as_calls st).
Definition set_tables (l : list (option (Table D))) st : AdminState D := mkAdminState (as_conn st) l (as_calls st).
Definition call (c : AdminCall) : AM unit := modify (λ st, mkAdminState (as_conn st) (as_tables st) (as_calls st ++ [c])).
Definition ok_reply : CmdRes := SetRes kOk [] res_new.
(** Without a connection the reply is an error with the name in it. *)
Definition with_conn (name : string) (k : ClientConn → AM CmdRes) : AM CmdRes :=
  let* st := get in
  match as_conn st with None => ret (SetRes kErrOther (str name) res_new) | Some conn => k conn end.

(** A password that is both is the administrator's. *)
Definition AuthCmd_Do (pwd : bytes) : AM CmdRes :=
  let root := str (requirepass auth) in
  let user := str (userpass auth) in
  if bool_decide (user = []) && bool_decide (root = [])
  then ret (SetRes kErrOther (str "Client sent AUTH, but no password is set") res_new) else
  let r := if bool_decide (pwd = user) then SetRes kOk (str "USER") res_new else res_new in
  let r := if bool_decide (pwd = root) then SetRes kOk (str "ROOT") r else r in
  if res_none r then ret (SetRes kInvalidPwd [] r) else
  let* st := get in
  match as_conn st with
  | None => ret (SetRes kErrOther (str "ping") r)
  | Some k =>
      modify (set_conn (mkConn (ChecknUpdate (bstring (message_ r)) (auth_stat_ k)).2 (current_table_ k) (is_pubsub_ k))) ;;; ret r
  end.
(** A task on tables. *)
Definition run_task (type : TaskType) (names : list string) : AM unit :=
  let* st := get in
  match DoSameThingSpecificTable type names (as_tables st) with
  | None => abort
  | Some l => modify (set_tables l)
  end.
Definition compact_words : list (string * TaskType) := [
  ("all", kCompactAll); ("string", kCompactStrings); ("hash", kCompactHashes); ("set", kCompactSets); ("zset", kCompactZSets);
  ("list", kCompactList) ].
Definition CompactCmd_Do (struct_type : bytes) (names : list string) : AM CmdRes :=
  match find (λ w, same_word struct_type w.1) compact_words with
  | None => ret (SetRes kInvalidDbType struct_type res_new)
  | Some w => run_task w.2 names ;;; ret ok_reply
  end.

(** The table of the connection; a name that no table can have aborts. *)
Definition on_table (name : string) (k : Table D → AM CmdRes) : AM CmdRes :=
  let* st := get in
  match GetTable name (as_tables st) with
  | None => abort
  | Some None => ret (SetRes kInvalidTable [] res_new)
  | Some (Some t) => k t
  end.
(** The sum of the five counts, an [int64_t]. *)
Definition DbsizeCmd_Do (name : string) : AM CmdRes :=
  on_table name (λ t,
    match ks_key_infos (tb_scan t) with
    | [a; b; c; d; e] => ret (AppendInteger (s64 (u64 (keys_ a + keys_ b + keys_ c + keys_ d + keys_ e))) res_new)
    | _ => ret (SetRes kErrOther (str "keyspace error") res_new)
    end).
Definition TimeCmd_Do (now : bytes + Z * Z) : CmdRes :=
  match now with
  | inr (sec, usec) => AppendString (ll2string usec) (AppendString (ll2string sec) (AppendArrayLen 2 res_new))
  | inl error => SetRes kErrOther error res_new
  end.

(** The line of a client, in a buffer of 128 characters. *)
Definition client_line (now : Z) (c : ClientInfo) : bytes :=
  ztake 127 (str "addr=" ++ c_text (ci_ip_port c) ++ str " fd=" ++ to_string (ci_fd c) ++ str " idle=" ++
    to_string (if ci_last_interaction c =? 0 then 0 else now - ci_last_interaction c) ++ [x0a]).
Definition sorted_clients (info : bytes) (l : list ClientInfo) : list ClientInfo :=
  if same_word info "addr" then merge_sort addr_le l else if same_word info "idle" then merge_sort idle_le l else l.
Definition ClientCmd_Do (now : Z) (clients : list ClientInfo) (kill : bytes → bool) (operation info : bytes) : AM CmdRes :=
  if same_word operation "list" then ret (AppendString (concat (client_line now <$> sorted_clients info clients)) res_new)
  else if same_word operation "kill" && same_word info "all" then call CallKillAll ;;; ret ok_reply
  else call (CallKill info) ;;; ret (if kill info then ok_reply else SetRes kErrOther (str "No such client") res_new).

(** The dumps of the table; none while a slave is in a full synchronisation. *)
Fixpoint delete_dumps (names : list bytes) (io : AdminIo) : AM unit :=
  match names with
  | [] => ret tt
  | n :: names =>
      (if is_dump (io_prefix io) n && (io_sync_slaves io =? 0)
       then call (CallDeleteDir (io_path io ++ n ++ str "/" ++ str (io_table io))) else ret tt) ;;;
      delete_dumps names io
  end.
Definition DelbackupCmd_Do (io : AdminIo) : AM CmdRes :=
  match io_dumps io with None => ret ok_reply | Some names => delete_dumps names io ;;; ret ok_reply end.

(** On the partition 0 of the table, which is there. *)
Definition first_part (f : D → CmdRes * D) (t : Table D) : option (CmdRes * Table D) :=
  e ← tb_partitions t !! 0%nat; p ← e.2; db ← db_ (tp_part p);
  let '(r, db) := f db in
  Some (r, set_parts (<[0%nat := (e.1, Some (mkTablePart (on_open (λ _, db) (tp_part p)) (tp_opened p) (tp_scan p)))]> (tb_partitions t)) t).
Definition PKPatternMatchDelCmd_Do (name : string) (type : DataType) (pattern : bytes) : AM CmdRes :=
  let* st := get in
  match DbIdxFromStr name, GetTable name (as_tables st) with
  | Some idx, Some (Some t) =>
      match first_part (λ db, let '(s, n, db) := bw_PKPatternMatchDel type pattern db in
                              (if rs_ok s then integer n else err s, db)) t with
      | None => abort
      | Some (r, t) => modify (set_tables (<[idx := Some t]> (as_tables st))) ;;; ret r
      end
  | _, _ => abort
  end.

(** INFO KEYSPACE gives up at a table that has no five counts. *)
Definition five_counts (names : list string) (tables : list (option (Table D))) : bool :=
  forallb (λ t, (length (ks_key_infos (tb_scan t)) =? 5)%nat)
    (filter (λ t, names = [] ∨ tb_name t ∈ names) (omap id tables)).

(** The whole: [info_text] is the text of INFO ([InfoCmd]), [purge] the result of
    PURGELOGSTO, which works on the log of the partition. *)
Definition AdminCmd_Do (io : AdminIo) (info_text : InfoSection → list (option (Table D)) → bytes) (purge : CmdRes) (c : AdminCmd) : AM CmdRes :=
  match c with
  | AuthCmd pwd => AuthCmd_Do pwd
  | BgsaveCmd tables => run_task kBgSave tables ;;; ret (AppendContent (str "+Background saving started") res_new)
  | CompactCmd struct_type tables => CompactCmd_Do struct_type tables
  | PurgelogstoCmd _ _ => ret purge
  | PingCmd argv => with_conn "ping" (λ k, ret (if is_pubsub_ k then SetRes CmdNone (ConstructPinginPubSubResp argv) res_new
                                                 else SetRes kPong [] res_new))
  | SelectCmd table => with_conn "select" (λ k, modify (set_conn (mkConn (auth_stat_ k) table (is_pubsub_ k))) ;;; ret ok_reply)
  | ClientCmd operation info =>
      ClientCmd_Do (match io_time io with inr now => now.1 | inl _ => 0 end) (io_clients io) (io_kill io) operation info
  | ShutdownCmd => call CallExit ;;; ret res_new
  | InfoCmd section rescan off tables =>
      let keyspace := bool_decide (section = kInfoKeyspace) in
      (if keyspace && off then run_task kStopKeyScan tables else ret tt) ;;;
      let* st := get in
      let info := info_text section (as_tables st) in
      (if keyspace && negb off && rescan && five_counts tables (as_tables st) then run_task kStartKeyScan tables else ret tt) ;;;
      ret (AppendContent info (AppendStringLen (zlen info) res_new))
  | MonitorCmd => with_conn "monitor" (λ _, call CallMonitor ;;; ret res_new)
  | DbsizeCmd => DbsizeCmd_Do (io_table io)
  | TimeCmd => ret (TimeCmd_Do (io_time io))
  | DelbackupCmd => DelbackupCmd_Do io
  | EchoCmd body => ret (AppendString body res_new)
  | ScandbCmd type =>
      on_table (io_table io) (λ t, match every_part (λ p, p) t with
                                   | None => abort
                                   | Some _ => call (CallScanDatabase type) ;;; ret ok_reply
                                   end)
  | PaddingCmd _ => ret ok_reply
  | PKPatternMatchDelCmd type pattern => PKPatternMatchDelCmd_Do (io_table io) type pattern
  | QuitCmd => let* st := get in match as_conn st with None => abort | Some _ => call CallQuit ;;; ret ok_reply end
  end.
End AdminDo.

(** ** PURGELOGSTO *)

Section Purgelogsto.
Context {FS : Type} {E : SlashEnv FS} {C : FixedCoding} {SN : StringNum}.
Context {Cmd Conn Resp : Type} {CO : CmdOps Cmd} {Net : Type}.
(** Whether a purge was scheduled is not looked at. *)
Definition PurgelogstoCmd_Do (table : string) : M (@World FS Cmd Conn Resp Net) CmdRes :=
  let p := mkPartitionInfo table 0 in
  let* mp := on_rm (GetSyncMasterPartitionByName p) in
  match mp with
  | None => ret (SetRes kErrOther (str "Partition not found") res_new)
  | Some _ => let* _ := on_rm (on_master p (on_coord (on_stable PurgeStableLogs))) in ret (SetRes kOk [] res_new)
  end.
End Purgelogsto.

(** ** PADDING in the log *)

(** [None]: a failed [assert]; the argument must fit in a block of the log. *)
Definition PaddingCmd_ToBinlog `{FixedCoding} `{NumString} (arg : bytes) : option bytes :=
  ConstructPaddingBinlog TypeFirst (zlen arg + BINLOG_ITEM_HEADER_SIZE + PADDING_BINLOG_PROTOCOL_SIZE + SPACE_STROE_PARAMETER_LENGTH).
