(* ===== verification/InfoCmd.v ===== *)
(** * The text of INFO (src/pika_admin.cc, src/pika_server.cc)

    The sections about the server, its clients, its statistics, its replication and its keys.  What the
    operating system says is an argument, and so are the sections about the processor's
    time, the size of the data and the storage engine. *)

From S2P Require Import Prelude Define Env Binlog BinlogReader Transverter Command SlaveNode.
From S2P Require Import Consensus StableLog Coordinator WriteQueue MasterPartition SlavePartition.
From S2P Require Import ReplicaManager InnerMessage Server ReplServer ReplClient FullSync CmdRes Blackwidow CmdArgs CmdReply.
From S2P Require Import ClientConn Float64 PikaMeta ConfState Config ServerStat Table AdminCmd.
From stdpp Require Import base list strings pretty gmap sorting.
From Stdlib Require Import ZArith Lia Init.Byte.
#[local] Open Scope string_scope.
#[local] Open Scope list_scope.
#[local] Open Scope Z_scope.

Definition text_of_line (name : string) (value : bytes) : bytes := str name ++ value ++ kNewLine.
Definition Yes_No (b : bool) : bytes := str (if b then "Yes" else "No").

(** ** The server, its clients and its statistics *)

(** The release, what [uname] says, and the process. *)
Record SysInfo := mkSysInfo {
  sys_version : bytes; sys_sha : bytes; sys_date : bytes; sys_name : bytes; sys_release : bytes; sys_machine : bytes; sys_pid : Z }.
Section InfoServer.
Context {F : Type}.
Definition text_server (y : SysInfo) (now start_time_s : Z) (c : Conf F) : bytes :=
  str "# Server" ++ kNewLine ++ text_of_line "todis_version:" (sys_version y) ++ sys_sha y ++ kNewLine ++
  text_of_line "todis_build_compile_date: " (sys_date y) ++
  text_of_line "os:" (sys_name y ++ str " " ++ sys_release y ++ str " " ++ sys_machine y) ++
  text_of_line "arch_bits:" (drop (length (sys_machine y) - 2) (sys_machine y)) ++ text_of_line "process_id:" (to_string (sys_pid y)) ++
  text_of_line "tcp_port:" (to_string (ConfState.port_ c)) ++ text_of_line "thread_num:" (to_string (thread_num_ c)) ++
  text_of_line "sync_thread_num:" (to_string (sync_thread_num_ c)) ++ text_of_line "uptime_in_seconds:" (to_string (now - start_time_s)) ++
  text_of_line "uptime_in_days:" (to_string (Z.quot now (24 * 3600) - Z.quot start_time_s (24 * 3600) + 1)) ++
  text_of_line "config_file:" (conf_path_ c) ++ text_of_line "server_id:" (server_id_ c).
Definition text_clients (clients : list ClientInfo) : bytes :=
  str "# Clients" ++ kNewLine ++ text_of_line "connected_clients:" (to_string (zlen clients)).
Context {RS D : Type} {RO : RocksStatus RS} {ET : EngineTasks RS D}.
(** [None]: a partition without a database, or none where there should be one. *)
Definition text_stats (s : Statistic) (tables : list (option (Table D))) (c : Conf F) : option bytes :=
  saving ← IsBgSaving tables; scaning ← IsKeyScaning tables; compacting ← IsCompacting tables;
  Some (str "# Stats" ++ kNewLine ++ text_of_line "total_connections_received:" (to_string (accumulative_connections s)) ++
    text_of_line "instantaneous_ops_per_sec:" (to_string (last_sec_querynum (server_qps s))) ++
    text_of_line "total_commands_processed:" (to_string (querynum (server_qps s))) ++
    text_of_line "is_bgsaving:" (Yes_No saving) ++ text_of_line "is_scaning_keyspace:" (Yes_No scaning) ++
    text_of_line "is_compact:" (Yes_No compacting) ++ text_of_line "compact_cron:" (compact_cron_ c) ++
    text_of_line "compact_interval:" (compact_interval_ c)).
(** The counts by name, in the order of a hash map; those that are not zero. *)
Definition text_exec_count (counts : list (bytes * Z)) : bytes :=
  let counts := filter (λ nc, nc.2 ≠ 0) counts in
  str "# Command_Exec_Count" ++ kNewLine ++ concat ((λ nc, nc.1 ++ str ":" ++ to_string nc.2 ++ kNewLine) <$> counts) ++
  text_of_line "all_command_count:" (to_string (u64 (foldr Z.add 0 counts.*2))).
End InfoServer.

(** ** Replication *)

Section InfoReplication.
Context {FS : Type} {E : SlashEnv FS} {C : FixedCoding} {SN : StringNum}.
Context {Cmd Conn Resp : Type} {CO : CmdOps Cmd} {Net : Type}.
Context (conf : PikaConf).
Abbreviation World := (@World FS Cmd Conn Resp Net).
Abbreviation Master := (@SyncMasterPartition FS Cmd Conn Resp).
Implicit Types (w : World) (mp : Master).

(** The master partition; a name that no table can have, or another number than 0, aborts. *)
Definition master_of (p : PartitionInfo) w : option (option Master) := fst <$> GetSyncMasterPartitionByName p (w_rm w).

(** How far a slave is behind in one partition; [None] if the log is closed. *)
Definition partition_lag (ip : string) (port : Z) mp : option bytes :=
  let '(s, state) := GetSlaveState ip port kSlaveNotSync mp in
  let '(s', (sent, _)) := GetSlaveSyncBinlogInfo ip port BinlogOffset0 BinlogOffset0 mp in
  let name := str (PartitionName conf (mp_info_ mp)) in
  if ok s && bool_decide (state = kSlaveBinlogSync) && ok s' then
    let '(st, (num, off, _, _)) := Binlog.GetProducerStatus (mp_logger mp) in
    if negb (ok st) then None
    else Some (str "(" ++ name ++ str ":" ++
               to_string (u64 (u32 (num - filenum sent) * binlog_file_size conf + off - offset sent)) ++ str ")")
  else Some (str "(" ++ name ++ str ":not syncing)").
Definition slave_lags (x : SlaveItem) w : option bytes :=
  l ← mapM (λ p, (λ o : option Master, mp ← o; partition_lag (sl_ip x) (sl_port x) mp) <$> master_of p w)
       (sl_table_structs x ≫= λ ts, mkPartitionInfo (tbl_name ts) ∘ Z.of_nat <$> seq 0 (Z.to_nat (Server.partition_num ts)));
  Some (concat (omap id l)).
(** [GetSlaveListString]: the number of slaves and their lines. *)
Fixpoint slave_lines (i : nat) (l : list SlaveItem) w : option bytes :=
  match l with
  | [] => Some []
  | x :: l =>
      lags ← slave_lags x w; rest ← slave_lines (S i) l w;
      Some (str "slave" ++ to_string (Z.of_nat i) ++ str ":ip=" ++ str (sl_ip x) ++ str ",port=" ++ to_string (sl_port x) ++
        str ",conn_fd=" ++ to_string (sl_conn_fd x) ++ str ",lag=" ++ lags ++ kNewLine ++ rest)
  end.
Definition GetSlaveListString w : option (Z * bytes) := (λ t, (zlen (slaves_list (w_srv w)), t)) <$> slave_lines 0 (slaves_list (w_srv w)) w.

(** The partitions that are not connected: whether all are, and the text. *)
Definition state_word (st : ReplState) : string :=
  match st with
  | kNoConnect => "NoConnect)" | kWaitDBSync => "WaitDBSync)" | kError => "Error)" | kWaitReply => "kWaitReply)"
  | kTryConnect => "kTryConnect)" | kTryDBSync => "kTryDBSync)" | kDBNoConnect => "kDBNoConnect)" | kConnected => "Other)"
  end.
Fixpoint out_of_sync (ps : list PartitionInfo) w : bool * bytes :=
  match ps with
  | [] => (true, [])
  | p :: ps =>
      let '(all, text) := out_of_sync ps w in
      match GetSyncSlavePartitionByName p (w_rm w) with
      | None => (all, str "(" ++ str (PartitionName conf p) ++ str ": InternalError)" ++ text)
      | Some sp =>
          if bool_decide (State sp = kConnected) then (all, text)
          else (false, str "(" ++ str (PartitionName conf p) ++ str ":" ++ str (state_word (State sp)) ++ text)
      end
  end.
Definition link_up w : bool := MetaSyncDone (w_srv w) && (out_of_sync (partitions_of (w_srv w)) w).1.

(** What a slave says of its master. *)
Definition text_master (slave_priority : option Z) (slave_read_only : bool) w : bytes :=
  let '(all, out) := out_of_sync (partitions_of (w_srv w)) w in
  text_of_line "master_host:" (str (master_ip_ (w_srv w))) ++ text_of_line "master_port:" (to_string (master_port_ (w_srv w))) ++
  text_of_line "master_link_status:" (str (if link_up w then "up" else "down")) ++
  match slave_priority with Some n => text_of_line "slave_priority:" (to_string n) | None => [] end ++
  text_of_line "slave_read_only:" (to_string (Z.b2z slave_read_only)) ++
  if all then [] else text_of_line "db_repl_state:" out.
Definition text_slaves w : option bytes :=
  '(n, lines) ← GetSlaveListString w; Some (text_of_line "connected_slaves:" (to_string n) ++ lines).
(** The logs of the partitions; the variables keep their values from one to the next. *)
Fixpoint text_logs (ps : list PartitionInfo) (num off : Z) (safety_purge : string) w : option bytes :=
  match ps with
  | [] => Some []
  | p :: ps =>
      o ← master_of p w;
      match o with
      | None => text_logs ps num off safety_purge w
      | Some mp =>
          let '(s, (num', off', _, _)) := Binlog.GetProducerStatus (mp_logger mp) in
          let '(num, off) := if ok s then (num', off') else (num, off) in
          let '(s, safety_purge) := GetSafetyPurgeBinlog safety_purge mp in
          rest ← text_logs ps num off safety_purge w;
          Some (str (table_name_ p) ++ str " binlog_offset=" ++ to_string num ++ str " " ++ to_string off ++
            text_of_line ",safety_purge=" (str (if ok s then safety_purge else "error")) ++
            (if negb (consensus_level conf =? 0) then
               let o := ConsensusLastIndex mp in
               str (table_name_ p) ++ text_of_line " consensus last_log=" (str ("filenum: " +:+ pretty (filenum (b_offset o)) +:+
                 " offset: " +:+ pretty (offset (b_offset o)) +:+ " term: " +:+ pretty (term (l_offset o)) +:+ " index: " +:+
                 pretty (index (l_offset o))))
             else []) ++ rest)
      end
  end.
Definition text_replication (slave_priority : Z) (slave_read_only : bool) w : option bytes :=
  let role := role_ (w_srv w) in
  let head := str "# Replication(" in
  let logs := text_logs (partitions_of (w_srv w)) 0 0 "" w in
  if (role =? PIKA_ROLE_SINGLE) || (role =? PIKA_ROLE_MASTER) then
    slaves ← text_slaves w; logs ← logs; Some (head ++ text_of_line "MASTER)" [] ++ text_of_line "role:master" [] ++ slaves ++ logs)
  else if role =? PIKA_ROLE_SLAVE then
    logs ← logs;
    Some (head ++ text_of_line "SLAVE)" [] ++ text_of_line "role:slave" [] ++ text_master (Some slave_priority) slave_read_only w ++ logs)
  else if role =? Z.lor PIKA_ROLE_MASTER PIKA_ROLE_SLAVE then
    slaves ← text_slaves w; logs ← logs;
    Some (head ++ text_of_line "Master && SLAVE)" [] ++ text_of_line "role:master&&slave" [] ++ text_master None slave_read_only w ++ slaves ++ logs)
  else Some (text_of_line "ERR: server role is error" []).
End InfoReplication.

(** ** Keys *)

Section InfoKeyspace.
Context {D : Type}.
(** The text of a time, and what [statvfs] says: blocks, those available, and their size. *)
Context (time_text : Z → bytes) (disk : option (Z * Z * Z)).

Definition text_duration (duration : Z) : bytes :=
  if duration =? -2 then text_of_line "# Duration: In Waiting" []
  else if duration =? -1 then text_of_line "# Duration: In Processing" []
  else if duration >=? 0 then text_of_line "# Duration: " (to_string duration ++ str "s") else [].
(** [None]: a disk of size 0. *)
Definition text_disk : option bytes :=
  match disk with
  | None => Some []
  | Some (blocks, bavail, frsize) =>
      let capacity := u64 (blocks * frsize) in
      let used := u64 (u64 (blocks - bavail) * frsize) in
      if capacity =? 0 then None else
      Some (text_of_line "disk_capacity:" (to_string capacity) ++ text_of_line "used_disk_size:" (to_string used) ++
        text_of_line "used_disk_percent:" (to_string (u64 (used * 100) / capacity) ++ str "%"))
  end.
Definition structure_names : list (string * string) :=
  [("DBStrings_keys:", " Strings_keys="); ("DBHashes_keys:", " Hashes_keys="); ("DBLists_keys:", " Lists_keys=");
   ("DBZsets_keys:", " Zsets_keys="); ("DBSets_keys:", " Sets_keys=")].
Definition text_table (t : Table D) : option bytes :=
  let i := tb_scan t in
  let pairs := zip structure_names (ks_key_infos i) in
  disk ← text_disk;
  Some (text_of_line "# Time:" (time_text (ks_start_time i)) ++ text_duration (ks_duration i) ++ disk ++
    concat ((λ nk, text_of_line nk.1.1 (to_string (keys_ nk.2))) <$> pairs) ++
    concat ((λ nk, str (tb_name t) ++ str nk.1.2 ++ to_string (keys_ nk.2) ++ str ", expires=" ++ to_string (expires_ nk.2) ++
              text_of_line ", invalid_keys=" (to_string (invaild_keys_ nk.2))) <$> pairs) ++ kNewLine).
(** The tables, the named ones or all; with an odd number of counts only the error. *)
Fixpoint text_tables (names : list string) (tables : list (option (Table D))) : option (bytes + bytes) :=
  match tables with
  | [] => Some (inr [])
  | None :: tables => text_tables names tables
  | Some t :: tables =>
      if bool_decide (names = []) || bool_decide (tb_name t ∈ names) then
        if negb (length (ks_key_infos (tb_scan t)) =? 5)%nat then Some (inl (str "info keyspace error" ++ kNewLine)) else
        text ← text_table t; rest ← text_tables names tables;
        Some (match rest with inl e => inl e | inr rest => inr (text ++ rest) end)
      else text_tables names tables
  end.
Definition text_keyspace (off : bool) (names : list string) (tables : list (option (Table D))) : option bytes :=
  if off then Some (str "OK" ++ kNewLine) else
  t ← text_tables names tables;
  Some (match t with inl e => e | inr t => str "# Keyspace" ++ kNewLine ++ t end).
End InfoKeyspace.

(** ** The whole *)

(** [InfoCmd::Do]: the sections of INFO and INFO ALL with an empty line between them. *)
Definition info_sections (section : InfoSection) : list InfoSection :=
  match section with
  | kInfo => [kInfoServer; kInfoData; kInfoClients; kInfoStats; kInfoCPU; kInfoReplication; kInfoKeyspace]
  | kInfoAll => [kInfoServer; kInfoData; kInfoClients; kInfoStats; kInfoExecCount; kInfoCPU; kInfoReplication; kInfoKeyspace; kInfoToplingDB]
  | kInfoErr | kInfoLog => []
  | s => [s]
  end.
Fixpoint joined (l : list bytes) : bytes :=
  match l with [] => [] | [t] => t | t :: l => t ++ kNewLine ++ joined l end.
Definition InfoCmd_text (text : InfoSection → bytes) (section : InfoSection) : bytes := joined (text <$> info_sections section).
