(* ===== verification/CommandCmd.v ===== *)
(** * COMMAND (src/pika_admin.cc)

    The table of COMMAND, the replies, and how the table differs from the command table
    that is executed. *)

From S2P Require Import Prelude Define Env Transverter Command StableLog Float64 GeoCoord CmdRes Blackwidow.
From S2P Require Import CmdArgs CmdReply ConfState CmdFamily KvCmd HashCmd ListCmd SetsCmd ZsetCmd BitCmd.
From S2P Require Import GeoCmd PikaCmd Table AdminCmd.
From stdpp Require Import base list strings pretty gmap.
From Stdlib Require Import ZArith Lia Init.Byte.
#[local] Open Scope string_scope.
#[local] Open Scope list_scope.
#[local] Open Scope Z_scope.

Record CommandResponseInfo := mkInfo {
  ci_arity : Z; ci_first : Z; ci_last : Z; ci_step : Z; ci_cmd : string; ci_flags : list string }.

(** The rows in the order of the source, which is the order of the hash table. *)
Definition command_response_info : list CommandResponseInfo := [
  mkInfo 3 1 1 1 "append" ["write"; "denyoom"];
  mkInfo 2 0 0 0 "auth" ["noscript"; "loading"; "stale"; "fast"];
  mkInfo (-1) 0 0 0 "bgsave" ["admin"; "noscript"];
  mkInfo (-2) 1 1 1 "bitcount" ["readonly"];
  mkInfo (-4) 2 (-1) 1 "bitop" ["write"; "denyoom"];
  mkInfo 4 1 1 1 "lset" ["write"; "denyoom"];
  mkInfo (-3) 1 1 1 "bitpos" ["readonly"];
  mkInfo (-2) 0 0 0 "client" ["admin"; "noscript"];
  mkInfo (-2) 0 0 0 "config" ["admin"; "noscript"; "loading"; "stale"];
  mkInfo 1 0 0 0 "dbsize" ["readonly"; "fast"];
  mkInfo 2 1 1 1 "decr" ["write"; "denyoom"; "fast"];
  mkInfo 3 1 1 1 "decrby" ["write"; "denyoom"; "fast"];
  mkInfo (-2) 1 (-1) 1 "del" ["write"];
  mkInfo 2 0 0 0 "echo" ["fast"];
  mkInfo (-2) 1 (-1) 1 "exists" ["readonly"; "fast"];
  mkInfo 3 1 1 1 "expire" ["write"; "fast"];
  mkInfo 3 1 1 1 "expireat" ["write"; "fast"];
  mkInfo (-1) 0 0 0 "flushall" ["write"];
  mkInfo (-1) 0 0 0 "flushdb" ["write"];
  mkInfo (-5) 1 1 1 "geoadd" ["write"; "denyoom"];
  mkInfo (-4) 1 1 1 "geodist" ["readonly"];
  mkInfo (-2) 1 1 1 "geohash" ["readonly"];
  mkInfo (-2) 1 1 1 "geopos" ["readonly"];
  mkInfo (-6) 1 1 1 "georadius" ["write"; "movablekeys"];
  mkInfo (-5) 1 1 1 "georadiusbymember" ["write"; "movablekeys"];
  mkInfo 2 1 1 1 "get" ["readonly"; "fast"];
  mkInfo 3 1 1 1 "getbit" ["readonly"; "fast"];
  mkInfo 4 1 1 1 "getrange" ["readonly"];
  mkInfo 3 1 1 1 "getset" ["write"; "denyoom"];
  mkInfo (-3) 1 1 1 "hdel" ["write"; "fast"];
  mkInfo 3 1 1 1 "hexists" ["readonly"; "fast"];
  mkInfo 3 1 1 1 "hget" ["readonly"; "fast"];
  mkInfo 2 1 1 1 "hgetall" ["readonly"; "random"];
  mkInfo 4 1 1 1 "hincrby" ["write"; "denyoom"; "fast"];
  mkInfo 4 1 1 1 "hincrbyfloat" ["write"; "denyoom"; "fast"];
  mkInfo 2 1 1 1 "hkeys" ["readonly"; "sort_for_script"];
  mkInfo 2 1 1 1 "hlen" ["readonly"; "fast"];
  mkInfo (-3) 1 1 1 "hmget" ["readonly"; "fast"];
  mkInfo (-4) 1 1 1 "hmset" ["write"; "denyoom"; "fast"];
  mkInfo (-3) 1 1 1 "hscan" ["readonly"; "random"];
  mkInfo (-4) 1 1 1 "hset" ["write"; "denyoom"; "fast"];
  mkInfo 4 1 1 1 "hsetnx" ["write"; "denyoom"; "fast"];
  mkInfo 3 1 1 1 "hstrlen" ["readonly"; "fast"];
  mkInfo 2 1 1 1 "hvals" ["readonly"; "sort_for_script"];
  mkInfo 2 1 1 1 "incr" ["write"; "denyoom"; "fast"];
  mkInfo 3 1 1 1 "incrby" ["write"; "denyoom"; "fast"];
  mkInfo 3 1 1 1 "incrbyfloat" ["write"; "denyoom"; "fast"];
  mkInfo (-1) 0 0 0 "info" ["random"; "loading"; "stale"];
  mkInfo 2 0 0 0 "keys" ["readonly"; "sort_for_script"];
  mkInfo 3 1 1 1 "lindex" ["readonly"];
  mkInfo 5 1 1 1 "linsert" ["write"; "denyoom"];
  mkInfo 2 1 1 1 "llen" ["readonly"; "fast"];
  mkInfo 2 1 1 1 "lpop" ["write"; "fast"];
  mkInfo (-3) 1 1 1 "lpush" ["write"; "denyoom"; "fast"];
  mkInfo (-3) 1 1 1 "lpushx" ["write"; "denyoom"; "fast"];
  mkInfo 4 1 1 1 "lrange" ["readonly"];
  mkInfo 4 1 1 1 "lrem" ["write"];
  mkInfo 4 1 1 1 "ltrim" ["write"];
  mkInfo (-2) 1 (-1) 1 "mget" ["readonly"; "fast"];
  mkInfo 1 0 0 0 "monitor" ["admin"; "noscript"];
  mkInfo (-3) 1 (-1) 2 "mset" ["write"; "denyoom"];
  mkInfo (-3) 1 (-1) 2 "msetnx" ["write"; "denyoom"];
  mkInfo 2 1 1 1 "persist" ["write"; "fast"];
  mkInfo 3 1 1 1 "pexpire" ["write"; "fast"];
  mkInfo 3 1 1 1 "pexpireat" ["write"; "fast"];
  mkInfo (-2) 1 1 1 "pfadd" ["write"; "denyoom"; "fast"];
  mkInfo (-2) 1 (-1) 1 "pfcount" ["readonly"];
  mkInfo (-2) 1 (-1) 1 "pfmerge" ["write"; "denyoom"];
  mkInfo (-1) 0 0 0 "ping" ["stale"; "fast"];
  mkInfo 4 1 1 1 "psetex" ["write"; "denyoom"];
  mkInfo (-2) 0 0 0 "psubscribe" ["pubsub"; "noscript"; "loading"; "stale"];
  mkInfo 2 1 1 1 "pttl" ["readonly"; "random"; "fast"];
  mkInfo 3 0 0 0 "publish" ["pubsub"; "loading"; "stale"; "fast"];
  mkInfo (-2) 0 0 0 "pubsub" ["pubsub"; "random"; "loading"; "stale"];
  mkInfo (-1) 0 0 0 "punsubscribe" ["pubsub"; "noscript"; "loading"; "stale"];
  mkInfo 2 1 1 1 "rpop" ["write"; "fast"];
  mkInfo 3 1 2 1 "rpoplpush" ["write"; "denyoom"];
  mkInfo (-3) 1 1 1 "rpush" ["write"; "denyoom"; "fast"];
  mkInfo (-3) 1 1 1 "rpushx" ["write"; "denyoom"; "fast"];
  mkInfo (-3) 1 1 1 "sadd" ["write"; "denyoom"; "fast"];
  mkInfo (-2) 0 0 0 "scan" ["readonly"; "random"];
  mkInfo 2 1 1 1 "scard" ["readonly"; "fast"];
  mkInfo (-2) 1 (-1) 1 "sdiff" ["readonly"; "sort_for_script"];
  mkInfo (-3) 1 (-1) 1 "sdiffstore" ["write"; "denyoom"];
  mkInfo 2 0 0 0 "select" ["loading"; "fast"];
  mkInfo (-3) 1 1 1 "set" ["write"; "denyoom"];
  mkInfo 4 1 1 1 "setbit" ["write"; "denyoom"];
  mkInfo 4 1 1 1 "setex" ["write"; "denyoom"];
  mkInfo 3 1 1 1 "setnx" ["write"; "denyoom"; "fast"];
  mkInfo 4 1 1 1 "setrange" ["write"; "denyoom"];
  mkInfo (-1) 0 0 0 "shutdown" ["admin"; "noscript"; "loading"; "stale"];
  mkInfo (-2) 1 (-1) 1 "sinter" ["readonly"; "sort_for_script"];
  mkInfo (-3) 1 (-1) 1 "sinterstore" ["write"; "denyoom"];
  mkInfo 3 1 1 1 "sismember" ["readonly"; "fast"];
  mkInfo 3 0 0 0 "slaveof" ["admin"; "noscript"; "stale"];
  mkInfo (-2) 0 0 0 "slowlog" ["admin"; "random"];
  mkInfo 2 1 1 1 "smembers" ["readonly"; "sort_for_script"];
  mkInfo 4 1 2 1 "smove" ["write"; "fast"];
  mkInfo (-2) 1 1 1 "spop" ["write"; "random"; "fast"];
  mkInfo (-2) 1 1 1 "srandmember" ["readonly"; "random"];
  mkInfo (-3) 1 1 1 "srem" ["write"; "fast"];
  mkInfo (-3) 1 1 1 "sscan" ["readonly"; "random"];
  mkInfo 2 1 1 1 "strlen" ["readonly"; "fast"];
  mkInfo (-2) 0 0 0 "subscribe" ["pubsub"; "noscript"; "loading"; "stale"];
  mkInfo (-2) 1 (-1) 1 "sunion" ["readonly"; "sort_for_script"];
  mkInfo (-3) 1 (-1) 1 "sunionstore" ["write"; "denyoom"];
  mkInfo 1 0 0 0 "time" ["random"; "fast"];
  mkInfo 2 1 1 1 "ttl" ["readonly"; "random"; "fast"];
  mkInfo 2 1 1 1 "type" ["readonly"; "fast"];
  mkInfo (-1) 0 0 0 "unsubscribe" ["pubsub"; "noscript"; "loading"; "stale"];
  mkInfo (-4) 1 1 1 "zadd" ["write"; "denyoom"; "fast"];
  mkInfo 2 1 1 1 "zcard" ["readonly"; "fast"];
  mkInfo 4 1 1 1 "zcount" ["readonly"; "fast"];
  mkInfo 4 1 1 1 "zincrby" ["write"; "denyoom"; "fast"];
  mkInfo (-4) 0 0 0 "zinterstore" ["write"; "denyoom"; "movablekeys"];
  mkInfo 4 1 1 1 "zlexcount" ["readonly"; "fast"];
  mkInfo (-2) 1 1 1 "zpopmax" ["write"; "fast"];
  mkInfo (-2) 1 1 1 "zpopmin" ["write"; "fast"];
  mkInfo (-4) 1 1 1 "zrange" ["readonly"];
  mkInfo (-4) 1 1 1 "zrangebylex" ["readonly"];
  mkInfo (-4) 1 1 1 "zrangebyscore" ["readonly"];
  mkInfo 3 1 1 1 "zrank" ["readonly"; "fast"];
  mkInfo (-3) 1 1 1 "zrem" ["write"; "fast"];
  mkInfo 4 1 1 1 "zremrangebylex" ["write"];
  mkInfo 4 1 1 1 "zremrangebyrank" ["write"];
  mkInfo 4 1 1 1 "zremrangebyscore" ["write"];
  mkInfo (-4) 1 1 1 "zrevrange" ["readonly"];
  mkInfo (-4) 1 1 1 "zrevrangebylex" ["readonly"];
  mkInfo (-4) 1 1 1 "zrevrangebyscore" ["readonly"];
  mkInfo 3 1 1 1 "zrevrank" ["readonly"; "fast"];
  mkInfo (-3) 1 1 1 "zscan" ["readonly"; "random"];
  mkInfo 3 1 1 1 "zscore" ["readonly"; "fast"];
  mkInfo (-4) 0 0 0 "zunionstore" ["write"; "denyoom"; "movablekeys"] ].
Definition find_info (name : bytes) : option CommandResponseInfo := find (λ i, bool_decide (str (ci_cmd i) = name)) command_response_info.

Section CommandCmd.
Context {N : NumString}.

Definition append_info (i : CommandResponseInfo) (r : CmdRes) : CmdRes :=
  let r := AppendInteger (ci_arity i) (AppendString (str (ci_cmd i)) (AppendArrayLen 6 r)) in
  let r := strings_reply (str <$> ci_flags i) r in
  AppendInteger (ci_step i) (AppendInteger (ci_last i) (AppendInteger (ci_first i) r)).
(** [None]: the name is not found, and the end of the table is read. *)
Definition CommandCmd_Do (argv : list bytes) : option CmdRes :=
  if (zlen argv >? 2) && bool_decide (argv !! 1%nat = Some (str "info")) then
    infos ← mapM find_info (drop 2 argv);
    Some (foldl (λ r i, append_info i r) (AppendArrayLen (zlen argv - 2) res_new) infos)
  else Some (foldl (λ r i, append_info i r) (AppendArrayLen (zlen command_response_info) res_new) command_response_info).
End CommandCmd.

(** * COMMAND and the table of commands

    Where the table that clients are shown differs from the one requests are looked up in. *)

Section CommandFacts.
Context {N : NumString} {SN : StringNum} {FT : FloatText} {SC : Scores double} {ST : SlashText}.
Context {RS D : Type} {RO : RocksStatus RS} {ET : EngineTasks RS D} (env : AdminEnv D).

(** Names, arities and whether a command writes, of the real table. *)
Definition real_rows : list (string * (Z * bool)) :=
  ((λ e, (e_name e, (e_arity e, flag_is_write (e_flag e)))) <$> family_table (C := PikaCmd)) ++
  ((λ e, (e_name e, (e_arity e, flag_is_write (e_flag e)))) <$> admin_table env).
Definition real_row (name : string) : option (Z * bool) := snd <$> find (λ x, bool_decide (x.1 = name)) real_rows.
(** A row with another number of arguments or another flag. *)
Definition differs (i : CommandResponseInfo) : bool :=
  match real_row (ci_cmd i) with
  | Some (arity, write) => negb (arity =? ci_arity i) || negb (Bool.eqb write (bool_decide ("write" ∈ ci_flags i)))
  | None => false
  end.

(** COMMAND tells the truth about the number of arguments of a command and whether it
    writes, but for these; its own names are without repetition, and some commands are
    missing. *)
Lemma command_info_agrees :
  ci_cmd <$> List.filter differs command_response_info =
    ["bitop"; "georadius"; "georadiusbymember"; "hset"; "keys"; "lpushx"; "monitor"; "pfmerge"; "ping"; "rpushx"; "shutdown"; "spop"] ∧
  NoDup (ci_cmd <$> command_response_info) ∧
  List.filter (λ n, negb (bool_decide (n ∈ ci_cmd <$> command_response_info))) (fst <$> real_rows) =
    ["delvx"; "scanx"; "pksetexat"; "pkscanrange"; "pkrscanrange"; "hscanx"; "pkhscanrange"; "pkhrscanrange"; "compact";
     "purgelogsto"; "delbackup"; "scandb"; "padding"; "pkpatternmatchdel"; "quit"].
Proof. split_and!; [vm_compute; reflexivity|apply (bool_decide_unpack _); vm_compute; exact I|vm_compute; reflexivity]. Qed.
(** A name that is not in the table is not refused: the end of the table is read. *)
Lemma command_info_unknown name : find_info name = None → CommandCmd_Do [str "command"; str "info"; name] = None.
Proof. intros H. unfold CommandCmd_Do. cbn -[find_info]. by rewrite H. Qed.
End CommandFacts.
