(* ===== verification/AdminFacts.v ===== *)
(** * Administration commands: what is guaranteed

    The rights that passwords give, the databases that can be selected, the numbers of keys
    that DBSIZE answers, the replies; and the requests that end the process. *)

From S2P Require Import Prelude Define Env Binlog BinlogReader Transverter Command SlaveNode.
From S2P Require Import Consensus StableLog Coordinator WriteQueue MasterPartition SlavePartition.
From S2P Require Import ReplicaManager InnerMessage Server ReplServer ReplClient FullSync CmdRes Blackwidow CmdArgs CmdReply.
From S2P Require Import ClientConn Float64 PikaMeta ConfState Config ServerStat Table AdminCmd InfoCmd.
From stdpp Require Import base list strings pretty gmap sorting.
From Stdlib Require Import ZArith Lia Init.Byte.
#[local] Open Scope string_scope.
#[local] Open Scope list_scope.
#[local] Open Scope Z_scope.

Lemma str_inj a b : str a = str b → a = b.
Proof. unfold str. intros H. apply (f_equal String.string_of_list_byte) in H. by rewrite !String.string_of_list_byte_of_string in H. Qed.
Lemma str_nil a : str a = [] ↔ a = "".
Proof. split; [by destruct a|by intros ->]. Qed.
Lemma bstring_str a : bstring (str a) = a.
Proof. unfold bstring, str. apply String.string_of_list_byte_of_string. Qed.

(** ** Passwords *)

Section Auth.
Context {D : Type} (auth : AuthConf).
Implicit Types (st : AdminState D).

(** The connection sends passwords. *)
Definition auth_step st (pwd : bytes) : AdminState D := match AuthCmd_Do auth pwd st with Some (_, st) => st | None => st end.
Definition auth_run (table : string) (pwds : list bytes) : AdminState D :=
  foldl auth_step (mkAdminState (Some (ClientConn_new auth table)) [] []) pwds.

Definition no_passwords : bool := bool_decide (userpass auth = "") && bool_decide (requirepass auth = "").
Definition is_password (pwd : bytes) : bool := bool_decide (pwd = str (userpass auth)) || bool_decide (pwd = str (requirepass auth)).
(** What the passwords entitle to. *)
Definition rights (pwds : list bytes) : StatType :=
  if no_passwords then kAdminAuthed else
  match last (filter is_password pwds) with
  | None => if bool_decide (userpass auth = "") then kLimitAuthed else kNoAuthed
  | Some pwd => if bool_decide (pwd = str (requirepass auth)) then kAdminAuthed else kLimitAuthed
  end.

Lemma auth_step_spec k st pwd : as_conn st = Some k →
  ∃ k', as_conn (auth_step st pwd) = Some k' ∧
    auth_stat_ k' = (if no_passwords then auth_stat_ k
                     else if bool_decide (pwd = str (requirepass auth)) then kAdminAuthed
                     else if bool_decide (pwd = str (userpass auth)) then kLimitAuthed else auth_stat_ k).
Proof.
  intros Hk. unfold auth_step, AuthCmd_Do, no_passwords.
  rewrite (bool_decide_ext (str (userpass auth) = []) (userpass auth = "") (str_nil _)).
  rewrite (bool_decide_ext (str (requirepass auth) = []) (requirepass auth = "") (str_nil _)).
  destruct (bool_decide (userpass auth = "") && bool_decide (requirepass auth = "")); [by exists k|].
  unfold bind, get. destruct (bool_decide (pwd = str (userpass auth))), (bool_decide (pwd = str (requirepass auth)));
    match goal with |- context[if res_none ?r then _ else _] => let b := eval vm_compute in (res_none r) in change (res_none r) with b end;
    cbn; rewrite ?Hk; by eexists.
Qed.

(** C11. The rights of a connection are those of the last password that it sent correctly,
    and the administrator's if there are no passwords; so with a user's password alone
    the empty password gives the rights of the administrator. *)
Theorem auth_rights table pwds :
  (auth_stat_ <$> as_conn (auth_run table pwds) = Some (rights pwds)) ∧
  (userpass auth ≠ "" → requirepass auth = "" → rights [[]] = kAdminAuthed).
Proof.
  split.
  - assert (∃ k, as_conn (auth_run table pwds) = Some k ∧ auth_stat_ k = rights pwds) as (k & -> & <-); [|done].
    induction pwds as [|pwd pwds IH] using rev_ind.
    + eexists. split; [done|]. unfold rights, no_passwords, ClientConn_new, AuthStat_Init. cbn.
      destruct (bool_decide (userpass auth = "")), (bool_decide (requirepass auth = "")); done.
    + destruct IH as (k & Hk & Hr). unfold auth_run. rewrite foldl_app. cbn [foldl]. fold (auth_run table pwds).
      destruct (auth_step_spec k _ pwd Hk) as (k' & Hk' & Hr'). exists k'. split; [done|]. rewrite Hr', Hr. unfold rights.
      destruct no_passwords; [done|]. rewrite filter_app, filter_cons, filter_nil.
      destruct (bool_decide_reflect (pwd = str (requirepass auth))) as [->|Hn].
      * rewrite decide_True by (unfold is_password; by rewrite (bool_decide_eq_true_2 _ eq_refl), orb_true_r).
        by rewrite last_snoc, bool_decide_eq_true_2.
      * destruct (bool_decide_reflect (pwd = str (userpass auth))) as [->|Hu].
        -- rewrite decide_True by (unfold is_password; by rewrite (bool_decide_eq_true_2 _ eq_refl)).
           by rewrite last_snoc, bool_decide_eq_false_2.
        -- rewrite decide_False by (unfold is_password; rewrite !bool_decide_eq_false_2 by done; by intros []). by rewrite app_nil_r.
  - intros Hu Hr. unfold rights, no_passwords. rewrite (bool_decide_eq_false_2 _ Hu). cbn [andb].
    rewrite filter_cons, filter_nil, decide_True by (unfold is_password; rewrite Hr; by rewrite orb_true_r). rewrite Hr.
    cbn [last]. by rewrite bool_decide_eq_true_2.
Qed.
End Auth.

(** ** Requests that end the process *)

Section Names.
Context {RS D : Type} {RO : RocksStatus RS} {ET : EngineTasks RS D} {SN : StringNum} {SL : StringNumLaws} {ST : SlashText}.
Implicit Types (env : AdminEnv D).

Lemma IsKeyScaning_answers (tables : list (option (Table D))) : ∃ b, IsKeyScaning tables = Some b.
Proof.
  unfold IsKeyScaning. induction tables as [|[t|] tables [b IH]]; cbn; [by eexists| |by exists b].
  destruct (key_scaning_ (tb_scan t)); [by eexists|]. rewrite IH. by eexists.
Qed.


(** ** SELECT *)

Lemma db_index n : 0 ≤ n < 8 → DbIdxFromStr ("db" +:+ pretty n) = Some (Z.to_nat n).
Proof. intros H. assert (n = 0 ∨ n = 1 ∨ n = 2 ∨ n = 3 ∨ n = 4 ∨ n = 5 ∨ n = 6 ∨ n = 7) as Hn by lia.
  by repeat destruct Hn as [-> | Hn]; [..|subst n]. Qed.
Definition db_there n env : Prop := ∃ t, ae_tables env !! Z.to_nat n = Some (Some t).

(** SELECT accepts exactly the canonical numbers of the databases that exist, and it never
    ends the process. *)
Lemma select_spec env a n : ae_databases env ≤ 8 → length (ae_tables env) = kMaxDbNum → atoi (c_text a) = Some n →
  (a = to_string n ∧ 0 ≤ n < ae_databases env ∧ db_there n env → SelectCmd_DoInitial env [str "select"; a] = good (SelectCmd ("db" +:+ pretty n))) ∧
  (¬ (a = to_string n ∧ 0 ≤ n < ae_databases env ∧ db_there n env) → ∃ r, SelectCmd_DoInitial env [str "select"; a] = Some (inl r)).
Proof.
  intros Hd Hl Ha. unfold SelectCmd_DoInitial. cbn [lookup list_lookup mbind option_bind]. rewrite Ha. cbn [mbind option_bind].
  destruct (bool_decide_reflect (to_string n = a)) as [<-|Hne]; cbn [negb]; [|split; [by intros [-> _]|by eexists]].
  destruct (Z.ltb_spec n 0); cbn [orb]; [split; [lia|by eexists]|].
  destruct (Z.geb_spec n (ae_databases env)); [split; [lia|by eexists]|].
  unfold known_table, IsTableExist, GetTable. change (bstring (to_string n)) with (bstring (str (pretty n))). rewrite bstring_str.
  rewrite db_index by lia. cbn [mbind option_bind].
  destruct (lookup_lt_is_Some_2 (ae_tables env) (Z.to_nat n)) as [o Ho]; [rewrite Hl; unfold kMaxDbNum; lia|]. rewrite Ho. unfold db_there. rewrite Ho.
  destruct o as [t|]; cbn.
  - split; [done|]. intros Hx. destruct Hx. split_and!; [done|lia|done|by exists t].
  - split; [intros (_ & _ & t & [=])|by eexists].
Qed.
End Names.

(** ** DBSIZE *)

Section Dbsize.
Context {RS D : Type} {RO : RocksStatus RS} {ET : EngineTasks RS D} {N : NumString}.

Definition total (infos : list KeyInfo) : Z := foldr (λ i n, keys_ i + n) 0 infos.

Lemma reported_ok (l : list (Scan (RS := RS))) s : infos_ok s.2 → Forall (λ a : Scan (RS := RS), rs_ok a.1.1 = true → infos_ok a.1.2) l →
  infos_ok (foldl reported_step s l).2.
Proof.
  revert s. induction l as [|a l IH]; intros s Hs Hl; [done|]. apply Forall_cons in Hl as [Ha Hl]. apply IH; [|done].
  unfold reported_step. destruct s.1; [done|]. destruct (rs_ok a.1.1); [by apply Ha|done].
Qed.

(** What DBSIZE answers after any sequence of key scans of a table is the number of keys
    that the last scan found; but once a scan has failed or was stopped it is the number
    from before, whatever is scanned afterwards. *)
Theorem dbsize_reported name idx (t : Table D) infos (l : list (Scan (RS := RS))) st :
  DbIdxFromStr name = Some idx → (idx < length (as_tables st))%nat → one_partition (false, infos) t →
  Forall (λ a : Scan (RS := RS), rs_ok a.1.1 = true → infos_ok a.1.2) l →
  ∃ t', run_scans l t = Some t' ∧
    fst <$> DbsizeCmd_Do name (set_tables (<[idx := Some t']> (as_tables st)) st) =
      Some (integer (s64 (u64 (total (reported infos l))))).
Proof.
  intros Hi Hlt Hp Hl. assert (infos_ok (reported infos l)) as Hok.
  { apply (reported_ok l (false, infos)); [|done]. by destruct Hp as (_ & _ & _ & _ & _ & _ & ?). }
  destruct (scans_reported t infos l Hp Hl) as (t' & Hr & Ht). exists t'. split; [done|].
  unfold DbsizeCmd_Do, on_table, bind, get, GetTable. rewrite Hi. cbn [as_tables set_tables mbind option_bind].
  rewrite list_lookup_insert_eq by done. rewrite Ht.
  destruct Hok as [Hlen _]. destruct (reported infos l) as [|a [|b [|c [|d [|e [|]]]]]]; try done.
  replace (total [a; b; c; d; e]) with (keys_ a + keys_ b + keys_ c + keys_ d + keys_ e) by (cbn; lia). reflexivity.
Qed.
End Dbsize.

(** ** The state of the connection to the master *)

Section Link.
Context {FS : Type} {E : SlashEnv FS} {C : FixedCoding} {SN : StringNum}.
Context {Cmd Conn Resp : Type} {CO : CmdOps Cmd} {Net : Type} (conf : PikaConf).
Implicit Types (w : @World FS Cmd Conn Resp Net).

Definition all_slaves_there w : Prop := Forall (λ p, is_Some (GetSyncSlavePartitionByName p (w_rm w))) (partitions_of (w_srv w)).

(** INFO calls the link up exactly when the state machine of the slave says that everything
    is connected, as long as no partition is missing from the replica manager. *)
Lemma link_up_spec w : all_slaves_there w → link_up conf w = MetaSyncDone (w_srv w) && AllPartitionConnectSuccess w.
Proof.
  unfold all_slaves_there, link_up, AllPartitionConnectSuccess. intros H. f_equal.
  induction H as [|p ps [sp Hp] _ IH]; [done|]. cbn [out_of_sync all_connected]. destruct (out_of_sync conf ps w) as [all text].
  unfold partition_connected. rewrite Hp. cbn. cbn in IH. rewrite <- IH. by destruct (bool_decide (State sp = kConnected)).
Qed.
End Link.

(** ** PADDING *)

(** A request with a longer argument than fits in a block of the log ends the process when it
    is logged. *)
Lemma padding_aborts `{FixedCoding} `{NumString} arg : 65467 < zlen arg → PaddingCmd_ToBinlog arg = None.
Proof.
  intros Ha. unfold PaddingCmd_ToBinlog, ConstructPaddingBinlog. change (kBlockSize - kHeaderSize) with 65528.
  destruct (Z.leb_spec (zlen arg + BINLOG_ITEM_HEADER_SIZE + PADDING_BINLOG_PROTOCOL_SIZE + SPACE_STROE_PARAMETER_LENGTH) 65528) as [Hle|]; [|done].
  unfold BINLOG_ITEM_HEADER_SIZE, PADDING_BINLOG_PROTOCOL_SIZE, SPACE_STROE_PARAMETER_LENGTH in Hle. lia.
Qed.

(** ** Replies *)

(** The result of a command that returns. *)
Ltac returned H := unfold ret in H; injection H as <- _.

Section Replies.
Context {N : NumString} {NL : NumStringLaws} {RS D : Type} {RO : RocksStatus RS} {ET : EngineTasks RS D} (auth : AuthConf).
Context (num_flat : ∀ n, flat (ll2string n)) (status_flat : ∀ s : RS, flat (rs_ToString s)).

(** A command that answers by itself, without a line end in a type that it quotes; the
    arguments of PING as its entry admits them. *)
Definition answers (io : AdminIo) (purge : CmdRes) (c : AdminCmd) : Prop :=
  match c with
  | ShutdownCmd | MonitorCmd => False
  | CompactCmd struct_type _ => flat struct_type
  | PingCmd argv => length argv = 1%nat
  | PurgelogstoCmd _ _ => good_reply purge
  | TimeCmd => match io_time io with inl e => flat e | inr _ => True end
  | _ => True
  end.

Lemma other_reply t : flatb (str t) = true → good_reply (SetRes kErrOther (str t) res_new).
Proof. apply internal_reply. Qed.
Lemma length_text_reply s : good_reply (AppendContent s (AppendStringLen (zlen s) res_new)).
Proof. apply text_reply. Qed.
Lemma pubsub_ping_reply argv : length argv = 1%nat → good_reply (SetRes CmdNone (ConstructPinginPubSubResp argv) res_new).
Proof.
  destruct argv as [|a [|]]; try done. intros _. unfold good_reply. change (is_reply (ConstructPinginPubSubResp [a])).
  pose proof (reply_array [bulk (str "pong"); bulk []]) as H. unfold zlen in H. cbn [length Z.of_nat concat] in H.
  unfold bulk in H. unfold zlen in H. cbn [length Z.of_nat str app] in H.
  rewrite !law_ll2string in H by (cbn; lia). apply H. repeat constructor.
  - pose proof (reply_bulk (str "pong")) as Hb. unfold zlen in Hb. by rewrite law_ll2string in Hb by (cbn; lia).
  - pose proof (reply_bulk []) as Hb. unfold zlen in Hb. by rewrite law_ll2string in Hb by (cbn; lia).
Qed.

Lemma on_table_reply name (k : Table D → M (AdminState D) CmdRes) st r st' :
  (∀ t r st', k t st = Some (r, st') → good_reply r) → on_table name k st = Some (r, st') → good_reply r.
Proof.
  intros Hk H. unfold on_table, bind, get in H. destruct (GetTable name (as_tables st)) as [[t|]|]; [by eapply Hk| |done].
  returned H. by apply code_reply.
Qed.
Lemma with_conn_reply name (k : ClientConn → M (AdminState D) CmdRes) st r st' : flatb (str name) = true →
  (∀ c r st', k c st = Some (r, st') → good_reply r) → with_conn name k st = Some (r, st') → good_reply r.
Proof.
  intros Hn Hk H. unfold with_conn, bind, get in H. destruct (as_conn st) as [c|]; [by eapply Hk|].
  returned H. by apply other_reply.
Qed.

(** Every administration command that answers by itself answers with one reply of the
    protocol. *)
Lemma admin_reply io info_text purge c st r st' : answers io purge c →
  AdminCmd_Do auth io info_text purge c st = Some (r, st') → good_reply r.
Proof.
  intros Ha H. destruct c; cbn [AdminCmd_Do answers] in *; try done.
  - unfold AuthCmd_Do in H. destruct (_ && _); [returned H; by apply other_reply|].
    destruct (bool_decide (pwd = str (userpass auth))), (bool_decide (pwd = str (requirepass auth)));
      match type of H with context[res_none ?r] => let b := eval vm_compute in (res_none r) in change (res_none r) with b in H end;
      cbn in H; try (destruct (as_conn st)); returned H;
      first [by apply message_reply; [done|apply flatb_flat]|by apply code_reply].
  - apply run_bind in H as (? & ? & _ & [= <- _]). by apply (content_reply x2b (str "Background saving started")); [|apply flatb_flat].
  - unfold CompactCmd_Do in H. destruct (find _ compact_words).
    + apply run_bind in H as (? & ? & _ & [= <- _]). by apply code_reply.
    + returned H. apply message_reply; [done|]. unfold SetRes. cbn. by case_bool_decide; [apply flatb_flat|].
  - by returned H.
  - eapply with_conn_reply; [| |exact H]; [done|]. intros k r' s' [= <- _]. destruct (is_pubsub_ k); [by apply pubsub_ping_reply|by apply code_reply].
  - eapply with_conn_reply; [| |exact H]; [done|]. intros k r' s' (? & ? & _ & [= <- _])%run_bind. by apply code_reply.
  - unfold ClientCmd_Do in H. destruct (same_word operation "list"); [returned H; apply text_reply|].
    destruct (_ && _); apply run_bind in H as (? & ? & _ & [= <- _]); [by apply code_reply|].
    destruct (io_kill io info); [by apply code_reply|by apply other_reply].
  - apply run_bind in H as (? & ? & _ & H). apply run_bind in H as (? & ? & _ & H).
    apply run_bind in H as (? & ? & _ & [= <- _]). apply length_text_reply.
  - eapply on_table_reply; [|exact H]. intros t r' s' H'. cbv beta in H'.
    destruct (ks_key_infos (tb_scan t)) as [|? [|? [|? [|? [|? [|]]]]]]; returned H'; first [by apply other_reply|apply int_reply, num_flat].
  - returned H. unfold TimeCmd_Do. destruct (io_time io) as [e|[sec usec]].
    + apply message_reply; [done|]. unfold SetRes. cbn. by case_bool_decide; [apply flatb_flat|].
    + apply (strings_reply_ok [ll2string sec; ll2string usec]).
  - unfold DelbackupCmd_Do in H. destruct (io_dumps io); [apply run_bind in H as (? & ? & _ & [= <- _])|returned H]; by apply code_reply.
  - returned H. apply text_reply.
  - eapply on_table_reply; [|exact H]. cbn. intros t r' s' H'. destruct (every_part _ t); [|done].
    apply run_bind in H' as (? & ? & _ & [= <- _]). by apply code_reply.
  - returned H. by apply code_reply.
  - unfold PKPatternMatchDelCmd_Do, bind, get in H. destruct (DbIdxFromStr (io_table io)); [|done].
    destruct (GetTable _ (as_tables st)) as [[t|]|]; [|done|done]. unfold first_part in H.
    destruct (tb_partitions t !! 0%nat) as [[i [p|]]|]; [|done|done]. cbn [mbind option_bind fst snd] in H. destruct (db_ (tp_part p)) as [db|]; [|done].
    cbn [mbind option_bind] in H. destruct (bw_PKPatternMatchDel type pattern db) as [[s m] db']. returned H.
    destruct (rs_ok s); [apply int_reply, num_flat|by apply err_reply].
  - apply run_bind in H as (st1 & ? & _ & H). destruct (as_conn st1); [|done].
    apply run_bind in H as (? & ? & _ & [= <- _]). by apply code_reply.
Qed.
End Replies.
