(* ===== verification/AdminWitness.v ===== *)
(** * Administration: small runs

    The slow log and timed compactions; a server that becomes a slave and is restarted, a
    flush during a save, passwords, key scans, and table names. *)

From S2P Require Import Prelude Define Env Binlog BinlogReader Transverter Command SlaveNode Consensus.
From S2P Require Import StableLog BinlogWitness Coordinator MasterPartition SlavePartition ReplicaManager.
From S2P Require Import Float64 GeoCoord InnerMessage Server PikaMeta ServerFacts ReplServer Replication.
From S2P Require Import FullSync FullSyncFacts ReplicationWitness CmdRes Blackwidow CmdArgs CmdReply.
From S2P Require Import ConfState Config CmdFamily KvCmd ZsetCmd FamilyFacts GeoCmd GeoFacts PikaCmd.
From S2P Require Import ClientConn ClientFacts CmdClient PikaFacts PikaWitness ConfigWitness ClientWitness.
From S2P Require Import ServerStat SlaveofCmd Table FlushCmd AdminCmd AdminFacts.
From stdpp Require Import base list strings pretty gmap.
From Stdlib Require Import ZArith Lia Init.Byte.
#[local] Open Scope string_scope.
#[local] Open Scope list_scope.
#[local] Open Scope Z_scope.

(** ** The slow log, timed compactions and old dumps *)

(** Three slow commands, two of which are kept. *)
Definition slow_ops : list SlowOp :=
  [OpPush 10 [str "get"; str "a"] 100 20000; OpPush 10 [str "keys"; str "*"] 101 30000].
Lemma slowlog_is_history_witness :
  (let l := slow_run (slow_ops ++ [OpPush 2 [str "info"] 102 15000]) in
   slowlog_list_ l `prefix_of` history (slow_ops ++ [OpPush 2 [str "info"] 102 15000]) ∧
   Forall entry_bounded (slowlog_list_ l) ∧
   (∀ m, room (OpPush 2 [str "info"] 102 15000) = Some m → zlen (slowlog_list_ l) ≤ m) ∧
   SlowlogObtain 1 l = Some (ztake 1 (slowlog_list_ l))).
Proof. apply (slowlog_is_history slow_ops (OpPush 2 [str "info"] 102 15000) 1). lia. Defined.

(** A slow log of a negative length is not bounded: [-1] is [2^32 - 1]. *)
Lemma negative_length_keeps l : zlen (slowlog_list_ l) < 2 ^ 32 → slowlog_list_ (SlowlogTrim (-1) l) = slowlog_list_ l.
Proof. intros H. cbn [SlowlogTrim slowlog_list_]. unfold ztake, zlen in *. apply take_ge. change (u32 (-1)) with 4294967295. lia. Qed.

(** On Mondays, from one to three o'clock. *)
Definition cron_free : Z := 80.
Lemma AutoCompactRange_spec_witness :
  ∃ have_week week start end_ usage run c',
    parse_cron (str "1/01-03/60") = Some (have_week, week, start, end_, usage) ∧
    AutoCompactRange (Some (cron_free, 100)) [] (str "1/01-03/60") 0 2 1 (mkCron 0 false) = Some (run, c') ∧
    (run = true ↔ have_scheduled_crontask_ (mkCron 0 false) = false ∧ enough_space cron_free 100 usage = true ∧ start ≠ end_ ∧
       due start end_ 2 ∧ (have_week = true → start < end_ ∧ week = 1)) ∧
    (run = true → have_scheduled_crontask_ c' = true) ∧
    (due start end_ 2 → start ≠ end_ → have_scheduled_crontask_ (mkCron 0 false) = true → have_scheduled_crontask_ c' = true) ∧
    (¬ due start end_ 2 → have_scheduled_crontask_ c' = false).
Proof.
  apply (AutoCompactRange_spec (str "1/01-03/60") cron_free 100 0 2 1 (mkCron 0 false));
    [discriminate|vm_compute; reflexivity|lia].
Defined.
Lemma compaction_starts :
  AutoCompactRange (Some (cron_free, 100)) [] (str "1/01-03/60") 0 2 1 (mkCron 0 false) = Some (true, mkCron 0 true).
Proof. vm_compute. reflexivity. Qed.
Lemma interval_overflows :
  compact_interval_ok (str "596524/60") = Some true ∧
  AutoCompactRange (Some (cron_free, 100)) (str "596524/60") [] 0 2 1 (mkCron 0 false) = None.
Proof. vm_compute. split; reflexivity. Qed.

(** *** Old dumps *)

(** The seconds of a day in the calendar, with [tm_year] and [tm_mon] as [mktime] takes
    them. *)
Definition civil_days (y m d : Z) : Z :=
  let y' := if m <=? 2 then y - 1 else y in
  365 * y' + y' / 4 - y' / 100 + y' / 400 + (153 * ((m + 9) mod 12) + 2) / 5 + d.
Definition tm_seconds (tm_year tm_mon tm_mday : Z) : Z :=
  86400 * civil_days (1900 + tm_year + tm_mon / 12) (tm_mon mod 12 + 1) tm_mday.
(** On the first of March 2023 a dump of the first of February is 28 days old; it is deleted
    when dumps expire after 30 days, because March and April are counted. *)
Lemma dump_expires_early :
  tm_seconds 123 2 1 - tm_seconds 123 1 1 = 28 * 86400 ∧
  AutoDeleteExpiredDump tm_seconds [] 30 (2023, 3, 1) (Some [str "20230201"; str "keep"]) 0 = Some [str "20230201"].
Proof. vm_compute. split; reflexivity. Qed.

(** * Administration commands: small runs

    A server that becomes a slave and is restarted, a flush during a save, passwords, key
    scans, and table names. *)

(** ** SLAVEOF *)

Definition db0_info : PartitionInfo := mkPartitionInfo "db0" 0.
(** A server with one database that is connected to 10.0.0.9. *)
Definition follower : NoWorld :=
  mkWorld (set_slaves {[ db0_info := SetReplState kConnected (SyncSlavePartition_new 5 "db0" 0) ]} (Rm_new tt))
    (SetMaster "10.0.0.9" 9221 (PikaServer_new "10.0.0.1" 9221 [db0_info])).2.
Lemma follower_wf : srv_wf (w_srv follower).
Proof.
  split; [split; vm_compute; congruence| |apply NoDup_nil_2|vm_compute; discriminate].
  split; [discriminate|intros Hn; by destruct Hn].
Qed.

Definition close_nothing (ip : string) (port : Z) (n : unit) : unit := n.
Definition new_master : SlaveofCmd := mkSlaveof "10.0.0.3" 9221 false.
Abbreviation followed := (SlaveofCmd_Do close_nothing 100 new_master cfg1 follower).
Lemma followed_some : match followed with Some _ => true | None => false end = true.
Proof. vm_compute. reflexivity. Qed.


Definition slaveof_args : list bytes := [str "slaveof"; str "10.0.0.3"; str "9221"].
(** A port of [2^32 + 9221] is 9221 for the server, but it cannot be started again. *)
Definition far_port : SlaveofCmd := mkSlaveof "10.0.0.3" 4294976517 false.
Lemma far_port_stops : match SlaveofCmd_Do close_nothing 100 far_port cfg1 follower with
  | Some ((_, conf'), w') => master_port_ (w_srv w') = 9221 ∧ start_slaveof (slaveof_ conf') (PikaServer_new "10.0.0.1" 9221 []) = None
  | None => False end.
Proof. vm_compute. split; reflexivity. Qed.

(** ** FLUSHDB *)

Definition flush_object : TinyObject := mkCmdObject [str "flushdb"] set_k "db0" 50.
Definition saving_part : Partition TinyDB := mkPartition (mkBgSave true "/dump/" LogOffset0) (Some db_set) (Some db_set) None None None.
Definition saving_site : KvSite := set_partitions {[ part0 := saving_part ]} (kv_site_on log0.1 PIKA_ROLE_MASTER).
Definition flush_proposed : option (Status * KvMaster) :=
  ConsensusProposeLog conf_async flush_object (Some 1%nat) (Some 2%nat) (kv_master_on log0.1).
Lemma flush_proposed_some : match flush_proposed with Some _ => true | None => false end = true.
Proof. vm_compute. reflexivity. Qed.
Definition flushes (p : PartitionInfo) : FlushIo := mkFlushIo true true.


(** ** Passwords *)

Definition user_only : AuthConf := mkAuthConf "secret" "" [].
Lemma auth_rights_witness : rights user_only [[]] = kAdminAuthed.
Proof. apply (auth_rights (D := TinyDB) user_only "db0" []); [discriminate|reflexivity]. Defined.
Lemma neighbour_shuts_down : ∃ c, ShutdownCmd_DoInitial (mkAdminEnv (D := TinyDB) [] 8 "db0" (str "10.0.0.1") (Some (str "10.0.0.15:5000"))) [str "shutdown"] = Some (inr c).
Proof. vm_compute. by eexists. Qed.

(** ** Tables *)

#[export] Instance tiny_tasks : EngineTasks bool TinyDB := {
  bw_Compact _ db := db; bw_GetCurrentTaskType _ := str "No"; bw_PKPatternMatchDel _ _ db := (true, 0, db) }.
Definition five (n : Z) : list KeyInfo := [mkKeyInfo n 0 0 0; KeyInfo0; KeyInfo0; KeyInfo0; KeyInfo0].
Definition one_table : Table TinyDB := mkTable "db0" 1 [(0, Some (mkTablePart kv_part true KeyScanInfo_new))] false KeyScanInfo_new.
(** A scan that finds three keys, one that is stopped, and one that would find five. *)
Definition scans : list (Scan (RS := bool)) := [((true, five 3), (10, 11)); ((false, []), (20, 21)); ((true, five 5), (30, 31))].
Lemma five_ok n : 0 ≤ n < 2 ^ 64 → infos_ok (five n).
Proof. intros H. split; [done|]. repeat constructor; cbn; lia. Qed.
Definition admin_state : AdminState TinyDB := mkAdminState None (Some one_table :: replicate 7 None) [].

Lemma dbsize_reported_witness : ∃ t', run_scans scans one_table = Some t' ∧
  fst <$> DbsizeCmd_Do "db0" (set_tables (<[0%nat := Some t']> (as_tables admin_state)) admin_state) = Some (integer 3).
Proof.
  change (integer 3) with (integer (s64 (u64 (AdminFacts.total (reported (five 0) scans))))).
  apply (dbsize_reported "db0" 0 one_table (five 0) scans admin_state).
  - reflexivity.
  - cbn. lia.
  - exists 0, (mkTablePart kv_part true KeyScanInfo_new). split_and!; try reflexivity. by apply five_ok.
  - repeat constructor; cbn; intros; first [by apply five_ok|discriminate].
Defined.

Definition admin_env : AdminEnv TinyDB := mkAdminEnv (as_tables admin_state) 8 "db0" (str "10.0.0.1") (Some (str "10.0.0.7:5000")).
