(* ===== verification/Monitor.v ===== *)
(** * MONITOR and the number of connections (src/pika_monitor_thread.cc, src/pika_dispatch_thread.cc)

    The thread that copies commands to the clients that asked for MONITOR: the other threads
    add clients, messages and tasks under its mutex; it takes the messages and sends them
    to all clients in three sections under the mutex, between which the others run.  And
    who may connect. *)

From S2P Require Import Prelude Define Env Transverter Command StableLog CmdRes Blackwidow CmdArgs CmdReply.
From S2P Require Import ClientConn AdminCmd.
From stdpp Require Import base list strings relations.
From Stdlib Require Import ZArith Lia Init.Byte.
#[local] Open Scope string_scope.
#[local] Open Scope list_scope.
#[local] Open Scope Z_scope.

(** ** The state of the thread *)

Inductive TaskKind := TASK_KILL | TASK_KILLALL.
(** [mon_closed]: the descriptors that were closed, in order. *)
Record Monitor := mkMonitor {
  monitor_clients_ : list ClientInfo; has_monitor_clients_ : bool; monitor_messages_ : list bytes;
  cron_tasks_ : list (TaskKind * bytes); mon_running : bool; mon_closed : list Z }.
Definition Monitor_new : Monitor := mkMonitor [] false [] [] false [].
Implicit Types (m : Monitor).
Definition set_messages (l : list bytes) m : Monitor :=
  mkMonitor (monitor_clients_ m) (has_monitor_clients_ m) l (cron_tasks_ m) (mon_running m) (mon_closed m).
Definition set_tasks (l : list (TaskKind * bytes)) m : Monitor :=
  mkMonitor (monitor_clients_ m) (has_monitor_clients_ m) (monitor_messages_ m) l (mon_running m) (mon_closed m).

Definition AddMonitorClient (fd : Z) (ip_port : bytes) m : Monitor :=
  mkMonitor (monitor_clients_ m ++ [mkClientInfo fd ip_port 0]) true (monitor_messages_ m) (cron_tasks_ m) true (mon_closed m).
Definition all_word : bytes := str "all".
(** The list without its first client of that address, and the descriptors closed. *)
Fixpoint remove_first (ip_port : bytes) (l : list ClientInfo) : list ClientInfo * list Z :=
  match l with
  | [] => ([], [])
  | c :: l => if bool_decide (ci_ip_port c = ip_port) then (l, [ci_fd c])
              else let '(l, closed) := remove_first ip_port l in (c :: l, closed)
  end.
Definition RemoveMonitorClient (ip_port : bytes) m : Monitor :=
  let '(l, closed) := if bool_decide (ip_port = all_word) then ([], ci_fd <$> monitor_clients_ m)
                      else remove_first ip_port (monitor_clients_ m) in
  mkMonitor l (negb (bool_decide (l = []))) (monitor_messages_ m) (cron_tasks_ m) (mon_running m) (mon_closed m ++ closed).
Definition AddMonitorMessage (message : bytes) m : Monitor := set_messages (monitor_messages_ m ++ [message]) m.
Definition AddCronTask (task : TaskKind * bytes) m : Monitor := set_tasks (cron_tasks_ m ++ [task]) m.
Definition FindClient (ip_port : bytes) m : bool := existsb (λ c, bool_decide (ci_ip_port c = ip_port)) (monitor_clients_ m).
(** Without a running thread everything is said to be killed. *)
Definition ThreadClientKill (ip_port : bytes) m : bool * Monitor :=
  if negb (mon_running m) then (true, m)
  else if bool_decide (ip_port = all_word) then (true, AddCronTask (TASK_KILLALL, all_word) m)
  else if FindClient ip_port m then (true, AddCronTask (TASK_KILL, ip_port) m)
  else (false, m).
(** [PikaServer::ClientKill]: [dispatched]: the dispatch thread has a connection of that
    address. *)
Definition ClientKill (dispatched : bool) (ip_port : bytes) m : bool * Monitor :=
  if dispatched then (true, m) else ThreadClientKill ip_port m.

Definition ClientKillAll m : Monitor := (ThreadClientKill all_word m).2.
Definition ThreadClientList m : list ClientInfo := monitor_clients_ m.
Definition HasMonitorClients m : bool := has_monitor_clients_ m.
Definition ClientList (dispatched : list ClientInfo) m : list ClientInfo := dispatched ++ ThreadClientList m.

(** [ProcessMonitor]: the line of a command, with the clock as text and the library's
    readable form of an argument; the table's name without its first two characters. *)
Definition ProcessMonitor (to_read : bytes → bytes) (seconds table ip_port : bytes) (argv : list bytes) m : option Monitor :=
  if (length table <? 2)%nat then None else
  Some (AddMonitorMessage (seconds ++ str " [" ++ drop 2 table ++ str " " ++ ip_port ++ str "]"
    ++ concat ((λ a, str " " ++ to_read a) <$> argv)) m).

(** ** Sending *)

(** What [write] answers; [None] of [SendMessage]: there are no answers left, the thread
    still waits. *)
Inductive WriteAnswer := Wrote (n : nat) | Again | WriteFails.
Inductive WriteStatus := kWriteAll | kWriteError.
Fixpoint SendMessage (retry : nat) (answers : list WriteAnswer) (left : bytes) : option (WriteStatus * bytes) :=
  match left with
  | [] => Some (kWriteAll, [])
  | _ =>
      match answers with
      | [] => None
      | WriteFails :: _ => Some (kWriteError, [])
      | Again :: answers => if (10 <=? S retry)%nat then Some (kWriteError, []) else SendMessage (S retry) answers left
      | Wrote n :: answers =>
          '(st, sent) ← SendMessage 0 answers (drop n left); Some (st, take n left ++ sent)
      end
  end.

(** The messages as one text: all but the last end in a line feed. *)
Definition transfer (messages : list bytes) : bytes :=
  let text := str "+" ++ concat ((λ t, t ++ [x0a]) <$> messages) in take (length text - 1) text ++ kNewLine.

(** The last section: what every client gets; a client that cannot be written to is killed in
    the next turn. *)
Fixpoint send_all (answers : ClientInfo → list WriteAnswer) (text : bytes) (clients : list ClientInfo) m :
    option (list (Z * bytes) * Monitor) :=
  match clients with
  | [] => Some ([], m)
  | c :: clients =>
      '(st, sent) ← SendMessage 0 (answers c) text;
      let m := match st with kWriteError => AddCronTask (TASK_KILL, ci_ip_port c) m | kWriteAll => m end in
      '(out, m) ← send_all answers text clients m; Some ((ci_fd c, sent) :: out, m)
  end.

(** The tasks; what is queued after the one that kills all is dropped. *)
Fixpoint run_tasks (tasks : list (TaskKind * bytes)) m : Monitor :=
  match tasks with
  | [] => set_tasks [] m
  | (TASK_KILLALL, ip_port) :: _ => set_tasks [] (RemoveMonitorClient ip_port m)
  | (TASK_KILL, ip_port) :: tasks => run_tasks tasks (RemoveMonitorClient ip_port m)
  end.

(** ** The thread among the others *)

(** Where the thread is: before the tasks, before it takes the messages, and before it sends
    what it took. *)
Inductive MonitorPhase := ToTasks | ToTake | ToSend (messages : list bytes).
(** The state with, for the statement only, the messages that were added, those that the
    thread is done with, and what was sent of which messages, each in order. *)
Record MonitorRun := mkRun {
  mr_monitor : Monitor; mr_phase : MonitorPhase; mr_added : list bytes; mr_done : list bytes;
  mr_sent : list (list bytes * list (Z * bytes)) }.
Definition MonitorRun0 : MonitorRun := mkRun Monitor_new ToTasks [] [] [].

Inductive monitor_step (r : MonitorRun) : MonitorRun → Prop :=
  | step_client fd ip_port : monitor_step r
      (mkRun (AddMonitorClient fd ip_port (mr_monitor r)) (mr_phase r) (mr_added r) (mr_done r) (mr_sent r))
  | step_message t : monitor_step r
      (mkRun (AddMonitorMessage t (mr_monitor r)) (mr_phase r) (mr_added r ++ [t]) (mr_done r) (mr_sent r))
  | step_kill ip_port : monitor_step r
      (mkRun (ThreadClientKill ip_port (mr_monitor r)).2 (mr_phase r) (mr_added r) (mr_done r) (mr_sent r))
  | step_tasks : mr_phase r = ToTasks → mon_running (mr_monitor r) = true →
      monitor_messages_ (mr_monitor r) ≠ [] ∨ cron_tasks_ (mr_monitor r) ≠ [] →
      monitor_step r (mkRun (run_tasks (cron_tasks_ (mr_monitor r)) (mr_monitor r)) ToTake (mr_added r) (mr_done r) (mr_sent r))
  | step_drop : mr_phase r = ToTake → monitor_clients_ (mr_monitor r) = [] ∨ monitor_messages_ (mr_monitor r) = [] →
      monitor_step r (mkRun (set_messages [] (mr_monitor r)) ToTasks (mr_added r) (mr_done r ++ monitor_messages_ (mr_monitor r)) (mr_sent r))
  | step_take : mr_phase r = ToTake → monitor_clients_ (mr_monitor r) ≠ [] → monitor_messages_ (mr_monitor r) ≠ [] →
      monitor_step r (mkRun (set_messages [] (mr_monitor r)) (ToSend (monitor_messages_ (mr_monitor r))) (mr_added r) (mr_done r) (mr_sent r))
  | step_send messages answers out m' : mr_phase r = ToSend messages →
      send_all answers (transfer messages) (monitor_clients_ (mr_monitor r)) (mr_monitor r) = Some (out, m') →
      monitor_step r (mkRun m' ToTasks (mr_added r) (mr_done r ++ messages) (mr_sent r ++ [(messages, out)])).

(** ** Connections *)

(** [AccessHandle] with [client_num] connections: whether the connection is accepted, and the
    address as it is rewritten. *)
Definition AccessHandle (maxclients root_connection_num client_num : Z) (host ip : string) : bool * string :=
  let ip := if bool_decide (ip = "127.0.0.1") then host else ip in
  (negb ((client_num >=? s32 (maxclients + root_connection_num)) || ((client_num >=? maxclients) && negb (bool_decide (ip = host)))), ip).

(** ** What is guaranteed *)

Lemma SendMessage_prefix retry answers text st sent : SendMessage retry answers text = Some (st, sent) →
  sent `prefix_of` text ∧ (st = kWriteAll → sent = text).
Proof.
  revert retry text st sent. induction answers as [|[n| |] answers IH]; intros retry [|b text] st sent H; cbn [SendMessage] in H;
    try (injection H as <- <-; split; [apply prefix_nil|done]); try done.
  - destruct (SendMessage 0 answers (drop n (b :: text))) as [[st' sent']|] eqn:E; [|done]. injection H as <- <-.
    destruct (IH _ _ _ _ E) as [[k Hk] Hall]. split.
    + exists k. by rewrite <- app_assoc, <- Hk, take_drop.
    + intros ->. by rewrite (Hall eq_refl), take_drop.
  - case_match; [injection H as <- <-; split; [apply prefix_nil|done]|by eapply IH].
Qed.

Lemma send_all_spec answers text clients m out m' : send_all answers text clients m = Some (out, m') →
  out.*1 = ci_fd <$> clients ∧ Forall (λ o, o.2 `prefix_of` text) out ∧
  ∃ l, m' = set_tasks l m ∧ (length (cron_tasks_ m) + length (filter (λ o, o.2 ≠ text) out) ≤ length l)%nat.
Proof.
  revert m out m'. induction clients as [|c clients IH]; intros m out m' H; cbn [send_all] in H.
  - injection H as <- <-. split; [done|]. split; [constructor|]. exists (cron_tasks_ m). split; [by destruct m|cbn; lia].
  - destruct (SendMessage 0 (answers c) text) as [[st sent]|] eqn:E; [|done]. cbn [mbind option_bind] in H.
    destruct (SendMessage_prefix _ _ _ _ _ E) as [Hp Hall].
    destruct (send_all answers text clients _) as [[out1 m1]|] eqn:E1; [|done]. injection H as <- <-.
    destruct (IH _ _ _ E1) as (H1 & H2 & l & -> & Hl). split; [cbn; by rewrite H1|]. split; [by constructor|].
    exists l. rewrite filter_cons. cbn [snd].
    assert (length (cron_tasks_ m) + (if decide (sent ≠ text) then 1 else 0) ≤
            length (cron_tasks_ (match st with kWriteAll => m | kWriteError => AddCronTask (TASK_KILL, ci_ip_port c) m end)))%nat as Hst.
    { destruct st; [rewrite decide_False by (rewrite (Hall eq_refl); tauto); lia|]. cbn. rewrite length_app. cbn. by case_decide; lia. }
    split; [by destruct st|]. destruct (decide (sent ≠ text)); cbn [length]; lia.
Qed.

(** The messages between the swap and the sending. *)
Definition in_flight (x : MonitorPhase) : list bytes := match x with ToSend l => l | _ => [] end.

Lemma remove_first_flag ip_port m : has_monitor_clients_ (RemoveMonitorClient ip_port m) =
  negb (bool_decide (monitor_clients_ (RemoveMonitorClient ip_port m) = [])) ∧
  monitor_messages_ (RemoveMonitorClient ip_port m) = monitor_messages_ m.
Proof. unfold RemoveMonitorClient. by destruct (if bool_decide _ then _ else _). Qed.
Lemma run_tasks_kept tasks m : has_monitor_clients_ m = negb (bool_decide (monitor_clients_ m = [])) →
  has_monitor_clients_ (run_tasks tasks m) = negb (bool_decide (monitor_clients_ (run_tasks tasks m) = [])) ∧
  monitor_messages_ (run_tasks tasks m) = monitor_messages_ m.
Proof.
  revert m. induction tasks as [|[[] ip_port] tasks IH]; intros m H; [done| |]; cbn [run_tasks];
    destruct (remove_first_flag ip_port m) as [H1 H2].
  - destruct (IH _ H1) as [-> ->]. by rewrite H2.
  - by cbn.
Qed.

Record run_wf (r : MonitorRun) : Prop := {
  run_flag : has_monitor_clients_ (mr_monitor r) = negb (bool_decide (monitor_clients_ (mr_monitor r) = []));
  run_messages : mr_added r = mr_done r ++ in_flight (mr_phase r) ++ monitor_messages_ (mr_monitor r);
  run_sent : concat (mr_sent r).*1 `sublist_of` mr_done r;
  run_prefixes : Forall (λ b, Forall (λ o : Z * bytes, o.2 `prefix_of` transfer b.1) b.2) (mr_sent r) }.

Lemma kill_kept ip_port m : ∃ l, (ThreadClientKill ip_port m).2 = set_tasks l m.
Proof.
  unfold ThreadClientKill. repeat case_match; first [by eexists|exists (cron_tasks_ m); by destruct m].
Qed.

Lemma monitor_step_wf r r' : run_wf r → monitor_step r r' → run_wf r'.
Proof.
  intros [Hf Hm Hs Hp] [fd ip|t|ip|H1 H2 H3|H1 H2|H1 H2 H3|messages answers out m' H1 H2]; (split; cbn [mr_monitor mr_phase mr_added mr_done mr_sent]).
  - cbn. by destruct (monitor_clients_ (mr_monitor r)).
  - done.
  - done.
  - done.
  - done.
  - cbn. by rewrite Hm, !app_assoc.
  - done.
  - done.
  - destruct (kill_kept ip (mr_monitor r)) as [l ->]. done.
  - destruct (kill_kept ip (mr_monitor r)) as [l ->]. done.
  - done.
  - done.
  - by apply run_tasks_kept.
  - rewrite H1 in Hm. by rewrite (proj2 (run_tasks_kept _ _ Hf)).
  - done.
  - done.
  - done.
  - rewrite H1 in Hm. cbn in *. by rewrite app_nil_r.
  - by apply sublist_inserts_r.
  - done.
  - done.
  - rewrite H1 in Hm. cbn in *. by rewrite app_nil_r.
  - done.
  - done.
  - destruct (send_all_spec _ _ _ _ _ _ H2) as (_ & _ & l & -> & _); done.
  - rewrite H1 in Hm. destruct (send_all_spec _ _ _ _ _ _ H2) as (_ & _ & l & -> & _); cbn in *; by rewrite Hm, app_assoc.
  - rewrite fmap_app, concat_app. cbn. rewrite app_nil_r. by apply sublist_app.
  - destruct (send_all_spec _ _ _ _ _ _ H2) as (_ & Hpre & _). apply Forall_app. split; [done|]. by constructor.
Qed.

(** C36. Whatever the other threads do between the sections of the monitor thread, no message
    is lost or overtaken on its way to it: the messages that were added are those that the
    thread is done with, has taken, and has in its queue, in this order; those that it sent
    are a part of the first, in order; a client gets a beginning of each text; and the flag
    that the other threads look at says whether there is a client. *)
Theorem monitor_stream r : rtc monitor_step MonitorRun0 r →
  mr_added r = mr_done r ++ in_flight (mr_phase r) ++ monitor_messages_ (mr_monitor r) ∧
  concat (mr_sent r).*1 `sublist_of` mr_done r ∧
  Forall (λ b, Forall (λ o : Z * bytes, o.2 `prefix_of` transfer b.1) b.2) (mr_sent r) ∧
  (has_monitor_clients_ (mr_monitor r) = true ↔ monitor_clients_ (mr_monitor r) ≠ []).
Proof.
  intros H. assert (run_wf r) as [Hf Hm Hs Hp].
  { cut (∀ a, rtc monitor_step a r → run_wf a → run_wf r).
    - intros Hc. apply (Hc _ H). split; [done|done|apply sublist_nil_l|constructor].
    - intros a Ha. induction Ha as [|x y z Hxy _ IH]; [done|]. intros W. by apply IH, (monitor_step_wf x). }
  split; [done|]. split; [done|]. split; [done|]. rewrite Hf. by case_bool_decide.
Qed.

(** A client, a command, and the thread that sends it in two pieces. *)
Definition monitor_line : bytes := str "a command".
Definition monitor_answers (c : ClientInfo) : list WriteAnswer := [Wrote 4; Again; Wrote 8].
Definition monitor_final : MonitorRun :=
  mkRun (mkMonitor [mkClientInfo 7 (str "client") 0] true [] [] true []) ToTasks [monitor_line] [monitor_line]
    [([monitor_line], [(7, transfer [monitor_line])])].
Lemma monitor_reached : rtc monitor_step MonitorRun0 monitor_final.
Proof.
  eapply rtc_l; [apply (step_client _ 7 (str "client"))|]. eapply rtc_l; [apply (step_message _ monitor_line)|].
  eapply rtc_l; [apply step_tasks; [done|done|by left]|]. eapply rtc_l; [apply step_take; done|].
  eapply rtc_l; [by eapply (step_send _ _ monitor_answers)|]. apply rtc_refl.
Qed.
Lemma monitor_stream_witness : mr_added monitor_final = mr_done monitor_final ++ [] ∧
  concat (mr_sent monitor_final).*1 `sublist_of` mr_done monitor_final ∧
  Forall (λ b, Forall (λ o : Z * bytes, o.2 `prefix_of` transfer b.1) b.2) (mr_sent monitor_final) ∧
  (true = true ↔ monitor_clients_ (mr_monitor monitor_final) ≠ []).
Proof. exact (monitor_stream monitor_final monitor_reached). Defined.

(** As long as nobody asked for MONITOR, CLIENT KILL of any address succeeds. *)
Lemma unknown_client_killed ip_port : (ClientKill false ip_port Monitor_new).1 = true.
Proof. reflexivity. Qed.
(** Two commands are one line for the protocol. *)
Lemma two_messages_one_reply : transfer [str "a"; str "b"] = str "+a" ++ [x0a] ++ str "b" ++ kNewLine.
Proof. reflexivity. Qed.

(** The limits of connections: those that are kept for the server's own host are in the sum. *)
Lemma AccessHandle_bounds maxclients root_connection_num client_num host ip : - 2 ^ 31 ≤ maxclients + root_connection_num < 2 ^ 31 →
  (AccessHandle maxclients root_connection_num client_num host ip).1 = true →
  client_num < maxclients + root_connection_num ∧
  ((AccessHandle maxclients root_connection_num client_num host ip).2 ≠ host → client_num < maxclients).
Proof.
  intros Hr. unfold AccessHandle. cbn [fst snd]. rewrite s32_small by done. set (ip' := if bool_decide _ then _ else _).
  rewrite !Z.geb_leb. destruct (Z.leb_spec (maxclients + root_connection_num) client_num); [done|]. cbn [orb].
  destruct (Z.leb_spec maxclients client_num), (bool_decide_reflect (ip' = host)); cbn; intuition (done || lia).
Qed.
