(* ===== verification/PubSubCmd.v ===== *)
(** * Publish and subscribe (src/pika_pubsub.cc)

    The commands around the thread of a separate library that keeps the subscriptions: the
    mode of the connection, the calls of the library, and the replies. *)

From S2P Require Import Prelude Define Env Transverter Command StableLog CmdRes Blackwidow CmdArgs CmdReply.
From S2P Require Import ClientConn ClientFacts AdminCmd.
From stdpp Require Import base list strings.
From Stdlib Require Import ZArith Lia Init.Byte.
#[local] Open Scope string_scope.
#[local] Open Scope list_scope.
#[local] Open Scope Z_scope.

(** The library's thread, for one connection: the channels with the numbers of
    subscriptions after each. *)
Class PubSubThread (T : Type) := {
  ps_Publish (channel msg : bytes) : T → Z * T;
  ps_Subscribe (channels : list bytes) (pattern : bool) : T → list (bytes * Z) * T;
  ps_UnSubscribe (channels : list bytes) (pattern : bool) : T → (Z * list (bytes * Z)) * T;
  ps_PubSubChannels (pattern : bytes) : T → list bytes;
  ps_PubSubNumSub (channels : list bytes) : T → list (bytes * Z);
  ps_PubSubNumPat : T → Z }.

(** The commands: [pattern] tells PSUBSCRIBE and PUNSUBSCRIBE from the others. *)
Inductive PubSub :=
  | PublishCmd (channel msg : bytes) | SubscribeCmd (pattern : bool) (channels : list bytes)
  | UnSubscribeCmd (pattern : bool) (channels : list bytes) | PubSubCmd (subcommand : bytes) (arguments : list bytes).

Definition PublishCmd_DoInitial (argv : list bytes) : Init PubSub :=
  channel ← argv !! 1%nat; msg ← argv !! 2%nat; good (PublishCmd channel msg).
Definition unknown_subcommand (subcommand : bytes) : CmdRes :=
  SetRes kErrOther (str "Unknown PUBSUB subcommand or wrong number of arguments for '" ++ subcommand ++ str "'") res_new.
Definition PubSubCmd_DoInitial (argv : list bytes) : Init PubSub :=
  subcommand ← argv !! 1%nat;
  if same_word subcommand "channels" || same_word subcommand "numsub" || same_word subcommand "numpat"
  then good (PubSubCmd subcommand (drop 2 argv)) else Some (inl (unknown_subcommand subcommand)).
Definition kCmdFlagsPubSub : Z := 18.
Definition pubsub_table : list (Entry PubSub) := [
  entry "publish" 3 kCmdFlagsPubSub PublishCmd_DoInitial;
  entry "subscribe" (-2) kCmdFlagsPubSub (λ argv, good (SubscribeCmd false (drop 1 argv)));
  entry "unsubscribe" (-1) kCmdFlagsPubSub (λ argv, good (UnSubscribeCmd false (drop 1 argv)));
  entry "psubscribe" (-2) kCmdFlagsPubSub (λ argv, good (SubscribeCmd true (drop 1 argv)));
  entry "punsubscribe" (-1) kCmdFlagsPubSub (λ argv, good (UnSubscribeCmd true (drop 1 argv)));
  entry "pubsub" (-2) kCmdFlagsPubSub PubSubCmd_DoInitial ].

(** The answers to subscriptions: one for each channel, or one without a channel. *)
Definition pubsub_part (cmd : bytes) (channel : option bytes) (n : Z) : bytes :=
  str "*3" ++ kNewLine ++ str "$" ++ to_string (zlen cmd) ++ kNewLine ++ cmd ++ kNewLine ++
  match channel with
  | None => str "$" ++ to_string (-1) ++ kNewLine
  | Some c => str "$" ++ to_string (zlen c) ++ kNewLine ++ c ++ kNewLine
  end ++ str ":" ++ to_string n ++ kNewLine.
Definition ConstructPubSubResp (cmd : bytes) (result : list (bytes * Z)) : bytes :=
  match result with
  | [] => pubsub_part cmd None 0
  | _ => concat ((λ cn, pubsub_part cmd (Some cn.1) cn.2) <$> result)
  end.

(** *** Execution *)

(** The connection with its place: it is moved out of the thread that serves it and back
    again, and [sc_callback] is what happens after the next reply is written. *)
Inductive WriteCallback := EnablePublish | MoveConnIn.
Record SubConn := mkSubConn {
  sc_conn : ClientConn; sc_moved_out : bool; sc_synchronous : bool; sc_writable : bool; sc_callback : option WriteCallback }.
Definition set_pubsub (b : bool) (k : ClientConn) : ClientConn := mkConn (auth_stat_ k) (current_table_ k) b.

Section PubSub.
Context {T : Type} {PT : PubSubThread T} {N : NumString}.
Abbreviation PM := (M (option SubConn * T)).

Definition to_pubsub (k : SubConn) : SubConn :=
  if is_pubsub_ (sc_conn k) then k
  else mkSubConn (set_pubsub true (sc_conn k)) true true (sc_writable k) (Some EnablePublish).
Definition from_pubsub (subscribed : Z) (k : SubConn) : SubConn :=
  if (subscribed =? 0) && is_pubsub_ (sc_conn k)
  then mkSubConn (set_pubsub false (sc_conn k)) (sc_moved_out k) (sc_synchronous k) (sc_writable k) (Some MoveConnIn)
  else k.
(** The callback after a reply was written: whether the library is told that it may
    publish. *)
Definition write_complete (k : SubConn) : bool * SubConn :=
  match sc_callback k, is_pubsub_ (sc_conn k) with
  | Some EnablePublish, true => (true, mkSubConn (sc_conn k) (sc_moved_out k) (sc_synchronous k) true (sc_callback k))
  | Some MoveConnIn, false => (false, mkSubConn (sc_conn k) false false false (sc_callback k))
  | _, _ => (false, k)
  end.

Definition pubsub_name (name : string) (pattern : bool) : string := if pattern then String.append "p" name else name.
Definition PubSub_Do (c : PubSub) : PM CmdRes := λ '(k, t),
  match c with
  | PublishCmd channel msg => let '(receivers, t) := ps_Publish channel msg t in Some (integer receivers, (k, t))
  | SubscribeCmd pattern channels =>
      let name := pubsub_name "subscribe" pattern in
      match k with
      | None => Some (SetRes kErrOther (str name) res_new, (k, t))
      | Some conn =>
          let '(result, t) := ps_Subscribe channels pattern t in
          Some (SetRes CmdNone (ConstructPubSubResp (str name) result) res_new, (Some (to_pubsub conn), t))
      end
  | UnSubscribeCmd pattern channels =>
      let name := pubsub_name "unsubscribe" pattern in
      match k with
      | None => Some (SetRes kErrOther (str name) res_new, (k, t))
      | Some conn =>
          let '((subscribed, result), t) := ps_UnSubscribe channels pattern t in
          Some (SetRes CmdNone (ConstructPubSubResp (str name) result) res_new, (Some (from_pubsub subscribed conn), t))
      end
  | PubSubCmd subcommand arguments =>
      let done r := Some (r, (k, t)) in
      if same_word subcommand "channels" then
        match arguments with
        | [] => done (strings_reply (ps_PubSubChannels [] t) res_new)
        | [pattern] => done (strings_reply (ps_PubSubChannels pattern t) res_new)
        | _ => done (unknown_subcommand subcommand)
        end
      else if same_word subcommand "numsub" then
        let result := ps_PubSubNumSub arguments t in
        done (foldl (λ r cn, AppendInteger cn.2 (AppendString cn.1 r)) (AppendArrayLen (zlen result * 2) res_new) result)
      else if same_word subcommand "numpat" then done (integer (ps_PubSubNumPat t))
      else done res_new
  end.

(** ** What is guaranteed *)

(** The connection is outside of its thread exactly as long as it is in the mode, once the
    reply to its last command was written. *)
Definition settled (k : SubConn) : Prop :=
  (sc_moved_out k = is_pubsub_ (sc_conn k)) ∧ (is_pubsub_ (sc_conn k) = true → sc_writable k = true) ∧
  sc_callback k ≠ Some (if is_pubsub_ (sc_conn k) then MoveConnIn else EnablePublish).
Definition command_served (c : PubSub) (s : SubConn * T) (s' : SubConn * T) : Prop :=
  ∃ r k t, PubSub_Do c (Some s.1, s.2) = Some (r, (Some k, t)) ∧ s' = ((write_complete k).2, t).

Lemma served_settled c s s' : settled s.1 → command_served c s s' → settled s'.1.
Proof.
  intros W (r & k & t & H & ->). destruct s as [[[a b p] o y w cb] t0]. cbn [fst] in *. unfold settled in *. cbn in W.
  destruct c as [channel msg|pattern channels|pattern channels|sub args]; cbn in H.
  - destruct (ps_Publish channel msg t0). injection H as <- <- <-. cbn. destruct W as (-> & Hw & Hc). destruct cb as [[]|], p; cbn; intuition congruence.
  - destruct (ps_Subscribe channels pattern t0). injection H as <- <- <-. destruct W as (-> & Hw & Hc). unfold to_pubsub. cbn.
    destruct p; destruct cb as [[]|]; cbn; intuition congruence.
  - destruct (ps_UnSubscribe channels pattern t0) as [[n l] t1]. injection H as <- <- <-. destruct W as (-> & Hw & Hc).
    unfold from_pubsub. cbn. destruct p, (n =? 0), cb as [[]|]; cbn; intuition congruence.
  - assert (k = mkSubConn (mkConn a b p) o y w cb) as ->.
    { repeat case_match; try done; by injection H. }
    destruct W as (-> & Hw & Hc). cbn. destruct cb as [[]|], p; cbn; intuition congruence.
Qed.
End PubSub.

(** Every answer to a subscription is a reply of its own: as many as there are channels, and
    one if there are none. *)
Section Replies.
Context {N : NumString} {NL : NumStringLaws}.
Definition in_range (n : Z) : Prop := - 2 ^ 63 ≤ n < 2 ^ 63.

Lemma bulk_text s : in_range (zlen s) → is_reply (str "$" ++ to_string (zlen s) ++ kNewLine ++ s ++ kNewLine).
Proof. intros H. pose proof (reply_bulk s) as Hb. rewrite law_ll2string in Hb by exact H. exact Hb. Qed.
Lemma integer_text n : in_range n → is_reply (str ":" ++ to_string n ++ kNewLine).
Proof.
  intros H. pose proof (integer_reply n H) as Hi. unfold AppendInteger in Hi. cbn in Hi.
  rewrite law_ll2string in Hi by exact H. exact Hi.
Qed.

Lemma three_parts a b c : is_reply a → is_reply b → is_reply c → is_reply (str "*3" ++ kNewLine ++ a ++ b ++ c).
Proof.
  intros Ha Hb Hc. pose proof (reply_array [a; b; c]) as H. change (zlen [a; b; c]) with 3 in H.
  rewrite law_ll2string in H by lia. cbn [concat] in H. rewrite app_nil_r in H. apply H. by repeat constructor.
Qed.
Lemma null_text : is_reply (str "$" ++ to_string (-1) ++ kNewLine).
Proof. pose proof reply_nil as H. exact H. Qed.

Lemma pubsub_part_reply cmd channel n : in_range (zlen cmd) → (∀ c, channel = Some c → in_range (zlen c)) → in_range n →
  is_reply (pubsub_part cmd channel n).
Proof.
  intros Hc Hch Hn. destruct channel as [c|]; unfold pubsub_part.
  - pose proof (three_parts _ _ _ (bulk_text cmd Hc) (bulk_text c (Hch c eq_refl)) (integer_text n Hn)) as H.
    rewrite <- ?app_assoc in *. exact H.
  - pose proof (three_parts _ _ _ (bulk_text cmd Hc) null_text (integer_text n Hn)) as H. rewrite <- ?app_assoc in *. exact H.
Qed.

Lemma pubsub_channel_reply cmd cn : in_range (zlen cmd) → in_range (zlen cn.1) ∧ in_range cn.2 →
  is_reply (pubsub_part cmd (Some cn.1) cn.2).
Proof.
  intros Hc [H1 H2]. apply pubsub_part_reply; [exact Hc| |exact H2]. intros c Heq. injection Heq as <-. exact H1.
Qed.

Lemma subscription_replies cmd result : in_range (zlen cmd) → Forall (λ cn, in_range (zlen cn.1) ∧ in_range cn.2) result →
  ∃ l, Forall is_reply l ∧ ConstructPubSubResp cmd result = concat l ∧ length l = Nat.max 1 (length result).
Proof.
  intros Hc H. destruct result as [|cn result].
  - exists [pubsub_part cmd None 0]. split; [|by cbn; rewrite app_nil_r].
    constructor; [|constructor]. apply pubsub_part_reply; [exact Hc|by intros ? [=]|split; lia].
  - exists ((λ cn, pubsub_part cmd (Some cn.1) cn.2) <$> (cn :: result)).
    split; [|split; [reflexivity|rewrite length_fmap; cbn [length]; lia]].
    apply Forall_fmap. eapply Forall_impl; [exact H|]. intros x Hx. exact (pubsub_channel_reply cmd x Hc Hx).
Qed.
End Replies.

(** The error in this mode names QUIT, which is refused as well. *)
Lemma quit_refused : str "quit" ∉ pubsub_commands.
Proof. apply (bool_decide_unpack _). vm_compute. exact I. Qed.
